(** * SPI flash driver of the TE0890 RISC-V system (rvlib_spiflash.c)

    A shallow embedding of the polling driver for the memory-mapped SPI
    controller, and the properties of its command protocol; and of the
    part of the boot monitor (bootmon.c) that uses the driver: its flash
    commands and the text helpers they rely on.

    The driver talks to the outside world through three primitives only:
    [rvlib_hw_read_reg], [rvlib_hw_write_reg] and [get_cycle_counter].  Every
    call of one of them is recorded in a chronological trace, and the value
    a read returns is given by the platform as a function of the trace so
    far, which covers every deterministic or scripted behaviour of the
    controller, the flash device and the cycle counter. *)

From Stdlib Require Import String Ascii ZArith List Bool Lia.
From stdpp Require Import base list.
Import ListNotations.
Local Open Scope Z_scope.

(** ** Bus events and traces *)

Inductive event : Type :=
| RegRead (addr value : Z)      (* rvlib_hw_read_reg(addr) returned value *)
| RegWrite (addr value : Z)     (* rvlib_hw_write_reg(addr, value) *)
| CycleRead (value : Z).        (* get_cycle_counter() returned value *)

Definition trace : Type := list event.

(** Values written to, and read from, one register address, in order. *)
Fixpoint reg_writes (a : Z) (tr : trace) : list Z :=
  match tr with
  | [] => []
  | RegWrite a' v :: tr' =>
      if a' =? a then v :: reg_writes a tr' else reg_writes a tr'
  | _ :: tr' => reg_writes a tr'
  end.

Fixpoint reg_reads (a : Z) (tr : trace) : list Z :=
  match tr with
  | [] => []
  | RegRead a' v :: tr' =>
      if a' =? a then v :: reg_reads a tr' else reg_reads a tr'
  | _ :: tr' => reg_reads a tr'
  end.

Fixpoint cycle_reads (tr : trace) : list Z :=
  match tr with
  | [] => []
  | CycleRead v :: tr' => v :: cycle_reads tr'
  | _ :: tr' => cycle_reads tr'
  end.

(** Number of occurrences of a value in a list of register values. *)
Definition occurrences (v : Z) (l : list Z) : nat :=
  length (List.filter (fun x => Z.eqb x v) l).

(** ** Fixed-width integers *)

Definition uint8 (x : Z) : Z := x mod 2 ^ 8.
Definition uint32 (x : Z) : Z := x mod 2 ^ 32.
Definition uint64 (x : Z) : Z := x mod 2 ^ 64.

(** [(x & (1 << b)) != 0] *)
Definition bit_set (x b : Z) : bool := negb (Z.land x (Z.shiftl 1 b) =? 0).

(** ** The platform: what rvlib_hardware.h and rvlib_time.h provide

    Modelled from the spec: the two headers are not among the sources.  The
    base address and the clock frequency are constants of the platform;
    the register block and the cycle counter are "given hardware-access
    primitives", so what they answer is left to the platform. *)

Class Platform : Type := {
  (* base address of the SPI controller register block *)
  RVSYS_ADDR_SPIFLASH : Z;
  (* CPU cycles per microsecond *)
  RVLIB_CPU_FREQ_MHZ : Z;
  (* what a register read returns, given everything that happened before *)
  hw_reg : trace -> Z -> Z;
  (* what the cycle counter returns, given everything that happened before *)
  hw_cycle : trace -> Z
}.

(** ** Computations: a trace-passing monad with failure

    [None] stands for a run that does not return within the iteration
    bound [fuel] of one of the busy-wait loops, or that leaves the bounds
    of a buffer. *)

Definition M (A : Type) : Type := trace -> option (A * trace).

Definition ret {A} (a : A) : M A := fun tr => Some (a, tr).

Definition bind {A B} (m : M A) (k : A -> M B) : M B :=
  fun tr => match m tr with
            | Some (a, tr') => k a tr'
            | None => None
            end.

Definition stuck {A} : M A := fun _ => None.

Notation "x <- m ;; k" := (bind m (fun x => k))
  (at level 100, m at next level, right associativity).
Notation "m ;; k" := (bind m (fun _ => k))
  (at level 100, right associativity).

Section Driver.
Context {P : Platform}.

(** *** Hardware access primitives *)

(** Modelled from the spec: rvlib_hw_read_reg (rvlib_hardware.h) reads a
    32-bit memory-mapped register. *)
Definition rvlib_hw_read_reg (addr : Z) : M Z :=
  fun tr => let v := uint32 (hw_reg tr addr) in
            Some (v, tr ++ [RegRead addr v]).

(** Modelled from the spec: rvlib_hw_write_reg (rvlib_hardware.h) writes a
    32-bit memory-mapped register.  Every call site passes a value that
    fits the register: a byte, the sentinel 0x100, or 0. *)
Definition rvlib_hw_write_reg (addr value : Z) : M unit :=
  fun tr => Some (tt, tr ++ [RegWrite addr value]).

(** Modelled from the spec: get_cycle_counter (rvlib_time.h) reads the
    64-bit hardware cycle counter. *)
Definition get_cycle_counter : M Z :=
  fun tr => let v := uint64 (hw_cycle tr) in
            Some (v, tr ++ [CycleRead v]).

(** *** SPI controller interface *)

Definition RVLIB_SPIFLASH_REG_STATUS : Z := 0.
Definition RVLIB_SPIFLASH_REG_SLAVESEL : Z := 4.
Definition RVLIB_SPIFLASH_REG_DATA : Z := 8.
Definition RVLIB_SPIFLASH_BIT_STATUS_BUSY : Z := 0.
Definition RVLIB_SPIFLASH_BIT_STATUS_CMDRDY : Z := 1.
Definition RVLIB_SPIFLASH_BIT_STATUS_READRDY : Z := 2.

Definition ADDR_STATUS : Z := RVSYS_ADDR_SPIFLASH + RVLIB_SPIFLASH_REG_STATUS.
Definition ADDR_SLAVESEL : Z := RVSYS_ADDR_SPIFLASH + RVLIB_SPIFLASH_REG_SLAVESEL.
Definition ADDR_DATA : Z := RVSYS_ADDR_SPIFLASH + RVLIB_SPIFLASH_REG_DATA.

(** *** Properties of the flash device *)

Definition SPIFLASH_PROGRAM_TIMEOUT_US : Z := 5000.
Definition SPIFLASH_ERASE_TIMEOUT_US : Z := 3 * 1000 * 1000.

Definition SPIFLASH_CMD_READ_ID : Z := 0x9f.
Definition SPIFLASH_CMD_READ : Z := 0x03.
Definition SPIFLASH_CMD_WRITE_ENABLE : Z := 0x06.
Definition SPIFLASH_CMD_READ_FLAGS : Z := 0x70.
Definition SPIFLASH_CMD_CLEAR_FLAGS : Z := 0x50.
Definition SPIFLASH_CMD_PAGE_PROGRAM : Z := 0x02.
Definition SPIFLASH_CMD_SECTOR_ERASE : Z := 0xd8.
Definition SPIFLASH_BIT_FLAGS_PROGRAM_ERROR : Z := 4.
Definition SPIFLASH_BIT_FLAGS_ERASE_ERROR : Z := 5.
Definition SPIFLASH_BIT_FLAGS_READY : Z := 7.

(** The value written to DATA to clock in one byte. *)
Definition DUMMY_REQUEST : Z := 0x100.

(** Error codes (rvlib_spiflash.h). *)
Definition RVLIB_SPIFLASH_ERR_FAILED : Z := -1.
Definition RVLIB_SPIFLASH_ERR_TIMEOUT : Z := -2.
Definition RVLIB_SPIFLASH_ERR_NOTREADY : Z := -3.

(** *** Bus primitives *)

(* The wait loop of spi_send_byte: at most [k] status reads. *)
Fixpoint spi_send_byte_wait (k : nat) : M unit :=
  match k with
  | O => stuck
  | S k' =>
      status <- rvlib_hw_read_reg ADDR_STATUS ;;
      if bit_set status RVLIB_SPIFLASH_BIT_STATUS_CMDRDY
      then ret tt
      else spi_send_byte_wait k'
  end.

(* The parameter is a uint8_t: wider arguments are truncated. *)
Definition spi_send_byte (fuel : nat) (b : Z) : M unit :=
  spi_send_byte_wait fuel ;;
  rvlib_hw_write_reg ADDR_DATA (uint8 b).

(* buf[p] = data, with data a uint32_t and buf an unsigned char array.
   A store outside the buffer has no defined behaviour. *)
Definition store_byte (buf : list Z) (p : nat) (data : Z) : M (list Z) :=
  if (p <? length buf)%nat then ret (<[p := uint8 data]> buf) else stuck.

(* The loop of spi_read_bytes, from the state (p, ncmd, buf); it returns
   the state at loop exit.  The counters stay within [0, nbytes], so a
   size_t never wraps. *)
Fixpoint spi_read_bytes_loop (k : nat) (nbytes p ncmd : nat) (buf : list Z)
  : M (nat * nat * list Z) :=
  if (p <? nbytes)%nat then
    match k with
    | O => stuck
    | S k' =>
        status <- rvlib_hw_read_reg ADDR_STATUS ;;
        ncmd' <- (if (0 <? ncmd)%nat then
                    if bit_set status RVLIB_SPIFLASH_BIT_STATUS_CMDRDY then
                      rvlib_hw_write_reg ADDR_DATA DUMMY_REQUEST ;;
                      ret (ncmd - 1)%nat
                    else ret ncmd
                  else ret ncmd) ;;
        if bit_set status RVLIB_SPIFLASH_BIT_STATUS_READRDY then
          data <- rvlib_hw_read_reg ADDR_DATA ;;
          buf' <- store_byte buf p data ;;
          spi_read_bytes_loop k' nbytes (p + 1)%nat ncmd' buf'
        else
          spi_read_bytes_loop k' nbytes p ncmd' buf
    end
  else ret (p, ncmd, buf).

Definition spi_read_bytes (fuel : nat) (buf : list Z) (nbytes : nat)
  : M (list Z) :=
  st <- spi_read_bytes_loop fuel nbytes 0%nat nbytes buf ;;
  ret (snd st).

Fixpoint spi_end_transaction_wait (k : nat) : M unit :=
  match k with
  | O => stuck
  | S k' =>
      status <- rvlib_hw_read_reg ADDR_STATUS ;;
      if Z.land status (Z.shiftl 1 RVLIB_SPIFLASH_BIT_STATUS_BUSY) =? 0
      then ret tt
      else spi_end_transaction_wait k'
  end.

Definition spi_end_transaction (fuel : nat) : M unit :=
  spi_end_transaction_wait fuel ;;
  rvlib_hw_write_reg ADDR_SLAVESEL 0.

(** *** Command framing *)

Definition spi_command_simple (fuel : nat) (cmd : Z) : M unit :=
  spi_send_byte fuel cmd ;;
  spi_end_transaction fuel.

Definition spi_command_read (fuel : nat) (cmd : Z) (buf : list Z)
    (nbytes : nat) : M (list Z) :=
  spi_send_byte fuel cmd ;;
  buf' <- spi_read_bytes fuel buf nbytes ;;
  spi_end_transaction fuel ;;
  ret buf'.

Definition spi_command_addr_read (fuel : nat) (cmd addr : Z)
    (buf : list Z) (nbytes : nat) : M (list Z) :=
  spi_send_byte fuel cmd ;;
  spi_send_byte fuel (Z.shiftr addr 16) ;;
  spi_send_byte fuel (Z.shiftr addr 8) ;;
  spi_send_byte fuel addr ;;
  buf' <- spi_read_bytes fuel buf nbytes ;;
  spi_end_transaction fuel ;;
  ret buf'.

(* for (p = 0; p < nbytes; p++) spi_send_byte(data[p]);
   [todo] is nbytes - p.  Reading past the end of [data] has no defined
   behaviour. *)
Fixpoint spi_send_data (fuel : nat) (data : list Z) (p todo : nat) : M unit :=
  match todo with
  | O => ret tt
  | S todo' =>
      match data !! p with
      | Some b => spi_send_byte fuel b ;;
                  spi_send_data fuel data (p + 1)%nat todo'
      | None => stuck
      end
  end.

Definition spi_command_addr_write (fuel : nat) (cmd addr : Z)
    (data : list Z) (nbytes : nat) : M unit :=
  spi_send_byte fuel cmd ;;
  spi_send_byte fuel (Z.shiftr addr 16) ;;
  spi_send_byte fuel (Z.shiftr addr 8) ;;
  spi_send_byte fuel addr ;;
  spi_send_data fuel data 0%nat nbytes ;;
  spi_end_transaction fuel.

(** *** Completion polling *)

(* end_time = get_cycle_counter();
   end_time += RVLIB_CPU_FREQ_MHZ * (uint64_t)timeout_us; *)
Definition poll_deadline (start timeout_us : Z) : Z :=
  uint64 (start + uint64 (uint64 RVLIB_CPU_FREQ_MHZ * uint32 timeout_us)).

(* tremain = end_time - time_now;  tremain >= ((uint64_t)1 << 63) *)
Definition poll_expired (end_time time_now : Z) : bool :=
  let tremain := uint64 (end_time - time_now) in
  Z.shiftl 1 63 <=? tremain.

(* The loop of spiflash_poll_completion; [flags] is the one-byte local
   variable whose address is handed to spi_command_read. *)
Fixpoint spiflash_poll_loop (fuel k : nat) (end_time flags : Z) : M Z :=
  match k with
  | O => stuck
  | S k' =>
      buf <- spi_command_read fuel SPIFLASH_CMD_READ_FLAGS [flags] 1 ;;
      let flags := nth 0 buf 0 in
      if bit_set flags SPIFLASH_BIT_FLAGS_READY then ret flags
      else
        time_now <- get_cycle_counter ;;
        if poll_expired end_time time_now then ret flags
        else spiflash_poll_loop fuel k' end_time flags
  end.

(* [flags] starts uninitialised; it is written by the first query before
   it is read, and 0 stands for its indeterminate content. *)
Definition spiflash_poll_completion (fuel : nat) (timeout_us : Z) : M Z :=
  start <- get_cycle_counter ;;
  spiflash_poll_loop fuel fuel (poll_deadline start timeout_us) 0.

(** *** Flash operations *)

Fixpoint init_drain (k : nat) : M unit :=
  match k with
  | O => stuck
  | S k' =>
      status <- rvlib_hw_read_reg ADDR_STATUS ;;
      if bit_set status RVLIB_SPIFLASH_BIT_STATUS_READRDY then
        rvlib_hw_read_reg ADDR_DATA ;;
        init_drain k'
      else if Z.land status (Z.shiftl 1 RVLIB_SPIFLASH_BIT_STATUS_BUSY) =? 0
      then ret tt
      else init_drain k'
  end.

Definition rvlib_spiflash_init (fuel : nat) : M unit :=
  init_drain fuel ;;
  spi_command_simple fuel 0xff ;;
  spi_command_simple fuel 0xff ;;
  spi_command_simple fuel SPIFLASH_CMD_CLEAR_FLAGS ;;
  spiflash_poll_completion fuel SPIFLASH_ERASE_TIMEOUT_US ;;
  ret tt.

Record rvlib_spiflash_device_id : Type := {
  manufacturer_id : Z;
  device_id : Z
}.

(* The three-byte local buffer starts uninitialised; all of it is written
   before it is read. *)
Definition rvlib_spiflash_read_id (fuel : nat) : M rvlib_spiflash_device_id :=
  buf <- spi_command_read fuel SPIFLASH_CMD_READ_ID [0; 0; 0] 3 ;;
  ret {| manufacturer_id := nth 0 buf 0;
         device_id := Z.lor (Z.shiftl (nth 1 buf 0) 8) (nth 2 buf 0) |}.

Definition rvlib_spiflash_read_mem (fuel : nat) (address : Z)
    (buf : list Z) (nbytes : nat) : M (list Z) :=
  spi_command_addr_read fuel SPIFLASH_CMD_READ address buf nbytes.

Definition rvlib_spiflash_page_program (fuel : nat) (address : Z)
    (data : list Z) (nbytes : nat) : M Z :=
  buf <- spi_command_read fuel SPIFLASH_CMD_READ_FLAGS [0] 1 ;;
  let flags := nth 0 buf 0 in
  if Z.land flags (Z.shiftl 1 SPIFLASH_BIT_FLAGS_READY) =? 0 then
    ret RVLIB_SPIFLASH_ERR_NOTREADY
  else
    spi_command_simple fuel SPIFLASH_CMD_CLEAR_FLAGS ;;
    spi_command_simple fuel SPIFLASH_CMD_WRITE_ENABLE ;;
    spi_command_addr_write fuel SPIFLASH_CMD_PAGE_PROGRAM address data nbytes ;;
    flags <- spiflash_poll_completion fuel SPIFLASH_PROGRAM_TIMEOUT_US ;;
    if Z.land flags (Z.shiftl 1 SPIFLASH_BIT_FLAGS_READY) =? 0 then
      ret RVLIB_SPIFLASH_ERR_TIMEOUT
    else if bit_set flags SPIFLASH_BIT_FLAGS_PROGRAM_ERROR then
      spi_command_simple fuel SPIFLASH_CMD_CLEAR_FLAGS ;;
      ret RVLIB_SPIFLASH_ERR_FAILED
    else ret 0.

(* The null data pointer handed to spi_command_addr_write, with a length
   of 0, is the empty payload. *)
Definition rvlib_spiflash_sector_erase (fuel : nat) (address : Z) : M Z :=
  buf <- spi_command_read fuel SPIFLASH_CMD_READ_FLAGS [0] 1 ;;
  let flags := nth 0 buf 0 in
  if Z.land flags (Z.shiftl 1 SPIFLASH_BIT_FLAGS_READY) =? 0 then
    ret RVLIB_SPIFLASH_ERR_NOTREADY
  else
    spi_command_simple fuel SPIFLASH_CMD_CLEAR_FLAGS ;;
    spi_command_simple fuel SPIFLASH_CMD_WRITE_ENABLE ;;
    spi_command_addr_write fuel SPIFLASH_CMD_SECTOR_ERASE address [] 0 ;;
    flags <- spiflash_poll_completion fuel SPIFLASH_ERASE_TIMEOUT_US ;;
    if Z.land flags (Z.shiftl 1 SPIFLASH_BIT_FLAGS_READY) =? 0 then
      ret RVLIB_SPIFLASH_ERR_TIMEOUT
    else if bit_set flags SPIFLASH_BIT_FLAGS_ERASE_ERROR then
      spi_command_simple fuel SPIFLASH_CMD_CLEAR_FLAGS ;;
      ret RVLIB_SPIFLASH_ERR_FAILED
    else ret 0.

End Driver.

(** ** Views of a trace *)

Section Views.
Context {P : Platform}.

(** Dummy-byte requests issued: writes of 0x100 to DATA. *)
Definition dummy_requests (tr : trace) : nat :=
  occurrences DUMMY_REQUEST (reg_writes ADDR_DATA tr).

(** Bytes dequeued from the controller: reads of DATA. *)
Definition captured (tr : trace) : list Z :=
  map uint8 (reg_reads ADDR_DATA tr).

(** Command, address and payload bytes sent: the other writes to DATA. *)
Definition command_bytes (tr : trace) : list Z :=
  List.filter (fun v => negb (v =? DUMMY_REQUEST)) (reg_writes ADDR_DATA tr).

(** Requested bytes the driver has not dequeued yet. *)
Definition fifo_level (tr : trace) : Z :=
  Z.of_nat (dummy_requests tr) - Z.of_nat (length (reg_reads ADDR_DATA tr)).

(** A controller that announces a received byte only when one was
    requested by a dummy write and is still waiting to be dequeued. *)
Definition causal_controller : Prop :=
  forall tr,
    bit_set (uint32 (hw_reg tr ADDR_STATUS)) RVLIB_SPIFLASH_BIT_STATUS_READRDY
      = true ->
    0 < fifo_level tr.

(** A causal controller that, in addition, is always ready to take a
    command byte and announces every waiting byte. *)
Definition responsive_controller : Prop :=
  forall tr,
    let status := uint32 (hw_reg tr ADDR_STATUS) in
    bit_set status RVLIB_SPIFLASH_BIT_STATUS_CMDRDY = true /\
    (bit_set status RVLIB_SPIFLASH_BIT_STATUS_READRDY = true <->
     0 < fifo_level tr).

(** The accesses of the drain loop of rvlib_spiflash_init. *)
Inductive drained : trace -> Prop :=
| drained_idle s :
    bit_set s RVLIB_SPIFLASH_BIT_STATUS_READRDY = false ->
    bit_set s RVLIB_SPIFLASH_BIT_STATUS_BUSY = false ->
    drained [RegRead ADDR_STATUS s]
| drained_byte s d evs :
    bit_set s RVLIB_SPIFLASH_BIT_STATUS_READRDY = true ->
    drained evs ->
    drained (RegRead ADDR_STATUS s :: RegRead ADDR_DATA d :: evs)
| drained_busy s evs :
    bit_set s RVLIB_SPIFLASH_BIT_STATUS_READRDY = false ->
    bit_set s RVLIB_SPIFLASH_BIT_STATUS_BUSY = true ->
    drained evs ->
    drained (RegRead ADDR_STATUS s :: evs).

(** A transaction whose last step is spi_end_transaction, entered after
    the accesses [before], and whose register accesses end with a STATUS
    read that shows BUSY clear followed by the write of 0 to SLAVESEL, with
    no other write to SLAVESEL. *)
Definition ends_with_deselect {A} (fuel : nat) (m : M A) : Prop :=
  forall tr a tr',
    m tr = Some (a, tr') ->
    exists before evs s,
      spi_end_transaction fuel (tr ++ before) = Some (tt, tr') /\
      tr' = tr ++ evs ++ [RegRead ADDR_STATUS s; RegWrite ADDR_SLAVESEL 0] /\
      bit_set s RVLIB_SPIFLASH_BIT_STATUS_BUSY = false /\
      reg_writes ADDR_SLAVESEL evs = [].

(** One unsuccessful round of the completion poll: the flag byte that was
    read and the cycle count read after it. *)
Abbreviation poll_round := (Z * Z)%type.

(** What spiflash_poll_completion did on the bus after it fixed the
    deadline [end_time]: [rounds] are the queries that found the device
    busy before the deadline, [flags] is the byte of the last query. *)
Definition polled (end_time : Z) (rounds : list poll_round) (flags : Z)
    (evs : trace) : Prop :=
  captured evs = map fst rounds ++ [flags] /\
  command_bytes evs = repeat SPIFLASH_CMD_READ_FLAGS (S (length rounds)) /\
  reg_writes ADDR_SLAVESEL evs = repeat 0 (S (length rounds)) /\
  Forall (fun r => bit_set (fst r) SPIFLASH_BIT_FLAGS_READY = false /\
                   poll_expired end_time (snd r) = false) rounds /\
  ((bit_set flags SPIFLASH_BIT_FLAGS_READY = true /\
    cycle_reads evs = map snd rounds) \/
   (bit_set flags SPIFLASH_BIT_FLAGS_READY = false /\
    exists now, cycle_reads evs = map snd rounds ++ [now] /\
                poll_expired end_time now = true)).

(** The outcome of a write-class operation in terms of the transactions
    it is made of. *)
Definition write_outcome (fuel : nat) (cmd errbit timeout_us address : Z)
    (data : list Z) (nbytes : nat) (tr : trace) (r : Z) (tr' : trace)
  : Prop :=
  exists f0 tr1,
    spi_command_read fuel SPIFLASH_CMD_READ_FLAGS [0] 1 tr = Some ([f0], tr1) /\
    ((bit_set f0 SPIFLASH_BIT_FLAGS_READY = false /\
      r = RVLIB_SPIFLASH_ERR_NOTREADY /\ tr' = tr1) \/
     (bit_set f0 SPIFLASH_BIT_FLAGS_READY = true /\
      exists tr2 tr3 tr4 f1 tr5,
        spi_command_simple fuel SPIFLASH_CMD_CLEAR_FLAGS tr1 = Some (tt, tr2) /\
        spi_command_simple fuel SPIFLASH_CMD_WRITE_ENABLE tr2 = Some (tt, tr3) /\
        spi_command_addr_write fuel cmd address data nbytes tr3
          = Some (tt, tr4) /\
        spiflash_poll_completion fuel timeout_us tr4 = Some (f1, tr5) /\
        ((bit_set f1 SPIFLASH_BIT_FLAGS_READY = false /\
          r = RVLIB_SPIFLASH_ERR_TIMEOUT /\ tr' = tr5) \/
         (bit_set f1 SPIFLASH_BIT_FLAGS_READY = true /\
          bit_set f1 errbit = true /\
          r = RVLIB_SPIFLASH_ERR_FAILED /\
          spi_command_simple fuel SPIFLASH_CMD_CLEAR_FLAGS tr5
            = Some (tt, tr')) \/
         (bit_set f1 SPIFLASH_BIT_FLAGS_READY = true /\
          bit_set f1 errbit = false /\
          r = 0 /\ tr' = tr5)))).

(** *** The write-class state sequence in the words of the specification

    Steps (a) to (h) of Page Program, with the command code, the payload,
    the timeout and the error flag that is examined as parameters. *)

Definition device_ready (flags : Z) : bool :=
  Z.testbit flags SPIFLASH_BIT_FLAGS_READY.

Definition spec_query_flags (fuel : nat) : M Z :=
  buf <- spi_command_read fuel SPIFLASH_CMD_READ_FLAGS [0] 1 ;;
  ret (nth 0 buf 0).

Definition spec_interpret (fuel : nat) (errflag flags : Z) : M Z :=
  if negb (device_ready flags) then ret RVLIB_SPIFLASH_ERR_TIMEOUT
  else if Z.testbit flags errflag then
    spi_command_simple fuel SPIFLASH_CMD_CLEAR_FLAGS ;;
    ret RVLIB_SPIFLASH_ERR_FAILED
  else ret 0.

Definition spec_write_sequence (fuel : nat) (cmd timeout_us errflag : Z)
    (address : Z) (payload : list Z) : M Z :=
  flags <- spec_query_flags fuel ;;                                 (* a *)
  if negb (device_ready flags) then ret RVLIB_SPIFLASH_ERR_NOTREADY
  else
    spi_command_simple fuel SPIFLASH_CMD_CLEAR_FLAGS ;;             (* b *)
    spi_command_simple fuel SPIFLASH_CMD_WRITE_ENABLE ;;            (* c *)
    spi_command_addr_write fuel cmd address payload
      (length payload) ;;                                           (* d *)
    flags <- spiflash_poll_completion fuel timeout_us ;;            (* e *)
    spec_interpret fuel errflag flags.                          (* f g h *)

(** Footprint of a run: what it wrote to DATA, read from DATA, wrote to
    SLAVESEL, and read from the cycle counter. *)
Definition footprint (evs : trace) (dw dr ss cy : list Z) : Prop :=
  reg_writes ADDR_DATA evs = dw /\
  reg_reads ADDR_DATA evs = dr /\
  reg_writes ADDR_SLAVESEL evs = ss /\
  cycle_reads evs = cy.

(** *** The two write-class operations, side by side *)

Inductive write_op : Type :=
| PageProgram (data : list Z) (nbytes : nat)
| SectorErase.

Definition run_write_op (fuel : nat) (op : write_op) (address : Z) : M Z :=
  match op with
  | PageProgram data nbytes =>
      rvlib_spiflash_page_program fuel address data nbytes
  | SectorErase => rvlib_spiflash_sector_erase fuel address
  end.

Definition op_command (op : write_op) : Z :=
  match op with
  | PageProgram _ _ => SPIFLASH_CMD_PAGE_PROGRAM
  | SectorErase => SPIFLASH_CMD_SECTOR_ERASE
  end.

Definition op_error_bit (op : write_op) : Z :=
  match op with
  | PageProgram _ _ => SPIFLASH_BIT_FLAGS_PROGRAM_ERROR
  | SectorErase => SPIFLASH_BIT_FLAGS_ERASE_ERROR
  end.

Definition op_other_error_bit (op : write_op) : Z :=
  match op with
  | PageProgram _ _ => SPIFLASH_BIT_FLAGS_ERASE_ERROR
  | SectorErase => SPIFLASH_BIT_FLAGS_PROGRAM_ERROR
  end.

Definition op_timeout (op : write_op) : Z :=
  match op with
  | PageProgram _ _ => SPIFLASH_PROGRAM_TIMEOUT_US
  | SectorErase => SPIFLASH_ERASE_TIMEOUT_US
  end.

Definition op_data (op : write_op) : list Z :=
  match op with
  | PageProgram data _ => data
  | SectorErase => []
  end.

Definition op_nbytes (op : write_op) : nat :=
  match op with
  | PageProgram _ nbytes => nbytes
  | SectorErase => 0%nat
  end.

Definition op_payload (op : write_op) : list Z :=
  match op with
  | PageProgram data nbytes => take nbytes data
  | SectorErase => []
  end.

(** The error taxonomy: the result code as decided, in this order, from
    the flag byte [f0] of the pre-flight query and the flag byte [f1] the
    completion poll returned. *)
Definition write_result (errbit f0 f1 : Z) : Z :=
  if negb (bit_set f0 SPIFLASH_BIT_FLAGS_READY) then
    RVLIB_SPIFLASH_ERR_NOTREADY
  else if negb (bit_set f1 SPIFLASH_BIT_FLAGS_READY) then
    RVLIB_SPIFLASH_ERR_TIMEOUT
  else if bit_set f1 errbit then RVLIB_SPIFLASH_ERR_FAILED
  else 0.

(** The command, address and payload bytes of a write-class operation that
    passed the pre-flight check, polled [polls] times and returned [r]. *)
Definition write_op_commands (cmd address : Z) (payload : list Z)
    (polls : nat) (r : Z) : list Z :=
  [SPIFLASH_CMD_READ_FLAGS; SPIFLASH_CMD_CLEAR_FLAGS;
   SPIFLASH_CMD_WRITE_ENABLE;
   uint8 cmd; uint8 (Z.shiftr address 16); uint8 (Z.shiftr address 8);
   uint8 address]
  ++ map uint8 payload
  ++ repeat SPIFLASH_CMD_READ_FLAGS polls
  ++ (if r =? RVLIB_SPIFLASH_ERR_FAILED then [SPIFLASH_CMD_CLEAR_FLAGS]
      else []).

(** A controller that is never found busy when polled. *)
Definition never_busy_controller : Prop :=
  forall tr,
    bit_set (uint32 (hw_reg tr ADDR_STATUS)) RVLIB_SPIFLASH_BIT_STATUS_BUSY
    = false.

(** An operation that, entered with no requested byte waiting in the
    controller, leaves none waiting. *)
Definition keeps_queue_empty {A} (m : M A) : Prop :=
  forall tr a tr',
    fifo_level tr = 0 -> m tr = Some (a, tr') -> fifo_level tr' = 0.

(** *** Time, and what the return of a wait depends on *)

(** The cycles of a timeout of [timeout_us] microseconds, as the poll
    adds them to the cycle count. *)
Definition poll_timeout_cycles (timeout_us : Z) : Z :=
  uint64 (uint64 RVLIB_CPU_FREQ_MHZ * uint32 timeout_us).

(** The cycles counted between two readings of the 64-bit counter. *)
Definition elapsed (start now : Z) : Z := uint64 (now - start).

(** A cycle counter that advances by at least [lo] and at most [hi]
    cycles with every access the driver makes. *)
Definition clock_advances (lo hi : Z) : Prop :=
  forall tr e, lo <= uint64 (hw_cycle (tr ++ [e]) - hw_cycle tr) <= hi.

(** What [n] successive reads of STATUS return, from the trace [tr] on. *)
Fixpoint status_polls (n : nat) (tr : trace) : list Z :=
  match n with
  | O => []
  | S n' =>
      let s := uint32 (hw_reg tr ADDR_STATUS) in
      s :: status_polls n' (tr ++ [RegRead ADDR_STATUS s])
  end.

(** An operation that, entered with the receive queue empty, returns and
    leaves the queue empty, with a result of which [Q] holds. *)
Definition returns_idle {A} (m : M A) (Q : A -> Prop) : Prop :=
  forall tr,
    fifo_level tr = 0 ->
    exists a tr', m tr = Some (a, tr') /\ fifo_level tr' = 0 /\ Q a.

End Views.

(** ** The boot monitor's text helpers (bootmon.c)

    The callers of the driver in the boot monitor read their arguments with
    parse_uint and report with print_str, print_uint and print_uint_hex.

    A character is its code.  A C string is the list of its characters
    before the terminating NUL, so the character at index [length s] is
    the NUL and nothing is read beyond it. *)

Definition chr (c : ascii) : Z := Z.of_N (N_of_ascii c).
Arguments chr : simpl never.

Definition cstr (s : string) : list Z :=
  map chr (list_ascii_of_string s).

Definition UINT32_MAX : Z := 2 ^ 32 - 1.

(** *** parse_uint *)

(* while (s[p] == ' ') p++;  [rest] is the string from index p on. *)
Fixpoint skip_spaces (rest : list Z) (p : nat) : list Z * nat :=
  match rest with
  | c :: rest' =>
      if c =? chr " " then skip_spaces rest' (p + 1)%nat else (rest, p)
  | [] => (rest, p)
  end.

(* s[p] == '0' && (s[p + 1] == 'x' || s[p + 1] == 'X') *)
Definition hex_prefix (rest : list Z) : bool :=
  match rest with
  | c0 :: c1 :: _ => (c0 =? chr "0") && ((c1 =? chr "x") || (c1 =? chr "X"))
  | _ => false
  end.

(* The digit d of the hexadecimal loop, or None at its break. *)
Definition hex_digit (c : Z) : option Z :=
  if (chr "0" <=? c) && (c <=? chr "9") then Some (c - chr "0")
  else if (chr "a" <=? c) && (c <=? chr "f") then Some (c - chr "a" + 10)
  else if (chr "A" <=? c) && (c <=? chr "F") then Some (c - chr "A" + 10)
  else None.

(* The hexadecimal loop, from the state (v, good, p); None is the
   return -1 inside the loop. *)
Fixpoint parse_hex_loop (rest : list Z) (v : Z) (good : bool) (p : nat)
  : option (Z * bool * nat) :=
  match rest with
  | [] => Some (v, good, p)
  | c :: rest' =>
      match hex_digit c with
      | None => Some (v, good, p)
      | Some d =>
          if UINT32_MAX / 16 <? v then None
          else parse_hex_loop rest' (uint32 (Z.shiftl v 4 + d)) true
                 (p + 1)%nat
      end
  end.

(* The decimal loop. *)
Fixpoint parse_dec_loop (rest : list Z) (v : Z) (good : bool) (p : nat)
  : option (Z * bool * nat) :=
  match rest with
  | [] => Some (v, good, p)
  | c :: rest' =>
      if (c <? chr "0") || (chr "9" <? c) then Some (v, good, p)
      else if UINT32_MAX / 10 <? v then None
      else parse_dec_loop rest' (uint32 (10 * v + c - chr "0")) true
             (p + 1)%nat
  end.

(* The result is the return value and the content of *val afterwards,
   given its content [val] before. *)
Definition parse_uint (s : list Z) (val : Z) : Z * Z :=
  let '(rest, p) := skip_spaces s 0 in
  let r := if hex_prefix rest
           then parse_hex_loop (drop 2 rest) 0 false (p + 2)%nat
           else parse_dec_loop rest 0 false p in
  match r with
  | Some (v, true, p') => (Z.of_nat p', v)
  | _ => (-1, val)
  end.

(** The number a string of digits denotes, to state what parse_uint
    computes. *)
Definition numeral_from (base : Z) (digit : Z -> Z) (v : Z) (l : list Z) : Z :=
  fold_left (fun a c => base * a + digit c) l v.

Definition dec_value (l : list Z) : Z :=
  numeral_from 10 (fun c => c - chr "0") 0 l.

Definition hex_value (l : list Z) : Z :=
  numeral_from 16 (fun c => default 0 (hex_digit c)) 0 l.

Definition is_dec_digit (c : Z) : bool := (chr "0" <=? c) && (c <=? chr "9").

Definition is_hex_digit (c : Z) : bool :=
  match hex_digit c with Some _ => true | None => false end.

(** The text after a numeral does not start with one more digit. *)
Definition ends_numeral (digit : Z -> bool) (rest : list Z) : Prop :=
  forall c, head rest = Some c -> digit c = false.

(** *** Printing

    Modelled from the spec: rvlib_putchar (rvlib_std.h) is not among the
    sources; it sends one character to the console.  A printing function
    gives the characters it hands to rvlib_putchar, in order, or None when
    it would leave its buffer or shift a 32-bit value by 32 bits or
    more. *)

(* static char scratchbuf[40]; *)
Definition sizeof_scratchbuf : nat := 40.

(* buf[p] = c, for a character buffer. *)
Definition poke (buf : list Z) (p : nat) (c : Z) : option (list Z) :=
  if (p <? length buf)%nat then Some (<[p := uint8 c]> buf) else None.

(* [msg] is the memory from the pointer on: the characters up to the
   first NUL are sent. *)
Fixpoint print_str (msg : list Z) : option (list Z) :=
  match msg with
  | [] => None
  | c :: msg' =>
      if c =? 0 then Some []
      else match print_str msg' with
           | Some out => Some (c :: out)
           | None => None
           end
  end.

(* do { p--; *p = '0' + val % 10; val /= 10; } while (val != 0);
   [p] is the index into scratchbuf. *)
Fixpoint print_uint_loop (p : nat) (val : Z) (buf : list Z)
  : option (nat * list Z) :=
  match p with
  | O => None
  | S p' =>
      match poke buf p' (chr "0" + val mod 10) with
      | None => None
      | Some buf' =>
          let val' := val / 10 in
          if val' =? 0 then Some (p', buf')
          else print_uint_loop p' val' buf'
      end
  end.

(* The body that print_uint and print_uint64 share word for word; the
   result is scratchbuf afterwards and the characters printed. *)
Definition print_decimal (val : Z) (scratchbuf : list Z)
  : option (list Z * list Z) :=
  let p := (sizeof_scratchbuf - 1)%nat in
  match poke scratchbuf p 0 with
  | None => None
  | Some buf =>
      match print_uint_loop p val buf with
      | None => None
      | Some (p', buf') =>
          match print_str (drop p' buf') with
          | None => None
          | Some out => Some (buf', out)
          end
      end
  end.

(* The parameter is an unsigned int. *)
Definition print_uint (val : Z) (scratchbuf : list Z)
  : option (list Z * list Z) :=
  print_decimal (uint32 val) scratchbuf.

(* The parameter is a uint64_t. *)
Definition print_uint64 (val : Z) (scratchbuf : list Z)
  : option (list Z * list Z) :=
  print_decimal (uint64 val) scratchbuf.

(* static const char hexdigits[16] = ... *)
Definition hexdigits : list Z := cstr "0123456789abcdef"%string.

(* while (width < 8 && (val >> (width << 2)) > 0) width++;
   [gap] is 8 - width as long as width < 8. *)
Fixpoint print_uint_hex_width (gap : nat) (val : Z) (width : nat) : nat :=
  match gap with
  | O => width
  | S gap' =>
      if 0 <? Z.shiftr val (Z.shiftl (Z.of_nat width) 2)
      then print_uint_hex_width gap' val (S width)
      else width
  end.

(* while (width > 0) { width--; d = (val >> (width << 2)) & 0xf;
                       rvlib_putchar(hexdigits[d]); } *)
Fixpoint print_uint_hex_digits (width : nat) (val : Z) : option (list Z) :=
  match width with
  | O => Some []
  | S w =>
      let sh := Z.shiftl (Z.of_nat w) 2 in
      if 32 <=? sh then None
      else
        match hexdigits !! Z.to_nat (Z.land (Z.shiftr val sh) 0xf) with
        | None => None
        | Some c =>
            match print_uint_hex_digits w val with
            | Some out => Some (c :: out)
            | None => None
            end
        end
  end.

Definition print_uint_hex (val : Z) (width : nat) : option (list Z) :=
  let val := uint32 val in
  print_uint_hex_digits (print_uint_hex_width (8 - width) val width) val.

(* rvlib_putchar('\r'); rvlib_putchar('\n'); *)
Definition print_endln : list Z := [13; 10].

(** *** read_command

    Modelled from the spec: rvlib_uart_recv_byte (rvlib_uart.h) is not
    among the sources; it returns the next received byte, or -1 when none
    has arrived.  [input] is what its successive calls return; when it is
    used up the function waits for ever.  CR is 13, LF is 10, TAB is 9
    and the backspace is 8. *)

(* The loop, from the state (cmdbuf, pos); [echo] is what was handed to
   rvlib_putchar so far.  It returns the state at the break and the input
   that is left. *)
Fixpoint read_command_loop (input : list Z) (cmdbuf : list Z) (maxlen : nat)
    (cmd_echo : bool) (pos : nat) (echo : list Z)
  : option (list Z * nat * list Z * list Z) :=
  match input with
  | [] => None
  | c :: input' =>
      if c =? -1 then
        read_command_loop input' cmdbuf maxlen cmd_echo pos echo
      else if (c =? 13) || (c =? 10) then Some (cmdbuf, pos, echo, input')
      else
        let c := if c =? 9 then chr " " else c in
        if c =? 8 then
          let pos := if (0 <? pos)%nat then (pos - 1)%nat else pos in
          read_command_loop input' cmdbuf maxlen cmd_echo pos
            (if cmd_echo then echo ++ [c] else echo)
        else if (pos + 1 <? maxlen)%nat then
          match poke cmdbuf pos c with
          | None => None
          | Some buf' =>
              read_command_loop input' buf' maxlen cmd_echo (pos + 1)%nat
                (if cmd_echo then echo ++ [c] else echo)
          end
        else read_command_loop input' cmdbuf maxlen cmd_echo pos echo
  end.

(* The result is the buffer, the echoed characters and the input that is
   left. *)
Definition read_command (input cmdbuf : list Z) (maxlen : nat)
    (cmd_echo : bool) : option (list Z * list Z * list Z) :=
  match read_command_loop input cmdbuf maxlen cmd_echo 0 [] with
  | None => None
  | Some (buf, pos, echo, rest) =>
      match poke buf pos 0 with
      | None => None
      | Some buf' => Some (buf', echo, rest)
      end
  end.

(** What one received value does to the line typed so far, to state what
    read_command leaves in the buffer: none for -1, a backspace takes the
    last character off, a tab counts as a space, and a character is added
    while the line is shorter than maxlen - 1. *)
Definition key_effect (maxlen : nat) (line : list Z) (c : Z) : list Z :=
  if c =? -1 then line
  else
    let c := if c =? 9 then chr " " else c in
    if c =? 8 then removelast line
    else if (length line + 1 <? maxlen)%nat then line ++ [uint8 c]
    else line.

Definition typed_line (maxlen : nat) (keys : list Z) : list Z :=
  fold_left (key_effect maxlen) keys [].

(** *** simplify_command

    The command buffer is rewritten in place: psrc runs over the text
    and pdst, never ahead of it, over what is kept. *)

(* if (c >= 'A' && c <= 'Z') c |= 0x20; *)
Definition to_lower (c : Z) : Z :=
  if (chr "A" <=? c) && (c <=? chr "Z") then Z.lor c 0x20 else c.

(* while ( *psrc == ' ') psrc++;
   [todo] is the distance from psrc to the end of the buffer; a read
   beyond it has no defined behaviour. *)
Fixpoint simplify_skip (todo : nat) (cmdbuf : list Z) (psrc : nat)
  : option nat :=
  match todo with
  | O => None
  | S todo' =>
      match cmdbuf !! psrc with
      | None => None
      | Some c =>
          if c =? chr " " then simplify_skip todo' cmdbuf (psrc + 1)%nat
          else Some psrc
      end
  end.

(* while ( *psrc != 0) { ... }, from the state (psrc, pdst, got_ws);
   it returns the buffer and pdst at loop exit. *)
Fixpoint simplify_loop (todo : nat) (cmdbuf : list Z) (psrc pdst : nat)
    (got_ws : bool) : option (list Z * nat) :=
  match todo with
  | O => None
  | S todo' =>
      match cmdbuf !! psrc with
      | None => None
      | Some c =>
          if c =? 0 then Some (cmdbuf, pdst)
          else if c =? chr " " then
            simplify_loop todo' cmdbuf (psrc + 1)%nat pdst true
          else
            match (if got_ws then poke cmdbuf pdst (chr " ")
                   else Some cmdbuf) with
            | None => None
            | Some buf1 =>
                let pdst1 := if got_ws then (pdst + 1)%nat else pdst in
                match poke buf1 pdst1 (to_lower c) with
                | None => None
                | Some buf2 =>
                    simplify_loop todo' buf2 (psrc + 1)%nat
                      (pdst1 + 1)%nat false
                end
            end
      end
  end.

Definition simplify_command (cmdbuf : list Z) : option (list Z) :=
  match simplify_skip (length cmdbuf) cmdbuf 0 with
  | None => None
  | Some psrc =>
      match simplify_loop (length cmdbuf - psrc) cmdbuf psrc 0 false with
      | None => None
      | Some (buf, pdst) => poke buf pdst 0
      end
  end.

(** A character of a command: not the NUL, and a byte. *)
Definition text_char (c : Z) : Prop := 0 < c < 256.

(** The words of a text: its maximal runs of characters other than the
    space, in order.  [cur] is the word being read. *)
Fixpoint words_from (s : list Z) (cur : list Z) : list (list Z) :=
  match s with
  | [] => match cur with [] => [] | _ => [cur] end
  | c :: s' =>
      if c =? chr " " then
        match cur with
        | [] => words_from s' []
        | _ => cur :: words_from s' []
        end
      else words_from s' (cur ++ [c])
  end.

Definition words (s : list Z) : list (list Z) := words_from s [].

(** Every space is followed by a character that is not a space, and no
    character is an upper-case letter. *)
Fixpoint well_spaced (t : list Z) : bool :=
  match t with
  | [] => true
  | c :: t' =>
      (if c =? chr " " then
         match t' with
         | d :: _ => negb (d =? chr " ")
         | [] => false
         end
       else to_lower c =? c)
      && well_spaced t'
  end.

(** A command in simplified form: no space at the start or at the end, no
    two spaces in a row, no upper-case letter. *)
Definition simplified (t : list Z) : Prop :=
  head t <> Some (chr " ") /\ well_spaced t = true.

(** What the loop of simplify_command keeps of the text [s], as a
    function of the text. *)
Fixpoint simplified_text (s : list Z) (got_ws : bool) : list Z :=
  match s with
  | [] => []
  | c :: s' =>
      if c =? chr " " then simplified_text s' true
      else (if got_ws then [chr " "] else [])
             ++ to_lower c :: simplified_text s' false
  end.

(** ** The flash commands of the boot monitor (bootmon.c)

    The callers of the driver: they interleave transactions on the bus
    with console output.  A command gives the characters it printed, in
    order, as part of its result. *)

Section Monitor.
Context {P : Platform}.

(* A printing function, or another step on memory, between bus
   accesses: one without defined behaviour is a run that does not
   return. *)
Definition printed {A} (o : option A) : M A :=
  fun tr => match o with
            | Some out => Some (out, tr)
            | None => None
            end.

(* print_str of a string literal: the literal is followed by its NUL. *)
Definition print_literal (s : list Z) : M (list Z) :=
  printed (print_str (s ++ [0])).

Definition spiflash_readid (fuel : nat) : M (list Z) :=
  o0 <- print_literal (cstr "SPI flash identification:" ++ [13; 10]) ;;
  rvlib_spiflash_init fuel ;;
  devid <- rvlib_spiflash_read_id fuel ;;
  o1 <- print_literal (cstr "  manufacturer ID = 0x") ;;
  o2 <- printed (print_uint_hex (manufacturer_id devid) 2) ;;
  o3 <- print_literal (cstr "  device ID       = 0x") ;;
  o4 <- printed (print_uint_hex (device_id devid) 4) ;;
  ret (o0 ++ o1 ++ o2 ++ print_endln ++ o3 ++ o4 ++ print_endln).

(* for (i = 0; i < nbytes; i++) { rvlib_putchar(' ');
                                  print_uint_hex(buf[i], 2); }
   [todo] is nbytes - i. *)
Fixpoint print_bytes (buf : list Z) (i todo : nat) : option (list Z) :=
  match todo with
  | O => Some []
  | S todo' =>
      match buf !! i with
      | None => None
      | Some b =>
          match print_uint_hex b 2, print_bytes buf (i + 1)%nat todo' with
          | Some d, Some rest => Some (chr " " :: d ++ rest)
          | _, _ => None
          end
      end
  end.

(* while (len > 0) { ... }, from the state (addr, len, buf); [k] bounds
   the number of rounds. *)
Fixpoint spiflash_read_loop (fuel k : nat) (addr len : Z) (buf : list Z)
  : M (list Z) :=
  if 0 <? len then
    match k with
    | O => stuck
    | S k' =>
        let nbytes := if 16 <? len then 16 else len in
        buf' <- rvlib_spiflash_read_mem fuel addr buf (Z.to_nat nbytes) ;;
        o1 <- printed (print_uint_hex addr 8) ;;
        o2 <- printed (print_bytes buf' 0 (Z.to_nat nbytes)) ;;
        rest <- spiflash_read_loop fuel k' (uint32 (addr + nbytes))
                  (uint32 (len - nbytes)) buf' ;;
        ret (o1 ++ [chr ":"] ++ o2 ++ print_endln ++ rest)
    end
  else ret [].

(* Both parameters are uint32_t; the 16-byte local buffer starts
   uninitialised.  Every round takes at least one byte off len, so len
   rounds are enough.  The result is the return value and the console
   output. *)
Definition spiflash_read (fuel : nat) (addr len : Z) : M (Z * list Z) :=
  let addr := uint32 addr in
  let len := uint32 len in
  o0 <- print_literal (cstr "Reading from SPI flash:" ++ [13; 10]) ;;
  rvlib_spiflash_init fuel ;;
  out <- spiflash_read_loop fuel (Z.to_nat len) addr len (repeat 0 16) ;;
  ret (0, o0 ++ out).

End Monitor.

(** *** spiflash_writetest

    Modelled from the spec: memcpy and strncmp are the functions of the C
    library. *)

Definition page_size : Z := 256.
Definition sector_size : Z := 64 * 1024.
Definition flash_size : Z := 8 * 1024 * 1024.

(* static const char test_message[2][16] *)
Definition test_message (page : nat) : list Z :=
  match page with
  | O => cstr "Flash write test"
  | _ => cstr "Another testpage"
  end.

(* memcpy(dst, src, n) *)
Definition memcpy (dst src : list Z) (n : nat) : option (list Z) :=
  if (n <=? length dst)%nat && (n <=? length src)%nat
  then Some (take n src ++ drop n dst)
  else None.

(* (testdata[page] >> (i << 3)) & 0xff *)
Definition testdata_byte (testdata : Z) (i : nat) : Z :=
  Z.land (Z.shiftr testdata (Z.shiftl (Z.of_nat i) 3)) 0xff.

(* for (i = 0; i < 8; i++) buf[16 + i] = testdata[page] >> (i << 3);
   [todo] is 8 - i. *)
Fixpoint store_testdata (buf : list Z) (testdata : Z) (i todo : nat)
  : option (list Z) :=
  match todo with
  | O => Some buf
  | S todo' =>
      match poke buf (16 + i)
              (Z.shiftr testdata (Z.shiftl (Z.of_nat i) 3)) with
      | None => None
      | Some buf' => store_testdata buf' testdata (i + 1)%nat todo'
      end
  end.

(* for (i = first; i < first + todo; i++)
       if (buf[i] != expect(i)) good = 0;
   the shape of the checking loops, with the expected byte as a function
   of the index into buf. *)
Fixpoint check_bytes (buf : list Z) (expect : nat -> Z) (i todo : nat)
    (good : bool) : option bool :=
  match todo with
  | O => Some good
  | S todo' =>
      match buf !! i with
      | None => None
      | Some b =>
          check_bytes buf expect (i + 1)%nat todo'
            (if negb (b =? expect i) then false else good)
      end
  end.

(* The three checking loops on a page that was read back. *)
Definition check_test_page (buf : list Z) (page : nat) (testdata : Z)
  : option bool :=
  match check_bytes buf (fun i => nth i (test_message page) 0) 0 16 true with
  | None => None
  | Some good =>
      match check_bytes buf (fun i => testdata_byte testdata (i - 16))
              16 8 good with
      | None => None
      | Some good => check_bytes buf (fun _ => 0xff) 24 8 good
      end
  end.

(** What a test page is expected to hold in its first 24 bytes: the
    message, then the cycle count [testdata], least significant byte
    first. *)
Definition test_page_data (page : nat) (testdata : Z) : list Z :=
  test_message page ++ map (testdata_byte testdata) (seq 0 8).

Section FlashCommands.
Context {P : Platform}.

(* if (status < 0) { print_str("ERROR code -"); print_uint(-status);
                     print_endln(); }
   else { print_str("OK\r\n"); }
   The result is scratchbuf afterwards and the output. *)
Definition report_status (status : Z) (scratchbuf : list Z)
  : M (list Z * list Z) :=
  if status <? 0 then
    o1 <- print_literal (cstr "ERROR code -") ;;
    r <- printed (print_uint (- status) scratchbuf) ;;
    ret (fst r, o1 ++ snd r ++ print_endln)
  else
    o1 <- print_literal (cstr "OK" ++ [13; 10]) ;;
    ret (scratchbuf, o1).

(* if (good) print_str("OK\r\n"); else print_str("FAILED!\r\n"); *)
Definition report_good (good : bool) : M (list Z) :=
  if good then print_literal (cstr "OK" ++ [13; 10])
  else print_literal (cstr "FAILED!" ++ [13; 10]).

(* for (p = 0; p + sizeof(buf) <= sector_size; p += sizeof(buf)) { ... }
   from the state (p, buf, good); [k] bounds the number of rounds. *)
Fixpoint read_back_sector (fuel k : nat) (sector_addr p : Z) (buf : list Z)
    (good : bool) : M (list Z * bool) :=
  if p + 32 <=? sector_size then
    match k with
    | O => stuck
    | S k' =>
        buf' <- rvlib_spiflash_read_mem fuel (uint32 (sector_addr + p))
                  buf 32 ;;
        good' <- printed (check_bytes buf' (fun _ => 0xff) 0 32 good) ;;
        read_back_sector fuel k' sector_addr (p + 32) buf' good'
    end
  else ret (buf, good).

(* One round of the programming loop; the result is testdata[page], buf,
   scratchbuf and the output. *)
Definition program_test_page (fuel : nat) (sector_addr : Z) (page : nat)
    (buf scratchbuf : list Z) : M (Z * list Z * list Z * list Z) :=
  testdata <- get_cycle_counter ;;
  buf1 <- printed (memcpy buf (test_message page) 16) ;;
  buf2 <- printed (store_testdata buf1 testdata 0 8) ;;
  let page_addr := uint32 (sector_addr + Z.of_nat page * page_size) in
  o1 <- print_literal (cstr "  Programming page at 0x") ;;
  o2 <- printed (print_uint_hex page_addr 6) ;;
  o3 <- print_literal (cstr " ... ") ;;
  status <- rvlib_spiflash_page_program fuel page_addr buf2 24 ;;
  r <- report_status status scratchbuf ;;
  ret (testdata, buf2, fst r, o1 ++ o2 ++ o3 ++ snd r).

(* One round of the read-back loop; the result is buf and the output. *)
Definition read_back_test_page (fuel : nat) (sector_addr : Z) (page : nat)
    (testdata : Z) (buf : list Z) : M (list Z * list Z) :=
  let page_addr := uint32 (sector_addr + Z.of_nat page * page_size) in
  o1 <- print_literal (cstr "  Reading back page at 0x") ;;
  o2 <- printed (print_uint_hex page_addr 6) ;;
  o3 <- print_literal (cstr " ... ") ;;
  buf' <- rvlib_spiflash_read_mem fuel page_addr buf 32 ;;
  good <- printed (check_test_page buf' page testdata) ;;
  o4 <- report_good good ;;
  ret (buf', o1 ++ o2 ++ o3 ++ o4).

(* The two loops over the pages run their body for page 0 and page 1.
   The 32-byte local buffer starts uninitialised.  The result is
   scratchbuf afterwards and the output. *)
Definition spiflash_writetest (fuel : nat) (scratchbuf : list Z)
  : M (list Z * list Z) :=
  o0 <- print_literal (cstr "Test SPI flash program/erase functions:"
                         ++ [13; 10]) ;;
  rvlib_spiflash_init fuel ;;
  let sector_addr := uint32 (flash_size - sector_size) in
  o1 <- print_literal (cstr "  Erasing sector at 0x") ;;
  o2 <- printed (print_uint_hex sector_addr 6) ;;
  o3 <- print_literal (cstr " ... ") ;;
  status <- rvlib_spiflash_sector_erase fuel sector_addr ;;
  r4 <- report_status status scratchbuf ;;
  o5 <- print_literal (cstr "  Read back erased sector ... ") ;;
  rb <- read_back_sector fuel (Z.to_nat (sector_size / 32)) sector_addr 0
          (repeat 0 32) true ;;
  o6 <- report_good (snd rb) ;;
  p0 <- program_test_page fuel sector_addr 0 (fst rb) (fst r4) ;;
  let '(testdata0, buf0, scratch0, o7) := p0 in
  p1 <- program_test_page fuel sector_addr 1 buf0 scratch0 ;;
  let '(testdata1, buf1, scratch1, o8) := p1 in
  b0 <- read_back_test_page fuel sector_addr 0 testdata0 buf1 ;;
  b1 <- read_back_test_page fuel sector_addr 1 testdata1 (fst b0) ;;
  ret (scratch1,
       o0 ++ o1 ++ o2 ++ o3 ++ snd r4 ++ o5 ++ o6 ++ o7 ++ o8
          ++ snd b0 ++ snd b1).

(** *** spiflash_subcommand *)

(* strncmp(s1, s2, n) == 0, on strings given by their characters before
   the NUL. *)
Fixpoint strncmp_eq (s1 s2 : list Z) (n : nat) {struct n} : bool :=
  match n with
  | O => true
  | S n' =>
      match s1, s2 with
      | [], [] => true
      | c1 :: r1, c2 :: r2 => (c1 =? c2) && strncmp_eq r1 r2 n'
      | _, _ => false
      end
  end.

Definition spiflash_help : list Z :=
  cstr "spiflash subcommands:" ++ [13; 10]
  ++ cstr "  spiflash readid             - Read flash device ID" ++ [13; 10]
  ++ cstr "  spiflash read <addr> <len>  - Read bytes from flash memory"
  ++ [13; 10]
  ++ cstr "  spiflash writetest          - Test program/erase functions"
  ++ [13; 10]
  ++ [13; 10].

(* addr and len are uninitialised before parse_uint sets them; 0 stands
   for their indeterminate content, which is not used.  The result is
   the return value, scratchbuf afterwards and the output. *)
Definition spiflash_subcommand (fuel : nat) (cmdbuf scratchbuf : list Z)
  : M (Z * list Z * list Z) :=
  let pcmd := fst (skip_spaces cmdbuf 0) in
  match pcmd with
  | [] =>
      o <- print_literal spiflash_help ;;
      ret (0, scratchbuf, o)
  | _ =>
      if strncmp_eq pcmd (cstr "help") 5 then
        o <- print_literal spiflash_help ;;
        ret (0, scratchbuf, o)
      else if strncmp_eq pcmd (cstr "readid") 7 then
        o <- spiflash_readid fuel ;;
        ret (0, scratchbuf, o)
      else if strncmp_eq pcmd (cstr "read") 4 then
        let pcmd := drop 4 pcmd in
        let '(ret1, addr) := parse_uint pcmd 0 in
        if ret1 <? 0 then ret (ret1, scratchbuf, [])
        else
          let pcmd := drop (Z.to_nat ret1) pcmd in
          let '(ret2, len) := parse_uint pcmd 0 in
          if ret2 <? 0 then ret (ret2, scratchbuf, [])
          else
            r <- spiflash_read fuel addr len ;;
            ret (fst r, scratchbuf, snd r)
      else if strncmp_eq pcmd (cstr "writetest") 10 then
        r <- spiflash_writetest fuel scratchbuf ;;
        ret (0, fst r, snd r)
      else ret (-1, scratchbuf, [])
  end.

End FlashCommands.

(** The command and address bytes of the READ transaction at [addr]. *)
Definition read_header (addr : Z) : list Z :=
  [SPIFLASH_CMD_READ; uint8 (Z.shiftr addr 16); uint8 (Z.shiftr addr 8);
   uint8 addr].

(** The start addresses of [n] consecutive 16-byte rounds from [addr]. *)
Definition round_addresses (addr : Z) (n : nat) : list Z :=
  map (fun i => uint32 (addr + 16 * Z.of_nat i)) (seq 0 n).

(** ** Example platforms

    A simulated controller at base address 0 that is always ready for a
    command byte, never busy, and announces a received byte exactly while
    one is requested and not yet dequeued.  The [i]-th byte dequeued is
    [bytes i]; the cycle counter starts at [t0] and advances by [tick]
    with every access. *)

Definition sim_level (tr : trace) : Z :=
  Z.of_nat (occurrences 0x100 (reg_writes 8 tr))
  - Z.of_nat (length (reg_reads 8 tr)).

Definition sim_platform (bytes : nat -> Z) (t0 tick : Z) : Platform :=
  {| RVSYS_ADDR_SPIFLASH := 0;
     RVLIB_CPU_FREQ_MHZ := 50;
     hw_reg tr a :=
       if a =? 8 then bytes (length (reg_reads 8 tr))
       else if 0 <? sim_level tr then 6 else 2;
     hw_cycle tr := t0 + tick * Z.of_nat (length tr) |}.

(** A controller that holds a stale received byte 0xAB: READ_READY is set
    although nothing was requested, and CMD_READY is clear. *)
Definition stale_platform : Platform :=
  {| RVSYS_ADDR_SPIFLASH := 0;
     RVLIB_CPU_FREQ_MHZ := 50;
     hw_reg tr a := if a =? 8 then 0xAB else 4;
     hw_cycle tr := 0 |}.

(** Byte streams: the same byte every time; READY for the pre-flight query
    and busy afterwards; busy for two queries and READY from the third. *)
Definition always (flags : Z) : nat -> Z := fun _ => flags.
Definition ready_then_busy : nat -> Z :=
  fun i => match i with O => 0x80 | _ => 0 end.
Definition ready_at_third : nat -> Z :=
  fun i => if (i <? 2)%nat then 0 else 0x80.

(** The devices used below, named after the flag byte they answer with. *)
Definition echo_device : Platform := sim_platform (always 0x5A) 0 1.
Definition busy_device : Platform := sim_platform (always 0) 0 1.
Definition ready_device : Platform := sim_platform (always 0x80) 0 1.
Definition slow_device : Platform := sim_platform ready_at_third 0 1.
Definition stalling_device : Platform :=
  sim_platform ready_then_busy 0 1000000.
Definition stuck_device : Platform := sim_platform (always 0) 0 100000.
Definition program_error_device : Platform := sim_platform (always 0x90) 0 1.
Definition erase_error_device : Platform := sim_platform (always 0xA0) 0 1.

(** A flash device that answers READ ID with 0x20, 0xBA, 0x17. *)
Definition id_device : Platform :=
  sim_platform (fun i => nth i [0x20; 0xBA; 0x17] 0) 0 1.

(** A flash device that reports READY to the flag query of the
    initialisation and then answers READ ID with 0x20, 0xBA, 0x17. *)
Definition ready_id_device : Platform :=
  sim_platform (fun i => nth i [0x80; 0x20; 0xBA; 0x17] 0) 0 1.

(** A flash device that stays busy, on a controller whose cycle counter
    stands 100 cycles before the 64-bit overflow at the start and advances
    by 20000 cycles with every access. *)
Definition wrapping_device : Platform :=
  sim_platform (always 0) (2 ^ 64 - 100) 20000.

(** A controller that shows CMD_READY from the third read of STATUS on. *)
Definition late_ready_controller : Platform :=
  {| RVSYS_ADDR_SPIFLASH := 0;
     RVLIB_CPU_FREQ_MHZ := 50;
     hw_reg tr a := if (length (reg_reads 0 tr) <? 2)%nat then 0 else 2;
     hw_cycle tr := 0 |}.

(** A flash device that is ready, on a controller whose cycle counter
    stands at 0x0102030405060708 at the start. *)
Definition timestamp_device : Platform :=
  sim_platform (always 0x80) 0x0102030405060708 1000000.

(** A flash device that answers a read with the second test page as
    programmed at cycle count 0x0102030405060708. *)
Definition test_page_device : Platform :=
  sim_platform
    (fun i => nth i (cstr "Another testpage" ++ [8; 7; 6; 5; 4; 3; 2; 1])
                0xff) 0 1.

(** ** Basic facts *)

Lemma bind_Some {A B} (m : M A) (k : A -> M B) tr b tr' :
  bind m k tr = Some (b, tr') <->
  exists a tr1, m tr = Some (a, tr1) /\ k a tr1 = Some (b, tr').
Proof.
  unfold bind. split.
  - destruct (m tr) as [[a tr1]|]; [|discriminate].
    intros H. exists a, tr1. auto.
  - intros (a & tr1 & -> & H). exact H.
Qed.

Lemma ret_Some {A} (a b : A) tr tr' :
  ret a tr = Some (b, tr') <-> b = a /\ tr' = tr.
Proof. unfold ret. split; [intros [= -> ->]; auto | intros [-> ->]; auto]. Qed.

Lemma reg_writes_app a tr1 tr2 :
  reg_writes a (tr1 ++ tr2) = reg_writes a tr1 ++ reg_writes a tr2.
Proof.
  induction tr1 as [|[a' v|a' v|v] tr1 IH]; simpl; auto.
  destruct (a' =? a); simpl; congruence.
Qed.

Lemma reg_reads_app a tr1 tr2 :
  reg_reads a (tr1 ++ tr2) = reg_reads a tr1 ++ reg_reads a tr2.
Proof.
  induction tr1 as [|[a' v|a' v|v] tr1 IH]; simpl; auto.
  destruct (a' =? a); simpl; congruence.
Qed.

Lemma cycle_reads_app tr1 tr2 :
  cycle_reads (tr1 ++ tr2) = cycle_reads tr1 ++ cycle_reads tr2.
Proof.
  induction tr1 as [|[a' v|a' v|v] tr1 IH]; simpl; auto. congruence.
Qed.

Lemma land_shiftl_1 x b :
  0 <= b -> (Z.land x (Z.shiftl 1 b) =? 0) = negb (Z.testbit x b).
Proof.
  intros Hb. rewrite Z.shiftl_1_l.
  assert (E : Z.land x (2 ^ b) = if Z.testbit x b then 2 ^ b else 0).
  { apply Z.bits_inj'. intros n Hn.
    rewrite Z.land_spec, Z.pow2_bits_eqb by lia.
    destruct (Z.eqb_spec b n) as [->|Hne].
    - destruct (Z.testbit x n); simpl.
      + rewrite Z.pow2_bits_eqb by lia. symmetry. apply Z.eqb_refl.
      + symmetry. apply Z.bits_0.
    - rewrite andb_false_r.
      destruct (Z.testbit x b).
      + rewrite Z.pow2_bits_eqb by lia. symmetry. apply Z.eqb_neq. exact Hne.
      + symmetry. apply Z.bits_0. }
  rewrite E. destruct (Z.testbit x b); simpl.
  - apply Z.eqb_neq. assert (0 < 2 ^ b) by (apply Z.pow_pos_nonneg; lia). lia.
  - reflexivity.
Qed.

Lemma bit_set_testbit x b : 0 <= b -> bit_set x b = Z.testbit x b.
Proof.
  intros Hb. unfold bit_set. rewrite land_shiftl_1 by exact Hb.
  apply negb_involutive.
Qed.

Lemma last_two {A} (l : list A) a b : last (l ++ [a; b]) = Some b.
Proof.
  change [a; b] with ([a] ++ [b]). rewrite app_assoc. apply last_snoc.
Qed.

Lemma uint8_range x : 0 <= uint8 x < 256.
Proof. unfold uint8. apply Z.mod_pos_bound. lia. Qed.

Section Properties.
Context {P : Platform}.

(** *** The three registers are distinct *)

Lemma status_neq_data : (ADDR_STATUS =? ADDR_DATA) = false.
Proof. apply Z.eqb_neq. unfold ADDR_STATUS, ADDR_DATA,
  RVLIB_SPIFLASH_REG_STATUS, RVLIB_SPIFLASH_REG_DATA. lia. Qed.

Lemma status_neq_slavesel : (ADDR_STATUS =? ADDR_SLAVESEL) = false.
Proof. apply Z.eqb_neq. unfold ADDR_STATUS, ADDR_SLAVESEL,
  RVLIB_SPIFLASH_REG_STATUS, RVLIB_SPIFLASH_REG_SLAVESEL. lia. Qed.

Lemma data_neq_slavesel : (ADDR_DATA =? ADDR_SLAVESEL) = false.
Proof. apply Z.eqb_neq. unfold ADDR_DATA, ADDR_SLAVESEL,
  RVLIB_SPIFLASH_REG_DATA, RVLIB_SPIFLASH_REG_SLAVESEL. lia. Qed.

Lemma slavesel_neq_data : (ADDR_SLAVESEL =? ADDR_DATA) = false.
Proof. rewrite Z.eqb_sym. apply data_neq_slavesel. Qed.

(** *** Footprints *)

Lemma footprint_nil : footprint [] [] [] [] [].
Proof. repeat split. Qed.

Lemma footprint_app e1 e2 dw1 dr1 ss1 cy1 dw2 dr2 ss2 cy2 :
  footprint e1 dw1 dr1 ss1 cy1 ->
  footprint e2 dw2 dr2 ss2 cy2 ->
  footprint (e1 ++ e2) (dw1 ++ dw2) (dr1 ++ dr2) (ss1 ++ ss2) (cy1 ++ cy2).
Proof.
  intros (A1 & B1 & C1 & D1) (A2 & B2 & C2 & D2).
  unfold footprint.
  rewrite !reg_writes_app, reg_reads_app, cycle_reads_app. 
  rewrite A1, B1, C1, D1, A2, B2, C2, D2. auto.
Qed.

Lemma footprint_status s : footprint [RegRead ADDR_STATUS s] [] [] [] [].
Proof.
  unfold footprint. simpl. rewrite status_neq_data. auto.
Qed.

Lemma footprint_data_write v : footprint [RegWrite ADDR_DATA v] [v] [] [] [].
Proof.
  unfold footprint. simpl. rewrite Z.eqb_refl, data_neq_slavesel. auto.
Qed.

Lemma footprint_data_read v : footprint [RegRead ADDR_DATA v] [] [v] [] [].
Proof.
  unfold footprint. simpl. rewrite Z.eqb_refl. auto.
Qed.

Lemma footprint_deselect v :
  footprint [RegWrite ADDR_SLAVESEL v] [] [] [v] [].
Proof.
  unfold footprint. simpl. rewrite Z.eqb_refl, slavesel_neq_data. auto.
Qed.

Lemma footprint_cycle v : footprint [CycleRead v] [] [] [] [v].
Proof. repeat split. Qed.

(** *** Primitives *)

Lemma read_reg_Some addr tr v tr' :
  rvlib_hw_read_reg addr tr = Some (v, tr') <->
  v = uint32 (hw_reg tr addr) /\ tr' = tr ++ [RegRead addr v].
Proof.
  unfold rvlib_hw_read_reg. split.
  - intros [= <- <-]. auto.
  - intros [-> ->]. reflexivity.
Qed.

Lemma write_reg_Some addr x tr u tr' :
  rvlib_hw_write_reg addr x tr = Some (u, tr') <->
  tr' = tr ++ [RegWrite addr x].
Proof.
  unfold rvlib_hw_write_reg. destruct u. split.
  - intros [= <-]. auto.
  - intros ->. reflexivity.
Qed.

Lemma cycle_counter_Some tr v tr' :
  get_cycle_counter tr = Some (v, tr') <->
  v = uint64 (hw_cycle tr) /\ tr' = tr ++ [CycleRead v].
Proof.
  unfold get_cycle_counter. split.
  - intros [= <- <-]. auto.
  - intros [-> ->]. reflexivity.
Qed.


(** *** Taking a run apart *)

Ltac run_inv :=
  repeat match goal with
  | H : bind _ _ _ = Some _ |- _ =>
      apply bind_Some in H; destruct H as (? & ? & ? & H)
  | H : ret _ _ = Some _ |- _ =>
      apply ret_Some in H; destruct H as [? ?]; subst
  | H : rvlib_hw_read_reg _ _ = Some _ |- _ =>
      apply read_reg_Some in H; destruct H as [? ?]
  | H : rvlib_hw_write_reg _ _ _ = Some _ |- _ =>
      apply write_reg_Some in H
  | H : get_cycle_counter _ = Some _ |- _ =>
      apply cycle_counter_Some in H; destruct H as [? ?]
  | H : stuck _ = Some _ |- _ => discriminate H
  | u : unit |- _ => destruct u
  end.

Lemma busy_clear s :
  (Z.land s (Z.shiftl 1 RVLIB_SPIFLASH_BIT_STATUS_BUSY) =? 0) = true ->
  bit_set s RVLIB_SPIFLASH_BIT_STATUS_BUSY = false.
Proof. intros H. unfold bit_set. rewrite H. reflexivity. Qed.

Lemma busy_set s :
  (Z.land s (Z.shiftl 1 RVLIB_SPIFLASH_BIT_STATUS_BUSY) =? 0) = false ->
  bit_set s RVLIB_SPIFLASH_BIT_STATUS_BUSY = true.
Proof. intros H. unfold bit_set. rewrite H. reflexivity. Qed.

(** *** Bus primitives *)

Lemma spi_send_byte_wait_run k : forall tr u tr',
  spi_send_byte_wait k tr = Some (u, tr') ->
  exists evs, tr' = tr ++ evs /\ footprint evs [] [] [] [].
Proof.
  induction k as [|k IH]; intros tr u tr' H; simpl in H; run_inv.
  destruct (bit_set _ _).
  - run_inv. eexists. split; [reflexivity|]. apply footprint_status.
  - apply IH in H as (evs & -> & F). subst.
    exists (RegRead ADDR_STATUS (uint32 (hw_reg tr ADDR_STATUS)) :: evs).
    split; [rewrite <- app_assoc; reflexivity|].
    apply (footprint_app [_] evs _ _ _ _ _ _ _ _ (footprint_status _) F).
Qed.

Lemma spi_send_byte_run fuel b tr u tr' :
  spi_send_byte fuel b tr = Some (u, tr') ->
  exists evs, tr' = tr ++ evs /\ footprint evs [uint8 b] [] [] [].
Proof.
  unfold spi_send_byte. intros H. run_inv.
  apply spi_send_byte_wait_run in H0 as (evs & -> & F). subst.
  exists (evs ++ [RegWrite ADDR_DATA (uint8 b)]).
  split; [rewrite <- app_assoc; reflexivity|].
  apply (footprint_app _ _ _ _ _ _ _ _ _ _ F (footprint_data_write _)).
Qed.

Lemma spi_end_transaction_wait_run k : forall tr u tr',
  spi_end_transaction_wait k tr = Some (u, tr') ->
  exists evs s,
    tr' = tr ++ evs ++ [RegRead ADDR_STATUS s] /\
    bit_set s RVLIB_SPIFLASH_BIT_STATUS_BUSY = false /\
    footprint evs [] [] [] [].
Proof.
  induction k as [|k IH]; intros tr u tr' H; simpl in H; run_inv.
  destruct (Z.land _ _ =? 0) eqn:Hb.
  - run_inv. exists [], (uint32 (hw_reg tr ADDR_STATUS)).
    split; [reflexivity|]. split; [apply busy_clear; exact Hb|].
    apply footprint_nil.
  - apply IH in H as (evs & s & -> & Hs & F). subst.
    exists (RegRead ADDR_STATUS (uint32 (hw_reg tr ADDR_STATUS)) :: evs), s.
    split; [rewrite <- app_assoc; reflexivity|]. split; [exact Hs|].
    apply (footprint_app [_] evs _ _ _ _ _ _ _ _ (footprint_status _) F).
Qed.

Lemma spi_end_transaction_run fuel tr u tr' :
  spi_end_transaction fuel tr = Some (u, tr') ->
  exists evs s,
    tr' = tr ++ evs ++ [RegRead ADDR_STATUS s; RegWrite ADDR_SLAVESEL 0] /\
    bit_set s RVLIB_SPIFLASH_BIT_STATUS_BUSY = false /\
    footprint evs [] [] [] [].
Proof.
  unfold spi_end_transaction. intros H. run_inv.
  apply spi_end_transaction_wait_run in H0 as (evs & s & -> & Hs & F). subst.
  exists evs, s. split; [|auto].
  rewrite <- !app_assoc. reflexivity.
Qed.

Lemma spi_end_transaction_footprint fuel tr u tr' :
  spi_end_transaction fuel tr = Some (u, tr') ->
  exists evs, tr' = tr ++ evs /\ footprint evs [] [] [0] [].
Proof.
  intros H. apply spi_end_transaction_run in H as (evs & s & -> & _ & F).
  eexists. split; [reflexivity|].
  change [RegRead ADDR_STATUS s; RegWrite ADDR_SLAVESEL 0]
    with ([RegRead ADDR_STATUS s] ++ [RegWrite ADDR_SLAVESEL 0]).
  apply (footprint_app _ _ _ _ _ _ _ _ _ _ F).
  apply (footprint_app _ _ _ _ _ _ _ _ _ _
           (footprint_status s) (footprint_deselect 0)).
Qed.

(** The request half of one iteration of the spi_read_bytes loop. *)
Lemma request_step status ncmd tr x tr1 :
  (if (0 <? ncmd)%nat then
     if bit_set status RVLIB_SPIFLASH_BIT_STATUS_CMDRDY then
       rvlib_hw_write_reg ADDR_DATA DUMMY_REQUEST ;; ret (ncmd - 1)%nat
     else ret ncmd
   else ret ncmd) tr = Some (x, tr1) ->
  exists evs,
    tr1 = tr ++ evs /\ (x <= ncmd)%nat /\
    footprint evs (repeat DUMMY_REQUEST (ncmd - x)) [] [] [].
Proof.
  intros H.
  destruct (Nat.ltb_spec 0 ncmd) as [Hn|Hn];
    [destruct (bit_set _ _)|]; run_inv.
  - exists [RegWrite ADDR_DATA DUMMY_REQUEST].
    split; [assumption|]. split; [lia|].
    replace (ncmd - (ncmd - 1))%nat with 1%nat by lia.
    apply footprint_data_write.
  - exists []. rewrite app_nil_r, Nat.sub_diag.
    split; [reflexivity|]. split; [lia|]. apply footprint_nil.
  - exists []. rewrite app_nil_r, Nat.sub_diag.
    split; [reflexivity|]. split; [lia|]. apply footprint_nil.
Qed.

Lemma store_byte_Some buf p d buf1 tr tr1 :
  store_byte buf p d tr = Some (buf1, tr1) ->
  (p < length buf)%nat /\ buf1 = <[p := uint8 d]> buf /\ tr1 = tr.
Proof.
  unfold store_byte. destruct (Nat.ltb_spec p (length buf)) as [Hp|Hp];
    intros H; run_inv; auto.
Qed.

Lemma spi_read_bytes_loop_run k n : forall p ncmd buf tr p' ncmd' buf' tr',
  (p <= n)%nat ->
  spi_read_bytes_loop k n p ncmd buf tr = Some ((p', ncmd', buf'), tr') ->
  exists evs ds,
    tr' = tr ++ evs /\ p' = n /\ (ncmd' <= ncmd)%nat /\
    footprint evs (repeat DUMMY_REQUEST (ncmd - ncmd')) ds [] [] /\
    length ds = (n - p)%nat /\
    buf' = take p buf ++ map uint8 ds ++ drop n buf.
Proof.
  assert (Hexit : forall p ncmd buf tr p' ncmd' buf' tr',
    (p <= n)%nat -> ~ (p < n)%nat ->
    ret (p, ncmd, buf) tr = Some ((p', ncmd', buf'), tr') ->
    exists evs ds,
      tr' = tr ++ evs /\ p' = n /\ (ncmd' <= ncmd)%nat /\
      footprint evs (repeat DUMMY_REQUEST (ncmd - ncmd')) ds [] [] /\
      length ds = (n - p)%nat /\
      buf' = take p buf ++ map uint8 ds ++ drop n buf).
  { intros p ncmd buf tr p' ncmd' buf' tr' Hle Hge H.
    apply ret_Some in H as [[= -> -> ->] ->].
    exists [], []. rewrite app_nil_r, Nat.sub_diag.
    assert (p = n) as -> by lia.
    split; [reflexivity|]. split; [reflexivity|]. split; [lia|].
    split; [apply footprint_nil|]. split; [simpl; lia|].
    simpl. symmetry. apply take_drop. }
  induction k as [|k IH]; intros p ncmd buf tr p' ncmd' buf' tr' Hle H;
    simpl in H; destruct (Nat.ltb_spec p n) as [Hlt|Hge];
    try (eapply Hexit; eauto; lia); [discriminate H|].
  apply bind_Some in H as (status & tr1 & Hst & H).
  apply read_reg_Some in Hst as [Hstatus ->].
  apply bind_Some in H as (x & tr2 & Hreq & H).
  apply request_step in Hreq as (e1 & -> & Hx & F1).
  destruct (bit_set status RVLIB_SPIFLASH_BIT_STATUS_READRDY).
  - apply bind_Some in H as (d & tr3 & Hd & H).
    apply read_reg_Some in Hd as [_ ->].
    apply bind_Some in H as (buf1 & tr4 & Hsb & H).
    apply store_byte_Some in Hsb as (Hp & -> & ->).
    apply IH in H as (e2 & ds & -> & -> & Hn2 & F2 & Hlen & ->); [|lia].
    exists ([RegRead ADDR_STATUS status] ++ e1 ++ [RegRead ADDR_DATA d] ++ e2),
           (d :: ds).
    split; [rewrite <- !app_assoc; reflexivity|].
    split; [reflexivity|]. split; [lia|]. split; [|split].
    + pose proof (footprint_app _ _ _ _ _ _ _ _ _ _ (footprint_status status)
        (footprint_app _ _ _ _ _ _ _ _ _ _ F1
          (footprint_app _ _ _ _ _ _ _ _ _ _ (footprint_data_read d) F2)))
        as F.
      simpl in F. rewrite <- repeat_app in F.
      replace (ncmd - x + (x - ncmd'))%nat with (ncmd - ncmd')%nat in F by lia.
      exact F.
    + simpl. lia.
    + rewrite Nat.add_1_r.
      rewrite (take_S_r _ p (uint8 d))
        by (apply list_lookup_insert_eq; exact Hp).
      rewrite take_insert_ge by lia.
      rewrite drop_insert_lt by lia.
      rewrite <- app_assoc. reflexivity.
  - apply IH in H as (e2 & ds & -> & -> & Hn2 & F2 & Hlen & ->); [|lia].
    exists ([RegRead ADDR_STATUS status] ++ e1 ++ e2), ds.
    split; [rewrite <- !app_assoc; reflexivity|].
    split; [reflexivity|]. split; [lia|]. split; [|split]; auto.
    pose proof (footprint_app _ _ _ _ _ _ _ _ _ _ (footprint_status status)
      (footprint_app _ _ _ _ _ _ _ _ _ _ F1 F2)) as F.
    simpl in F. rewrite <- repeat_app in F.
    replace (ncmd - x + (x - ncmd'))%nat with (ncmd - ncmd')%nat in F by lia.
    exact F.
Qed.


(** *** Accounting of requested and dequeued bytes *)

Lemma occurrences_app v l1 l2 :
  occurrences v (l1 ++ l2) = (occurrences v l1 + occurrences v l2)%nat.
Proof. unfold occurrences. rewrite List.filter_app. apply length_app. Qed.

Lemma occurrences_repeat v m : occurrences v (repeat v m) = m.
Proof.
  unfold occurrences. induction m as [|m IH]; simpl; [reflexivity|].
  rewrite Z.eqb_refl. simpl. congruence.
Qed.

Lemma fifo_level_app tr evs dw dr ss cy :
  footprint evs dw dr ss cy ->
  fifo_level (tr ++ evs)
  = fifo_level tr + Z.of_nat (occurrences DUMMY_REQUEST dw)
    - Z.of_nat (length dr).
Proof.
  intros (A & B & _ & _). unfold fifo_level, dummy_requests.
  rewrite reg_writes_app, reg_reads_app, occurrences_app, length_app, A, B.
  lia.
Qed.

Lemma spi_read_bytes_loop_causal k n :
  causal_controller ->
  forall p ncmd buf tr p' ncmd' buf' tr',
    (p < n)%nat -> (ncmd <= n)%nat ->
    fifo_level tr = Z.of_nat (n - ncmd) - Z.of_nat p ->
    spi_read_bytes_loop k n p ncmd buf tr = Some ((p', ncmd', buf'), tr') ->
    ncmd' = 0%nat.
Proof.
  intros Hc.
  induction k as [|k IH]; intros p ncmd buf tr p' ncmd' buf' tr' Hlt Hn Hlev H;
    simpl in H; destruct (Nat.ltb_spec p n) as [_|Hge]; try lia;
    [discriminate H|].
  apply bind_Some in H as (status & tr1 & Hst & H).
  apply read_reg_Some in Hst as [Hstatus ->].
  apply bind_Some in H as (x & tr2 & Hreq & H).
  apply request_step in Hreq as (e1 & -> & Hx & F1).
  assert (L2 : fifo_level ((tr ++ [RegRead ADDR_STATUS status]) ++ e1)
               = Z.of_nat (n - x) - Z.of_nat p).
  { rewrite (fifo_level_app _ _ _ _ _ _ F1).
    rewrite (fifo_level_app _ _ _ _ _ _ (footprint_status status)).
    rewrite occurrences_repeat.
    change (occurrences DUMMY_REQUEST []) with 0%nat.
    change (@length Z []) with 0%nat. lia. }
  destruct (bit_set status RVLIB_SPIFLASH_BIT_STATUS_READRDY) eqn:Hrr.
  - rewrite Hstatus in Hrr. apply Hc in Hrr.
    apply bind_Some in H as (d & tr3 & Hd & H).
    apply read_reg_Some in Hd as [_ ->].
    apply bind_Some in H as (buf1 & tr4 & Hsb & H).
    apply store_byte_Some in Hsb as (Hp & -> & ->).
    destruct (Nat.ltb_spec (p + 1) n) as [Hlt'|Hlast].
    + eapply IH; [exact Hlt'| |  |exact H]; [lia|].
      rewrite (fifo_level_app _ _ _ _ _ _ (footprint_data_read d)).
      rewrite L2.
      change (occurrences DUMMY_REQUEST []) with 0%nat.
      change (@length Z [d]) with 1%nat. lia.
    + apply spi_read_bytes_loop_run in H as (? & ? & _ & _ & Hle' & _);
        lia.
  - eapply IH; [exact Hlt| | |exact H]; [lia|exact L2].
Qed.


(** Footprint of a concatenation of runs, assembled from the footprints
    of its parts. *)
Ltac fp_build e :=
  lazymatch e with
  | ?e1 ++ ?e2 =>
      let p1 := fp_build e1 in
      let p2 := fp_build e2 in
      constr:(footprint_app _ _ _ _ _ _ _ _ _ _ p1 p2)
  | [RegRead ADDR_STATUS ?s] => constr:(footprint_status s)
  | [RegRead ADDR_DATA ?d] => constr:(footprint_data_read d)
  | [RegWrite ADDR_DATA ?v] => constr:(footprint_data_write v)
  | [RegWrite ADDR_SLAVESEL ?v] => constr:(footprint_deselect v)
  | [CycleRead ?v] => constr:(footprint_cycle v)
  | @nil event => constr:(footprint_nil)
  | _ => lazymatch goal with H : footprint e _ _ _ _ |- _ => constr:(H) end
  end.

Ltac fp :=
  lazymatch goal with
  | |- footprint ?e _ _ _ _ => let p := fp_build e in exact p
  end.

Ltac trace_eq := rewrite <- ?app_assoc; reflexivity.

(** *** Command framing *)

Lemma spi_read_bytes_run fuel buf n tr buf' tr' :
  spi_read_bytes fuel buf n tr = Some (buf', tr') ->
  exists evs ds m,
    tr' = tr ++ evs /\
    footprint evs (repeat DUMMY_REQUEST m) ds [] [] /\
    (m <= n)%nat /\ length ds = n /\
    buf' = map uint8 ds ++ drop n buf.
Proof.
  unfold spi_read_bytes. intros H. run_inv.
  destruct x as [[p ncmd] b]. simpl.
  apply spi_read_bytes_loop_run in H0
    as (evs & ds & -> & -> & Hle & F & Hlen & ->); [|lia].
  exists evs, ds, (n - ncmd)%nat.
  split; [reflexivity|]. split; [exact F|]. split; [lia|].
  split; [lia|]. reflexivity.
Qed.

Lemma spi_command_simple_run fuel cmd tr u tr' :
  spi_command_simple fuel cmd tr = Some (u, tr') ->
  exists evs, tr' = tr ++ evs /\ footprint evs [uint8 cmd] [] [0] [].
Proof.
  unfold spi_command_simple. intros H. run_inv.
  apply spi_send_byte_run in H0 as (e1 & -> & F1).
  apply spi_end_transaction_footprint in H as (e2 & -> & F2).
  exists (e1 ++ e2). split; [trace_eq|fp].
Qed.

Lemma spi_command_read_run fuel cmd buf n tr buf' tr' :
  spi_command_read fuel cmd buf n tr = Some (buf', tr') ->
  exists evs ds m,
    tr' = tr ++ evs /\
    footprint evs (uint8 cmd :: repeat DUMMY_REQUEST m) ds [0] [] /\
    (m <= n)%nat /\ length ds = n /\
    buf' = map uint8 ds ++ drop n buf.
Proof.
  unfold spi_command_read. intros H. run_inv.
  apply spi_send_byte_run in H0 as (e1 & -> & F1).
  apply spi_read_bytes_run in H1 as (e2 & ds & m & -> & F2 & Hm & Hlen & ->).
  apply spi_end_transaction_footprint in H2 as (e3 & -> & F3).
  exists (e1 ++ e2 ++ e3), ds, m.
  split; [trace_eq|]. split; [|auto].
  rewrite <- (app_nil_r (repeat _ _)), <- (app_nil_r ds). fp.
Qed.

Lemma spi_send_data_run fuel data : forall todo p tr u tr',
  spi_send_data fuel data p todo tr = Some (u, tr') ->
  exists evs,
    tr' = tr ++ evs /\
    footprint evs (map uint8 (take todo (drop p data))) [] [] [].
Proof.
  induction todo as [|todo IH]; intros p tr u tr' H; simpl in H.
  - run_inv. exists []. rewrite app_nil_r. split; [reflexivity|].
    rewrite take_0. apply footprint_nil.
  - destruct (data !! p) as [b|] eqn:Hb; [|discriminate H]. run_inv.
    apply spi_send_byte_run in H0 as (e1 & -> & F1).
    apply IH in H as (e2 & -> & F2).
    exists (e1 ++ e2). split; [trace_eq|].
    rewrite (drop_S _ _ _ Hb). simpl. rewrite <- Nat.add_1_r. fp.
Qed.

Lemma spi_command_addr_write_run fuel cmd addr data n tr u tr' :
  spi_command_addr_write fuel cmd addr data n tr = Some (u, tr') ->
  exists evs,
    tr' = tr ++ evs /\
    footprint evs
      (uint8 cmd :: uint8 (Z.shiftr addr 16) :: uint8 (Z.shiftr addr 8)
         :: uint8 addr :: map uint8 (take n data)) [] [0] [].
Proof.
  unfold spi_command_addr_write. intros H. run_inv.
  apply spi_send_byte_run in H0 as (e1 & -> & F1).
  apply spi_send_byte_run in H1 as (e2 & -> & F2).
  apply spi_send_byte_run in H2 as (e3 & -> & F3).
  apply spi_send_byte_run in H3 as (e4 & -> & F4).
  apply spi_send_data_run in H4 as (e5 & -> & F5).
  apply spi_end_transaction_footprint in H as (e6 & -> & F6).
  exists (e1 ++ e2 ++ e3 ++ e4 ++ e5 ++ e6). split; [trace_eq|].
  rewrite <- (app_nil_r (map _ _)). fp.
Qed.

Lemma spi_command_addr_read_run fuel cmd addr buf n tr buf' tr' :
  spi_command_addr_read fuel cmd addr buf n tr = Some (buf', tr') ->
  exists evs ds m,
    tr' = tr ++ evs /\
    footprint evs
      (uint8 cmd :: uint8 (Z.shiftr addr 16) :: uint8 (Z.shiftr addr 8)
         :: uint8 addr :: repeat DUMMY_REQUEST m) ds [0] [] /\
    (m <= n)%nat /\ length ds = n /\
    buf' = map uint8 ds ++ drop n buf.
Proof.
  unfold spi_command_addr_read. intros H. run_inv.
  apply spi_send_byte_run in H0 as (e1 & -> & F1).
  apply spi_send_byte_run in H1 as (e2 & -> & F2).
  apply spi_send_byte_run in H2 as (e3 & -> & F3).
  apply spi_send_byte_run in H3 as (e4 & -> & F4).
  apply spi_read_bytes_run in H4 as (e5 & ds & m & -> & F5 & Hm & Hlen & ->).
  apply spi_end_transaction_footprint in H5 as (e6 & -> & F6).
  exists (e1 ++ e2 ++ e3 ++ e4 ++ e5 ++ e6), ds, m.
  split; [trace_eq|]. split; [|auto].
  rewrite <- (app_nil_r (repeat _ _)), <- (app_nil_r ds). fp.
Qed.

Lemma deselect_last fuel tr e1 dw dr cy u tr' :
  footprint e1 dw dr [] cy ->
  spi_end_transaction fuel (tr ++ e1) = Some (u, tr') ->
  exists before evs s,
    spi_end_transaction fuel (tr ++ before) = Some (tt, tr') /\
    tr' = tr ++ evs ++ [RegRead ADDR_STATUS s; RegWrite ADDR_SLAVESEL 0] /\
    bit_set s RVLIB_SPIFLASH_BIT_STATUS_BUSY = false /\
    reg_writes ADDR_SLAVESEL evs = [].
Proof.
  intros (_ & _ & S1 & _) H. destruct u.
  pose proof H as H'.
  apply spi_end_transaction_run in H' as (e2 & s & -> & Hs & (_ & _ & S2 & _)).
  exists e1, (e1 ++ e2), s.
  split; [exact H|]. split; [trace_eq|]. split; [exact Hs|].
  rewrite reg_writes_app, S1, S2. reflexivity.
Qed.

(** *** The byte-reading loop *)

Lemma responsive_causal : responsive_controller -> causal_controller.
Proof. intros Hr tr H. apply (Hr tr). exact H. Qed.

(** One iteration of the loop, while bytes are missing. *)
Lemma spi_read_bytes_loop_step k n p ncmd buf tr :
  (p < n)%nat ->
  spi_read_bytes_loop (S k) n p ncmd buf tr
  = let status := uint32 (hw_reg tr ADDR_STATUS) in
    let tr1 := tr ++ [RegRead ADDR_STATUS status] in
    let issue :=
      (0 <? ncmd)%nat && bit_set status RVLIB_SPIFLASH_BIT_STATUS_CMDRDY in
    let ncmd' := if issue then (ncmd - 1)%nat else ncmd in
    let tr2 :=
      if issue then tr1 ++ [RegWrite ADDR_DATA DUMMY_REQUEST] else tr1 in
    if bit_set status RVLIB_SPIFLASH_BIT_STATUS_READRDY then
      let data := uint32 (hw_reg tr2 ADDR_DATA) in
      if (p <? length buf)%nat then
        spi_read_bytes_loop k n (p + 1) ncmd' (<[p := uint8 data]> buf)
          (tr2 ++ [RegRead ADDR_DATA data])
      else None
    else spi_read_bytes_loop k n p ncmd' buf tr2.
Proof.
  intros Hlt. simpl.
  destruct (Nat.ltb_spec p n) as [_|Hge]; [|lia].
  unfold bind at 1. unfold rvlib_hw_read_reg at 1. cbv zeta.
  destruct (0 <? ncmd)%nat;
    destruct (bit_set (uint32 (hw_reg tr ADDR_STATUS))
                RVLIB_SPIFLASH_BIT_STATUS_CMDRDY);
    destruct (bit_set (uint32 (hw_reg tr ADDR_STATUS))
                RVLIB_SPIFLASH_BIT_STATUS_READRDY);
    cbn [andb]; unfold bind, rvlib_hw_write_reg, rvlib_hw_read_reg, ret,
      store_byte; cbv zeta;
    try reflexivity;
    destruct (p <? length buf)%nat; reflexivity.
Qed.

(** On a responsive controller the loop exits within two iterations per
    missing byte. *)
Lemma spi_read_bytes_loop_returns n :
  responsive_controller ->
  forall k p ncmd buf tr,
    (p <= n)%nat -> (n <= length buf)%nat -> (ncmd <= n)%nat ->
    fifo_level tr = Z.of_nat (n - ncmd) - Z.of_nat p ->
    0 <= fifo_level tr ->
    (2 * (n - p) <= k + (if (0 <? fifo_level tr)%Z then 1 else 0))%nat ->
    exists st tr', spi_read_bytes_loop k n p ncmd buf tr = Some (st, tr').
Proof.
  intros Hresp.
  assert (Hdone : forall k ncmd buf tr,
    exists st tr', spi_read_bytes_loop k n n ncmd buf tr = Some (st, tr')).
  { intros k ncmd buf tr. exists (n, ncmd, buf), tr.
    destruct k; simpl; rewrite Nat.ltb_irrefl; reflexivity. }
  assert (Hlevel : forall (tr : trace) status (req : bool) (rd : option Z),
    fifo_level
      (((tr ++ [RegRead ADDR_STATUS status])
          ++ (if req then [RegWrite ADDR_DATA DUMMY_REQUEST] else []))
         ++ (match rd with Some d => [RegRead ADDR_DATA d] | None => [] end))
    = fifo_level tr + (if req then 1 else 0)
      - (match rd with Some _ => 1 | None => 0 end)).
  { intros tr status req rd.
    assert (F1 : footprint (if req then [RegWrite ADDR_DATA DUMMY_REQUEST]
                            else [])
                   (if req then [DUMMY_REQUEST] else []) [] [] [])
      by (destruct req; [apply footprint_data_write|apply footprint_nil]).
    assert (F2 : footprint (match rd with
                            | Some d => [RegRead ADDR_DATA d]
                            | None => []
                            end)
                   [] (match rd with Some d => [d] | None => [] end) [] [])
      by (destruct rd; [apply footprint_data_read|apply footprint_nil]).
    rewrite (fifo_level_app _ _ _ _ _ _ F2), (fifo_level_app _ _ _ _ _ _ F1),
      (fifo_level_app _ _ _ _ _ _ (footprint_status status)).
    destruct req, rd; unfold occurrences; simpl; lia. }
  induction k as [|k IH]; intros p ncmd buf tr Hp Hbuf Hn Hlev Hpos Hfuel.
  - assert (p = n) as ->; [|apply Hdone].
    revert Hfuel. destruct (Z.ltb_spec 0 (fifo_level tr)); lia.
  - destruct (Nat.eq_dec p n) as [->|Hne]; [apply Hdone|].
    rewrite spi_read_bytes_loop_step by lia. cbv zeta.
    destruct (Hresp tr) as [Hcmd Hrr]. cbv zeta in Hcmd, Hrr.
    rewrite Hcmd, andb_true_r.
    set (status := uint32 (hw_reg tr ADDR_STATUS)) in *.
    revert Hfuel.
    destruct (Z.ltb_spec 0 (fifo_level tr)) as [Hwait|Hempty]; intros Hfuel.
    + (* a byte is waiting: it is dequeued in this iteration *)
      rewrite (proj2 Hrr Hwait).
      destruct (Nat.ltb_spec p (length buf)) as [_|Hout]; [|lia].
      destruct (Nat.ltb_spec 0 ncmd) as [Hmore|Hnone].
      * pose proof (Hlevel tr status true (Some
          (uint32 (hw_reg ((tr ++ [RegRead ADDR_STATUS status])
                             ++ [RegWrite ADDR_DATA DUMMY_REQUEST])
                     ADDR_DATA)))) as L.
        cbv beta iota in L.
        apply IH.
        -- lia.
        -- rewrite length_insert. lia.
        -- lia.
        -- rewrite L. lia.
        -- rewrite L. lia.
        -- rewrite L. destruct (0 <? _); lia.
      * pose proof (Hlevel tr status false (Some
          (uint32 (hw_reg (tr ++ [RegRead ADDR_STATUS status]) ADDR_DATA))))
          as L.
        cbv beta iota in L. rewrite app_nil_r in L.
        apply IH.
        -- lia.
        -- rewrite length_insert. lia.
        -- lia.
        -- rewrite L. lia.
        -- rewrite L. lia.
        -- rewrite L. destruct (0 <? _); lia.
    + (* nothing is waiting: a request is issued *)
      destruct (bit_set status RVLIB_SPIFLASH_BIT_STATUS_READRDY) eqn:Hb;
        [pose proof (proj1 Hrr eq_refl); lia|].
      destruct (Nat.ltb_spec 0 ncmd) as [Hmore|Hnone]; [|lia].
      pose proof (Hlevel tr status true None) as L.
      cbv beta iota in L. rewrite app_nil_r in L.
      apply IH.
      * lia.
      * lia.
      * lia.
      * rewrite L. lia.
      * rewrite L. lia.
      * rewrite L.
        match goal with
        | |- context [0 <? ?x] => destruct (Z.ltb_spec 0 x)
        end; lia.
Qed.

(** C1 (amended): for every requested length n, the loop of
    spi_read_bytes exits with the captured-byte count equal to n, after
    exactly n reads of DATA whose bytes fill buf[0..n-1] in order and
    leave the rest of the buffer alone; every write to DATA it makes is
    the dummy request 0x100, and their number plus the pending-request
    counter at exit is n, so at most n are issued.  When the controller
    announces a received byte only while a requested byte is waiting,
    and none is waiting at entry, exactly n dummy requests are issued and
    the pending-request counter is 0 at exit, whatever the interleaving
    of CMD_READY and READ_READY.  On a controller that moreover is always
    ready for a command byte and announces every waiting byte, the call
    returns within 2n iterations for every n up to the buffer size. *)
Theorem spi_read_bytes_counts fuel buf n tr :
  (forall p ncmd buf' tr',
     spi_read_bytes_loop fuel n 0 n buf tr = Some ((p, ncmd, buf'), tr') ->
     exists evs,
       tr' = tr ++ evs /\
       spi_read_bytes fuel buf n tr = Some (buf', tr') /\
       p = n /\
       length (captured evs) = n /\
       take n buf' = captured evs /\
       drop n buf' = drop n buf /\
       reg_writes ADDR_DATA evs = repeat DUMMY_REQUEST (dummy_requests evs) /\
       (dummy_requests evs + ncmd = n)%nat /\
       (causal_controller -> fifo_level tr = 0 ->
        dummy_requests evs = n /\ ncmd = 0%nat)) /\
  (responsive_controller ->
   (n <= length buf)%nat -> fifo_level tr = 0 -> (2 * n <= fuel)%nat ->
   exists buf' evs,
     spi_read_bytes fuel buf n tr = Some (buf', tr ++ evs) /\
     dummy_requests evs = n /\
     length (captured evs) = n /\
     take n buf' = captured evs).
Proof.
  assert (Hpart : forall p ncmd buf' tr',
    spi_read_bytes_loop fuel n 0 n buf tr = Some ((p, ncmd, buf'), tr') ->
    exists evs,
      tr' = tr ++ evs /\
      spi_read_bytes fuel buf n tr = Some (buf', tr') /\
      p = n /\
      length (captured evs) = n /\
      take n buf' = captured evs /\
      drop n buf' = drop n buf /\
      reg_writes ADDR_DATA evs = repeat DUMMY_REQUEST (dummy_requests evs) /\
      (dummy_requests evs + ncmd = n)%nat /\
      (causal_controller -> fifo_level tr = 0 ->
       dummy_requests evs = n /\ ncmd = 0%nat)).
  { intros p ncmd buf' tr' H. pose proof H as H'.
    apply spi_read_bytes_loop_run in H'
      as (evs & ds & -> & -> & Hle & (DW & DR & _ & _) & Hlen & ->); [|lia].
    assert (Hdr : dummy_requests evs = (n - ncmd)%nat).
    { unfold dummy_requests. rewrite DW. apply occurrences_repeat. }
    assert (Hcap : length (map uint8 ds) = n)
      by (rewrite length_map; lia).
    exists evs. split; [reflexivity|]. split.
    { unfold spi_read_bytes, bind. rewrite H. reflexivity. }
    split; [reflexivity|]. unfold captured. rewrite DR, Hdr.
    split; [exact Hcap|]. simpl.
    split; [apply take_app_length'; lia|].
    split; [rewrite drop_app_length' by lia; reflexivity|].
    split; [exact DW|]. split; [lia|].
    intros Hc Hlev.
    destruct n as [|n']; [split; lia|].
    assert (ncmd = 0%nat); [|split; lia].
    eapply (spi_read_bytes_loop_causal fuel (S n') Hc 0%nat (S n'));
      [lia|lia| |exact H].
    rewrite Hlev, Nat.sub_diag. reflexivity. }
  split; [exact Hpart|].
  intros Hresp Hbuf Hlev Hfuel.
  assert (Hex : exists st tr',
            spi_read_bytes_loop fuel n 0 n buf tr = Some (st, tr')).
  { apply (spi_read_bytes_loop_returns n Hresp); lia. }
  destruct Hex as ([[p ncmd] buf'] & tr' & Hrun).
  destruct (Hpart _ _ _ _ Hrun)
    as (evs & -> & Hret & _ & Hlen & Htake & _ & _ & _ & Hc).
  destruct (Hc (responsive_causal Hresp) Hlev) as [Hd _].
  exists buf', evs. auto.
Qed.

(** *** End of a transaction *)

(** C8: each of the four transaction shapes ends with
    spi_end_transaction; its last two register accesses are a read of
    STATUS that shows BUSY clear and then the write of 0 to SLAVESEL, and
    nothing before them in the transaction writes SLAVESEL. *)
Theorem transactions_end_with_deselect fuel cmd addr buf data n :
  ends_with_deselect fuel (spi_command_simple fuel cmd) /\
  ends_with_deselect fuel (spi_command_read fuel cmd buf n) /\
  ends_with_deselect fuel (spi_command_addr_read fuel cmd addr buf n) /\
  ends_with_deselect fuel (spi_command_addr_write fuel cmd addr data n).
Proof.
  unfold ends_with_deselect. repeat split; intros tr a tr' H.
  - unfold spi_command_simple in H.
    apply bind_Some in H as (u1 & tr1 & H1 & H).
    apply spi_send_byte_run in H1 as (e1 & -> & F1).
    eapply deselect_last; [|exact H]. fp.
  - unfold spi_command_read in H.
    apply bind_Some in H as (u1 & tr1 & H1 & H).
    apply bind_Some in H as (b2 & tr2 & H2 & H).
    apply bind_Some in H as (u3 & tr3 & H3 & H).
    apply ret_Some in H as [-> ->].
    apply spi_send_byte_run in H1 as (e1 & -> & F1).
    apply spi_read_bytes_run in H2 as (e2 & ds & m & -> & F2 & _).
    rewrite <- app_assoc in H3.
    eapply deselect_last; [|exact H3]. fp.
  - unfold spi_command_addr_read in H.
    apply bind_Some in H as (u1 & tr1 & H1 & H).
    apply bind_Some in H as (u2 & tr2 & H2 & H).
    apply bind_Some in H as (u3 & tr3 & H3 & H).
    apply bind_Some in H as (u4 & tr4 & H4 & H).
    apply bind_Some in H as (b5 & tr5 & H5 & H).
    apply bind_Some in H as (u6 & tr6 & H6 & H).
    apply ret_Some in H as [-> ->].
    apply spi_send_byte_run in H1 as (e1 & -> & F1).
    apply spi_send_byte_run in H2 as (e2 & -> & F2).
    apply spi_send_byte_run in H3 as (e3 & -> & F3).
    apply spi_send_byte_run in H4 as (e4 & -> & F4).
    apply spi_read_bytes_run in H5 as (e5 & ds & m & -> & F5 & _).
    rewrite <- !app_assoc in H6.
    eapply deselect_last; [|exact H6]. fp.
  - unfold spi_command_addr_write in H.
    apply bind_Some in H as (u1 & tr1 & H1 & H).
    apply bind_Some in H as (u2 & tr2 & H2 & H).
    apply bind_Some in H as (u3 & tr3 & H3 & H).
    apply bind_Some in H as (u4 & tr4 & H4 & H).
    apply bind_Some in H as (u5 & tr5 & H5 & H).
    apply spi_send_byte_run in H1 as (e1 & -> & F1).
    apply spi_send_byte_run in H2 as (e2 & -> & F2).
    apply spi_send_byte_run in H3 as (e3 & -> & F3).
    apply spi_send_byte_run in H4 as (e4 & -> & F4).
    apply spi_send_data_run in H5 as (e5 & -> & F5).
    rewrite <- !app_assoc in H.
    eapply deselect_last; [|exact H]. fp.
Qed.

(** *** Completion polling *)

Lemma captured_app e1 e2 : captured (e1 ++ e2) = captured e1 ++ captured e2.
Proof. unfold captured. rewrite reg_reads_app. apply map_app. Qed.

Lemma command_bytes_app e1 e2 :
  command_bytes (e1 ++ e2) = command_bytes e1 ++ command_bytes e2.
Proof. unfold command_bytes. rewrite reg_writes_app. apply List.filter_app. Qed.

Lemma no_command_in_dummies m :
  List.filter (fun v => negb (v =? DUMMY_REQUEST)) (repeat DUMMY_REQUEST m)
  = [].
Proof. induction m as [|m IH]; simpl; auto. Qed.

Lemma command_bytes_query evs c m dr ss cy :
  footprint evs (uint8 c :: repeat DUMMY_REQUEST m) dr ss cy ->
  command_bytes evs = [uint8 c].
Proof.
  intros (DW & _). unfold command_bytes. rewrite DW.
  cbn [List.filter].
  replace (uint8 c =? DUMMY_REQUEST) with false.
  - simpl. rewrite no_command_in_dummies. reflexivity.
  - symmetry. apply Z.eqb_neq. pose proof (uint8_range c).
    unfold DUMMY_REQUEST. lia.
Qed.

(** The flag query of the poll loop and of the pre-flight check: one
    byte is read and it ends up in the one-byte buffer. *)
Lemma flag_query_run fuel flags0 tr buf tr' :
  spi_command_read fuel SPIFLASH_CMD_READ_FLAGS [flags0] 1 tr
    = Some (buf, tr') ->
  exists evs d m,
    tr' = tr ++ evs /\ buf = [uint8 d] /\
    footprint evs (SPIFLASH_CMD_READ_FLAGS :: repeat DUMMY_REQUEST m)
      [d] [0] [] /\
    (m <= 1)%nat.
Proof.
  intros H.
  apply spi_command_read_run in H as (evs & ds & m & -> & F & Hm & Hlen & ->).
  destruct ds as [|d [|d' ds]]; try discriminate Hlen.
  exists evs, d, m. auto.
Qed.

Lemma polled_ready end_time evs d m :
  footprint evs (SPIFLASH_CMD_READ_FLAGS :: repeat DUMMY_REQUEST m)
    [d] [0] [] ->
  bit_set (uint8 d) SPIFLASH_BIT_FLAGS_READY = true ->
  polled end_time [] (uint8 d) evs.
Proof.
  intros F Hr. pose proof (command_bytes_query _ SPIFLASH_CMD_READ_FLAGS _ _ _ _ F) as CB.
  destruct F as (_ & DR & SS & CY).
  unfold polled, captured. rewrite DR, SS, CY, CB.
  repeat split; auto.
Qed.

Lemma polled_timeout end_time evs d m now :
  footprint evs (SPIFLASH_CMD_READ_FLAGS :: repeat DUMMY_REQUEST m)
    [d] [0] [] ->
  bit_set (uint8 d) SPIFLASH_BIT_FLAGS_READY = false ->
  poll_expired end_time now = true ->
  polled end_time [] (uint8 d) (evs ++ [CycleRead now]).
Proof.
  intros F Hr He.
  pose proof (command_bytes_query _ SPIFLASH_CMD_READ_FLAGS _ _ _ _ F) as CB.
  destruct F as (_ & DR & SS & CY).
  unfold polled. rewrite captured_app, command_bytes_app, reg_writes_app,
    cycle_reads_app. unfold captured at 1. rewrite DR, SS, CY, CB.
  split; [reflexivity|]. split; [reflexivity|]. split; [reflexivity|].
  split; [constructor|]. right. split; [exact Hr|].
  exists now. auto.
Qed.

Lemma polled_again end_time e1 d m now rounds flags e2 :
  footprint e1 (SPIFLASH_CMD_READ_FLAGS :: repeat DUMMY_REQUEST m)
    [d] [0] [] ->
  bit_set (uint8 d) SPIFLASH_BIT_FLAGS_READY = false ->
  poll_expired end_time now = false ->
  polled end_time rounds flags e2 ->
  polled end_time ((uint8 d, now) :: rounds) flags
    (e1 ++ [CycleRead now] ++ e2).
Proof.
  intros F Hr He (CA & CO & SL & FA & EX).
  pose proof (command_bytes_query _ SPIFLASH_CMD_READ_FLAGS _ _ _ _ F) as CB.
  destruct F as (_ & DR & SS & CY).
  unfold polled.
  rewrite !captured_app, !command_bytes_app, !reg_writes_app,
    !cycle_reads_app.
  unfold captured at 1. rewrite DR, SS, CY, CB, CA, CO, SL.
  split; [reflexivity|]. split; [reflexivity|]. split; [reflexivity|].
  split; [constructor; auto|].
  destruct EX as [[Hf Hc]|(Hf & t & Hc & Ht)].
  - left. split; [exact Hf|]. rewrite Hc. reflexivity.
  - right. split; [exact Hf|]. exists t. rewrite Hc. auto.
Qed.

Lemma spiflash_poll_loop_run fuel end_time : forall k flags0 tr flags tr',
  spiflash_poll_loop fuel k end_time flags0 tr = Some (flags, tr') ->
  exists evs rounds, tr' = tr ++ evs /\ polled end_time rounds flags evs.
Proof.
  induction k as [|k IH]; intros flags0 tr flags tr' H; simpl in H;
    [discriminate H|].
  apply bind_Some in H as (buf & tr1 & Hq & H).
  apply flag_query_run in Hq as (e1 & d & m & -> & -> & F & _).
  change (nth 0 [uint8 d] 0) with (uint8 d) in H.
  destruct (bit_set (uint8 d) SPIFLASH_BIT_FLAGS_READY) eqn:Hr.
  - apply ret_Some in H as [-> ->].
    exists e1, []. split; [reflexivity|]. eapply polled_ready; eauto.
  - apply bind_Some in H as (now & tr2 & Hc & H).
    apply cycle_counter_Some in Hc as [_ ->].
    destruct (poll_expired end_time now) eqn:He.
    + apply ret_Some in H as [-> ->].
      exists (e1 ++ [CycleRead now]), []. split; [trace_eq|].
      eapply polled_timeout; eauto.
    + apply IH in H as (e2 & rounds & -> & Hp).
      exists (e1 ++ [CycleRead now] ++ e2), ((uint8 d, now) :: rounds).
      split; [trace_eq|]. eapply polled_again; eauto.
Qed.

Lemma polled_last end_time rounds flags evs :
  polled end_time rounds flags evs -> last (captured evs) = Some flags.
Proof. intros (CA & _). rewrite CA. apply last_snoc. Qed.

Lemma spiflash_poll_completion_run fuel timeout_us tr flags tr' :
  spiflash_poll_completion fuel timeout_us tr = Some (flags, tr') ->
  exists start evs rounds,
    tr' = tr ++ CycleRead start :: evs /\
    polled (poll_deadline start timeout_us) rounds flags evs.
Proof.
  unfold spiflash_poll_completion. intros H.
  apply bind_Some in H as (start & tr1 & Hc & H).
  apply cycle_counter_Some in Hc as [_ ->].
  apply spiflash_poll_loop_run in H as (evs & rounds & -> & Hp).
  exists start, evs, rounds.
  split; [rewrite <- app_assoc; reflexivity|exact Hp].
Qed.

(** *** The deadline *)

Lemma uint64_small x : 0 <= x < 2 ^ 64 -> uint64 x = x.
Proof. intros H. unfold uint64. apply Z.mod_small. exact H. Qed.

Lemma uint64_wrap_neg x : - 2 ^ 64 <= x < 0 -> uint64 x = x + 2 ^ 64.
Proof.
  intros H. unfold uint64.
  rewrite <- (Z_mod_plus_full x 1 (2 ^ 64)).
  apply Z.mod_small. lia.
Qed.

Lemma uint64_top_bit x :
  0 <= x < 2 ^ 64 -> (Z.shiftl 1 63 <=? x) = Z.testbit x 63.
Proof.
  intros H. rewrite Z.testbit_odd, Z.shiftr_div_pow2 by lia.
  change (Z.shiftl 1 63) with (2 ^ 63).
  destruct (Z.leb_spec (2 ^ 63) x) as [Hge|Hlt].
  - replace (x / 2 ^ 63) with 1; [reflexivity|].
    apply (Z.div_unique x (2 ^ 63) 1 (x - 2 ^ 63)); lia.
  - rewrite Z.div_small by lia. reflexivity.
Qed.

Lemma poll_deadline_unwrapped start timeout_us :
  0 <= timeout_us < 2 ^ 32 ->
  poll_deadline (uint64 start) timeout_us
  = uint64 (start + RVLIB_CPU_FREQ_MHZ * timeout_us).
Proof.
  intros Ht. unfold poll_deadline, uint32.
  rewrite (Z.mod_small timeout_us) by exact Ht.
  unfold uint64.
  rewrite Z.mul_mod_idemp_l by lia.
  rewrite <- Z.add_mod by lia. reflexivity.
Qed.

(** *** Write-class operations *)

Lemma ready_test flags :
  (Z.land flags (Z.shiftl 1 SPIFLASH_BIT_FLAGS_READY) =? 0)
  = negb (bit_set flags SPIFLASH_BIT_FLAGS_READY).
Proof. unfold bit_set. rewrite negb_involutive. reflexivity. Qed.

(* Both operations have the same shape; the proofs of their outcome lemmas
   are the same script. *)
Ltac outcome_of_run H :=
  apply bind_Some in H as (buf & tr1 & Hq & H);
  pose proof Hq as Hq';
  apply flag_query_run in Hq' as (e0 & d & m & _ & -> & _);
  change (nth 0 [uint8 d] 0) with (uint8 d) in H;
  exists (uint8 d), tr1; split; [exact Hq|];
  rewrite ready_test in H;
  destruct (bit_set (uint8 d) SPIFLASH_BIT_FLAGS_READY);
  [ right; split; [reflexivity|];
    apply bind_Some in H as ([] & tr2 & H2 & H);
    apply bind_Some in H as ([] & tr3 & H3 & H);
    apply bind_Some in H as ([] & tr4 & H4 & H);
    apply bind_Some in H as (f1 & tr5 & H5 & H);
    exists tr2, tr3, tr4, f1, tr5;
    split; [exact H2|]; split; [exact H3|]; split; [exact H4|];
    split; [exact H5|];
    rewrite ready_test in H;
    destruct (bit_set f1 SPIFLASH_BIT_FLAGS_READY);
    [ match type of H with
      | context [bit_set f1 ?b] => destruct (bit_set f1 b)
      end;
      [ right; left;
        apply bind_Some in H as ([] & tr6 & H6 & H);
        apply ret_Some in H as [-> ->]; auto
      | right; right; apply ret_Some in H as [-> ->]; auto ]
    | left; apply ret_Some in H as [-> ->]; auto ]
  | left; apply ret_Some in H as [-> ->]; auto ].

Ltac run_of_outcome H :=
  destruct H as (f0 & tr1 & Hq & [(Hr & -> & ->)|(Hr & tr2 & tr3 & tr4 & f1
    & tr5 & H2 & H3 & H4 & H5 & Hres)]);
  unfold bind; rewrite Hq; change (nth 0 [f0] 0) with f0;
  rewrite ready_test, Hr; cbn [negb];
  [ reflexivity
  | rewrite H2, H3, H4, H5, ready_test;
    destruct Hres as [(Hr1 & -> & ->)|[(Hr1 & He & -> & H6)|(Hr1 & He & -> & ->)]];
    rewrite Hr1; cbn [negb]; [reflexivity| |];
    rewrite He; [rewrite H6|]; reflexivity ].

Lemma page_program_outcome fuel address data n tr r tr' :
  rvlib_spiflash_page_program fuel address data n tr = Some (r, tr') <->
  write_outcome fuel SPIFLASH_CMD_PAGE_PROGRAM SPIFLASH_BIT_FLAGS_PROGRAM_ERROR
    SPIFLASH_PROGRAM_TIMEOUT_US address data n tr r tr'.
Proof.
  unfold rvlib_spiflash_page_program, write_outcome. split; intros H.
  - outcome_of_run H.
  - run_of_outcome H.
Qed.

Lemma sector_erase_outcome fuel address tr r tr' :
  rvlib_spiflash_sector_erase fuel address tr = Some (r, tr') <->
  write_outcome fuel SPIFLASH_CMD_SECTOR_ERASE SPIFLASH_BIT_FLAGS_ERASE_ERROR
    SPIFLASH_ERASE_TIMEOUT_US address [] 0 tr r tr'.
Proof.
  unfold rvlib_spiflash_sector_erase, write_outcome. split; intros H.
  - outcome_of_run H.
  - run_of_outcome H.
Qed.

Lemma write_op_outcome fuel op address tr r tr' :
  run_write_op fuel op address tr = Some (r, tr') <->
  write_outcome fuel (op_command op) (op_error_bit op) (op_timeout op)
    address (op_data op) (op_nbytes op) tr r tr'.
Proof.
  destruct op as [data n|]; simpl.
  - apply page_program_outcome.
  - apply sector_erase_outcome.
Qed.

Lemma footprint_captured evs dw dr ss cy :
  footprint evs dw dr ss cy -> captured evs = map uint8 dr.
Proof. intros (_ & DR & _). unfold captured. rewrite DR. reflexivity. Qed.

Lemma keep_bytes l :
  List.filter (fun v => negb (v =? DUMMY_REQUEST)) (map uint8 l) = map uint8 l.
Proof.
  induction l as [|x l IH]; simpl; [reflexivity|].
  replace (uint8 x =? DUMMY_REQUEST) with false.
  - simpl. rewrite IH. reflexivity.
  - symmetry. apply Z.eqb_neq. pose proof (uint8_range x).
    unfold DUMMY_REQUEST. lia.
Qed.

Lemma footprint_command_bytes evs l dr ss cy :
  footprint evs (map uint8 l) dr ss cy -> command_bytes evs = map uint8 l.
Proof.
  intros (DW & _). unfold command_bytes. rewrite DW. apply keep_bytes.
Qed.

Lemma command_bytes_cycle v evs :
  command_bytes (CycleRead v :: evs) = command_bytes evs.
Proof. reflexivity. Qed.

Lemma captured_cycle v evs : captured (CycleRead v :: evs) = captured evs.
Proof. reflexivity. Qed.

(** What a write-class operation does on the bus. *)
Lemma write_outcome_bus fuel cmd errbit timeout_us address data n tr r tr' :
  write_outcome fuel cmd errbit timeout_us address data n tr r tr' ->
  exists evs f0 f1 polls,
    tr' = tr ++ evs /\
    head (captured evs) = Some f0 /\
    last (captured evs) = Some f1 /\
    r = write_result errbit f0 f1 /\
    (bit_set f0 SPIFLASH_BIT_FLAGS_READY = false ->
     captured evs = [f0] /\
     command_bytes evs = [SPIFLASH_CMD_READ_FLAGS] /\
     reg_writes ADDR_SLAVESEL evs = [0]) /\
    (bit_set f0 SPIFLASH_BIT_FLAGS_READY = true ->
     (1 <= polls)%nat /\
     length (captured evs) = S polls /\
     command_bytes evs
     = write_op_commands cmd address (take n data) polls r).
Proof.
  intros (f0 & tr1 & Hq & Hres).
  apply flag_query_run in Hq as (e0 & d & m & -> & [= ->] & F0 & _).
  pose proof (command_bytes_query _ SPIFLASH_CMD_READ_FLAGS _ _ _ _ F0) as CB0.
  pose proof (footprint_captured _ _ _ _ _ F0) as CA0.
  destruct Hres as [(Hr & -> & ->)|(Hr & tr2 & tr3 & tr4 & f1 & tr5 & H2 & H3
    & H4 & H5 & Hres)].
  - exists e0, (uint8 d), (uint8 d), 0%nat.
    split; [reflexivity|]. rewrite CA0.
    split; [reflexivity|]. split; [reflexivity|].
    split; [unfold write_result; rewrite Hr; reflexivity|].
    split; [|congruence]. intros _.
    destruct F0 as (_ & _ & SS & _). auto.
  - apply spi_command_simple_run in H2 as (e2 & -> & F2).
    apply spi_command_simple_run in H3 as (e3 & -> & F3).
    apply spi_command_addr_write_run in H4 as (e4 & -> & F4).
    apply spiflash_poll_completion_run in H5
      as (start & e5 & rounds & -> & (CA5 & CB5 & _)).
    pose proof (command_bytes_query _ _ 0%nat _ _ _ F2) as CB2.
    pose proof (command_bytes_query _ _ 0%nat _ _ _ F3) as CB3.
    pose proof (footprint_command_bytes _
      (cmd :: Z.shiftr address 16 :: Z.shiftr address 8 :: address
         :: take n data) _ _ _ F4) as CB4.
    pose proof (footprint_captured _ _ _ _ _ F2) as CA2.
    pose proof (footprint_captured _ _ _ _ _ F3) as CA3.
    pose proof (footprint_captured _ _ _ _ _ F4) as CA4.
    assert (Hmid : forall e6,
      captured e6 = [] ->
      captured (e0 ++ e2 ++ e3 ++ e4 ++ (CycleRead start :: e5) ++ e6)
      = uint8 d :: map fst rounds ++ [f1]).
    { intros e6 C6. rewrite !captured_app, captured_cycle.
      rewrite CA0, CA2, CA3, CA4, CA5, C6. simpl. rewrite app_nil_r.
      reflexivity. }
    assert (Hcmd : forall e6,
      command_bytes (e0 ++ e2 ++ e3 ++ e4 ++ (CycleRead start :: e5) ++ e6)
      = [SPIFLASH_CMD_READ_FLAGS; SPIFLASH_CMD_CLEAR_FLAGS;
         SPIFLASH_CMD_WRITE_ENABLE;
         uint8 cmd; uint8 (Z.shiftr address 16);
         uint8 (Z.shiftr address 8); uint8 address]
        ++ map uint8 (take n data)
        ++ repeat SPIFLASH_CMD_READ_FLAGS (S (length rounds))
        ++ command_bytes e6).
    { intros e6. rewrite !command_bytes_app, command_bytes_cycle.
      rewrite CB0, CB2, CB3, CB4, CB5. reflexivity. }
    assert (Hlen : length (uint8 d :: map fst rounds ++ [f1])
                   = S (S (length rounds))).
    { simpl. rewrite length_app, length_map. simpl. lia. }
    assert (Hlast : last (uint8 d :: map fst rounds ++ [f1]) = Some f1).
    { rewrite app_comm_cons. apply last_snoc. }
    destruct Hres as [(Hr1 & -> & ->)|[(Hr1 & He & -> & H6)|(Hr1 & He & -> & ->)]].
    + exists ((e0 ++ e2 ++ e3 ++ e4 ++ (CycleRead start :: e5) ++ [])),
        (uint8 d), f1, (S (length rounds)).
      split; [rewrite app_nil_r; trace_eq|].
      rewrite (Hmid [] eq_refl), (Hcmd []).
      split; [reflexivity|]. split; [exact Hlast|].
      split; [unfold write_result; rewrite Hr, Hr1; reflexivity|].
      split; [congruence|]. intros _.
      split; [lia|]. split; [exact Hlen|]. reflexivity.
    + apply spi_command_simple_run in H6 as (e6 & -> & F6).
      pose proof (command_bytes_query _ _ 0%nat _ _ _ F6) as CB6.
      pose proof (footprint_captured _ _ _ _ _ F6) as CA6.
      exists ((e0 ++ e2 ++ e3 ++ e4 ++ (CycleRead start :: e5) ++ e6)),
        (uint8 d), f1, (S (length rounds)).
      split; [trace_eq|].
      rewrite (Hmid e6 CA6), (Hcmd e6), CB6.
      split; [reflexivity|]. split; [exact Hlast|].
      split; [unfold write_result; rewrite Hr, Hr1, He; reflexivity|].
      split; [congruence|]. intros _.
      split; [lia|]. split; [exact Hlen|]. reflexivity.
    + exists ((e0 ++ e2 ++ e3 ++ e4 ++ (CycleRead start :: e5) ++ [])),
        (uint8 d), f1, (S (length rounds)).
      split; [rewrite app_nil_r; trace_eq|].
      rewrite (Hmid [] eq_refl), (Hcmd []).
      split; [reflexivity|]. split; [exact Hlast|].
      split; [unfold write_result; rewrite Hr, Hr1, He; reflexivity|].
      split; [congruence|]. intros _.
      split; [lia|]. split; [exact Hlen|]. reflexivity.
Qed.

Lemma spi_command_simple_shape fuel cmd tr u tr' :
  spi_command_simple fuel cmd tr = Some (u, tr') ->
  exists evs s,
    tr' = tr ++ evs ++ [RegRead ADDR_STATUS s; RegWrite ADDR_SLAVESEL 0] /\
    bit_set s RVLIB_SPIFLASH_BIT_STATUS_BUSY = false /\
    footprint evs [uint8 cmd] [] [] [].
Proof.
  unfold spi_command_simple. intros H.
  apply bind_Some in H as (u1 & tr1 & H1 & H).
  apply spi_send_byte_run in H1 as (e1 & -> & F1).
  apply spi_end_transaction_run in H as (e2 & s & -> & Hs & F2).
  exists (e1 ++ e2), s. split; [trace_eq|]. split; [exact Hs|]. fp.
Qed.

Lemma result_codes_distinct :
  NoDup [RVLIB_SPIFLASH_ERR_NOTREADY; RVLIB_SPIFLASH_ERR_TIMEOUT;
         RVLIB_SPIFLASH_ERR_FAILED; 0].
Proof.
  unfold RVLIB_SPIFLASH_ERR_NOTREADY, RVLIB_SPIFLASH_ERR_TIMEOUT,
    RVLIB_SPIFLASH_ERR_FAILED.
  repeat constructor; rewrite ?list_elem_of_In; simpl; intuition lia.
Qed.

(** C2: for page program and sector erase alike, the result is decided in
    this order.  The pre-flight flag query comes first: if its byte has
    READY clear the call returns NOT_READY at once.  Otherwise the
    completion poll runs with the timeout of the operation, and on the byte
    it returns: READY clear gives TIMEOUT; READY set with the error flag of
    the operation set gives FAILED; anything else gives 0.  The four
    result codes are pairwise distinct.  Conversely, when the transactions
    the operation is made of return, the operation returns, with the code
    decided this way. *)
Theorem write_errors_decided_in_order fuel op address tr :
  (forall r tr',
     run_write_op fuel op address tr = Some (r, tr') ->
     exists f0 tr1,
       spi_command_read fuel SPIFLASH_CMD_READ_FLAGS [0] 1 tr
         = Some ([f0], tr1) /\
       (bit_set f0 SPIFLASH_BIT_FLAGS_READY = false ->
        r = RVLIB_SPIFLASH_ERR_NOTREADY /\ tr' = tr1) /\
       (bit_set f0 SPIFLASH_BIT_FLAGS_READY = true ->
        exists e tr4 f1 tr5 e',
          tr4 = tr1 ++ e /\
          spiflash_poll_completion fuel (op_timeout op) tr4
            = Some (f1, tr5) /\
          tr' = tr5 ++ e' /\
          (bit_set f1 SPIFLASH_BIT_FLAGS_READY = false ->
           r = RVLIB_SPIFLASH_ERR_TIMEOUT) /\
          (bit_set f1 SPIFLASH_BIT_FLAGS_READY = true ->
           bit_set f1 (op_error_bit op) = true ->
           r = RVLIB_SPIFLASH_ERR_FAILED) /\
          (bit_set f1 SPIFLASH_BIT_FLAGS_READY = true ->
           bit_set f1 (op_error_bit op) = false ->
           r = 0) /\
          r = write_result (op_error_bit op) f0 f1)) /\
  (forall r tr',
     write_outcome fuel (op_command op) (op_error_bit op) (op_timeout op)
       address (op_data op) (op_nbytes op) tr r tr' ->
     run_write_op fuel op address tr = Some (r, tr')) /\
  NoDup [RVLIB_SPIFLASH_ERR_NOTREADY; RVLIB_SPIFLASH_ERR_TIMEOUT;
         RVLIB_SPIFLASH_ERR_FAILED; 0].
Proof.
  split; [|split; [intros r tr'; apply write_op_outcome
                  |apply result_codes_distinct]].
  intros r tr' H. apply write_op_outcome in H.
  destruct H as (f0 & tr1 & Hq & Hres).
  exists f0, tr1. split; [exact Hq|].
  destruct Hres as [(Hr & -> & ->)|(Hr & tr2 & tr3 & tr4 & f1 & tr5 & H2 & H3
    & H4 & H5 & Hres)].
  - split; [auto|congruence].
  - split; [congruence|]. intros _.
    apply spi_command_simple_run in H2 as (e2 & -> & _).
    apply spi_command_simple_run in H3 as (e3 & -> & _).
    apply spi_command_addr_write_run in H4 as (e4 & -> & _).
    exists (e2 ++ e3 ++ e4), (((tr1 ++ e2) ++ e3) ++ e4), f1, tr5.
    unfold write_result. rewrite Hr. cbn [negb].
    destruct Hres as [(Hr1 & -> & ->)|[(Hr1 & He & -> & H6)|(Hr1 & He & -> & ->)]].
    + exists []. rewrite Hr1. cbn [negb].
      split; [trace_eq|]. split; [exact H5|].
      split; [rewrite app_nil_r; reflexivity|].
      repeat split; congruence.
    + apply spi_command_simple_run in H6 as (e6 & -> & _).
      exists e6. rewrite Hr1, He. cbn [negb].
      split; [trace_eq|]. split; [exact H5|]. split; [reflexivity|].
      repeat split; congruence.
    + exists []. rewrite Hr1, He. cbn [negb].
      split; [trace_eq|]. split; [exact H5|].
      split; [rewrite app_nil_r; reflexivity|].
      repeat split; congruence.
Qed.

(** C3: when the pre-flight flag query of page program or sector erase
    returns a byte with bit 7 (READY) clear, the call returns NOT_READY
    right after that transaction.  The transaction sent the command byte
    READ_FLAGS and nothing else but at most one dummy request, read one
    byte, and deselected the device once; no other command byte was
    issued. *)
Theorem busy_device_gets_only_the_flag_query fuel op address tr buf tr1 :
  spi_command_read fuel SPIFLASH_CMD_READ_FLAGS [0] 1 tr = Some (buf, tr1) ->
  Z.testbit (nth 0 buf 0) 7 = false ->
  run_write_op fuel op address tr = Some (RVLIB_SPIFLASH_ERR_NOTREADY, tr1) /\
  exists evs m,
    tr1 = tr ++ evs /\
    command_bytes evs = [SPIFLASH_CMD_READ_FLAGS] /\
    (m <= 1)%nat /\
    reg_writes ADDR_DATA evs
    = SPIFLASH_CMD_READ_FLAGS :: repeat DUMMY_REQUEST m /\
    length (captured evs) = 1%nat /\
    reg_writes ADDR_SLAVESEL evs = [0].
Proof.
  intros Hq Hbit. pose proof Hq as Hq'.
  apply flag_query_run in Hq' as (evs & d & m & -> & -> & F & Hm).
  change (nth 0 [uint8 d] 0) with (uint8 d) in Hbit.
  rewrite <- (bit_set_testbit _ 7) in Hbit by lia.
  split.
  - apply write_op_outcome. exists (uint8 d), (tr ++ evs).
    split; [exact Hq|]. left. auto.
  - exists evs, m. split; [reflexivity|].
    split; [exact (command_bytes_query _ SPIFLASH_CMD_READ_FLAGS _ _ _ _ F)|].
    split; [exact Hm|].
    rewrite (footprint_captured _ _ _ _ _ F).
    destruct F as (DW & _ & SS & _). auto.
Qed.

(** C7: when page program or sector erase returns FAILED, the completion
    poll returned a byte with READY and the error flag of the operation
    set, and after that poll the driver ran one simple CLEAR_FLAGS
    command, whose only write to DATA is the byte 0x50 and which ends the
    call with the deselect of the device. *)
Theorem failed_operation_clears_flags fuel op address tr tr' :
  run_write_op fuel op address tr = Some (RVLIB_SPIFLASH_ERR_FAILED, tr') ->
  exists pre f1 tr5 evs s,
    spiflash_poll_completion fuel (op_timeout op) (tr ++ pre)
      = Some (f1, tr5) /\
    bit_set f1 SPIFLASH_BIT_FLAGS_READY = true /\
    bit_set f1 (op_error_bit op) = true /\
    spi_command_simple fuel SPIFLASH_CMD_CLEAR_FLAGS tr5 = Some (tt, tr') /\
    tr' = tr5 ++ evs ++ [RegRead ADDR_STATUS s; RegWrite ADDR_SLAVESEL 0] /\
    reg_writes ADDR_DATA evs = [SPIFLASH_CMD_CLEAR_FLAGS] /\
    reg_reads ADDR_DATA evs = [].
Proof.
  intros H. apply write_op_outcome in H.
  destruct H as (f0 & tr1 & Hq & Hres).
  assert (N1 : RVLIB_SPIFLASH_ERR_FAILED <> RVLIB_SPIFLASH_ERR_NOTREADY)
    by (unfold RVLIB_SPIFLASH_ERR_FAILED, RVLIB_SPIFLASH_ERR_NOTREADY; lia).
  assert (N2 : RVLIB_SPIFLASH_ERR_FAILED <> RVLIB_SPIFLASH_ERR_TIMEOUT)
    by (unfold RVLIB_SPIFLASH_ERR_FAILED, RVLIB_SPIFLASH_ERR_TIMEOUT; lia).
  assert (N3 : RVLIB_SPIFLASH_ERR_FAILED <> 0)
    by (unfold RVLIB_SPIFLASH_ERR_FAILED; lia).
  destruct Hres as [(_ & E & _)|(Hr & tr2 & tr3 & tr4 & f1 & tr5 & H2 & H3
    & H4 & H5 & [(_ & E & _)|[(Hr1 & He & _ & H6)|(_ & _ & E & _)]])];
    try contradiction.
  apply flag_query_run in Hq as (e0 & d & m & -> & _).
  apply spi_command_simple_run in H2 as (e2 & -> & _).
  apply spi_command_simple_run in H3 as (e3 & -> & _).
  apply spi_command_addr_write_run in H4 as (e4 & -> & _).
  rewrite <- !app_assoc in H5.
  pose proof H6 as H6'.
  apply spi_command_simple_shape in H6' as (evs & s & -> & _ & F).
  exists (e0 ++ e2 ++ e3 ++ e4), f1, tr5, evs, s.
  destruct F as (DW & DR & _).
  split; [exact H5|]. split; [exact Hr1|]. split; [exact He|].
  split; [exact H6|]. split; [reflexivity|]. split; [exact DW|exact DR].
Qed.

(** C10: the final flag byte of a write-class operation is the last byte
    it read from DATA.  When that byte has READY set, the call returns
    FAILED exactly when the error flag of the operation itself is set in
    it (PROGRAM_ERROR, bit 4, for page program; ERASE_ERROR, bit 5, for
    sector erase) and 0 exactly when it is clear; in particular it returns
    0 when only the error flag of the other operation is set.  And when
    the transactions up to the completion poll return and the polled byte
    has READY set and the own error flag clear, the call returns 0 right
    after the poll, whatever the other bits of that byte. *)
Theorem only_own_error_flag_fails fuel op address tr :
  (forall r tr',
     run_write_op fuel op address tr = Some (r, tr') ->
     exists evs flags,
       tr' = tr ++ evs /\
       last (captured evs) = Some flags /\
       (bit_set flags SPIFLASH_BIT_FLAGS_READY = true ->
        (r = RVLIB_SPIFLASH_ERR_FAILED <->
         bit_set flags (op_error_bit op) = true) /\
        (r = 0 <-> bit_set flags (op_error_bit op) = false)) /\
       (bit_set flags SPIFLASH_BIT_FLAGS_READY = true ->
        bit_set flags (op_error_bit op) = false ->
        bit_set flags (op_other_error_bit op) = true ->
        r = 0)) /\
  (forall f0 tr1 tr2 tr3 tr4 flags tr5,
     spi_command_read fuel SPIFLASH_CMD_READ_FLAGS [0] 1 tr
       = Some ([f0], tr1) ->
     bit_set f0 SPIFLASH_BIT_FLAGS_READY = true ->
     spi_command_simple fuel SPIFLASH_CMD_CLEAR_FLAGS tr1 = Some (tt, tr2) ->
     spi_command_simple fuel SPIFLASH_CMD_WRITE_ENABLE tr2 = Some (tt, tr3) ->
     spi_command_addr_write fuel (op_command op) address (op_data op)
       (op_nbytes op) tr3 = Some (tt, tr4) ->
     spiflash_poll_completion fuel (op_timeout op) tr4 = Some (flags, tr5) ->
     bit_set flags SPIFLASH_BIT_FLAGS_READY = true ->
     bit_set flags (op_error_bit op) = false ->
     run_write_op fuel op address tr = Some (0, tr5)) /\
  op_error_bit op
  = match op with PageProgram _ _ => 4 | SectorErase => 5 end /\
  op_other_error_bit op
  = match op with PageProgram _ _ => 5 | SectorErase => 4 end.
Proof.
  split; [|split; [|split; destruct op; reflexivity]].
  - intros r tr' H. apply write_op_outcome in H.
    apply write_outcome_bus in H
      as (evs & f0 & f1 & polls & -> & Hhd & Hlast & Hr & Hbusy & _).
    exists evs, f1. split; [reflexivity|]. split; [exact Hlast|].
    assert (Hres : bit_set f1 SPIFLASH_BIT_FLAGS_READY = true ->
                   r = if bit_set f1 (op_error_bit op)
                       then RVLIB_SPIFLASH_ERR_FAILED else 0).
    { intros Hf1. unfold write_result in Hr.
      destruct (bit_set f0 SPIFLASH_BIT_FLAGS_READY) eqn:Hf0.
      - rewrite Hf1 in Hr. exact Hr.
      - destruct (Hbusy eq_refl) as (Hc & _). rewrite Hc in Hlast.
        injection Hlast as ->. congruence. }
    split.
    + intros Hf1. specialize (Hres Hf1).
      destruct (bit_set f1 (op_error_bit op)); rewrite Hres;
        unfold RVLIB_SPIFLASH_ERR_FAILED; split; split; intros H;
        solve [reflexivity | discriminate H | lia].
    + intros Hf1 He _. specialize (Hres Hf1). rewrite He in Hres. exact Hres.
  - intros f0 tr1 tr2 tr3 tr4 flags tr5 Hq Hf0 H2 H3 H4 H5 Hr He.
    apply write_op_outcome. exists f0, tr1. split; [exact Hq|].
    right. split; [exact Hf0|].
    exists tr2, tr3, tr4, flags, tr5.
    split; [exact H2|]. split; [exact H3|]. split; [exact H4|].
    split; [exact H5|]. right. right. auto.
Qed.

(** *** Sector erase against page program *)

Lemma write_sequence_commands fuel op address tr r tr' :
  run_write_op fuel op address tr = Some (r, tr') ->
  r <> RVLIB_SPIFLASH_ERR_NOTREADY ->
  exists evs polls,
    tr' = tr ++ evs /\ (1 <= polls)%nat /\
    command_bytes evs
    = write_op_commands (op_command op) address (op_payload op) polls r.
Proof.
  intros H Hr. apply write_op_outcome in H.
  apply write_outcome_bus in H
    as (evs & f0 & f1 & polls & -> & _ & _ & Hres & _ & Hready).
  destruct (bit_set f0 SPIFLASH_BIT_FLAGS_READY) eqn:Hf0.
  - destruct (Hready eq_refl) as (Hp & _ & Hc).
    exists evs, polls. split; [reflexivity|]. split; [exact Hp|].
    rewrite Hc. destruct op; reflexivity.
  - exfalso. apply Hr. rewrite Hres. unfold write_result. rewrite Hf0.
    reflexivity.
Qed.

(** C6 (amended): sector erase runs the state sequence of page program
    (pre-flight readiness check, clear-flags, write-enable, command+address
    transaction, completion poll, result interpretation) with the erase
    command code 0xD8 for 0x02, an empty payload, the long erase-class
    timeout for the short program-class one, and with ERASE_ERROR (bit 5)
    for PROGRAM_ERROR (bit 4) as the error flag that result interpretation
    examines.  Both operations, once past the pre-flight check, send the
    same stream of command bytes up to the command code and the payload. *)
Theorem sector_erase_follows_program_sequence fuel address tr :
  rvlib_spiflash_sector_erase fuel address tr
  = spec_write_sequence fuel SPIFLASH_CMD_SECTOR_ERASE
      SPIFLASH_ERASE_TIMEOUT_US SPIFLASH_BIT_FLAGS_ERASE_ERROR address [] tr /\
  (forall data,
     rvlib_spiflash_page_program fuel address data (length data) tr
     = spec_write_sequence fuel SPIFLASH_CMD_PAGE_PROGRAM
         SPIFLASH_PROGRAM_TIMEOUT_US SPIFLASH_BIT_FLAGS_PROGRAM_ERROR
         address data tr) /\
  (forall op r tr',
     run_write_op fuel op address tr = Some (r, tr') ->
     r <> RVLIB_SPIFLASH_ERR_NOTREADY ->
     exists evs polls,
       tr' = tr ++ evs /\ (1 <= polls)%nat /\
       command_bytes evs
       = write_op_commands (op_command op) address (op_payload op) polls r).
Proof.
  assert (Hspec : forall cmd timeout_us errbit data,
    0 <= errbit ->
    (buf <- spi_command_read fuel SPIFLASH_CMD_READ_FLAGS [0] 1 ;;
     let flags := nth 0 buf 0 in
     if Z.land flags (Z.shiftl 1 SPIFLASH_BIT_FLAGS_READY) =? 0 then
       ret RVLIB_SPIFLASH_ERR_NOTREADY
     else
       spi_command_simple fuel SPIFLASH_CMD_CLEAR_FLAGS ;;
       spi_command_simple fuel SPIFLASH_CMD_WRITE_ENABLE ;;
       spi_command_addr_write fuel cmd address data (length data) ;;
       flags <- spiflash_poll_completion fuel timeout_us ;;
       if Z.land flags (Z.shiftl 1 SPIFLASH_BIT_FLAGS_READY) =? 0 then
         ret RVLIB_SPIFLASH_ERR_TIMEOUT
       else if bit_set flags errbit then
         spi_command_simple fuel SPIFLASH_CMD_CLEAR_FLAGS ;;
         ret RVLIB_SPIFLASH_ERR_FAILED
       else ret 0) tr
    = spec_write_sequence fuel cmd timeout_us errbit address data tr).
  { intros cmd timeout_us errbit data Herr.
    unfold spec_write_sequence, spec_query_flags, spec_interpret,
      device_ready, bind, ret.
    destruct (spi_command_read fuel SPIFLASH_CMD_READ_FLAGS [0] 1 tr)
      as [[buf tr1]|]; [|reflexivity].
    cbv beta iota zeta.
    rewrite land_shiftl_1 by (unfold SPIFLASH_BIT_FLAGS_READY; lia).
    destruct (Z.testbit (nth 0 buf 0) SPIFLASH_BIT_FLAGS_READY);
      [|reflexivity].
    cbn [negb].
    destruct (spi_command_simple fuel SPIFLASH_CMD_CLEAR_FLAGS tr1)
      as [[[] tr2]|]; [|reflexivity].
    destruct (spi_command_simple fuel SPIFLASH_CMD_WRITE_ENABLE tr2)
      as [[[] tr3]|]; [|reflexivity].
    destruct (spi_command_addr_write fuel cmd address data (length data) tr3)
      as [[[] tr4]|]; [|reflexivity].
    destruct (spiflash_poll_completion fuel timeout_us tr4)
      as [[f1 tr5]|]; [|reflexivity].
    rewrite land_shiftl_1 by (unfold SPIFLASH_BIT_FLAGS_READY; lia).
    rewrite bit_set_testbit by exact Herr.
    reflexivity. }
  split; [|split].
  - apply (Hspec SPIFLASH_CMD_SECTOR_ERASE SPIFLASH_ERASE_TIMEOUT_US
             SPIFLASH_BIT_FLAGS_ERASE_ERROR []).
    unfold SPIFLASH_BIT_FLAGS_ERASE_ERROR. lia.
  - intros data.
    apply (Hspec SPIFLASH_CMD_PAGE_PROGRAM SPIFLASH_PROGRAM_TIMEOUT_US
             SPIFLASH_BIT_FLAGS_PROGRAM_ERROR data).
    unfold SPIFLASH_BIT_FLAGS_PROGRAM_ERROR. lia.
  - intros op r tr'. apply write_sequence_commands.
Qed.

(** *** Initialisation *)

Lemma init_drain_run k : forall tr u tr',
  init_drain k tr = Some (u, tr') ->
  exists evs, tr' = tr ++ evs /\ drained evs.
Proof.
  induction k as [|k IH]; intros tr u tr' H; simpl in H; [discriminate H|].
  apply bind_Some in H as (status & tr1 & Hst & H).
  apply read_reg_Some in Hst as [_ ->].
  destruct (bit_set status RVLIB_SPIFLASH_BIT_STATUS_READRDY) eqn:Hrr.
  - apply bind_Some in H as (d & tr2 & Hd & H).
    apply read_reg_Some in Hd as [_ ->].
    apply IH in H as (evs & -> & Hdr).
    exists (RegRead ADDR_STATUS status :: RegRead ADDR_DATA d :: evs).
    split; [rewrite <- !app_assoc; reflexivity|].
    apply drained_byte; assumption.
  - destruct (Z.land status _ =? 0) eqn:Hb.
    + apply ret_Some in H as [-> ->].
      exists [RegRead ADDR_STATUS status]. split; [reflexivity|].
      apply drained_idle; [exact Hrr|apply busy_clear; exact Hb].
    + apply IH in H as (evs & -> & Hdr).
      exists (RegRead ADDR_STATUS status :: evs).
      split; [rewrite <- !app_assoc; reflexivity|].
      apply drained_busy; [exact Hrr|apply busy_set; exact Hb|exact Hdr].
Qed.

Lemma drained_reads_only evs :
  drained evs -> reg_writes ADDR_DATA evs = [] /\
                 reg_writes ADDR_SLAVESEL evs = [] /\
                 cycle_reads evs = [].
Proof. induction 1; simpl; auto. Qed.

(** C9: rvlib_spiflash_init first runs the drain loop, which only reads:
    it reads STATUS, dequeues one byte from DATA each time READ_READY is
    set, and stops at the first STATUS value with READ_READY and BUSY both
    clear.  Then it issues, in this order, the simple command 0xFF, the
    simple command 0xFF again, the simple command CLEAR_FLAGS (0x50), and
    the completion poll with the timeout of 3,000,000 microseconds, so the
    command bytes after the drain are 0xFF, 0xFF, 0x50 and then one
    READ_FLAGS per poll query. *)
Theorem init_drains_then_recovers fuel tr u tr' :
  rvlib_spiflash_init fuel tr = Some (u, tr') ->
  exists e0 tr2 tr3 tr4 flags evs polls,
    init_drain fuel tr = Some (tt, tr ++ e0) /\
    drained e0 /\
    reg_writes ADDR_DATA e0 = [] /\
    spi_command_simple fuel 0xff (tr ++ e0) = Some (tt, tr2) /\
    spi_command_simple fuel 0xff tr2 = Some (tt, tr3) /\
    spi_command_simple fuel 0x50 tr3 = Some (tt, tr4) /\
    spiflash_poll_completion fuel 3000000 tr4 = Some (flags, tr') /\
    SPIFLASH_CMD_CLEAR_FLAGS = 0x50 /\
    SPIFLASH_ERASE_TIMEOUT_US = 3000000 /\
    tr' = tr ++ e0 ++ evs /\
    (1 <= polls)%nat /\
    command_bytes evs
    = [0xff; 0xff; 0x50] ++ repeat SPIFLASH_CMD_READ_FLAGS polls.
Proof.
  unfold rvlib_spiflash_init. intros H.
  apply bind_Some in H as ([] & tr1 & H1 & H).
  apply bind_Some in H as ([] & tr2 & H2 & H).
  apply bind_Some in H as ([] & tr3 & H3 & H).
  apply bind_Some in H as ([] & tr4 & H4 & H).
  apply bind_Some in H as (flags & tr5 & H5 & H).
  apply ret_Some in H as [-> ->].
  pose proof H1 as H1'. apply init_drain_run in H1' as (e0 & -> & Hdr).
  pose proof H2 as H2'. apply spi_command_simple_run in H2' as (e2 & -> & F2).
  pose proof H3 as H3'. apply spi_command_simple_run in H3' as (e3 & -> & F3).
  pose proof H4 as H4'. apply spi_command_simple_run in H4' as (e4 & -> & F4).
  pose proof H5 as H5'.
  apply spiflash_poll_completion_run in H5'
    as (start & e5 & rounds & -> & (_ & CB5 & _)).
  pose proof (command_bytes_query _ _ 0%nat _ _ _ F2) as CB2.
  pose proof (command_bytes_query _ _ 0%nat _ _ _ F3) as CB3.
  pose proof (command_bytes_query _ _ 0%nat _ _ _ F4) as CB4.
  exists e0, ((tr ++ e0) ++ e2), (((tr ++ e0) ++ e2) ++ e3),
    ((((tr ++ e0) ++ e2) ++ e3) ++ e4), flags,
    (e2 ++ e3 ++ e4 ++ CycleRead start :: e5), (S (length rounds)).
  split; [exact H1|]. split; [exact Hdr|].
  split; [apply (drained_reads_only _ Hdr)|].
  split; [exact H2|]. split; [exact H3|]. split; [exact H4|].
  split; [exact H5|]. split; [reflexivity|]. split; [reflexivity|].
  split; [trace_eq|]. split; [lia|].
  rewrite !command_bytes_app, command_bytes_cycle, CB2, CB3, CB4, CB5.
  reflexivity.
Qed.

(** *** More on the bus primitives and the framing *)

Lemma spi_send_byte_wait_shape k : forall tr u tr',
  spi_send_byte_wait k tr = Some (u, tr') ->
  exists ss s,
    tr' = tr ++ map (RegRead ADDR_STATUS) ss ++ [RegRead ADDR_STATUS s] /\
    Forall (fun x => bit_set x RVLIB_SPIFLASH_BIT_STATUS_CMDRDY = false) ss /\
    bit_set s RVLIB_SPIFLASH_BIT_STATUS_CMDRDY = true /\
    (length ss < k)%nat.
Proof.
  induction k as [|k IH]; intros tr u tr' H; simpl in H; [discriminate H|].
  apply bind_Some in H as (status & tr1 & Hst & H).
  apply read_reg_Some in Hst as [_ ->].
  destruct (bit_set status RVLIB_SPIFLASH_BIT_STATUS_CMDRDY) eqn:Hb.
  - apply ret_Some in H as [_ ->]. exists [], status.
    split; [reflexivity|]. split; [constructor|]. split; [exact Hb|].
    simpl. lia.
  - apply IH in H as (ss & s & -> & Hall & Hs & Hlen).
    exists (status :: ss), s.
    split; [simpl; rewrite <- app_assoc; reflexivity|].
    split; [constructor; assumption|]. split; [exact Hs|]. simpl. lia.
Qed.

Lemma spi_send_byte_wait_polls : forall n k tr,
  Forall (fun x => bit_set x RVLIB_SPIFLASH_BIT_STATUS_CMDRDY = false)
    (status_polls n tr) ->
  ((k <= n)%nat -> spi_send_byte_wait k tr = None) /\
  (bit_set (uint32 (hw_reg (tr ++ map (RegRead ADDR_STATUS)
                                    (status_polls n tr)) ADDR_STATUS))
     RVLIB_SPIFLASH_BIT_STATUS_CMDRDY = true ->
   (n < k)%nat ->
   spi_send_byte_wait k tr
   = Some (tt, tr ++ map (RegRead ADDR_STATUS) (status_polls n tr)
                 ++ [RegRead ADDR_STATUS
                       (uint32 (hw_reg (tr ++ map (RegRead ADDR_STATUS)
                                                (status_polls n tr))
                                  ADDR_STATUS))])).
Proof.
  induction n as [|n IH]; intros k tr Hall.
  - split; [intros Hk; assert (k = 0%nat) as -> by lia; reflexivity|].
    cbn [status_polls map app]. rewrite app_nil_r. intros Hs Hk.
    destruct k as [|k]; [lia|].
    cbn [spi_send_byte_wait]. unfold bind, rvlib_hw_read_reg. cbv zeta.
    rewrite Hs. reflexivity.
  - cbn [status_polls] in Hall. cbv zeta in Hall.
    apply Forall_cons in Hall as [Hclear Hall].
    specialize (IH (Nat.pred k) _ Hall) as [IHnone IHsome].
    cbn [status_polls map]. cbv zeta.
    set (s0 := uint32 (hw_reg tr ADDR_STATUS)) in *.
    set (m := map (RegRead ADDR_STATUS)
                (status_polls n (tr ++ [RegRead ADDR_STATUS s0]))) in *.
    replace (tr ++ RegRead ADDR_STATUS s0 :: m)
      with ((tr ++ [RegRead ADDR_STATUS s0]) ++ m)
      by (rewrite <- app_assoc; reflexivity).
    split.
    + intros Hk. destruct k as [|k]; [reflexivity|].
      cbn [spi_send_byte_wait]. unfold bind at 1, rvlib_hw_read_reg at 1.
      cbv zeta. fold s0. rewrite Hclear. apply IHnone. simpl. lia.
    + intros Hs Hk. destruct k as [|k]; [lia|].
      cbn [spi_send_byte_wait]. unfold bind at 1, rvlib_hw_read_reg at 1.
      cbv zeta. fold s0. rewrite Hclear.
      cbn [Nat.pred] in IHsome. rewrite (IHsome Hs) by lia.
      rewrite <- app_assoc. reflexivity.
Qed.

(** X1: spi_send_byte polls STATUS until CMD_READY shows, and the byte
    goes to DATA right after the first STATUS value that has it set; it is
    the only write, and a byte.  When the controller shows CMD_READY clear
    at [n] polls and set at the next, the call makes exactly these n + 1
    polls and the write, provided it may poll more than n times; if it
    may not, it does not return. *)
Theorem spi_send_byte_waits_for_cmdrdy fuel b tr :
  (forall u tr',
     spi_send_byte fuel b tr = Some (u, tr') ->
     exists ss s,
       tr' = tr ++ map (RegRead ADDR_STATUS) ss
                ++ [RegRead ADDR_STATUS s; RegWrite ADDR_DATA (uint8 b)] /\
       Forall (fun x => bit_set x RVLIB_SPIFLASH_BIT_STATUS_CMDRDY = false)
         ss /\
       bit_set s RVLIB_SPIFLASH_BIT_STATUS_CMDRDY = true /\
       (length ss < fuel)%nat /\
       0 <= uint8 b < 256) /\
  (forall n,
     let ss := status_polls n tr in
     let s := uint32 (hw_reg (tr ++ map (RegRead ADDR_STATUS) ss)
                        ADDR_STATUS) in
     Forall (fun x => bit_set x RVLIB_SPIFLASH_BIT_STATUS_CMDRDY = false)
       ss ->
     bit_set s RVLIB_SPIFLASH_BIT_STATUS_CMDRDY = true ->
     ((n < fuel)%nat ->
      spi_send_byte fuel b tr
      = Some (tt, tr ++ map (RegRead ADDR_STATUS) ss
                     ++ [RegRead ADDR_STATUS s;
                         RegWrite ADDR_DATA (uint8 b)])) /\
     ((fuel <= n)%nat -> spi_send_byte fuel b tr = None)).
Proof.
  split.
  - unfold spi_send_byte. intros u tr' H.
    apply bind_Some in H as ([] & tr1 & Hw & H).
    apply write_reg_Some in H as ->.
    apply spi_send_byte_wait_shape in Hw as (ss & s & -> & Hall & Hs & Hlen).
    exists ss, s. split; [rewrite <- !app_assoc; reflexivity|].
    split; [exact Hall|]. split; [exact Hs|]. split; [exact Hlen|].
    apply uint8_range.
  - intros n ss s Hall Hs.
    destruct (spi_send_byte_wait_polls n fuel tr Hall) as [Hnone Hsome].
    unfold spi_send_byte, bind. split.
    + intros Hn. rewrite (Hsome Hs Hn). unfold rvlib_hw_write_reg.
      rewrite <- !app_assoc. reflexivity.
    + intros Hn. rewrite (Hnone Hn). reflexivity.
Qed.

(** *** The receive queue stays empty *)

Lemma fifo_level_add tr evs :
  fifo_level (tr ++ evs) = fifo_level tr + fifo_level evs.
Proof.
  unfold fifo_level, dummy_requests.
  rewrite reg_writes_app, reg_reads_app, occurrences_app, !length_app. lia.
Qed.

Lemma footprint_level evs dw dr ss cy :
  footprint evs dw dr ss cy ->
  fifo_level evs
  = Z.of_nat (occurrences DUMMY_REQUEST dw) - Z.of_nat (length dr).
Proof.
  intros (DW & DR & _). unfold fifo_level, dummy_requests.
  rewrite DW, DR. reflexivity.
Qed.

Lemma occurrences_bytes l : occurrences DUMMY_REQUEST (map uint8 l) = 0%nat.
Proof.
  unfold occurrences. induction l as [|x l IH]; simpl; [reflexivity|].
  replace (uint8 x =? DUMMY_REQUEST) with false; [exact IH|].
  symmetry. apply Z.eqb_neq. pose proof (uint8_range x).
  unfold DUMMY_REQUEST. lia.
Qed.

Lemma bytes_level evs l ss cy :
  footprint evs (map uint8 l) [] ss cy -> fifo_level evs = 0.
Proof.
  intros F. rewrite (footprint_level _ _ _ _ _ F), occurrences_bytes.
  reflexivity.
Qed.

Lemma spi_send_byte_level fuel b tr u tr' :
  spi_send_byte fuel b tr = Some (u, tr') -> fifo_level tr' = fifo_level tr.
Proof.
  intros H. apply spi_send_byte_run in H as (evs & -> & F).
  rewrite fifo_level_add, (bytes_level evs [b] _ _ F). lia.
Qed.

Lemma spi_end_transaction_level fuel tr u tr' :
  spi_end_transaction fuel tr = Some (u, tr') ->
  fifo_level tr' = fifo_level tr.
Proof.
  intros H. apply spi_end_transaction_footprint in H as (evs & -> & F).
  rewrite fifo_level_add, (bytes_level evs [] _ _ F). lia.
Qed.

Lemma spi_read_bytes_level fuel buf n :
  causal_controller -> keeps_queue_empty (spi_read_bytes fuel buf n).
Proof.
  intros Hc tr buf' tr' Hlev H. unfold spi_read_bytes in H.
  apply bind_Some in H as ([[p ncmd] b] & tr1 & Hloop & H).
  apply ret_Some in H as [_ ->].
  pose proof Hloop as Hrun.
  apply spi_read_bytes_loop_run in Hrun
    as (evs & ds & -> & -> & Hle & F & Hlen & _); [|lia].
  rewrite fifo_level_add, Hlev, (footprint_level _ _ _ _ _ F),
    occurrences_repeat, Hlen.
  destruct n as [|n']; [lia|].
  assert (ncmd = 0%nat); [|lia].
  eapply (spi_read_bytes_loop_causal fuel (S n') Hc 0%nat (S n'));
    [lia|lia| |exact Hloop].
  rewrite Hlev, Nat.sub_diag. reflexivity.
Qed.

Lemma spi_command_simple_level fuel cmd tr u tr' :
  spi_command_simple fuel cmd tr = Some (u, tr') ->
  fifo_level tr' = fifo_level tr.
Proof.
  intros H. apply spi_command_simple_run in H as (evs & -> & F).
  rewrite fifo_level_add, (bytes_level evs [cmd] _ _ F). lia.
Qed.

Lemma spi_command_addr_write_level fuel cmd addr data n tr u tr' :
  spi_command_addr_write fuel cmd addr data n tr = Some (u, tr') ->
  fifo_level tr' = fifo_level tr.
Proof.
  intros H. apply spi_command_addr_write_run in H as (evs & -> & F).
  rewrite fifo_level_add,
    (bytes_level evs (cmd :: Z.shiftr addr 16 :: Z.shiftr addr 8 :: addr
                        :: take n data) _ _ F).
  lia.
Qed.

Lemma spi_command_read_level fuel cmd buf n :
  causal_controller -> keeps_queue_empty (spi_command_read fuel cmd buf n).
Proof.
  intros Hc tr buf' tr' Hlev H. unfold spi_command_read in H.
  apply bind_Some in H as (u1 & tr1 & H1 & H).
  apply bind_Some in H as (b2 & tr2 & H2 & H).
  apply bind_Some in H as (u3 & tr3 & H3 & H).
  apply ret_Some in H as [_ ->].
  apply spi_send_byte_level in H1.
  apply (spi_read_bytes_level fuel buf n Hc) in H2; [|lia].
  apply spi_end_transaction_level in H3. lia.
Qed.

Lemma spi_command_addr_read_level fuel cmd addr buf n :
  causal_controller ->
  keeps_queue_empty (spi_command_addr_read fuel cmd addr buf n).
Proof.
  intros Hc tr buf' tr' Hlev H. unfold spi_command_addr_read in H.
  apply bind_Some in H as (u1 & tr1 & H1 & H).
  apply bind_Some in H as (u2 & tr2 & H2 & H).
  apply bind_Some in H as (u3 & tr3 & H3 & H).
  apply bind_Some in H as (u4 & tr4 & H4 & H).
  apply bind_Some in H as (b5 & tr5 & H5 & H).
  apply bind_Some in H as (u6 & tr6 & H6 & H).
  apply ret_Some in H as [_ ->].
  apply spi_send_byte_level in H1, H2, H3, H4.
  apply (spi_read_bytes_level fuel buf n Hc) in H5; [|lia].
  apply spi_end_transaction_level in H6. lia.
Qed.

Lemma spiflash_poll_loop_level fuel end_time :
  causal_controller ->
  forall k flags0, keeps_queue_empty (spiflash_poll_loop fuel k end_time flags0).
Proof.
  intros Hc. induction k as [|k IH]; intros flags0 tr flags tr' Hlev H;
    simpl in H; [discriminate H|].
  apply bind_Some in H as (buf & tr1 & Hq & H).
  apply (spi_command_read_level _ _ _ _ Hc) in Hq; [|exact Hlev].
  destruct (bit_set _ _).
  - apply ret_Some in H as [_ ->]. exact Hq.
  - apply bind_Some in H as (now & tr2 & Hcy & H).
    apply cycle_counter_Some in Hcy as [_ ->].
    assert (L : fifo_level (tr1 ++ [CycleRead now]) = 0)
      by (rewrite fifo_level_add, Hq; reflexivity).
    destruct (poll_expired _ _).
    + apply ret_Some in H as [_ ->]. exact L.
    + exact (IH _ _ _ _ L H).
Qed.

Lemma spiflash_poll_completion_level fuel timeout_us :
  causal_controller ->
  keeps_queue_empty (spiflash_poll_completion fuel timeout_us).
Proof.
  intros Hc tr flags tr' Hlev H. unfold spiflash_poll_completion in H.
  apply bind_Some in H as (start & tr1 & Hcy & H).
  apply cycle_counter_Some in Hcy as [_ ->].
  eapply (spiflash_poll_loop_level _ _ Hc); [|exact H].
  rewrite fifo_level_add, Hlev. reflexivity.
Qed.

Lemma init_drain_level k :
  causal_controller -> keeps_queue_empty (init_drain k).
Proof.
  intros Hc. induction k as [|k IH]; intros tr u tr' Hlev H; simpl in H;
    [discriminate H|].
  apply bind_Some in H as (status & tr1 & Hst & H).
  apply read_reg_Some in Hst as [Hstatus ->].
  assert (L : fifo_level (tr ++ [RegRead ADDR_STATUS status]) = 0).
  { rewrite fifo_level_add, Hlev,
      (bytes_level _ [] _ _ (footprint_status status)). reflexivity. }
  destruct (bit_set status RVLIB_SPIFLASH_BIT_STATUS_READRDY) eqn:Hrr.
  - rewrite Hstatus in Hrr. apply Hc in Hrr. lia.
  - destruct (Z.land status _ =? 0).
    + apply ret_Some in H as [_ ->]. exact L.
    + exact (IH _ _ _ L H).
Qed.

(** X2: On a controller that announces a byte only while a requested byte is
    waiting, every operation of the driver that is entered with the
    receive queue empty leaves it empty: each dummy request it makes is
    matched by a byte it dequeues, so no byte of one transaction is left
    for the next. *)
Theorem operations_keep_queue_empty fuel address buf n op :
  causal_controller ->
  keeps_queue_empty (rvlib_spiflash_init fuel) /\
  keeps_queue_empty (rvlib_spiflash_read_id fuel) /\
  keeps_queue_empty (rvlib_spiflash_read_mem fuel address buf n) /\
  keeps_queue_empty (run_write_op fuel op address).
Proof.
  intros Hc. split; [|split; [|split]].
  - intros tr u tr' Hlev H. unfold rvlib_spiflash_init in H.
    apply bind_Some in H as (u1 & tr1 & H1 & H).
    apply bind_Some in H as (u2 & tr2 & H2 & H).
    apply bind_Some in H as (u3 & tr3 & H3 & H).
    apply bind_Some in H as (u4 & tr4 & H4 & H).
    apply bind_Some in H as (f5 & tr5 & H5 & H).
    apply ret_Some in H as [_ ->].
    apply (init_drain_level _ Hc) in H1; [|exact Hlev].
    apply spi_command_simple_level in H2, H3, H4.
    apply (spiflash_poll_completion_level _ _ Hc) in H5; [exact H5|lia].
  - intros tr devid tr' Hlev H. unfold rvlib_spiflash_read_id in H.
    apply bind_Some in H as (b & tr1 & H1 & H).
    apply ret_Some in H as [_ ->].
    exact (spi_command_read_level _ _ _ _ Hc _ _ _ Hlev H1).
  - intros tr b tr' Hlev H.
    exact (spi_command_addr_read_level _ _ _ _ _ Hc _ _ _ Hlev H).
  - intros tr r tr' Hlev H. apply write_op_outcome in H.
    destruct H as (f0 & tr1 & Hq & Hres).
    apply (spi_command_read_level _ _ _ _ Hc) in Hq; [|exact Hlev].
    destruct Hres as [(_ & _ & ->)|(_ & tr2 & tr3 & tr4 & f1 & tr5 & H2 & H3
      & H4 & H5 & Hres)]; [exact Hq|].
    apply spi_command_simple_level in H2, H3.
    apply spi_command_addr_write_level in H4.
    apply (spiflash_poll_completion_level _ _ Hc) in H5; [|lia].
    destruct Hres as [(_ & _ & ->)|[(_ & _ & _ & H6)|(_ & _ & _ & ->)]];
      try exact H5.
    apply spi_command_simple_level in H6. lia.
Qed.

(** X3: On a responsive controller the drain loop of rvlib_spiflash_init
    dequeues every requested byte that an earlier, interrupted
    transaction left waiting: it exits with the queue empty, after as many
    reads of DATA as bytes were waiting. *)
Theorem init_drain_empties_queue k : forall tr u tr',
  responsive_controller ->
  0 <= fifo_level tr ->
  init_drain k tr = Some (u, tr') ->
  exists evs,
    tr' = tr ++ evs /\
    fifo_level tr' = 0 /\
    Z.of_nat (length (reg_reads ADDR_DATA evs)) = fifo_level tr /\
    reg_writes ADDR_DATA evs = [].
Proof.
  induction k as [|k IH]; intros tr u tr' Hresp Hlev H; simpl in H;
    [discriminate H|].
  apply bind_Some in H as (status & tr1 & Hst & H).
  apply read_reg_Some in Hst as [Hstatus ->].
  destruct (Hresp tr) as [_ Hrr]. cbv zeta in Hrr. rewrite <- Hstatus in Hrr.
  assert (L : fifo_level (tr ++ [RegRead ADDR_STATUS status]) = fifo_level tr).
  { rewrite fifo_level_add,
      (bytes_level _ [] _ _ (footprint_status status)). lia. }
  destruct (bit_set status RVLIB_SPIFLASH_BIT_STATUS_READRDY) eqn:Hb.
  - apply bind_Some in H as (d & tr2 & Hd & H).
    apply read_reg_Some in Hd as [_ ->].
    pose proof (proj1 Hrr eq_refl) as Hpos.
    assert (L2 : fifo_level ((tr ++ [RegRead ADDR_STATUS status])
                               ++ [RegRead ADDR_DATA d]) = fifo_level tr - 1).
    { rewrite fifo_level_add, L,
        (footprint_level _ _ _ _ _ (footprint_data_read d)).
      unfold occurrences. simpl. lia. }
    apply IH in H as (evs & -> & Hz & Hn & Hw); [|exact Hresp|lia].
    exists ([RegRead ADDR_STATUS status] ++ [RegRead ADDR_DATA d] ++ evs).
    split; [rewrite <- !app_assoc; reflexivity|].
    split; [exact Hz|].
    split.
    + rewrite !reg_reads_app, !length_app.
      destruct (footprint_status status) as (_ & -> & _).
      destruct (footprint_data_read d) as (_ & -> & _).
      rewrite L2 in Hn. simpl. lia.
    + rewrite !reg_writes_app, Hw.
      destruct (footprint_status status) as (-> & _).
      destruct (footprint_data_read d) as (-> & _). reflexivity.
  - assert (Hzero : fifo_level tr = 0).
    { destruct (Z_lt_le_dec 0 (fifo_level tr)) as [Hpos|Hle]; [|lia].
      apply Hrr in Hpos. discriminate Hpos. }
    destruct (Z.land status _ =? 0).
    + apply ret_Some in H as [_ ->].
      exists [RegRead ADDR_STATUS status]. split; [reflexivity|].
      split; [lia|].
      destruct (footprint_status status) as (-> & -> & _).
      split; [simpl; lia|reflexivity].
    + apply IH in H as (evs & -> & Hz & Hn & Hw); [|exact Hresp|lia].
      exists ([RegRead ADDR_STATUS status] ++ evs).
      split; [rewrite <- !app_assoc; reflexivity|].
      split; [exact Hz|].
      rewrite reg_reads_app, reg_writes_app, length_app, Hw.
      destruct (footprint_status status) as (-> & -> & _).
      split; [simpl; lia|reflexivity].
Qed.

(** *** Reading: the device id and the memory *)

Lemma byte_pair b1 b2 :
  0 <= b2 < 256 -> Z.lor (Z.shiftl b1 8) b2 = 256 * b1 + b2.
Proof.
  intros Hb2.
  assert (Hland : Z.land (Z.shiftl b1 8) b2 = 0).
  { apply Z.bits_inj'. intros i Hi.
    rewrite Z.land_spec, Z.bits_0.
    destruct (Z.lt_ge_cases i 8) as [Hlt|Hge].
    - rewrite Z.shiftl_spec_low by exact Hlt. reflexivity.
    - replace (Z.testbit b2 i) with false; [apply andb_false_r|].
      symmetry. destruct (Z.eq_dec b2 0) as [->|Hnz]; [apply Z.bits_0|].
      apply Z.bits_above_log2; [lia|].
      apply Z.log2_lt_pow2; [lia|].
      apply Z.lt_le_trans with (2 ^ 8); [lia|].
      apply Z.pow_le_mono_r; lia. }
  rewrite <- (Z.lxor_lor _ _ Hland), <- (Z.add_nocarry_lxor _ _ Hland),
    Z.shiftl_mul_pow2 by lia.
  lia.
Qed.

Lemma command_bytes_header l m evs dr ss cy :
  footprint evs (map uint8 l ++ repeat DUMMY_REQUEST m) dr ss cy ->
  command_bytes evs = map uint8 l.
Proof.
  intros (DW & _). unfold command_bytes.
  rewrite DW, List.filter_app, keep_bytes, no_command_in_dummies, app_nil_r.
  reflexivity.
Qed.

Lemma spi_read_bytes_loop_bounds k n : forall p ncmd buf tr st tr',
  (p < n)%nat ->
  spi_read_bytes_loop k n p ncmd buf tr = Some (st, tr') ->
  (n <= length buf)%nat.
Proof.
  induction k as [|k IH]; intros p ncmd buf tr st tr' Hp H.
  - simpl in H. destruct (Nat.ltb_spec p n) as [_|Hge]; [discriminate H|lia].
  - rewrite spi_read_bytes_loop_step in H by exact Hp. cbv zeta in H.
    destruct (bit_set _ RVLIB_SPIFLASH_BIT_STATUS_READRDY).
    + destruct (Nat.ltb_spec p (length buf)) as [Hin|Hout];
        [|discriminate H].
      destruct (Nat.lt_ge_cases (p + 1) n) as [Hlt|Hge]; [|lia].
      apply IH in H; [|exact Hlt].
      rewrite length_insert in H. exact H.
    + exact (IH _ _ _ _ _ _ Hp H).
Qed.

Lemma spi_read_bytes_bounds fuel buf n tr buf' tr' :
  spi_read_bytes fuel buf n tr = Some (buf', tr') ->
  (0 < n)%nat -> (n <= length buf)%nat.
Proof.
  unfold spi_read_bytes. intros H Hn.
  apply bind_Some in H as (st & tr1 & Hloop & _).
  exact (spi_read_bytes_loop_bounds _ _ _ _ _ _ _ _ Hn Hloop).
Qed.

(** X4: rvlib_spiflash_read_id sends the one command byte 0x9f, dequeues
    three bytes and deselects once; the first byte is the manufacturer id
    and the next two are the device id, most significant byte first. *)
Theorem read_id_decodes_three_bytes fuel tr devid tr' :
  rvlib_spiflash_read_id fuel tr = Some (devid, tr') ->
  exists evs b0 b1 b2,
    tr' = tr ++ evs /\
    command_bytes evs = [SPIFLASH_CMD_READ_ID] /\
    captured evs = [b0; b1; b2] /\
    reg_writes ADDR_SLAVESEL evs = [0] /\
    manufacturer_id devid = b0 /\
    device_id devid = 256 * b1 + b2 /\
    0 <= manufacturer_id devid < 2 ^ 8 /\
    0 <= device_id devid < 2 ^ 16.
Proof.
  unfold rvlib_spiflash_read_id. intros H.
  apply bind_Some in H as (buf & tr1 & Hq & H).
  apply ret_Some in H as [Hd ->]. subst devid.
  apply spi_command_read_run in Hq
    as (evs & ds & m & -> & F & Hm & Hlen & ->).
  destruct ds as [|d0 [|d1 [|d2 [|d3 ds]]]]; try discriminate Hlen.
  exists evs, (uint8 d0), (uint8 d1), (uint8 d2).
  pose proof (uint8_range d0). pose proof (uint8_range d1).
  pose proof (uint8_range d2).
  split; [reflexivity|].
  split; [exact (command_bytes_query _ _ _ _ _ _ F)|].
  split; [exact (footprint_captured _ _ _ _ _ F)|].
  split; [destruct F as (_ & _ & SS & _); exact SS|].
  cbn [manufacturer_id device_id map app nth].
  rewrite byte_pair by assumption.
  split; [reflexivity|]. split; [reflexivity|]. lia.
Qed.

(** X5: rvlib_spiflash_read_mem sends the READ command and the address as
    three bytes, most significant first, then dequeues exactly nbytes
    bytes into the first nbytes places of the buffer, in order; the rest
    of the buffer, and all of it when nbytes is 0, is left as it was. *)
Theorem read_mem_fills_buffer_prefix fuel address buf n tr buf' tr' :
  rvlib_spiflash_read_mem fuel address buf n tr = Some (buf', tr') ->
  exists evs,
    tr' = tr ++ evs /\
    command_bytes evs
    = [SPIFLASH_CMD_READ; uint8 (Z.shiftr address 16);
       uint8 (Z.shiftr address 8); uint8 address] /\
    length (captured evs) = n /\
    buf' = captured evs ++ drop n buf /\
    length buf' = length buf /\
    reg_writes ADDR_SLAVESEL evs = [0].
Proof.
  unfold rvlib_spiflash_read_mem. intros H.
  assert (Hn : (0 < n)%nat -> (n <= length buf)%nat).
  { unfold spi_command_addr_read in H.
    apply bind_Some in H as (u1 & tr1 & _ & H).
    apply bind_Some in H as (u2 & tr2 & _ & H).
    apply bind_Some in H as (u3 & tr3 & _ & H).
    apply bind_Some in H as (u4 & tr4 & _ & H).
    apply bind_Some in H as (b5 & tr5 & H5 & _).
    exact (spi_read_bytes_bounds _ _ _ _ _ _ H5). }
  apply spi_command_addr_read_run in H
    as (evs & ds & m & -> & F & Hm & Hlen & ->).
  exists evs. split; [reflexivity|].
  split.
  { apply (command_bytes_header
             [SPIFLASH_CMD_READ; Z.shiftr address 16; Z.shiftr address 8;
              address] m _ _ _ _ F). }
  rewrite (footprint_captured _ _ _ _ _ F).
  split; [rewrite length_map; exact Hlen|].
  split; [reflexivity|].
  split; [|destruct F as (_ & _ & SS & _); exact SS].
  rewrite length_app, length_map, length_drop, Hlen.
  destruct n as [|n']; [lia|]. specialize (Hn ltac:(lia)). lia.
Qed.

(** *** Addresses have 24 bits *)

Lemma address_byte a k :
  0 <= k <= 16 ->
  uint8 (Z.shiftr (a mod 2 ^ 24) k) = uint8 (Z.shiftr a k).
Proof.
  intros Hk. unfold uint8. apply Z.bits_inj'. intros i Hi.
  destruct (Z.lt_ge_cases i 8) as [Hlt|Hge].
  - rewrite !Z.mod_pow2_bits_low by lia.
    rewrite !Z.shiftr_spec by lia.
    apply Z.mod_pow2_bits_low. lia.
  - rewrite !Z.mod_pow2_bits_high by lia. reflexivity.
Qed.

Lemma spi_send_byte_truncates fuel b b' :
  uint8 b = uint8 b' -> spi_send_byte fuel b = spi_send_byte fuel b'.
Proof. unfold spi_send_byte. intros ->. reflexivity. Qed.

Lemma spi_command_addr_read_24 fuel cmd a buf n :
  spi_command_addr_read fuel cmd (a mod 2 ^ 24) buf n
  = spi_command_addr_read fuel cmd a buf n.
Proof.
  unfold spi_command_addr_read.
  rewrite (spi_send_byte_truncates fuel _ _ (address_byte a 16 ltac:(lia))),
    (spi_send_byte_truncates fuel _ _ (address_byte a 8 ltac:(lia))),
    (spi_send_byte_truncates fuel (a mod 2 ^ 24) a
       (address_byte a 0 ltac:(lia))).
  reflexivity.
Qed.

Lemma spi_command_addr_write_24 fuel cmd a data n :
  spi_command_addr_write fuel cmd (a mod 2 ^ 24) data n
  = spi_command_addr_write fuel cmd a data n.
Proof.
  unfold spi_command_addr_write.
  rewrite (spi_send_byte_truncates fuel _ _ (address_byte a 16 ltac:(lia))),
    (spi_send_byte_truncates fuel _ _ (address_byte a 8 ltac:(lia))),
    (spi_send_byte_truncates fuel (a mod 2 ^ 24) a
       (address_byte a 0 ltac:(lia))).
  reflexivity.
Qed.

(** X6: Only the low 24 bits of the uint32_t address reach the flash: reading,
    programming and erasing at an address behave, access for access, as
    at that address reduced modulo 2^24, so addresses 16 MiB apart are
    the same location to the driver. *)
Theorem address_top_byte_is_dropped fuel address tr :
  (forall buf n,
     rvlib_spiflash_read_mem fuel (address mod 2 ^ 24) buf n tr
     = rvlib_spiflash_read_mem fuel address buf n tr) /\
  (forall data n,
     rvlib_spiflash_page_program fuel (address mod 2 ^ 24) data n tr
     = rvlib_spiflash_page_program fuel address data n tr) /\
  rvlib_spiflash_sector_erase fuel (address mod 2 ^ 24) tr
  = rvlib_spiflash_sector_erase fuel address tr.
Proof.
  split; [|split].
  - intros buf n. unfold rvlib_spiflash_read_mem.
    rewrite spi_command_addr_read_24. reflexivity.
  - intros data n. unfold rvlib_spiflash_page_program.
    rewrite spi_command_addr_write_24. reflexivity.
  - unfold rvlib_spiflash_sector_erase.
    rewrite spi_command_addr_write_24. reflexivity.
Qed.

(** *** Reading returns *)

Lemma bind_returns {A B} (m : M A) (k : A -> M B) tr a tr1 r :
  m tr = Some (a, tr1) -> k a tr1 = Some r -> bind m k tr = Some r.
Proof. intros Hm Hk. unfold bind. rewrite Hm. exact Hk. Qed.

Lemma spi_send_byte_returns fuel b tr :
  responsive_controller -> (1 <= fuel)%nat ->
  exists tr',
    spi_send_byte fuel b tr = Some (tt, tr') /\ fifo_level tr' = fifo_level tr.
Proof.
  intros Hresp Hfuel. destruct fuel as [|fuel]; [lia|].
  destruct (Hresp tr) as [Hcmd _]. cbv zeta in Hcmd.
  eexists. split.
  - unfold spi_send_byte. cbn [spi_send_byte_wait].
    unfold bind, rvlib_hw_read_reg, rvlib_hw_write_reg, ret.
    cbv beta iota zeta. rewrite Hcmd. reflexivity.
  - rewrite !fifo_level_add.
    rewrite (bytes_level _ [] _ _ (footprint_status _)).
    rewrite (bytes_level _ [b] _ _ (footprint_data_write (uint8 b))).
    lia.
Qed.

Lemma spi_end_transaction_returns fuel tr :
  never_busy_controller -> (1 <= fuel)%nat ->
  exists tr', spi_end_transaction fuel tr = Some (tt, tr').
Proof.
  intros Hidle Hfuel. destruct fuel as [|fuel]; [lia|].
  specialize (Hidle tr). unfold bit_set in Hidle.
  apply negb_false_iff in Hidle.
  eexists. unfold spi_end_transaction. cbn [spi_end_transaction_wait].
  unfold bind, rvlib_hw_read_reg, rvlib_hw_write_reg, ret.
  cbv beta iota zeta. rewrite Hidle. reflexivity.
Qed.

(** X27: On a responsive controller that is not busy, rvlib_spiflash_read_mem
    entered with the receive queue empty returns: one poll of STATUS for
    each byte sent and for the deselect, and two for each byte read, are
    enough. *)
Theorem read_mem_returns fuel address buf n tr :
  responsive_controller ->
  never_busy_controller ->
  fifo_level tr = 0 ->
  (n <= length buf)%nat ->
  (1 <= fuel)%nat -> (2 * n <= fuel)%nat ->
  exists buf' tr',
    rvlib_spiflash_read_mem fuel address buf n tr = Some (buf', tr').
Proof.
  intros Hresp Hidle Hlev Hbuf Hfuel Hfuel2.
  unfold rvlib_spiflash_read_mem, spi_command_addr_read.
  destruct (spi_send_byte_returns fuel SPIFLASH_CMD_READ tr Hresp Hfuel)
    as (tr1 & H1 & L1).
  destruct (spi_send_byte_returns fuel (Z.shiftr address 16) tr1 Hresp Hfuel)
    as (tr2 & H2 & L2).
  destruct (spi_send_byte_returns fuel (Z.shiftr address 8) tr2 Hresp Hfuel)
    as (tr3 & H3 & L3).
  destruct (spi_send_byte_returns fuel address tr3 Hresp Hfuel)
    as (tr4 & H4 & L4).
  assert (Hlev4 : fifo_level tr4 = 0) by lia.
  destruct (spi_read_bytes_loop_returns n Hresp fuel 0 n buf tr4)
    as ([[p ncmd] buf'] & tr5 & H5);
    [lia|exact Hbuf|lia|rewrite Hlev4; lia|lia|rewrite Hlev4; simpl; lia|].
  destruct (spi_end_transaction_returns fuel tr5 Hidle Hfuel) as (tr6 & H6).
  exists buf', tr6.
  apply (bind_returns _ _ _ _ _ _ H1).
  apply (bind_returns _ _ _ _ _ _ H2).
  apply (bind_returns _ _ _ _ _ _ H3).
  apply (bind_returns _ _ _ _ _ _ H4).
  apply (bind_returns _ _ _ buf' tr5).
  - unfold spi_read_bytes. apply (bind_returns _ _ _ _ _ _ H5). reflexivity.
  - apply (bind_returns _ _ _ _ _ _ H6). reflexivity.
Qed.

(** *** The completion poll returns *)

Lemma uint64_range x : 0 <= uint64 x < 2 ^ 64.
Proof. unfold uint64. apply Z.mod_pos_bound. lia. Qed.

Lemma poll_expired_elapsed start timeout_us now :
  poll_timeout_cycles timeout_us < 2 ^ 63 ->
  poll_expired (poll_deadline start timeout_us) now
  = (poll_timeout_cycles timeout_us <? elapsed start now)
    && (elapsed start now <=? poll_timeout_cycles timeout_us + 2 ^ 63).
Proof.
  intros HD. unfold poll_expired, poll_deadline.
  fold (poll_timeout_cycles timeout_us).
  set (D := poll_timeout_cycles timeout_us) in *.
  change (Z.shiftl 1 63) with (2 ^ 63).
  assert (E : uint64 (uint64 (start + D) - now)
              = uint64 (D - elapsed start now)).
  { unfold elapsed, uint64.
    rewrite Zminus_mod_idemp_l, Zminus_mod_idemp_r. f_equal. lia. }
  cbv zeta. rewrite E.
  pose proof (uint64_range (now - start)) as He.
  fold (elapsed start now) in He.
  assert (0 <= D) by (apply uint64_range).
  destruct (Z.ltb_spec D (elapsed start now)) as [Hpast|Hnot].
  - rewrite uint64_wrap_neg by lia. cbn [andb].
    destruct (Z.leb_spec (elapsed start now) (D + 2 ^ 63));
      [apply Z.leb_le|apply Z.leb_gt]; lia.
  - rewrite uint64_small by lia. cbn [andb]. apply Z.leb_gt. lia.
Qed.

Lemma elapsed_add c0 c1 c2 :
  uint64 (c2 - c0) = uint64 (uint64 (c2 - c1) + uint64 (c1 - c0)).
Proof.
  unfold uint64. rewrite <- Zplus_mod. f_equal. lia.
Qed.

Lemma elapsed_reads tr0 tr :
  elapsed (uint64 (hw_cycle tr0)) (uint64 (hw_cycle tr))
  = uint64 (hw_cycle tr - hw_cycle tr0).
Proof. unfold elapsed, uint64. rewrite <- Zminus_mod. reflexivity. Qed.

Lemma clock_order lo hi : clock_advances lo hi -> lo <= hi.
Proof. intros H. specialize (H [] (CycleRead 0)). lia. Qed.

Lemma clock_elapsed lo hi :
  clock_advances lo hi -> 0 <= lo ->
  forall evs tr,
    Z.of_nat (length evs) * hi < 2 ^ 64 ->
    Z.of_nat (length evs) * lo
    <= uint64 (hw_cycle (tr ++ evs) - hw_cycle tr)
    <= Z.of_nat (length evs) * hi.
Proof.
  intros Hclk Hlo. pose proof (clock_order _ _ Hclk) as Hle.
  induction evs as [|e evs IH] using rev_ind; intros tr Hlen.
  - rewrite app_nil_r, Z.sub_diag. simpl. unfold uint64.
    rewrite Z.mod_0_l by lia. lia.
  - rewrite length_app in *. cbn [length] in *.
    rewrite app_assoc.
    rewrite (elapsed_add (hw_cycle tr) (hw_cycle (tr ++ evs))).
    specialize (IH tr ltac:(nia)).
    pose proof (Hclk (tr ++ evs) e) as Hstep.
    rewrite uint64_small by nia. nia.
Qed.

(** On a responsive controller a byte is sent after one poll. *)
Lemma spi_send_byte_exact fuel b tr :
  responsive_controller -> (1 <= fuel)%nat ->
  spi_send_byte fuel b tr
  = Some (tt, tr ++ [RegRead ADDR_STATUS (uint32 (hw_reg tr ADDR_STATUS));
                     RegWrite ADDR_DATA (uint8 b)]).
Proof.
  intros Hresp Hfuel. destruct fuel as [|fuel]; [lia|].
  destruct (Hresp tr) as [Hcmd _]. cbv zeta in Hcmd.
  unfold spi_send_byte. cbn [spi_send_byte_wait].
  unfold bind, rvlib_hw_read_reg, rvlib_hw_write_reg, ret.
  cbv beta iota zeta. rewrite Hcmd. rewrite <- app_assoc. reflexivity.
Qed.

Lemma spi_end_transaction_exact fuel tr :
  never_busy_controller -> (1 <= fuel)%nat ->
  spi_end_transaction fuel tr
  = Some (tt, tr ++ [RegRead ADDR_STATUS (uint32 (hw_reg tr ADDR_STATUS));
                     RegWrite ADDR_SLAVESEL 0]).
Proof.
  intros Hidle Hfuel. destruct fuel as [|fuel]; [lia|].
  specialize (Hidle tr). unfold bit_set in Hidle.
  apply negb_false_iff in Hidle.
  unfold spi_end_transaction. cbn [spi_end_transaction_wait].
  unfold bind, rvlib_hw_read_reg, rvlib_hw_write_reg, ret.
  cbv beta iota zeta. rewrite Hidle. rewrite <- app_assoc. reflexivity.
Qed.

Lemma level_status tr s :
  fifo_level (tr ++ [RegRead ADDR_STATUS s]) = fifo_level tr.
Proof.
  rewrite fifo_level_add, (bytes_level _ [] _ _ (footprint_status s)). lia.
Qed.

Lemma level_byte tr b :
  fifo_level (tr ++ [RegWrite ADDR_DATA (uint8 b)]) = fifo_level tr.
Proof.
  rewrite fifo_level_add,
    (bytes_level _ [b] _ _ (footprint_data_write (uint8 b))). lia.
Qed.

Lemma level_request tr :
  fifo_level (tr ++ [RegWrite ADDR_DATA DUMMY_REQUEST]) = fifo_level tr + 1.
Proof.
  rewrite fifo_level_add,
    (footprint_level _ _ _ _ _ (footprint_data_write DUMMY_REQUEST)).
  reflexivity.
Qed.

Lemma level_deselect tr v :
  fifo_level (tr ++ [RegWrite ADDR_SLAVESEL v]) = fifo_level tr.
Proof.
  rewrite fifo_level_add, (bytes_level _ [] _ _ (footprint_deselect v)). lia.
Qed.

Lemma level_cycle tr v : fifo_level (tr ++ [CycleRead v]) = fifo_level tr.
Proof.
  rewrite fifo_level_add, (bytes_level _ [] _ _ (footprint_cycle v)). lia.
Qed.

(** The flag query on a responsive controller that is not busy, entered
    with the receive queue empty: eight register accesses. *)
Lemma flag_query_exact fuel cmd flags0 tr :
  responsive_controller -> never_busy_controller ->
  fifo_level tr = 0 -> (2 <= fuel)%nat ->
  exists d evs,
    spi_command_read fuel cmd [flags0] 1 tr = Some ([uint8 d], tr ++ evs) /\
    length evs = 8%nat /\
    cycle_reads evs = [] /\
    fifo_level (tr ++ evs) = 0.
Proof.
  intros Hresp Hidle Hlev Hfuel.
  unfold spi_command_read.
  set (tr1 := tr ++ [RegRead ADDR_STATUS (uint32 (hw_reg tr ADDR_STATUS));
                     RegWrite ADDR_DATA (uint8 cmd)]).
  assert (L1 : fifo_level tr1 = 0).
  { unfold tr1.
    change [RegRead ADDR_STATUS (uint32 (hw_reg tr ADDR_STATUS));
            RegWrite ADDR_DATA (uint8 cmd)]
      with ([RegRead ADDR_STATUS (uint32 (hw_reg tr ADDR_STATUS))]
              ++ [RegWrite ADDR_DATA (uint8 cmd)]).
    rewrite app_assoc, level_byte, level_status. exact Hlev. }
  set (s2 := uint32 (hw_reg tr1 ADDR_STATUS)).
  set (tr2 := (tr1 ++ [RegRead ADDR_STATUS s2])
                ++ [RegWrite ADDR_DATA DUMMY_REQUEST]).
  assert (L2 : fifo_level tr2 = 1).
  { unfold tr2. rewrite level_request, level_status, L1. reflexivity. }
  set (s3 := uint32 (hw_reg tr2 ADDR_STATUS)).
  set (d := uint32 (hw_reg (tr2 ++ [RegRead ADDR_STATUS s3]) ADDR_DATA)).
  set (tr3 := (tr2 ++ [RegRead ADDR_STATUS s3]) ++ [RegRead ADDR_DATA d]).
  assert (Hread : spi_read_bytes fuel [flags0] 1 tr1
                  = Some ([uint8 d], tr3)).
  { destruct fuel as [|[|fuel]]; [lia|lia|].
    unfold spi_read_bytes.
    apply (bind_returns _ _ _ (1%nat, 0%nat, [uint8 d]) tr3);
      [|reflexivity].
    rewrite spi_read_bytes_loop_step by lia. cbv zeta.
    destruct (Hresp tr1) as [Hcmd1 Hrr1]. cbv zeta in Hcmd1, Hrr1.
    fold s2 in Hcmd1, Hrr1. fold s2.
    rewrite Hcmd1.
    destruct (bit_set s2 RVLIB_SPIFLASH_BIT_STATUS_READRDY) eqn:Hb;
      [pose proof (proj1 Hrr1 eq_refl); lia|].
    cbn [Nat.ltb Nat.leb andb Nat.sub].
    fold tr2.
    rewrite spi_read_bytes_loop_step by lia. cbv zeta.
    destruct (Hresp tr2) as [Hcmd2 Hrr2]. cbv zeta in Hcmd2, Hrr2.
    fold s3 in Hcmd2, Hrr2. fold s3.
    rewrite (proj2 Hrr2 ltac:(lia)).
    cbn [Nat.ltb Nat.leb andb length].
    fold d. fold tr3.
    destruct fuel; reflexivity. }
  exists d.
  exists ([RegRead ADDR_STATUS (uint32 (hw_reg tr ADDR_STATUS));
           RegWrite ADDR_DATA (uint8 cmd);
           RegRead ADDR_STATUS s2; RegWrite ADDR_DATA DUMMY_REQUEST;
           RegRead ADDR_STATUS s3; RegRead ADDR_DATA d;
           RegRead ADDR_STATUS (uint32 (hw_reg tr3 ADDR_STATUS));
           RegWrite ADDR_SLAVESEL 0]).
  assert (E : tr3 ++ [RegRead ADDR_STATUS (uint32 (hw_reg tr3 ADDR_STATUS));
                      RegWrite ADDR_SLAVESEL 0]
              = tr ++ [RegRead ADDR_STATUS (uint32 (hw_reg tr ADDR_STATUS));
           RegWrite ADDR_DATA (uint8 cmd);
           RegRead ADDR_STATUS s2; RegWrite ADDR_DATA DUMMY_REQUEST;
           RegRead ADDR_STATUS s3; RegRead ADDR_DATA d;
           RegRead ADDR_STATUS (uint32 (hw_reg tr3 ADDR_STATUS));
           RegWrite ADDR_SLAVESEL 0]).
  { unfold tr3, tr2, tr1. rewrite <- !app_assoc. reflexivity. }
  split; [|split; [reflexivity|split; [reflexivity|]]].
  - apply (bind_returns _ _ _ tt tr1);
      [apply spi_send_byte_exact; [exact Hresp|lia]|].
    apply (bind_returns _ _ _ [uint8 d] tr3); [exact Hread|].
    apply (bind_returns _ _ _ tt
             (tr3 ++ [RegRead ADDR_STATUS (uint32 (hw_reg tr3 ADDR_STATUS));
                      RegWrite ADDR_SLAVESEL 0]));
      [apply spi_end_transaction_exact; [exact Hidle|lia]|].
    rewrite E. reflexivity.
  - rewrite <- E.
    change [RegRead ADDR_STATUS (uint32 (hw_reg tr3 ADDR_STATUS));
            RegWrite ADDR_SLAVESEL 0]
      with ([RegRead ADDR_STATUS (uint32 (hw_reg tr3 ADDR_STATUS))]
              ++ [RegWrite ADDR_SLAVESEL 0]).
    rewrite app_assoc, level_deselect, level_status.
    unfold tr3.
    rewrite fifo_level_add, level_status, L2,
      (footprint_level _ _ _ _ _ (footprint_data_read d)).
    reflexivity.
Qed.


Lemma spiflash_poll_loop_step fuel k end_time flags0 tr d evs :
  spi_command_read fuel SPIFLASH_CMD_READ_FLAGS [flags0] 1 tr
    = Some ([uint8 d], tr ++ evs) ->
  spiflash_poll_loop fuel (S k) end_time flags0 tr
  = if bit_set (uint8 d) SPIFLASH_BIT_FLAGS_READY
    then Some (uint8 d, tr ++ evs)
    else
      let now := uint64 (hw_cycle (tr ++ evs)) in
      if poll_expired end_time now
      then Some (uint8 d, (tr ++ evs) ++ [CycleRead now])
      else spiflash_poll_loop fuel k end_time (uint8 d)
             ((tr ++ evs) ++ [CycleRead now]).
Proof.
  intros Hq. cbn [spiflash_poll_loop]. unfold bind at 1. rewrite Hq.
  change (nth 0 [uint8 d] 0) with (uint8 d).
  destruct (bit_set (uint8 d) SPIFLASH_BIT_FLAGS_READY); [reflexivity|].
  unfold bind, get_cycle_counter. cbv zeta.
  destruct (poll_expired _ _); reflexivity.
Qed.

Lemma clock_elapsed_from lo hi tr0 pre evs :
  clock_advances lo hi -> 0 <= lo ->
  uint64 (hw_cycle (tr0 ++ pre) - hw_cycle tr0)
    + Z.of_nat (length evs) * hi < 2 ^ 64 ->
  uint64 (hw_cycle (tr0 ++ pre) - hw_cycle tr0) + Z.of_nat (length evs) * lo
  <= uint64 (hw_cycle (tr0 ++ pre ++ evs) - hw_cycle tr0)
  <= uint64 (hw_cycle (tr0 ++ pre) - hw_cycle tr0)
     + Z.of_nat (length evs) * hi.
Proof.
  intros Hclk Hlo Hsmall.
  pose proof (uint64_range (hw_cycle (tr0 ++ pre) - hw_cycle tr0)) as HE.
  pose proof (clock_elapsed lo hi Hclk Hlo evs (tr0 ++ pre)) as Hd.
  set (m := Z.of_nat (length evs)) in *.
  set (E := uint64 (hw_cycle (tr0 ++ pre) - hw_cycle tr0)) in *.
  assert (Hm : m * hi < 2 ^ 64) by lia.
  specialize (Hd Hm).
  rewrite app_assoc.
  rewrite (elapsed_add (hw_cycle tr0) (hw_cycle (tr0 ++ pre))
             (hw_cycle ((tr0 ++ pre) ++ evs))).
  rewrite uint64_small; lia.
Qed.

(** On a responsive controller that is not busy, with a cycle counter
    that advances, the poll loop returns: a round takes nine accesses, and
    the deadline is passed after at most [k] more rounds. *)
Lemma spiflash_poll_loop_returns fuel timeout_us lo hi tr0 :
  responsive_controller -> never_busy_controller ->
  clock_advances lo hi -> 0 < lo -> 9 * hi <= 2 ^ 63 ->
  poll_timeout_cycles timeout_us < 2 ^ 63 ->
  (2 <= fuel)%nat ->
  forall k flags0 pre,
    fifo_level (tr0 ++ pre) = 0 ->
    uint64 (hw_cycle (tr0 ++ pre) - hw_cycle tr0)
      <= poll_timeout_cycles timeout_us + hi ->
    poll_timeout_cycles timeout_us
      < uint64 (hw_cycle (tr0 ++ pre) - hw_cycle tr0)
        + (9 * Z.of_nat k + 8) * lo ->
    exists flags evs,
      spiflash_poll_loop fuel (S k)
        (poll_deadline (uint64 (hw_cycle tr0)) timeout_us) flags0 (tr0 ++ pre)
      = Some (flags, tr0 ++ pre ++ evs) /\
      Forall (fun now => elapsed (uint64 (hw_cycle tr0)) now
                         <= poll_timeout_cycles timeout_us + 9 * hi)
        (cycle_reads evs).
Proof.
  intros Hresp Hidle Hclk Hlo Hhi HD Hfuel.
  set (D := poll_timeout_cycles timeout_us) in *.
  assert (HD0 : 0 <= D) by apply uint64_range.
  pose proof (clock_order _ _ Hclk) as Hle.
  induction k as [|k IH]; intros flags0 pre Hlev HE Hk.
  all: destruct (flag_query_exact fuel SPIFLASH_CMD_READ_FLAGS flags0
                   (tr0 ++ pre) Hresp Hidle Hlev Hfuel)
         as (d & q & Hq & Hlen & Hcy & Hlev').
  all: rewrite (spiflash_poll_loop_step _ _ _ _ _ _ _ Hq); cbv zeta.
  all: pose proof (uint64_range (hw_cycle (tr0 ++ pre) - hw_cycle tr0))
         as HE0.
  all: pose proof (clock_elapsed_from lo hi tr0 pre q Hclk) as Hd.
  all: rewrite Hlen in Hd.
  all: specialize (Hd ltac:(lia) ltac:(lia)).
  all: rewrite poll_expired_elapsed by exact HD; fold D.
  all: rewrite elapsed_reads, <- app_assoc.
  all: set (now := uint64 (hw_cycle (tr0 ++ pre ++ q))).
  all: destruct (bit_set (uint8 d) SPIFLASH_BIT_FLAGS_READY);
         [exists (uint8 d), q; split; [reflexivity|];
          rewrite Hcy; constructor|].
  all: destruct (Z.ltb_spec D (uint64 (hw_cycle (tr0 ++ pre ++ q)
                                       - hw_cycle tr0))) as [Hpast|Hnot];
         [replace (_ <=? _) with true by (symmetry; apply Z.leb_le; lia);
          cbn [andb];
          exists (uint8 d), (q ++ [CycleRead now]);
          split; [rewrite <- !app_assoc; reflexivity|];
          rewrite cycle_reads_app, Hcy; cbn [cycle_reads app];
          constructor; [|constructor];
          unfold now; rewrite elapsed_reads; lia|].
  - lia.
  - cbn [andb].
    pose proof (clock_elapsed_from lo hi tr0 (pre ++ q) [CycleRead now] Hclk)
      as H1.
    rewrite <- app_assoc in H1. cbn [length] in H1.
    specialize (H1 ltac:(lia) ltac:(lia)).
    destruct (IH (uint8 d) (pre ++ q ++ [CycleRead now]))
      as (flags & evs & Hrun & Hall).
    + rewrite !app_assoc, level_cycle. exact Hlev'.
    + lia.
    + lia.
    + exists flags, (q ++ [CycleRead now] ++ evs).
      split; [rewrite <- !app_assoc; rewrite Hrun; f_equal; f_equal;
              rewrite <- !app_assoc; reflexivity|].
      rewrite !cycle_reads_app, Hcy. cbn [cycle_reads app].
      constructor; [|exact Hall].
      unfold now. rewrite elapsed_reads. lia.
Qed.

Lemma spiflash_poll_completion_returns fuel timeout_us lo hi tr :
  responsive_controller -> never_busy_controller ->
  clock_advances lo hi -> 0 < lo -> 9 * hi <= 2 ^ 63 ->
  poll_timeout_cycles timeout_us < 2 ^ 63 ->
  fifo_level tr = 0 ->
  (2 <= fuel)%nat ->
  poll_timeout_cycles timeout_us < 9 * lo * Z.of_nat fuel ->
  exists flags evs,
    spiflash_poll_completion fuel timeout_us tr
    = Some (flags, tr ++ CycleRead (uint64 (hw_cycle tr)) :: evs) /\
    Forall (fun now => elapsed (uint64 (hw_cycle tr)) now
                       <= poll_timeout_cycles timeout_us + 9 * hi)
      (cycle_reads evs).
Proof.
  intros Hresp Hidle Hclk Hlo Hhi HD Hlev Hfuel Hrounds.
  destruct fuel as [|k]; [lia|].
  pose proof (Hclk tr (CycleRead (uint64 (hw_cycle tr)))) as H1.
  assert (HD0 : 0 <= poll_timeout_cycles timeout_us) by apply uint64_range.
  destruct (spiflash_poll_loop_returns (S k) timeout_us lo hi tr
              Hresp Hidle Hclk Hlo Hhi HD Hfuel k 0
              [CycleRead (uint64 (hw_cycle tr))])
    as (flags & evs & Hrun & Hall).
  - rewrite level_cycle. exact Hlev.
  - lia.
  - lia.
  - exists flags, evs. split; [|exact Hall].
    unfold spiflash_poll_completion, bind, get_cycle_counter. cbv zeta.
    exact Hrun.
Qed.


Lemma Forall_map_snd {A B} (Q : B -> Prop) (l : list (A * B)) :
  Forall Q (map snd l) -> Forall (fun r => Q (snd r)) l.
Proof.
  induction l as [|r l IH]; intros H; [constructor|].
  apply Forall_cons in H as [H1 H2]. constructor; auto.
Qed.

Lemma spiflash_poll_completion_run_from fuel timeout_us tr flags tr' :
  spiflash_poll_completion fuel timeout_us tr = Some (flags, tr') ->
  exists evs rounds,
    tr' = tr ++ CycleRead (uint64 (hw_cycle tr)) :: evs /\
    polled (poll_deadline (uint64 (hw_cycle tr)) timeout_us) rounds flags evs.
Proof.
  unfold spiflash_poll_completion. intros H.
  apply bind_Some in H as (start & tr1 & Hc & H).
  apply cycle_counter_Some in Hc as [-> ->].
  apply spiflash_poll_loop_run in H as (evs & rounds & -> & Hp).
  exists evs, rounds.
  split; [rewrite <- app_assoc; reflexivity|exact Hp].
Qed.

(** C4: spiflash_poll_completion reads the cycle counter to fix the
    deadline and then issues one-byte READ_FLAGS command+read
    transactions; every query before the last found READY clear and the
    deadline not reached; the last query either found READY set, or found
    READY clear with the deadline reached; the byte returned is the one
    read by the last query in both cases.  And the poll does return: on a
    responsive controller that is not busy, entered with the receive queue
    empty, with a cycle counter that advances by at least [lo] > 0 and at
    most [hi] cycles per access, a timeout below 2^63 cycles and 9 * hi
    at most 2^63, it returns within timeout / (9 * lo) + 1 queries,
    whatever the flash answers and wherever the 64-bit counter stands. *)
Theorem spiflash_poll_completion_polls fuel timeout_us tr :
  (forall flags tr',
     spiflash_poll_completion fuel timeout_us tr = Some (flags, tr') ->
     exists start evs rounds,
       tr' = tr ++ CycleRead start :: evs /\
       polled (poll_deadline start timeout_us) rounds flags evs /\
       last (captured evs) = Some flags /\
       (bit_set flags SPIFLASH_BIT_FLAGS_READY = true \/
        (bit_set flags SPIFLASH_BIT_FLAGS_READY = false /\
         exists now,
           last (cycle_reads evs) = Some now /\
           poll_expired (poll_deadline start timeout_us) now = true))) /\
  (forall lo hi,
     responsive_controller -> never_busy_controller ->
     clock_advances lo hi -> 0 < lo -> 9 * hi <= 2 ^ 63 ->
     poll_timeout_cycles timeout_us < 2 ^ 63 ->
     fifo_level tr = 0 ->
     (2 <= fuel)%nat ->
     poll_timeout_cycles timeout_us < 9 * lo * Z.of_nat fuel ->
     exists flags start evs rounds,
       spiflash_poll_completion fuel timeout_us tr
       = Some (flags, tr ++ CycleRead start :: evs) /\
       polled (poll_deadline start timeout_us) rounds flags evs /\
       last (captured evs) = Some flags).
Proof.
  split.
  - intros flags tr' H.
    apply spiflash_poll_completion_run in H
      as (start & evs & rounds & -> & Hp).
    exists start, evs, rounds.
    split; [reflexivity|]. split; [exact Hp|].
    split; [eapply polled_last; eauto|].
    destruct Hp as (_ & _ & _ & _ & [[Hf _]|(Hf & now & Hc & He)]);
      [left; exact Hf|].
    right. split; [exact Hf|]. exists now. rewrite Hc, last_snoc. auto.
  - intros lo hi Hresp Hidle Hclk Hlo Hhi HD Hlev Hfuel Hrounds.
    destruct (spiflash_poll_completion_returns fuel timeout_us lo hi tr
                Hresp Hidle Hclk Hlo Hhi HD Hlev Hfuel Hrounds)
      as (flags & evs & Hrun & _).
    pose proof Hrun as H.
    apply spiflash_poll_completion_run_from in H as (evs' & rounds & E & Hp).
    apply app_inv_head in E. injection E as <-.
    exists flags, (uint64 (hw_cycle tr)), evs, rounds.
    split; [exact Hrun|]. split; [exact Hp|]. eapply polled_last; eauto.
Qed.

(** C5: the deadline is the cycle count read at the start plus
    timeout_us * RVLIB_CPU_FREQ_MHZ, reduced modulo 2^64, and the poll
    takes it as expired exactly when the 64-bit difference
    end_time - time_now has its top bit set, that is, is at least 2^63.
    For a timeout below 2^63 cycles this is the case, for any reading,
    exactly when the cycles counted since the start, modulo 2^64, are more
    than the timeout and at most 2^63 more: in every run of the poll each
    query before the last was followed by a reading that is not in that
    window, and a poll that ends with READY clear ends at a reading in
    it, wherever the counter stood at the start, so also when the
    deadline or the counter wrapped.  On a responsive controller that is
    not busy and with a counter that advances by at least [lo] > 0 and at
    most [hi] cycles per access, with 9 * hi at most 2^63, the poll
    returns, no reading before the last is past the deadline, and a poll
    that ends with READY clear ends at the first reading past it. *)
Theorem poll_deadline_wraparound fuel timeout_us tr :
  poll_timeout_cycles timeout_us < 2 ^ 63 ->
  let D := poll_timeout_cycles timeout_us in
  let start := uint64 (hw_cycle tr) in
  let end_time := uint64 (start + D) in
  end_time = poll_deadline start timeout_us /\
  (0 <= timeout_us < 2 ^ 32 ->
   end_time = uint64 (hw_cycle tr + RVLIB_CPU_FREQ_MHZ * timeout_us)) /\
  (forall now,
     poll_expired end_time now = Z.testbit (uint64 (end_time - now)) 63 /\
     (poll_expired end_time now = true <->
      D < elapsed start now <= D + 2 ^ 63)) /\
  (forall flags tr',
     spiflash_poll_completion fuel timeout_us tr = Some (flags, tr') ->
     exists evs rounds,
       tr' = tr ++ CycleRead start :: evs /\
       polled end_time rounds flags evs /\
       Forall (fun r =>
                 Z.testbit (uint64 (end_time - snd r)) 63 = false /\
                 uint64 (end_time - snd r) < 2 ^ 63 /\
                 ~ (D < elapsed start (snd r) <= D + 2 ^ 63)) rounds /\
       (bit_set flags SPIFLASH_BIT_FLAGS_READY = false ->
        exists now,
          last (cycle_reads evs) = Some now /\
          Z.testbit (uint64 (end_time - now)) 63 = true /\
          2 ^ 63 <= uint64 (end_time - now) /\
          D < elapsed start now <= D + 2 ^ 63)) /\
  (forall lo hi,
     responsive_controller -> never_busy_controller ->
     clock_advances lo hi -> 0 < lo -> 9 * hi <= 2 ^ 63 ->
     fifo_level tr = 0 ->
     (2 <= fuel)%nat ->
     D < 9 * lo * Z.of_nat fuel ->
     exists flags evs rounds,
       spiflash_poll_completion fuel timeout_us tr
       = Some (flags, tr ++ CycleRead start :: evs) /\
       polled end_time rounds flags evs /\
       Forall (fun r => elapsed start (snd r) <= D) rounds /\
       (bit_set flags SPIFLASH_BIT_FLAGS_READY = false ->
        exists now,
          last (cycle_reads evs) = Some now /\
          D < elapsed start now <= D + 9 * hi)).
Proof.
  intros HD D start end_time.
  assert (Htest : forall now,
    poll_expired end_time now = Z.testbit (uint64 (end_time - now)) 63).
  { intros now. unfold poll_expired. apply uint64_top_bit, uint64_range. }
  assert (Hleb : forall now,
    poll_expired end_time now = (2 ^ 63 <=? uint64 (end_time - now)))
    by reflexivity.
  assert (Hwin : forall now,
    poll_expired end_time now
    = (D <? elapsed start now) && (elapsed start now <=? D + 2 ^ 63))
    by (intros now; apply poll_expired_elapsed; exact HD).
  split; [reflexivity|]. split; [|split; [|split]].
  - intros Ht. apply poll_deadline_unwrapped. exact Ht.
  - intros now. split; [apply Htest|]. rewrite Hwin, andb_true_iff.
    rewrite Z.ltb_lt, Z.leb_le. reflexivity.
  - intros flags tr' H.
    apply spiflash_poll_completion_run_from in H as (evs & rounds & E & Hp).
    exists evs, rounds. split; [exact E|]. split; [exact Hp|].
    destruct Hp as (_ & _ & _ & Hall & Hexit). split.
    + apply (Forall_impl _ _ _ Hall). intros r [_ Hr].
      change (poll_expired end_time (snd r) = false) in Hr.
      split; [rewrite <- Htest; exact Hr|].
      split; [rewrite Hleb in Hr; apply Z.leb_gt in Hr; exact Hr|].
      rewrite Hwin in Hr. intros [H1 H2].
      apply Z.ltb_lt in H1. apply Z.leb_le in H2.
      rewrite H1, H2 in Hr. discriminate Hr.
    + intros Hbusy.
      destruct Hexit as [[Hf _]|(_ & now & Hc & He)]; [congruence|].
      change (poll_expired end_time now = true) in He.
      exists now. split; [rewrite Hc; apply last_snoc|].
      split; [rewrite <- Htest; exact He|].
      split; [rewrite Hleb in He; apply Z.leb_le in He; exact He|].
      rewrite Hwin in He. apply andb_true_iff in He as [H1 H2].
      apply Z.ltb_lt in H1. apply Z.leb_le in H2. lia.
  - intros lo hi Hresp Hidle Hclk Hlo Hhi Hlev Hfuel Hrounds.
    destruct (spiflash_poll_completion_returns fuel timeout_us lo hi tr
                Hresp Hidle Hclk Hlo Hhi HD Hlev Hfuel Hrounds)
      as (flags & evs & Hrun & Hall).
    fold start D in Hrun, Hall.
    pose proof Hrun as H.
    apply spiflash_poll_completion_run_from in H as (evs' & rounds & E & Hp).
    apply app_inv_head in E. injection E as <-.
    exists flags, evs, rounds. split; [exact Hrun|]. split; [exact Hp|].
    destruct Hp as (_ & _ & _ & Hnot & Hexit).
    assert (Hreads : Forall (fun now => elapsed start now <= D + 9 * hi)
                       (map snd rounds)).
    { destruct Hexit as [[_ Hc]|(_ & now & Hc & _)]; rewrite Hc in Hall;
        [exact Hall|].
      apply Forall_app in Hall as [Hall _]. exact Hall. }
    split.
    + apply Forall_map_snd in Hreads.
      pose proof (proj2 (Forall_and _ _) (conj Hnot Hreads)) as Hboth.
      apply (Forall_impl _ _ _ Hboth). intros r [[_ Hr] H1].
      change (poll_expired end_time (snd r) = false) in Hr.
      rewrite Hwin in Hr.
      destruct (Z.ltb_spec D (elapsed start (snd r))) as [Hpast|]; [|lia].
      cbn [andb] in Hr. apply Z.leb_gt in Hr. lia.
    + intros Hbusy.
      destruct Hexit as [[Hf _]|(_ & now & Hc & He)]; [congruence|].
      change (poll_expired end_time now = true) in He.
      exists now. split; [rewrite Hc; apply last_snoc|].
      rewrite Hc in Hall. apply Forall_app in Hall as [_ Hall].
      apply Forall_cons in Hall as [Hnow _].
      rewrite Hwin in He. apply andb_true_iff in He as [H1 _].
      apply Z.ltb_lt in H1. lia.
Qed.

End Properties.

(** ** The boot monitor's text helpers *)

Ltac char_codes :=
  repeat match goal with
  | |- context [chr ?c] =>
      let v := eval vm_compute in (chr c) in change (chr c) with v
  | H : context [chr ?c] |- _ =>
      let v := eval vm_compute in (chr c) in change (chr c) with v in H
  end.

(** Closed side conditions: comparisons of numbers, and lists of
    characters. *)
Ltac by_computation :=
  vm_compute;
  first [ reflexivity
        | let H := fresh in intro H; discriminate H
        | split; first [reflexivity | let H := fresh in intro H; discriminate H] ].

Ltac all_chars :=
  repeat first
    [ apply Forall_nil_2
    | apply Forall_cons_2; [by_computation|] ].

Ltac ends_here :=
  intros c Hc; vm_compute in Hc;
  first [discriminate Hc | injection Hc as <-; reflexivity].

Lemma uint32_small x : 0 <= x < 2 ^ 32 -> uint32 x = x.
Proof. intros H. unfold uint32. apply Z.mod_small. exact H. Qed.

Lemma uint32_range x : 0 <= uint32 x < 2 ^ 32.
Proof. unfold uint32. apply Z.mod_pos_bound. lia. Qed.

Lemma skip_spaces_repeat sp rest p :
  (forall c, head rest = Some c -> c <> chr " ") ->
  skip_spaces (repeat (chr " ") sp ++ rest) p = (rest, (p + sp)%nat).
Proof.
  intros Hrest. revert p.
  induction sp as [|sp IH]; intros p; simpl.
  - rewrite Nat.add_0_r. destruct rest as [|c rest]; [reflexivity|].
    simpl. destruct (Z.eqb_spec c (chr " ")) as [Heq|_]; [|reflexivity].
    exfalso. apply (Hrest c); [reflexivity|exact Heq].
  - rewrite IH. f_equal. lia.
Qed.

Lemma skip_spaces_bound rest : forall p rest' p',
  skip_spaces rest p = (rest', p') ->
  (p' + length rest' = p + length rest)%nat.
Proof.
  induction rest as [|c rest IH]; intros p rest' p' H; simpl in H.
  - injection H as <- <-. reflexivity.
  - destruct (c =? chr " ").
    + apply IH in H. simpl. lia.
    + injection H as <- <-. reflexivity.
Qed.

Lemma numeral_from_snoc base digit v l c :
  numeral_from base digit v (l ++ [c])
  = base * numeral_from base digit v l + digit c.
Proof. unfold numeral_from. rewrite fold_left_app. reflexivity. Qed.

Lemma numeral_from_cons base digit v l c :
  numeral_from base digit v (c :: l)
  = numeral_from base digit (base * v + digit c) l.
Proof. reflexivity. Qed.

Lemma numeral_from_grows base digit l :
  1 <= base -> Forall (fun c => 0 <= digit c) l ->
  forall v, 0 <= v -> v <= numeral_from base digit v l.
Proof.
  intros Hbase Hl. induction Hl as [|c l Hc _ IH]; intros v Hv.
  - simpl. lia.
  - rewrite numeral_from_cons.
    etransitivity; [|apply IH; nia]. nia.
Qed.

Lemma dec_digit_range c : is_dec_digit c = true -> 0 <= c - chr "0" <= 9.
Proof. unfold is_dec_digit. char_codes. lia. Qed.

Lemma dec_digits_nonneg ds :
  Forall (fun c => is_dec_digit c = true) ds ->
  Forall (fun c => 0 <= c - chr "0") ds.
Proof.
  induction 1 as [|c l Hc _ IH]; constructor; [|exact IH].
  apply dec_digit_range in Hc. lia.
Qed.

Lemma parse_dec_loop_stops rest v good p :
  ends_numeral is_dec_digit rest ->
  parse_dec_loop rest v good p = Some (v, good, p).
Proof.
  intros Hend. destruct rest as [|c rest]; [reflexivity|].
  specialize (Hend c eq_refl). simpl.
  replace ((c <? chr "0") || (chr "9" <? c)) with true; [reflexivity|].
  unfold is_dec_digit in Hend. revert Hend. char_codes. lia.
Qed.

Lemma parse_dec_loop_digit c rest v good p :
  is_dec_digit c = true ->
  parse_dec_loop (c :: rest) v good p
  = if UINT32_MAX / 10 <? v then None
    else parse_dec_loop rest (uint32 (10 * v + c - chr "0")) true (p + 1)%nat.
Proof.
  intros Hc. simpl.
  replace ((c <? chr "0") || (chr "9" <? c)) with false; [reflexivity|].
  unfold is_dec_digit in Hc. revert Hc. char_codes. lia.
Qed.

(** The decimal loop on a numeral all of whose digits but the last denote
    at most UINT32_MAX / 10. *)
Lemma parse_dec_loop_accepts rest c good' : forall ds v good p,
  Forall (fun c => is_dec_digit c = true) ds ->
  is_dec_digit c = true ->
  ends_numeral is_dec_digit rest ->
  0 <= v ->
  numeral_from 10 (fun c => c - chr "0") v ds <= UINT32_MAX / 10 ->
  good' = true ->
  parse_dec_loop ((ds ++ [c]) ++ rest) v good p
  = Some (uint32 (10 * numeral_from 10 (fun c => c - chr "0") v ds
                  + (c - chr "0")),
          good', (p + length ds + 1)%nat).
Proof.
  intros ds. induction ds as [|d ds IH]; intros v good p Hds Hc Hend Hv Hle ->.
  - simpl app. rewrite parse_dec_loop_digit by exact Hc.
    simpl in Hle. destruct (Z.ltb_spec (UINT32_MAX / 10) v) as [Hgt|_]; [lia|].
    rewrite parse_dec_loop_stops by exact Hend.
    simpl. do 3 f_equal; [f_equal; lia|lia].
  - apply Forall_cons in Hds as [Hd Hds].
    pose proof (dec_digit_range d Hd) as Hdr.
    rewrite numeral_from_cons in Hle.
    pose proof (numeral_from_grows 10 (fun c => c - chr "0") ds ltac:(lia)
                  (dec_digits_nonneg ds Hds) (10 * v + (d - chr "0"))
                  ltac:(lia)) as Hgrow.
    simpl app. rewrite parse_dec_loop_digit by exact Hd.
    change (UINT32_MAX / 10) with 429496729 in *.
    destruct (Z.ltb_spec 429496729 v) as [Hgt|_]; [lia|].
    replace (10 * v + d - chr "0") with (10 * v + (d - chr "0")) by lia.
    rewrite uint32_small by lia.
    rewrite (IH _ true (p + 1)%nat Hds Hc Hend); [|lia|exact Hle|reflexivity].
    rewrite numeral_from_cons. simpl length. do 3 f_equal. lia.
Qed.

(** The decimal loop gives up when the digits before the last denote more
    than UINT32_MAX / 10 and less than 2^32. *)
Lemma parse_dec_loop_rejects rest c : forall ds v good p,
  Forall (fun c => is_dec_digit c = true) ds ->
  is_dec_digit c = true ->
  0 <= v ->
  UINT32_MAX / 10 < numeral_from 10 (fun c => c - chr "0") v ds < 2 ^ 32 ->
  parse_dec_loop ((ds ++ [c]) ++ rest) v good p = None.
Proof.
  intros ds. induction ds as [|d ds IH]; intros v good p Hds Hc Hv Hrange.
  - simpl app. rewrite parse_dec_loop_digit by exact Hc.
    simpl in Hrange.
    destruct (Z.ltb_spec (UINT32_MAX / 10) v) as [_|Hle]; [reflexivity|lia].
  - apply Forall_cons in Hds as [Hd Hds].
    pose proof (dec_digit_range d Hd) as Hdr.
    rewrite numeral_from_cons in Hrange.
    pose proof (numeral_from_grows 10 (fun c => c - chr "0") ds ltac:(lia)
                  (dec_digits_nonneg ds Hds) (10 * v + (d - chr "0"))
                  ltac:(lia)) as Hgrow.
    simpl app. rewrite parse_dec_loop_digit by exact Hd.
    destruct (Z.ltb_spec (UINT32_MAX / 10) v) as [_|Hle]; [reflexivity|].
    replace (10 * v + d - chr "0") with (10 * v + (d - chr "0")) by lia.
    rewrite uint32_small by lia.
    apply IH; [exact Hds|exact Hc|lia|exact Hrange].
Qed.

Lemma digits_no_space ds rest :
  ds <> [] -> Forall (fun c => is_dec_digit c = true) ds ->
  forall c, head (ds ++ rest) = Some c -> c <> chr " ".
Proof.
  intros Hne Hds c Hc. destruct ds as [|d ds]; [contradiction|].
  apply Forall_cons in Hds as [Hd _]. simpl in Hc. injection Hc as <-.
  apply dec_digit_range in Hd. revert Hd. char_codes. lia.
Qed.

Lemma last_digit ds :
  ds <> [] -> Forall (fun c => is_dec_digit c = true) ds ->
  exists ds' c,
    ds = ds' ++ [c] /\ Forall (fun c => is_dec_digit c = true) ds' /\
    is_dec_digit c = true /\
    dec_value ds = 10 * dec_value ds' + (c - chr "0") /\
    0 <= dec_value ds' /\ 0 <= c - chr "0" <= 9.
Proof.
  intros Hne Hds. destruct (exists_last Hne) as (ds' & c & ->).
  apply Forall_app in Hds as [Hds' Hc]. apply Forall_cons in Hc as [Hc _].
  exists ds', c. split; [reflexivity|]. split; [exact Hds'|].
  split; [exact Hc|].
  split; [unfold dec_value; rewrite numeral_from_snoc; reflexivity|].
  split; [|exact (dec_digit_range c Hc)].
  apply (numeral_from_grows 10 (fun c => c - chr "0") ds' ltac:(lia)
           (dec_digits_nonneg ds' Hds') 0 ltac:(lia)).
Qed.

(** The common frame of the statements on decimal numerals: leading
    spaces, the digits, and text that is not a digit. *)
Lemma parse_uint_decimal_frame sp ds rest val :
  ds <> [] ->
  Forall (fun c => is_dec_digit c = true) ds ->
  hex_prefix (ds ++ rest) = false ->
  parse_uint (repeat (chr " ") sp ++ ds ++ rest) val
  = match parse_dec_loop (ds ++ rest) 0 false sp with
    | Some (v, true, p') => (Z.of_nat p', v)
    | _ => (-1, val)
    end.
Proof.
  intros Hne Hds Hhex. unfold parse_uint.
  rewrite (skip_spaces_repeat sp (ds ++ rest) 0 (digits_no_space ds rest Hne Hds)).
  rewrite Hhex. reflexivity.
Qed.

(** X7: parse_uint reads a decimal numeral below 2^32 to the number it
    denotes, whatever its leading spaces and leading zeros, and returns
    the index of the first character after it. *)
Theorem parse_uint_decimal_exact sp ds rest val :
  ds <> [] ->
  Forall (fun c => is_dec_digit c = true) ds ->
  ends_numeral is_dec_digit rest ->
  hex_prefix (ds ++ rest) = false ->
  dec_value ds < 2 ^ 32 ->
  parse_uint (repeat (chr " ") sp ++ ds ++ rest) val
  = (Z.of_nat (sp + length ds), dec_value ds).
Proof.
  intros Hne Hds Hend Hhex Hval.
  rewrite parse_uint_decimal_frame by assumption.
  destruct (last_digit ds Hne Hds) as (ds' & c & -> & Hds' & Hc & Hv & H0 & Hd).
  unfold dec_value in *.
  rewrite (parse_dec_loop_accepts rest c true ds' 0 false sp Hds' Hc Hend);
    [|lia|change (UINT32_MAX / 10) with 429496729; lia|reflexivity].
  rewrite <- Hv, uint32_small by lia.
  rewrite length_app. simpl. do 2 f_equal. lia.
Qed.

(** X8: The overflow test of the decimal loop looks at the value before the
    last digit only: the numerals 4294967296 to 4294967299 pass it, and
    parse_uint returns them reduced modulo 2^32, that is 0 to 3, as a
    successful parse. *)
Theorem parse_uint_decimal_wraps sp ds rest val :
  ds <> [] ->
  Forall (fun c => is_dec_digit c = true) ds ->
  ends_numeral is_dec_digit rest ->
  hex_prefix (ds ++ rest) = false ->
  2 ^ 32 <= dec_value ds <= 2 ^ 32 + 3 ->
  parse_uint (repeat (chr " ") sp ++ ds ++ rest) val
  = (Z.of_nat (sp + length ds), dec_value ds - 2 ^ 32).
Proof.
  intros Hne Hds Hend Hhex Hval.
  rewrite parse_uint_decimal_frame by assumption.
  destruct (last_digit ds Hne Hds) as (ds' & c & -> & Hds' & Hc & Hv & H0 & Hd).
  unfold dec_value in *.
  rewrite (parse_dec_loop_accepts rest c true ds' 0 false sp Hds' Hc Hend);
    [|lia|change (UINT32_MAX / 10) with 429496729; lia|reflexivity].
  rewrite <- Hv. rewrite length_app. simpl.
  f_equal; [f_equal; lia|].
  unfold uint32. symmetry. apply Z.mod_unique_pos with (q := 1); lia.
Qed.

(** X9: A decimal numeral from 4294967300 up to 42949672959, the largest
    whose digits before the last still denote less than 2^32, is refused:
    parse_uint returns -1 and leaves the caller's variable as it was. *)
Theorem parse_uint_decimal_rejects sp ds rest val :
  ds <> [] ->
  Forall (fun c => is_dec_digit c = true) ds ->
  hex_prefix (ds ++ rest) = false ->
  2 ^ 32 + 4 <= dec_value ds < 10 * 2 ^ 32 ->
  parse_uint (repeat (chr " ") sp ++ ds ++ rest) val = (-1, val).
Proof.
  intros Hne Hds Hhex Hval.
  rewrite parse_uint_decimal_frame by assumption.
  destruct (last_digit ds Hne Hds) as (ds' & c & -> & Hds' & Hc & Hv & H0 & Hd).
  unfold dec_value in *.
  rewrite (parse_dec_loop_rejects rest c ds' 0 false sp Hds' Hc);
    [reflexivity|lia|change (UINT32_MAX / 10) with 429496729; lia].
Qed.

Lemma hex_digit_range c d : hex_digit c = Some d -> 0 <= d <= 15.
Proof.
  unfold hex_digit. char_codes.
  destruct ((48 <=? c) && (c <=? 57)) eqn:H1; [intros [= <-]; lia|].
  destruct ((97 <=? c) && (c <=? 102)) eqn:H2; [intros [= <-]; lia|].
  destruct ((65 <=? c) && (c <=? 70)) eqn:H3; [intros [= <-]; lia|].
  discriminate.
Qed.

Lemma is_hex_digit_Some c :
  is_hex_digit c = true -> exists d, hex_digit c = Some d /\ 0 <= d <= 15.
Proof.
  unfold is_hex_digit. destruct (hex_digit c) as [d|] eqn:Hd; [|discriminate].
  intros _. exists d. split; [reflexivity|]. exact (hex_digit_range c d Hd).
Qed.

Lemma hex_digits_nonneg hs :
  Forall (fun c => is_hex_digit c = true) hs ->
  Forall (fun c => 0 <= default 0 (hex_digit c)) hs.
Proof.
  induction 1 as [|c l Hc _ IH]; constructor; [|exact IH].
  apply is_hex_digit_Some in Hc as (d & -> & Hd). simpl. lia.
Qed.

Lemma parse_hex_loop_stops rest v good p :
  ends_numeral is_hex_digit rest ->
  parse_hex_loop rest v good p = Some (v, good, p).
Proof.
  intros Hend. destruct rest as [|c rest]; [reflexivity|].
  specialize (Hend c eq_refl). simpl. unfold is_hex_digit in Hend.
  destruct (hex_digit c); [discriminate Hend|reflexivity].
Qed.

(** The hexadecimal loop never wraps: it returns the number the digits
    denote when that is below 2^32, and gives up otherwise. *)
Lemma parse_hex_loop_spec rest :
  ends_numeral is_hex_digit rest ->
  forall hs v good p,
    Forall (fun c => is_hex_digit c = true) hs ->
    0 <= v < 2 ^ 32 ->
    parse_hex_loop (hs ++ rest) v good p
    = if numeral_from 16 (fun c => default 0 (hex_digit c)) v hs <? 2 ^ 32
      then Some (numeral_from 16 (fun c => default 0 (hex_digit c)) v hs,
                 match hs with [] => good | _ => true end,
                 (p + length hs)%nat)
      else None.
Proof.
  intros Hend hs. induction hs as [|c hs IH]; intros v good p Hhs Hv.
  - simpl app. rewrite parse_hex_loop_stops by exact Hend.
    unfold numeral_from. simpl.
    destruct (Z.ltb_spec v (2 ^ 32)) as [_|Hge]; [|lia].
    rewrite Nat.add_0_r. reflexivity.
  - apply Forall_cons in Hhs as [Hc Hhs].
    destruct (is_hex_digit_Some c Hc) as (d & Hd & Hdr).
    pose proof (numeral_from_grows 16 (fun c => default 0 (hex_digit c)) hs
                  ltac:(lia) (hex_digits_nonneg hs Hhs) (16 * v + d)
                  ltac:(lia)) as Hgrow.
    rewrite numeral_from_cons. simpl app. cbn [parse_hex_loop].
    rewrite Hd. cbn [default from_option id].
    change (UINT32_MAX / 16) with 268435455.
    destruct (Z.ltb_spec 268435455 v) as [Hgt|Hle].
    + destruct (Z.ltb_spec (numeral_from 16 (fun c => default 0 (hex_digit c))
                              (16 * v + d) hs) (2 ^ 32)) as [Hlt|_];
        [lia|reflexivity].
    + rewrite Z.shiftl_mul_pow2 by lia.
      replace (v * 2 ^ 4 + d) with (16 * v + d) by lia.
      rewrite uint32_small by lia.
      rewrite IH by (assumption || lia).
      simpl length.
      replace (p + 1 + length hs)%nat with (p + S (length hs))%nat by lia.
      destruct hs; reflexivity.
Qed.

(** X10: After the prefix 0x or 0X parse_uint reads a hexadecimal numeral to
    the number it denotes exactly when that is below 2^32; a larger one,
    and a prefix with no hexadecimal digit after it, is refused with -1
    and the caller's variable is left as it was. *)
Theorem parse_uint_hexadecimal sp x hs rest val :
  x = chr "x" \/ x = chr "X" ->
  Forall (fun c => is_hex_digit c = true) hs ->
  ends_numeral is_hex_digit rest ->
  parse_uint (repeat (chr " ") sp ++ chr "0" :: x :: hs ++ rest) val
  = if negb (Nat.eqb (length hs) 0) && (hex_value hs <? 2 ^ 32)
    then (Z.of_nat (sp + 2 + length hs), hex_value hs)
    else (-1, val).
Proof.
  intros Hx Hhs Hend. unfold parse_uint.
  rewrite (skip_spaces_repeat sp (chr "0" :: x :: hs ++ rest) 0).
  2:{ intros c [= <-]. char_codes. lia. }
  replace (hex_prefix (chr "0" :: x :: hs ++ rest)) with true.
  2:{ simpl. destruct Hx as [-> | ->]; reflexivity. }
  change (drop 2 (chr "0" :: x :: hs ++ rest)) with (hs ++ rest).
  rewrite (parse_hex_loop_spec rest Hend hs 0 false _ Hhs) by lia.
  fold (hex_value hs).
  destruct (hex_value hs <? 2 ^ 32); [|rewrite andb_false_r; reflexivity].
  destruct hs as [|c hs]; [reflexivity|].
  reflexivity.
Qed.

(** X11: A string with no digit where the number should start is refused:
    parse_uint returns -1 and leaves the caller's variable as it was.
    The empty string and a string of spaces are of this kind. *)
Theorem parse_uint_needs_a_digit sp rest val :
  ends_numeral (fun c => is_dec_digit c || (c =? chr " ")) rest ->
  parse_uint (repeat (chr " ") sp ++ rest) val = (-1, val).
Proof.
  intros Hend. unfold parse_uint.
  rewrite (skip_spaces_repeat sp rest 0).
  2:{ intros c Hc Heq. apply Hend in Hc. subst c.
      rewrite Z.eqb_refl, orb_true_r in Hc. discriminate Hc. }
  assert (Hdec : ends_numeral is_dec_digit rest).
  { intros c Hc. apply Hend in Hc. apply orb_false_elim in Hc as [Hc _].
    exact Hc. }
  replace (hex_prefix rest) with false.
  - rewrite parse_dec_loop_stops by exact Hdec. reflexivity.
  - destruct rest as [|c0 [|c1 rest]]; try reflexivity.
    specialize (Hdec c0 eq_refl). simpl.
    destruct (Z.eqb_spec c0 (chr "0")) as [->|_]; [|reflexivity].
    discriminate Hdec.
Qed.

Lemma parse_dec_loop_progress rest : forall v good p v' good' p',
  parse_dec_loop rest v good p = Some (v', good', p') ->
  (p' <= p + length rest)%nat /\
  ((good' = good /\ p' = p /\ v' = v) \/
   (good' = true /\ (p < p')%nat /\ 0 <= v' < 2 ^ 32)).
Proof.
  induction rest as [|c rest IH]; intros v good p v' good' p' H; simpl in H.
  - injection H as <- <- <-. split; [lia|]. left. auto.
  - destruct ((c <? chr "0") || (chr "9" <? c)).
    + injection H as <- <- <-. split; [lia|]. left. auto.
    + destruct (UINT32_MAX / 10 <? v); [discriminate H|].
      apply IH in H as [Hp H]. simpl. split; [lia|]. right.
      destruct H as [(-> & -> & ->)|(-> & Hlt & Hv)].
      * split; [reflexivity|]. split; [lia|]. apply uint32_range.
      * split; [reflexivity|]. split; [lia|]. exact Hv.
Qed.

Lemma parse_hex_loop_progress rest : forall v good p v' good' p',
  parse_hex_loop rest v good p = Some (v', good', p') ->
  (p' <= p + length rest)%nat /\
  ((good' = good /\ p' = p /\ v' = v) \/
   (good' = true /\ (p < p')%nat /\ 0 <= v' < 2 ^ 32)).
Proof.
  induction rest as [|c rest IH]; intros v good p v' good' p' H; simpl in H.
  - injection H as <- <- <-. split; [lia|]. left. auto.
  - destruct (hex_digit c) as [d|].
    + destruct (UINT32_MAX / 16 <? v); [discriminate H|].
      apply IH in H as [Hp H]. simpl. split; [lia|]. right.
      destruct H as [(-> & -> & ->)|(-> & Hlt & Hv)].
      * split; [reflexivity|]. split; [lia|]. apply uint32_range.
      * split; [reflexivity|]. split; [lia|]. exact Hv.
    + injection H as <- <- <-. split; [lia|]. left. auto.
Qed.

(** X12: Whatever the string, parse_uint either fails, returning -1 and
    leaving the caller's variable as it was, or returns the number of
    characters it consumed, at least one and at most the length of the
    string, together with a value that fits 32 bits. *)
Theorem parse_uint_result s val :
  (fst (parse_uint s val) = -1 /\ snd (parse_uint s val) = val) \/
  (1 <= fst (parse_uint s val) <= Z.of_nat (length s) /\
   0 <= snd (parse_uint s val) < 2 ^ 32).
Proof.
  unfold parse_uint.
  destruct (skip_spaces s 0) as [rest p] eqn:Hskip.
  apply skip_spaces_bound in Hskip.
  assert (Hloop : forall r q,
    (q + length r <= length s)%nat ->
    forall res,
      (parse_dec_loop r 0 false q = res \/ parse_hex_loop r 0 false q = res) ->
      (fst (match res with
            | Some (v, true, p') => (Z.of_nat p', v)
            | _ => (-1, val) end) = -1 /\
       snd (match res with
            | Some (v, true, p') => (Z.of_nat p', v)
            | _ => (-1, val) end) = val) \/
      (1 <= fst (match res with
                 | Some (v, true, p') => (Z.of_nat p', v)
                 | _ => (-1, val) end) <= Z.of_nat (length s) /\
       0 <= snd (match res with
                 | Some (v, true, p') => (Z.of_nat p', v)
                 | _ => (-1, val) end) < 2 ^ 32)).
  { intros r q Hq res Hres.
    destruct res as [[[v' good'] p']|]; [|left; auto].
    assert (Hprog : (p' <= q + length r)%nat /\
      ((good' = false /\ p' = q /\ v' = 0) \/
       (good' = true /\ (q < p')%nat /\ 0 <= v' < 2 ^ 32))).
    { destruct Hres as [Hres|Hres].
      - exact (parse_dec_loop_progress _ _ _ _ _ _ _ Hres).
      - exact (parse_hex_loop_progress _ _ _ _ _ _ _ Hres). }
    destruct Hprog as [Hp [(-> & _)|(-> & Hlt & Hv)]]; [left; auto|].
    right. simpl. split; [lia|exact Hv]. }
  destruct (hex_prefix rest) eqn:Hhex.
  - apply (Hloop (drop 2 rest) (p + 2)%nat); [|right; reflexivity].
    destruct rest as [|c0 [|c1 rest]]; try discriminate Hhex.
    simpl in *. rewrite drop_0. lia.
  - apply (Hloop rest p); [lia|left; reflexivity].
Qed.

(** *** Printing numbers *)

Lemma poke_Some buf p c :
  (p < length buf)%nat -> poke buf p c = Some (<[p := uint8 c]> buf).
Proof.
  intros Hp. unfold poke.
  destruct (Nat.ltb_spec p (length buf)) as [_|Hge]; [reflexivity|lia].
Qed.

Lemma print_str_string ds rest :
  Forall (fun c => c <> 0) ds -> print_str (ds ++ 0 :: rest) = Some ds.
Proof.
  induction 1 as [|c ds Hc _ IH]; simpl; [reflexivity|].
  destruct (Z.eqb_spec c 0) as [Heq|_]; [contradiction|].
  rewrite IH. reflexivity.
Qed.

Lemma dec_digits_not_nul ds :
  Forall (fun c => is_dec_digit c = true) ds -> Forall (fun c => c <> 0) ds.
Proof.
  induction 1 as [|c l Hc _ IH]; constructor; [|exact IH].
  apply dec_digit_range in Hc. revert Hc. char_codes. lia.
Qed.

Lemma dec_digit_of r : 0 <= r <= 9 -> is_dec_digit (chr "0" + r) = true.
Proof. unfold is_dec_digit. char_codes. lia. Qed.

(** The do-while loop writes the decimal digits of val, the last at
    index p - 1, and stays inside the buffer when they fit below p. *)
Lemma print_uint_loop_digits : forall p val buf,
  0 <= val < 10 ^ Z.of_nat p -> (1 <= p <= length buf)%nat ->
  exists ds,
    print_uint_loop p val buf
    = Some ((p - length ds)%nat,
            take (p - length ds) buf ++ ds ++ drop p buf) /\
    (1 <= length ds <= p)%nat /\
    Forall (fun c => is_dec_digit c = true) ds /\
    dec_value ds = val /\
    val < 10 ^ Z.of_nat (length ds) /\
    ((1 < length ds)%nat -> 10 ^ (Z.of_nat (length ds) - 1) <= val).
Proof.
  induction p as [|q IH]; intros val buf Hval Hp; [lia|].
  pose proof (Z.mod_pos_bound val 10 ltac:(lia)) as Hr.
  pose proof (Z.div_mod val 10 ltac:(lia)) as Hdm.
  cbn [print_uint_loop]. rewrite poke_Some by lia.
  assert (Hc : uint8 (chr "0" + val mod 10) = chr "0" + val mod 10).
  { unfold uint8. apply Z.mod_small. char_codes. lia. }
  rewrite Hc. set (c := chr "0" + val mod 10) in *.
  assert (Hdig : is_dec_digit c = true) by (apply dec_digit_of; lia).
  assert (Hcv : c - chr "0" = val mod 10) by (unfold c; lia).
  destruct (Z.eqb_spec (val / 10) 0) as [Hz|Hnz].
  - exists [c]. simpl length.
    replace (S q - 1)%nat with q by lia.
    split; [rewrite (insert_take_drop buf q c) by lia; reflexivity|].
    split; [lia|]. split; [constructor; [exact Hdig|constructor]|].
    split; [unfold dec_value, numeral_from; simpl; lia|].
    split; [change (10 ^ Z.of_nat 1) with 10; lia|lia].
  - assert (Hval' : 0 <= val / 10 < 10 ^ Z.of_nat q).
    { split; [apply Z.div_pos; lia|].
      apply Z.div_lt_upper_bound; [lia|].
      rewrite Nat2Z.inj_succ, Z.pow_succ_r in Hval by lia. lia. }
    assert (Hq : (1 <= q)%nat).
    { destruct q as [|q']; [|lia]. change (10 ^ Z.of_nat 0) with 1 in Hval'.
      lia. }
    destruct (IH (val / 10) (<[q := c]> buf) Hval')
      as (ds & Hrun & Hlen & Hds & Hv & Hub & Hlb);
      [rewrite length_insert; lia|].
    exists (ds ++ [c]). rewrite length_app. simpl length.
    replace (S q - (length ds + 1))%nat with (q - length ds)%nat by lia.
    split.
    { rewrite Hrun. do 2 f_equal.
      rewrite take_insert_ge by lia.
      rewrite (insert_take_drop buf q c) by lia.
      rewrite drop_app_length' by (rewrite length_take; lia).
      rewrite <- app_assoc. reflexivity. }
    split; [lia|].
    split; [apply Forall_app; split; [exact Hds|constructor;
              [exact Hdig|constructor]]|].
    split.
    { unfold dec_value in *. rewrite numeral_from_snoc, Hv, Hcv. lia. }
    replace (Z.of_nat (length ds + 1)) with (Z.succ (Z.of_nat (length ds)))
      by lia.
    rewrite Z.pow_succ_r by lia.
    split; [lia|]. intros _.
    replace (Z.succ (Z.of_nat (length ds)) - 1) with (Z.of_nat (length ds))
      by lia.
    destruct (Nat.eq_dec (length ds) 1%nat) as [H1|H1].
    + rewrite H1. change (10 ^ Z.of_nat 1) with 10. lia.
    + specialize (Hlb ltac:(lia)).
      replace (Z.of_nat (length ds))
        with (Z.succ (Z.of_nat (length ds) - 1)) by lia.
      rewrite Z.pow_succ_r by lia. lia.
Qed.

(** What the shared body prints for a value below 10^39: its decimal
    digits, most significant first and without leading zeros. *)
Lemma print_decimal_run val scratchbuf :
  length scratchbuf = sizeof_scratchbuf ->
  0 <= val < 10 ^ 39 ->
  exists buf' out,
    print_decimal val scratchbuf = Some (buf', out) /\
    length buf' = sizeof_scratchbuf /\
    (1 <= length out)%nat /\
    Forall (fun c => is_dec_digit c = true) out /\
    dec_value out = val /\
    val < 10 ^ Z.of_nat (length out) /\
    ((1 < length out)%nat -> 10 ^ (Z.of_nat (length out) - 1) <= val).
Proof.
  unfold sizeof_scratchbuf. intros Hlen Hval. unfold print_decimal.
  unfold sizeof_scratchbuf. change (40 - 1)%nat with 39%nat.
  rewrite poke_Some by lia.
  change (uint8 0) with 0.
  destruct (print_uint_loop_digits 39 val (<[39%nat := 0]> scratchbuf))
    as (ds & Hrun & Hl & Hds & Hv & Hub & Hlb);
    [exact Hval|rewrite length_insert; lia|].
  rewrite Hrun.
  rewrite drop_app_length' by (rewrite length_take, length_insert; lia).
  assert (Hnul : drop 39 (<[39%nat := 0]> scratchbuf) = [0]).
  { rewrite (insert_take_drop scratchbuf 39 0) by lia.
    rewrite drop_app_length' by (rewrite length_take; lia).
    rewrite drop_ge by lia. reflexivity. }
  rewrite Hnul.
  rewrite (print_str_string ds _ (dec_digits_not_nul ds Hds)).
  eexists _, ds. split; [reflexivity|].
  split.
  { rewrite !length_app, length_take, length_insert. simpl. lia. }
  split; [lia|]. auto.
Qed.

Lemma pow10_length n val :
  (1 < n)%nat -> 10 ^ (Z.of_nat n - 1) <= val -> val < 10 ^ Z.of_nat 10 ->
  (n <= 10)%nat.
Proof.
  intros Hn Hlb Hub.
  destruct (Nat.le_gt_cases n 10) as [Hle|Hgt]; [exact Hle|exfalso].
  assert (10 ^ Z.of_nat 10 <= 10 ^ (Z.of_nat n - 1))
    by (apply Z.pow_le_mono_r; lia).
  lia.
Qed.

(** X13: print_uint prints the decimal digits of its argument, taken as a
    32-bit unsigned number: between 1 and 10 digit characters, most
    significant first, without leading zeros, that denote the number.
    They fit the 40-byte scratch buffer. *)
Theorem print_uint_prints_decimal val scratchbuf :
  length scratchbuf = sizeof_scratchbuf ->
  exists buf' out,
    print_uint val scratchbuf = Some (buf', out) /\
    length buf' = sizeof_scratchbuf /\
    Forall (fun c => is_dec_digit c = true) out /\
    dec_value out = uint32 val /\
    (1 <= length out <= 10)%nat /\
    ((1 < length out)%nat -> 10 ^ (Z.of_nat (length out) - 1) <= uint32 val).
Proof.
  intros Hlen. pose proof (uint32_range val) as Hv.
  destruct (print_decimal_run (uint32 val) scratchbuf Hlen)
    as (buf' & out & Hrun & Hl & Hne & Hds & Hval & Hub & Hlb).
  { split; [lia|]. apply Z.lt_trans with (2 ^ 32); [lia|reflexivity]. }
  exists buf', out. split; [exact Hrun|]. split; [exact Hl|].
  split; [exact Hds|]. split; [exact Hval|]. split; [|exact Hlb].
  split; [exact Hne|].
  destruct (Nat.le_gt_cases (length out) 1) as [Hle|Hgt]; [lia|].
  apply (pow10_length _ (uint32 val) Hgt (Hlb Hgt)).
  apply Z.lt_trans with (2 ^ 32); [lia|reflexivity].
Qed.

(** X14: print_uint64 prints the decimal digits of its argument, taken as a
    64-bit unsigned number: between 1 and 20 digit characters, without
    leading zeros, that denote the number.  They fit the 40-byte scratch
    buffer. *)
Theorem print_uint64_prints_decimal val scratchbuf :
  length scratchbuf = sizeof_scratchbuf ->
  exists buf' out,
    print_uint64 val scratchbuf = Some (buf', out) /\
    length buf' = sizeof_scratchbuf /\
    Forall (fun c => is_dec_digit c = true) out /\
    dec_value out = uint64 val /\
    (1 <= length out <= 20)%nat /\
    ((1 < length out)%nat -> 10 ^ (Z.of_nat (length out) - 1) <= uint64 val).
Proof.
  intros Hlen.
  assert (Hv : 0 <= uint64 val < 2 ^ 64)
    by (unfold uint64; apply Z.mod_pos_bound; lia).
  destruct (print_decimal_run (uint64 val) scratchbuf Hlen)
    as (buf' & out & Hrun & Hl & Hne & Hds & Hval & Hub & Hlb).
  { split; [lia|]. apply Z.lt_trans with (2 ^ 64); [lia|reflexivity]. }
  exists buf', out. split; [exact Hrun|]. split; [exact Hl|].
  split; [exact Hds|]. split; [exact Hval|]. split; [|exact Hlb].
  split; [exact Hne|].
  destruct (Nat.le_gt_cases (length out) 20) as [Hle|Hgt]; [exact Hle|exfalso].
  specialize (Hlb ltac:(lia)).
  assert (10 ^ Z.of_nat 20 <= 10 ^ (Z.of_nat (length out) - 1))
    by (apply Z.pow_le_mono_r; lia).
  assert (2 ^ 64 < 10 ^ Z.of_nat 20) by reflexivity.
  lia.
Qed.

Lemma digits_not_hex_prefix out rest :
  out <> [] ->
  Forall (fun c => is_dec_digit c = true) out ->
  hex_prefix (chr "0" :: rest) = false ->
  hex_prefix (out ++ rest) = false.
Proof.
  intros Hne Hds Hrest. destruct out as [|c0 [|c1 out]]; [contradiction| |].
  - destruct rest as [|r0 rest]; [reflexivity|].
    simpl in *.
    rewrite Hrest. apply andb_false_r.
  - apply Forall_cons in Hds as [_ Hds]. apply Forall_cons in Hds as [H1 _].
    apply dec_digit_range in H1. simpl.
    replace (c1 =? chr "x") with false
      by (symmetry; apply Z.eqb_neq; revert H1; char_codes; lia).
    replace (c1 =? chr "X") with false
      by (symmetry; apply Z.eqb_neq; revert H1; char_codes; lia).
    apply andb_false_r.
Qed.

(** X15: What print_uint prints, parse_uint reads back: the whole output is
    consumed and the value is the number that was printed. *)
Theorem parse_uint_reads_print_uint val scratchbuf rest val0 :
  length scratchbuf = sizeof_scratchbuf ->
  ends_numeral is_dec_digit rest ->
  hex_prefix (chr "0" :: rest) = false ->
  exists buf' out,
    print_uint val scratchbuf = Some (buf', out) /\
    parse_uint (out ++ rest) val0 = (Z.of_nat (length out), uint32 val).
Proof.
  intros Hlen Hend Hrest. pose proof (uint32_range val) as Hv.
  destruct (print_decimal_run (uint32 val) scratchbuf Hlen)
    as (buf' & out & Hrun & Hl & Hne & Hds & Hval & Hub & Hlb).
  { split; [lia|]. apply Z.lt_trans with (2 ^ 32); [lia|reflexivity]. }
  exists buf', out. split; [exact Hrun|].
  assert (Hout : out <> []) by (intros ->; simpl in Hne; lia).
  change (out ++ rest) with (repeat (chr " ") 0 ++ out ++ rest).
  rewrite (parse_uint_decimal_frame 0 out rest val0 Hout Hds
             (digits_not_hex_prefix out rest Hout Hds Hrest)).
  destruct (last_digit out Hout Hds)
    as (ds' & c & -> & Hds' & Hc & Hdv & H0 & Hd).
  unfold dec_value in *.
  rewrite (parse_dec_loop_accepts rest c true ds' 0 false 0%nat Hds' Hc Hend);
    [|lia|change (UINT32_MAX / 10) with 429496729; lia|reflexivity].
  rewrite <- Hdv, Hval, uint32_small by lia.
  rewrite length_app. reflexivity.
Qed.

Lemma hexdigits_lookup d :
  0 <= d < 16 ->
  exists c, hexdigits !! Z.to_nat d = Some c /\ hex_digit c = Some d.
Proof.
  intros Hd.
  assert (H : d = 0 \/ d = 1 \/ d = 2 \/ d = 3 \/ d = 4 \/ d = 5 \/ d = 6 \/
              d = 7 \/ d = 8 \/ d = 9 \/ d = 10 \/ d = 11 \/ d = 12 \/
              d = 13 \/ d = 14 \/ d = 15) by lia.
  repeat (destruct H as [->|H]); try subst d;
    (eexists; split; vm_compute; reflexivity).
Qed.

Lemma numeral_from_shift base digit l : forall v,
  numeral_from base digit v l
  = v * base ^ Z.of_nat (length l) + numeral_from base digit 0 l.
Proof.
  induction l as [|c l IH]; intros v.
  - simpl. unfold numeral_from. simpl. lia.
  - rewrite !numeral_from_cons, IH, (IH (base * 0 + digit c)).
    simpl length. rewrite Nat2Z.inj_succ, Z.pow_succ_r by lia. ring.
Qed.

Lemma nibble_shift w val :
  0 <= val ->
  Z.land (Z.shiftr val (Z.shiftl (Z.of_nat w) 2)) 0xf
  = (val / 16 ^ Z.of_nat w) mod 16.
Proof.
  intros Hval. rewrite Z.shiftl_mul_pow2 by lia.
  rewrite Z.shiftr_div_pow2 by lia.
  change 0xf with (Z.ones 4). rewrite Z.land_ones by lia.
  replace (Z.of_nat w * 2 ^ 2) with (4 * Z.of_nat w) by lia.
  rewrite Z.pow_mul_r by lia. reflexivity.
Qed.

(** The output loop prints the low [w] hexadecimal digits of val, most
    significant first. *)
Lemma print_uint_hex_digits_run : forall w val,
  (w <= 8)%nat -> 0 <= val ->
  exists out,
    print_uint_hex_digits w val = Some out /\
    length out = w /\
    Forall (fun c => is_hex_digit c = true) out /\
    hex_value out = val mod 16 ^ Z.of_nat w.
Proof.
  induction w as [|w IH]; intros val Hw Hval.
  - exists []. split; [reflexivity|]. split; [reflexivity|].
    split; [constructor|]. change (16 ^ Z.of_nat 0) with 1.
    rewrite Z.mod_1_r. reflexivity.
  - cbn [print_uint_hex_digits]. cbv zeta.
    destruct (Z.leb_spec 32 (Z.shiftl (Z.of_nat w) 2)) as [Hbig|_].
    { rewrite Z.shiftl_mul_pow2 in Hbig by lia. lia. }
    rewrite nibble_shift by exact Hval.
    destruct (hexdigits_lookup ((val / 16 ^ Z.of_nat w) mod 16))
      as (c & Hlook & Hc); [apply Z.mod_pos_bound; lia|].
    rewrite Hlook.
    destruct (IH val ltac:(lia) Hval) as (out & -> & Hlen & Hhex & Hv).
    exists (c :: out). split; [reflexivity|].
    split; [simpl; lia|].
    split; [constructor; [unfold is_hex_digit; rewrite Hc; reflexivity
                         |exact Hhex]|].
    unfold hex_value in *. rewrite numeral_from_cons, numeral_from_shift.
    rewrite Hc, Hv, Hlen. cbn [default from_option id].
    rewrite Nat2Z.inj_succ, Z.pow_succ_r by lia.
    assert (Hpow : 0 < 16 ^ Z.of_nat w) by (apply Z.pow_pos_nonneg; lia).
    rewrite (Z.mul_comm 16 (16 ^ Z.of_nat w)), Z.rem_mul_r by lia. lia.
Qed.

(** The widening loop stops at the first width, from the one asked for
    up to 8, that holds every digit of val. *)
Lemma print_uint_hex_width_spec val : forall gap width,
  (width + gap = 8)%nat -> 0 <= val < 2 ^ 32 ->
  (width <= print_uint_hex_width gap val width <= 8)%nat /\
  val < 16 ^ Z.of_nat (print_uint_hex_width gap val width) /\
  ((width < print_uint_hex_width gap val width)%nat ->
   16 ^ (Z.of_nat (print_uint_hex_width gap val width) - 1) <= val).
Proof.
  induction gap as [|gap IH]; intros width Hsum Hval.
  - simpl. rewrite Nat.add_0_r in Hsum. subst width.
    split; [lia|]. split; [|lia].
    apply Z.lt_le_trans with (2 ^ 32); [lia|reflexivity].
  - cbn [print_uint_hex_width].
    rewrite Z.shiftl_mul_pow2 by lia.
    rewrite Z.shiftr_div_pow2 by lia.
    replace (Z.of_nat width * 2 ^ 2) with (4 * Z.of_nat width) by lia.
    rewrite Z.pow_mul_r by lia. change (2 ^ 4) with 16.
    assert (Hpow : 0 < 16 ^ Z.of_nat width) by (apply Z.pow_pos_nonneg; lia).
    destruct (Z.ltb_spec 0 (val / 16 ^ Z.of_nat width)) as [Hpos|Hzero].
    + destruct (IH (S width) ltac:(lia) Hval) as (Hr & Hub & Hlb).
      split; [lia|]. split; [exact Hub|]. intros _.
      destruct (Nat.eq_dec (print_uint_hex_width gap val (S width)) (S width))
        as [Heq|Hneq].
      * rewrite Heq.
        replace (Z.of_nat (S width) - 1) with (Z.of_nat width) by lia.
        destruct (Z.lt_ge_cases val (16 ^ Z.of_nat width)) as [Hlt|Hge];
          [rewrite Z.div_small in Hpos by lia; lia|lia].
      * apply Hlb. lia.
    + split; [lia|]. split; [|lia].
      assert (val / 16 ^ Z.of_nat width = 0).
      { pose proof (Z.div_pos val (16 ^ Z.of_nat width) ltac:(lia) Hpow).
        lia. }
      apply Z.div_small_iff in H; lia.
Qed.

Lemma print_uint_hex_run val width :
  (width <= 8)%nat ->
  exists out,
    print_uint_hex val width = Some out /\
    Forall (fun c => is_hex_digit c = true) out /\
    hex_value out = uint32 val /\
    (width <= length out <= 8)%nat /\
    ((width < length out)%nat ->
     16 ^ (Z.of_nat (length out) - 1) <= uint32 val).
Proof.
  intros Hw. unfold print_uint_hex. pose proof (uint32_range val) as Hv.
  destruct (print_uint_hex_width_spec (uint32 val) (8 - width) width
              ltac:(lia) Hv) as (Hr & Hub & Hlb).
  destruct (print_uint_hex_digits_run
              (print_uint_hex_width (8 - width) (uint32 val) width)
              (uint32 val) ltac:(lia) ltac:(lia))
    as (out & Hrun & Hlen & Hhex & Hval).
  exists out. split; [exact Hrun|]. split; [exact Hhex|].
  rewrite Hlen. split; [|split; [exact Hr|exact Hlb]].
  rewrite Hval. apply Z.mod_small. lia.
Qed.

(** X16: print_uint_hex, asked for at most 8 digits, prints every hexadecimal
    digit of its 32-bit argument: at least the width asked for, padded
    with zeros, and more only when the value needs them, never more than
    8.  The digits denote the value. *)
Theorem print_uint_hex_prints_all_digits val width :
  (width <= 8)%nat ->
  exists out,
    print_uint_hex val width = Some out /\
    Forall (fun c => is_hex_digit c = true) out /\
    hex_value out = uint32 val /\
    (width <= length out <= 8)%nat /\
    ((width < length out)%nat ->
     16 ^ (Z.of_nat (length out) - 1) <= uint32 val).
Proof.
  intros Hw. unfold print_uint_hex. pose proof (uint32_range val) as Hv.
  destruct (print_uint_hex_width_spec (uint32 val) (8 - width) width
              ltac:(lia) Hv) as (Hr & Hub & Hlb).
  destruct (print_uint_hex_digits_run
              (print_uint_hex_width (8 - width) (uint32 val) width)
              (uint32 val) ltac:(lia) ltac:(lia))
    as (out & Hrun & Hlen & Hhex & Hval).
  exists out. rewrite Hlen, Hval, Z.mod_small by lia. auto.
Qed.

(** X17: What print_uint_hex prints after the prefix 0x, as the monitor does,
    parse_uint reads back to the value that was printed. *)
Theorem parse_uint_reads_print_uint_hex val width rest val0 :
  (1 <= width <= 8)%nat ->
  ends_numeral is_hex_digit rest ->
  exists out,
    print_uint_hex val width = Some out /\
    parse_uint (cstr "0x" ++ out ++ rest) val0
    = (Z.of_nat (2 + length out), uint32 val).
Proof.
  intros Hw Hend. pose proof (uint32_range val) as Hv.
  destruct (print_uint_hex_run val width ltac:(lia))
    as (out & Hrun & Hhex & Hval & Hlen & _).
  exists out. split; [exact Hrun|].
  unfold parse_uint.
  change (cstr "0x" ++ out ++ rest) with (chr "0" :: chr "x" :: out ++ rest).
  cbn [skip_spaces].
  replace (chr "0" =? chr " ") with false by reflexivity.
  replace (hex_prefix (chr "0" :: chr "x" :: out ++ rest)) with true
    by reflexivity.
  change (drop 2 (chr "0" :: chr "x" :: out ++ rest)) with (out ++ rest).
  rewrite (parse_hex_loop_spec rest Hend out 0 false _ Hhex) by lia.
  fold (hex_value out). rewrite Hval.
  destruct (Z.ltb_spec (uint32 val) (2 ^ 32)) as [_|Hge]; [|lia].
  destruct out as [|c out]; [simpl in Hlen; lia|]. reflexivity.
Qed.

(** *** simplify_command *)

Lemma to_lower_upper c :
  chr "A" <= c <= chr "Z" -> to_lower c = c + 32.
Proof.
  intros Hc. unfold to_lower. revert Hc. char_codes. intros Hc.
  replace ((65 <=? c) && (c <=? 90)) with true by lia.
  assert (H : c = 65 \/ c = 66 \/ c = 67 \/ c = 68 \/ c = 69 \/ c = 70 \/
              c = 71 \/ c = 72 \/ c = 73 \/ c = 74 \/ c = 75 \/ c = 76 \/
              c = 77 \/ c = 78 \/ c = 79 \/ c = 80 \/ c = 81 \/ c = 82 \/
              c = 83 \/ c = 84 \/ c = 85 \/ c = 86 \/ c = 87 \/ c = 88 \/
              c = 89 \/ c = 90) by lia.
  repeat (destruct H as [->|H]); try subst c; reflexivity.
Qed.

Lemma to_lower_other c :
  ~ (chr "A" <= c <= chr "Z") -> to_lower c = c.
Proof.
  intros Hc. unfold to_lower. revert Hc. char_codes. intros Hc.
  replace ((65 <=? c) && (c <=? 90)) with false by lia. reflexivity.
Qed.

Lemma to_lower_cases c :
  (chr "A" <= c <= chr "Z" /\ to_lower c = c + 32) \/
  (~ (chr "A" <= c <= chr "Z") /\ to_lower c = c).
Proof.
  destruct (Z_le_dec (chr "A") c) as [H1|H1];
    [destruct (Z_le_dec c (chr "Z")) as [H2|H2]|].
  - left. split; [lia|]. apply to_lower_upper. lia.
  - right. split; [lia|]. apply to_lower_other. lia.
  - right. split; [lia|]. apply to_lower_other. lia.
Qed.

Lemma to_lower_text_char c :
  text_char c -> c <> chr " " ->
  text_char (to_lower c) /\ to_lower c <> chr " " /\
  to_lower (to_lower c) = to_lower c.
Proof.
  unfold text_char. intros Hc Hsp.
  destruct (to_lower_cases c) as [[Hu ->]|[Hn ->]].
  - revert Hu Hsp. char_codes. intros Hu Hsp.
    split; [lia|]. split; [lia|].
    apply to_lower_other. char_codes. lia.
  - split; [lia|]. split; [exact Hsp|]. apply to_lower_other. exact Hn.
Qed.

Lemma poke_head out w tail v :
  w <> [] ->
  poke (out ++ w ++ tail) (length out) v
  = Some ((out ++ [uint8 v]) ++ tl w ++ tail).
Proof.
  intros Hw. destruct w as [|x w]; [contradiction|].
  rewrite poke_Some by (rewrite !length_app; simpl; lia).
  f_equal. rewrite <- (Nat.add_0_r (length out)), insert_app_r.
  simpl. rewrite <- app_assoc. reflexivity.
Qed.

Lemma uint8_text_char c : text_char c -> uint8 c = c.
Proof. unfold text_char, uint8. intros H. apply Z.mod_small. lia. Qed.

Lemma simplify_loop_step todo cmdbuf psrc pdst got_ws :
  simplify_loop (S todo) cmdbuf psrc pdst got_ws
  = match cmdbuf !! psrc with
    | None => None
    | Some c =>
        if c =? 0 then Some (cmdbuf, pdst)
        else if c =? chr " " then
          simplify_loop todo cmdbuf (psrc + 1)%nat pdst true
        else
          match (if got_ws then poke cmdbuf pdst (chr " ")
                 else Some cmdbuf) with
          | None => None
          | Some buf1 =>
              let pdst1 := if got_ws then (pdst + 1)%nat else pdst in
              match poke buf1 pdst1 (to_lower c) with
              | None => None
              | Some buf2 =>
                  simplify_loop todo buf2 (psrc + 1)%nat (pdst1 + 1)%nat false
              end
          end
    end.
Proof. reflexivity. Qed.

(** The loop, entered with the kept text [out], [gap] characters that
    were dropped or moved, and the text [rest] still to be read. *)
Lemma simplify_loop_run junk : forall rest out gap (got_ws : bool),
  Forall text_char rest ->
  ((if got_ws then 1 else 0) <= length gap)%nat ->
  exists gap',
    simplify_loop (S (length rest + length junk))
      (out ++ gap ++ rest ++ 0 :: junk)
      (length out + length gap) (length out) got_ws
    = Some (out ++ simplified_text rest got_ws ++ gap' ++ 0 :: junk,
            (length out + length (simplified_text rest got_ws))%nat) /\
    (length (simplified_text rest got_ws) + length gap'
     = length gap + length rest)%nat.
Proof.
  induction rest as [|c rest IH]; intros out gap got_ws Hrest Hgap.
  - exists gap. rewrite simplify_loop_step. cbn [length Nat.add].
    replace (out ++ gap ++ [] ++ 0 :: junk)
      with ((out ++ gap) ++ 0 :: junk) by (rewrite <- app_assoc; reflexivity).
    rewrite list_lookup_middle by (rewrite length_app; reflexivity).
    rewrite Z.eqb_refl. simpl. rewrite <- app_assoc.
    split; [do 2 f_equal; lia|lia].
  - apply Forall_cons in Hrest as [Hc Hrest].
    cbn [length Nat.add simplified_text]. rewrite simplify_loop_step.
    cbv zeta.
    replace (out ++ gap ++ (c :: rest) ++ 0 :: junk)
      with ((out ++ gap) ++ c :: rest ++ 0 :: junk)
      by (rewrite <- app_assoc; reflexivity).
    rewrite list_lookup_middle by (rewrite length_app; reflexivity).
    destruct (Z.eqb_spec c 0) as [Hz|_]; [unfold text_char in Hc; lia|].
    destruct (Z.eqb_spec c (chr " ")) as [Hsp|Hsp].
    + destruct (IH out (gap ++ [c]) true Hrest) as (gap' & Hrun & Hlen);
        [rewrite length_app; simpl; lia|].
      exists gap'.
      replace ((out ++ gap) ++ c :: rest ++ 0 :: junk)
        with (out ++ (gap ++ [c]) ++ rest ++ 0 :: junk)
        by (rewrite <- !app_assoc; reflexivity).
      replace (length out + length gap + 1)%nat
        with (length out + length (gap ++ [c]))%nat
        by (rewrite length_app; simpl; lia).
      split; [exact Hrun|]. rewrite length_app in Hlen. simpl in *. lia.
    + destruct (to_lower_text_char c Hc Hsp) as (Hlc & _ & _).
      replace ((out ++ gap) ++ c :: rest ++ 0 :: junk)
        with (out ++ (gap ++ [c]) ++ rest ++ 0 :: junk)
        by (rewrite <- !app_assoc; reflexivity).
      destruct got_ws.
      * rewrite poke_head by (destruct gap; discriminate).
        replace (length out + 1)%nat with (length (out ++ [uint8 (chr " ")]))
          by (rewrite length_app; reflexivity).
        rewrite poke_head
          by (destruct gap as [|g [|g' gap]]; simpl in *; try lia;
              discriminate).
        rewrite (uint8_text_char _ Hlc).
        change (uint8 (chr " ")) with (chr " ").
        destruct (IH ((out ++ [chr " "]) ++ [to_lower c])
                    (tl (tl (gap ++ [c]))) false Hrest) as (gap' & Hrun & Hlen);
          [simpl; lia|].
        exists gap'.
        assert (Hl : length (tl (tl (gap ++ [c]))) = (length gap - 1)%nat)
          by (rewrite !length_tl, length_app; simpl; lia).
        rewrite Hl in *.
        replace (length out + length gap + 1)%nat
          with (length ((out ++ [chr " "]) ++ [to_lower c])
                + (length gap - 1))%nat
          by (rewrite !length_app; simpl; lia).
        replace (length (out ++ [chr " "]) + 1)%nat
          with (length ((out ++ [chr " "]) ++ [to_lower c]))
          by (rewrite !length_app; reflexivity).
        rewrite Hrun. rewrite !length_app. simpl length.
        split; [f_equal; f_equal; [rewrite <- !app_assoc; reflexivity|lia]
               |lia].
      * rewrite poke_head by (destruct gap; discriminate).
        rewrite (uint8_text_char _ Hlc).
        destruct (IH (out ++ [to_lower c]) (tl (gap ++ [c])) false Hrest)
          as (gap' & Hrun & Hlen); [simpl; lia|].
        exists gap'.
        assert (Hl : length (tl (gap ++ [c])) = length gap)
          by (rewrite length_tl, length_app; simpl; lia).
        rewrite Hl in *.
        replace (length out + length gap + 1)%nat
          with (length (out ++ [to_lower c]) + length gap)%nat
          by (rewrite !length_app; simpl; lia).
        replace (length out + 1)%nat with (length (out ++ [to_lower c]))
          by (rewrite length_app; reflexivity).
        rewrite Hrun. rewrite !length_app. simpl length.
        split; [f_equal; f_equal; [rewrite <- !app_assoc; reflexivity|lia]
               |lia].
Qed.

Lemma simplify_skip_run c tail : c <> chr " " -> forall n pre todo,
  (n < todo)%nat ->
  simplify_skip todo (pre ++ repeat (chr " ") n ++ c :: tail) (length pre)
  = Some (length pre + n)%nat.
Proof.
  intros Hc. induction n as [|n IH]; intros pre todo Hn;
    (destruct todo as [|todo]; [lia|]); cbn [simplify_skip repeat app].
  - rewrite list_lookup_middle by reflexivity.
    destruct (Z.eqb_spec c (chr " ")) as [Heq|_]; [contradiction|].
    f_equal. lia.
  - rewrite list_lookup_middle by reflexivity. rewrite Z.eqb_refl.
    replace (pre ++ chr " " :: repeat (chr " ") n ++ c :: tail)
      with ((pre ++ [chr " "]) ++ repeat (chr " ") n ++ c :: tail)
      by (rewrite <- app_assoc; reflexivity).
    replace (length pre + 1)%nat with (length (pre ++ [chr " "]))
      by (rewrite length_app; reflexivity).
    rewrite IH by lia. rewrite length_app. simpl. f_equal. lia.
Qed.

Lemma leading_spaces s :
  exists n s1, s = repeat (chr " ") n ++ s1 /\ head s1 <> Some (chr " ").
Proof.
  induction s as [|c s (n & s1 & -> & Hs1)].
  - exists 0%nat, []. split; [reflexivity|discriminate].
  - destruct (Z.eq_dec c (chr " ")) as [->|Hc].
    + exists (S n), s1. split; [reflexivity|exact Hs1].
    + exists 0%nat, (c :: repeat (chr " ") n ++ s1).
      split; [reflexivity|]. simpl. intros [= Heq]. contradiction.
Qed.

(** simplify_command on a buffer that holds [n] spaces, the text [s1]
    and the terminator. *)
Lemma simplify_command_run n s1 junk :
  Forall text_char s1 -> head s1 <> Some (chr " ") ->
  exists gap,
    simplify_command (repeat (chr " ") n ++ s1 ++ 0 :: junk)
    = Some (simplified_text s1 false ++ 0 :: gap ++ junk) /\
    (length (simplified_text s1 false) + length gap = n + length s1)%nat.
Proof.
  intros Hs1 Hhead. unfold simplify_command.
  assert (Hfirst : exists c tail, s1 ++ 0 :: junk = c :: tail /\ c <> chr " ").
  { destruct s1 as [|c s1].
    - exists 0, junk. split; [reflexivity|]. char_codes. lia.
    - exists c, (s1 ++ 0 :: junk). split; [reflexivity|].
      intros ->. apply Hhead. reflexivity. }
  destruct Hfirst as (c & tail & Heq & Hc).
  assert (Hlen : length (repeat (chr " ") n ++ s1 ++ 0 :: junk)
                 = (n + S (length s1 + length junk))%nat).
  { rewrite !length_app, repeat_length. simpl. lia. }
  rewrite Hlen.
  rewrite Heq.
  pose proof (simplify_skip_run c tail Hc n []
                (n + S (length s1 + length junk))%nat ltac:(lia)) as Hskip.
  change ([] ++ repeat (chr " ") n ++ c :: tail)
    with (repeat (chr " ") n ++ c :: tail) in Hskip.
  change (length (@nil Z)) with 0%nat in Hskip.
  rewrite Hskip. rewrite <- Heq.
  destruct (simplify_loop_run junk s1 [] (repeat (chr " ") n) false Hs1)
    as (gap' & Hrun & Hl); [simpl; lia|].
  rewrite repeat_length in Hrun, Hl. cbn [app length Nat.add] in Hrun.
  replace (n + S (length s1 + length junk) - (0 + n))%nat
    with (S (length s1 + length junk)) by lia.
  change (0 + n)%nat with n.
  rewrite Hrun.
  replace (simplified_text s1 false ++ gap' ++ 0 :: junk)
    with (simplified_text s1 false ++ (gap' ++ [0]) ++ junk)
    by (rewrite <- app_assoc; reflexivity).
  rewrite poke_head by (destruct gap'; discriminate).
  change (uint8 0) with 0.
  exists (tl (gap' ++ [0])).
  split; [rewrite <- app_assoc; reflexivity|].
  rewrite length_tl, length_app. simpl. lia.
Qed.

Lemma to_lower_idem c : to_lower (to_lower c) = to_lower c.
Proof.
  destruct (to_lower_cases c) as [[Hu ->]|[Hn ->]].
  - apply to_lower_other. revert Hu. char_codes. lia.
  - apply to_lower_other. exact Hn.
Qed.

Lemma to_lower_not_space c : c <> chr " " -> to_lower c <> chr " ".
Proof.
  intros Hc. destruct (to_lower_cases c) as [[Hu ->]|[Hn ->]].
  - revert Hu. char_codes. lia.
  - exact Hc.
Qed.

Lemma simplified_text_chars s : forall got_ws,
  Forall text_char s -> Forall text_char (simplified_text s got_ws).
Proof.
  induction s as [|c s IH]; intros got_ws Hs; simpl; [constructor|].
  apply Forall_cons in Hs as [Hc Hs].
  destruct (Z.eqb_spec c (chr " ")) as [_|Hsp]; [apply IH; exact Hs|].
  destruct (to_lower_text_char c Hc Hsp) as (Hlc & _ & _).
  apply Forall_app. split.
  - destruct got_ws; constructor; [|constructor].
    unfold text_char. char_codes. lia.
  - constructor; [exact Hlc|apply IH; exact Hs].
Qed.

Lemma simplified_text_well_spaced s : forall got_ws,
  well_spaced (simplified_text s got_ws) = true.
Proof.
  induction s as [|c s IH]; intros got_ws; simpl; [reflexivity|].
  destruct (Z.eqb_spec c (chr " ")) as [_|Hsp]; [apply IH|].
  pose proof (to_lower_not_space c Hsp) as Hl.
  assert (Hword : well_spaced (to_lower c :: simplified_text s false) = true).
  { cbn [well_spaced].
    destruct (Z.eqb_spec (to_lower c) (chr " ")) as [Heq|_]; [contradiction|].
    rewrite to_lower_idem, Z.eqb_refl, IH. reflexivity. }
  destruct got_ws; [|exact Hword].
  change ([chr " "] ++ to_lower c :: simplified_text s false)
    with (chr " " :: to_lower c :: simplified_text s false).
  cbn [well_spaced] in *. rewrite Z.eqb_refl.
  destruct (Z.eqb_spec (to_lower c) (chr " ")) as [Heq|_]; [contradiction|].
  exact Hword.
Qed.

Lemma simplified_text_simplified s :
  head s <> Some (chr " ") -> simplified (simplified_text s false).
Proof.
  intros Hhead. split; [|apply simplified_text_well_spaced].
  destruct s as [|c s]; [discriminate|]. simpl.
  destruct (Z.eqb_spec c (chr " ")) as [->|Hsp]; [contradiction|].
  simpl. intros [= Heq]. exact (to_lower_not_space c Hsp Heq).
Qed.

(** The words of what is kept are the words of the text, in lower
    case. *)
Lemma simplified_text_words s :
  (forall cur,
     words_from (simplified_text s false) (map to_lower cur)
     = map (map to_lower) (words_from s cur)) /\
  (forall cur,
     words_from (simplified_text s true) cur
     = match cur with [] => [] | _ => [cur] end
       ++ map (map to_lower) (words_from s [])).
Proof.
  induction s as [|c s [IHf IHt]].
  - split; intros cur; simpl.
    + destruct cur; reflexivity.
    + rewrite app_nil_r. reflexivity.
  - split; intros cur; cbn [simplified_text words_from];
      destruct (Z.eqb_spec c (chr " ")) as [_|Hsp].
    + rewrite IHt. destruct cur; reflexivity.
    + cbn [app words_from].
      destruct (Z.eqb_spec (to_lower c) (chr " ")) as [Heq|_];
        [exfalso; exact (to_lower_not_space c Hsp Heq)|].
      rewrite <- IHf, map_app. reflexivity.
    + apply IHt.
    + change ([chr " "] ++ to_lower c :: simplified_text s false)
        with (chr " " :: to_lower c :: simplified_text s false).
      cbn [words_from]. rewrite Z.eqb_refl.
      destruct (Z.eqb_spec (to_lower c) (chr " ")) as [Heq|_];
        [exfalso; exact (to_lower_not_space c Hsp Heq)|].
      change ([] ++ [to_lower c]) with (map to_lower [c]).
      rewrite IHf. destruct cur; reflexivity.
Qed.

Lemma words_leading_spaces n s :
  words (repeat (chr " ") n ++ s) = words s.
Proof.
  unfold words. induction n as [|n IH]; [reflexivity|].
  simpl. exact IH.
Qed.

(** A text in simplified form is kept as it is. *)
Lemma simplified_text_fixed t :
  well_spaced t = true ->
  (head t <> Some (chr " ") -> simplified_text t false = t) /\
  (head t <> Some (chr " ") -> t <> [] ->
   simplified_text t true = chr " " :: t) /\
  (head t = Some (chr " ") -> forall got_ws, simplified_text t got_ws = t).
Proof.
  induction t as [|c t IH]; intros Hws.
  - split; [reflexivity|]. split; [contradiction|discriminate].
  - cbn [well_spaced] in Hws. apply andb_prop in Hws as [Hc Hws].
    destruct (IH Hws) as (IHf & IHt & IHs).
    cbn [simplified_text head].
    destruct (Z.eqb_spec c (chr " ")) as [->|Hsp].
    + split; [intros H; exfalso; apply H; reflexivity|].
      split; [intros H; exfalso; apply H; reflexivity|].
      intros _ got_ws. destruct t as [|d t]; [discriminate Hc|].
      rewrite IHt; [reflexivity| |discriminate].
      simpl. intros [= ->]. rewrite Z.eqb_refl in Hc. discriminate Hc.
    + apply Z.eqb_eq in Hc. rewrite Hc.
      assert (Hrest : simplified_text t false = t).
      { destruct t as [|d t]; [reflexivity|].
        destruct (Z.eq_dec d (chr " ")) as [->|Hd].
        - apply IHs. reflexivity.
        - apply IHf. simpl. intros [= Heq]. contradiction. }
      rewrite Hrest.
      split; [reflexivity|]. split; [reflexivity|].
      intros [= Heq]. contradiction.
Qed.

(** X18: simplify_command works inside the text it is given: the result is a
    string no longer than the text, the terminator is at or before the
    place of the old one, and no byte after the old terminator is
    written. *)
Theorem simplify_command_in_place s junk :
  Forall text_char s ->
  exists t gap,
    simplify_command (s ++ 0 :: junk) = Some (t ++ 0 :: gap ++ junk) /\
    Forall text_char t /\
    (length t + length gap = length s)%nat.
Proof.
  intros Hs. destruct (leading_spaces s) as (n & s1 & -> & Hhead).
  apply Forall_app in Hs as [_ Hs1].
  destruct (simplify_command_run n s1 junk Hs1 Hhead) as (gap & Hrun & Hlen).
  exists (simplified_text s1 false), gap.
  rewrite <- app_assoc. split; [exact Hrun|].
  split; [apply simplified_text_chars; exact Hs1|].
  rewrite length_app, repeat_length. exact Hlen.
Qed.

(** X19: simplify_command leaves the words of the command, in lower case and
    in order, in simplified form: separated by single spaces, with no
    space before the first or after the last. *)
Theorem simplify_command_normalises s junk :
  Forall text_char s ->
  exists t rest,
    simplify_command (s ++ 0 :: junk) = Some (t ++ 0 :: rest) /\
    Forall text_char t /\
    simplified t /\
    words t = map (map to_lower) (words s).
Proof.
  intros Hs. destruct (leading_spaces s) as (n & s1 & -> & Hhead).
  apply Forall_app in Hs as [_ Hs1].
  destruct (simplify_command_run n s1 junk Hs1 Hhead) as (gap & Hrun & Hlen).
  exists (simplified_text s1 false), (gap ++ junk).
  rewrite <- app_assoc. split; [exact Hrun|].
  split; [apply simplified_text_chars; exact Hs1|].
  split; [apply simplified_text_simplified; exact Hhead|].
  rewrite words_leading_spaces. unfold words.
  exact (proj1 (simplified_text_words s1) []).
Qed.

Lemma simplify_command_fixed t tail :
  Forall text_char t -> simplified t ->
  simplify_command (t ++ 0 :: tail) = Some (t ++ 0 :: tail).
Proof.
  intros Ht [Hhead Hws].
  destruct (simplify_command_run 0 t tail Ht Hhead) as (gap & Hrun & Hlen).
  simpl in Hrun.
  rewrite (proj1 (simplified_text_fixed t Hws) Hhead) in Hrun, Hlen.
  destruct gap as [|g gap]; [exact Hrun|simpl in Hlen; lia].
Qed.

(** X20: A command that is in simplified form already is left as it is, byte
    for byte. *)
Theorem simplify_command_keeps_simplified t tail :
  Forall text_char t -> simplified t ->
  simplify_command (t ++ 0 :: tail) = Some (t ++ 0 :: tail).
Proof.
  intros Ht [Hhead Hws].
  destruct (simplify_command_run 0 t tail Ht Hhead) as (gap & Hrun & Hlen).
  destruct (simplified_text_fixed t Hws) as (Hfix & _).
  rewrite (Hfix Hhead) in Hrun, Hlen.
  assert (gap = []) as -> by (destruct gap; [reflexivity|simpl in Hlen; lia]).
  exact Hrun.
Qed.

(** X21: simplify_command is idempotent: applied to its own result it changes
    nothing. *)
Theorem simplify_command_idempotent s junk :
  Forall text_char s ->
  exists buf,
    simplify_command (s ++ 0 :: junk) = Some buf /\
    simplify_command buf = Some buf.
Proof.
  intros Hs. destruct (leading_spaces s) as (n & s1 & -> & Hhead).
  apply Forall_app in Hs as [_ Hs1].
  destruct (simplify_command_run n s1 junk Hs1 Hhead) as (gap & Hrun & Hlen).
  exists (simplified_text s1 false ++ 0 :: gap ++ junk).
  rewrite <- app_assoc. split; [exact Hrun|].
  apply simplify_command_fixed.
  - apply simplified_text_chars. exact Hs1.
  - apply simplified_text_simplified. exact Hhead.
Qed.

(** *** read_command *)

Lemma read_command_loop_run maxlen e nl rest :
  nl = 13 \/ nl = 10 ->
  forall keys buf pos echo,
    Forall (fun c => c <> 13 /\ c <> 10) keys ->
    (pos < maxlen <= length buf)%nat ->
    exists buf' echo',
      read_command_loop (keys ++ nl :: rest) buf maxlen e pos echo
      = Some (buf',
              length (fold_left (key_effect maxlen) keys (take pos buf)),
              echo', rest) /\
      take (length (fold_left (key_effect maxlen) keys (take pos buf))) buf'
      = fold_left (key_effect maxlen) keys (take pos buf) /\
      (length (fold_left (key_effect maxlen) keys (take pos buf))
       < maxlen)%nat /\
      length buf' = length buf /\
      drop maxlen buf' = drop maxlen buf /\
      (e = false -> echo' = echo).
Proof.
  intros Hnl keys.
  induction keys as [|c keys IH]; intros buf pos echo Hkeys Hpos.
  - exists buf, echo. cbn [app fold_left read_command_loop].
    replace (nl =? -1) with false by (destruct Hnl as [-> | ->]; reflexivity).
    replace ((nl =? 13) || (nl =? 10)) with true
      by (destruct Hnl as [-> | ->]; reflexivity).
    rewrite length_take, Nat.min_l by lia.
    split; [reflexivity|]. split; [reflexivity|]. split; [lia|]. auto.
  - apply Forall_cons in Hkeys as [[Hcr Hlf] Hkeys].
    cbn [app fold_left read_command_loop].
    generalize (eq_refl (key_effect maxlen (take pos buf) c)).
    unfold key_effect at 2. rewrite length_take, Nat.min_l by lia.
    set (line0 := key_effect maxlen (take pos buf) c). clearbody line0.
    destruct (Z.eqb_spec c (-1)) as [_|Hrecv];
      [intros ->; apply IH; assumption|].
    replace ((c =? 13) || (c =? 10)) with false by lia.
    cbv zeta. set (c1 := if c =? 9 then chr " " else c).
    destruct (Z.eqb_spec c1 8) as [Hbs|_].
    + intros ->.
      assert (Hline : removelast (take pos buf)
                      = take (if (0 <? pos)%nat then (pos - 1)%nat else pos)
                          buf).
      { destruct pos as [|n]; [reflexivity|].
        rewrite removelast_firstn by lia.
        cbn [Nat.ltb Nat.leb]. f_equal. lia. }
      rewrite Hline.
      destruct (IH buf (if (0 <? pos)%nat then (pos - 1)%nat else pos)
                  (if e then echo ++ [c1] else echo) Hkeys)
        as (buf' & echo' & Hrun & Htake & Hlt & Hlen & Hdrop & Hecho);
        [destruct (0 <? pos)%nat; lia|].
      exists buf', echo'. split; [exact Hrun|]. split; [exact Htake|].
      split; [exact Hlt|]. split; [exact Hlen|]. split; [exact Hdrop|].
      intros ->. apply Hecho. reflexivity.
    + destruct (Nat.ltb_spec (pos + 1) maxlen) as [Hroom|Hfull].
      * intros ->. rewrite poke_Some by lia.
        assert (Hline : take pos buf ++ [uint8 c1]
                        = take (pos + 1) (<[pos := uint8 c1]> buf)).
        { rewrite Nat.add_1_r.
          rewrite (take_S_r _ _ (uint8 c1))
            by (apply list_lookup_insert_eq; lia).
          rewrite take_insert_ge by lia. reflexivity. }
        rewrite Hline.
        destruct (IH (<[pos := uint8 c1]> buf) (pos + 1)%nat
                    (if e then echo ++ [c1] else echo) Hkeys)
          as (buf' & echo' & Hrun & Htake & Hlt & Hlen & Hdrop & Hecho);
          [rewrite length_insert; lia|].
        exists buf', echo'. split; [exact Hrun|]. split; [exact Htake|].
        split; [exact Hlt|].
        split; [rewrite Hlen, length_insert; reflexivity|].
        split; [rewrite Hdrop, drop_insert_lt by lia; reflexivity|].
        intros ->. apply Hecho. reflexivity.
      * intros ->. apply IH; assumption.
Qed.

Lemma read_command_run keys nl rest cmdbuf maxlen e :
  (1 <= maxlen <= length cmdbuf)%nat ->
  Forall (fun c => c <> 13 /\ c <> 10) keys ->
  nl = 13 \/ nl = 10 ->
  exists buf' echo,
    read_command (keys ++ nl :: rest) cmdbuf maxlen e
    = Some (buf', echo, rest) /\
    take (length (typed_line maxlen keys)) buf' = typed_line maxlen keys /\
    buf' !! length (typed_line maxlen keys) = Some 0 /\
    (length (typed_line maxlen keys) < maxlen)%nat /\
    length buf' = length cmdbuf /\
    drop maxlen buf' = drop maxlen cmdbuf /\
    (e = false -> echo = []).
Proof.
  intros Hmax Hkeys Hnl. unfold read_command.
  destruct (read_command_loop_run maxlen e nl rest Hnl keys cmdbuf 0 []
              Hkeys ltac:(lia))
    as (buf & echo & Hrun & Htake & Hlt & Hlen & Hdrop & Hecho).
  rewrite take_0 in Hrun, Htake, Hlt. fold (typed_line maxlen keys) in *.
  rewrite Hrun, poke_Some by lia. change (uint8 0) with 0.
  eexists _, echo. split; [reflexivity|].
  split; [rewrite take_insert_ge by lia; exact Htake|].
  split; [apply list_lookup_insert_eq; lia|].
  split; [exact Hlt|].
  split; [rewrite length_insert; exact Hlen|].
  split; [rewrite drop_insert_lt by lia; exact Hdrop|exact Hecho].
Qed.

(** X24: read_command returns at the first CR or LF and stays inside the
    maxlen bytes it was given: the line it leaves, with its terminator,
    is shorter than maxlen, and no byte at index maxlen or beyond is
    written, however many characters were received. *)
Theorem read_command_stays_in_buffer keys nl rest cmdbuf maxlen e :
  (1 <= maxlen <= length cmdbuf)%nat ->
  Forall (fun c => c <> 13 /\ c <> 10) keys ->
  nl = 13 \/ nl = 10 ->
  exists buf' echo line,
    read_command (keys ++ nl :: rest) cmdbuf maxlen e
    = Some (buf', echo, rest) /\
    take (length line) buf' = line /\
    buf' !! length line = Some 0 /\
    (length line < maxlen)%nat /\
    length buf' = length cmdbuf /\
    drop maxlen buf' = drop maxlen cmdbuf.
Proof.
  intros Hmax Hkeys Hnl.
  destruct (read_command_run keys nl rest cmdbuf maxlen e Hmax Hkeys Hnl)
    as (buf' & echo & Hrun & Htake & Hnul & Hlt & Hlen & Hdrop & _).
  exists buf', echo, (typed_line maxlen keys).
  split; [exact Hrun|]. split; [exact Htake|]. split; [exact Hnul|].
  split; [exact Hlt|]. split; [exact Hlen|exact Hdrop].
Qed.

(** X25: The line read_command leaves is what was typed, edited: a backspace
    deletes the character before it (none at the start of the line), a
    tab is stored as a space, a poll that found no byte changes nothing,
    and characters that arrive when maxlen - 1 are stored are dropped.
    Without echo nothing is printed. *)
Theorem read_command_edits_line keys nl rest cmdbuf maxlen e :
  (1 <= maxlen <= length cmdbuf)%nat ->
  Forall (fun c => c <> 13 /\ c <> 10) keys ->
  nl = 13 \/ nl = 10 ->
  exists buf' echo,
    read_command (keys ++ nl :: rest) cmdbuf maxlen e
    = Some (buf', echo, rest) /\
    take (length (typed_line maxlen keys)) buf' = typed_line maxlen keys /\
    buf' !! length (typed_line maxlen keys) = Some 0 /\
    (e = false -> echo = []).
Proof.
  intros Hmax Hkeys Hnl.
  destruct (read_command_run keys nl rest cmdbuf maxlen e Hmax Hkeys Hnl)
    as (buf' & echo & Hrun & Htake & Hnul & _ & _ & _ & Hecho).
  exists buf', echo.
  split; [exact Hrun|]. split; [exact Htake|]. split; [exact Hnul|exact Hecho].
Qed.

Lemma read_command_loop_zero e nl rest :
  nl = 13 \/ nl = 10 ->
  forall keys buf echo,
    Forall (fun c => c <> 13 /\ c <> 10) keys ->
    exists echo',
      read_command_loop (keys ++ nl :: rest) buf 0 e 0 echo
      = Some (buf, 0%nat, echo', rest).
Proof.
  intros Hnl keys.
  induction keys as [|c keys IH]; intros buf echo Hkeys;
    cbn [app read_command_loop].
  - exists echo.
    replace (nl =? -1) with false by (destruct Hnl as [-> | ->]; reflexivity).
    replace ((nl =? 13) || (nl =? 10)) with true
      by (destruct Hnl as [-> | ->]; reflexivity).
    reflexivity.
  - apply Forall_cons in Hkeys as [[Hcr Hlf] Hkeys].
    destruct (c =? -1); [apply IH; exact Hkeys|].
    replace ((c =? 13) || (c =? 10)) with false by lia.
    cbv zeta. destruct ((if c =? 9 then chr " " else c) =? 8).
    + apply IH. exact Hkeys.
    + apply IH. exact Hkeys.
Qed.

(** X26: read_command stores the terminator whatever maxlen is: with
    maxlen = 0 no character is stored, and the terminator still goes to
    index 0, which is outside the zero bytes the caller offered. *)
Theorem read_command_zero_maxlen keys nl rest cmdbuf e :
  (1 <= length cmdbuf)%nat ->
  Forall (fun c => c <> 13 /\ c <> 10) keys ->
  nl = 13 \/ nl = 10 ->
  exists echo,
    read_command (keys ++ nl :: rest) cmdbuf 0 e
    = Some (<[0%nat := 0]> cmdbuf, echo, rest).
Proof.
  intros Hlen Hkeys Hnl. unfold read_command.
  destruct (read_command_loop_zero e nl rest Hnl keys cmdbuf [] Hkeys)
    as (echo & ->).
  rewrite poke_Some by lia. exists echo. reflexivity.
Qed.

(** ** The flash commands of the boot monitor *)

Section MonitorProperties.
Context {P : Platform}.

Lemma printed_Some {A} (o : option A) out tr tr' :
  printed o tr = Some (out, tr') -> o = Some out /\ tr' = tr.
Proof.
  unfold printed. destruct o as [out0|]; [|discriminate].
  intros [= <- <-]. auto.
Qed.

Lemma print_literal_Some s out tr tr' :
  Forall (fun c => c <> 0) s ->
  print_literal s tr = Some (out, tr') -> out = s /\ tr' = tr.
Proof.
  intros Hs H. unfold print_literal in H.
  apply printed_Some in H as [H ->].
  rewrite (print_str_string s [] Hs) in H. injection H as <-. auto.
Qed.

Lemma print_uint_hex_exact val width out :
  (width <= 8)%nat -> 0 <= val < 16 ^ Z.of_nat width ->
  print_uint_hex val width = Some out ->
  length out = width /\ hex_value out = val.
Proof.
  intros Hw Hval Hrun.
  assert (Hv32 : 0 <= val < 2 ^ 32).
  { split; [lia|]. apply Z.lt_le_trans with (16 ^ Z.of_nat width); [lia|].
    change (2 ^ 32) with (16 ^ 8). apply Z.pow_le_mono_r; lia. }
  destruct (print_uint_hex_run val width Hw)
    as (out' & Hrun' & _ & Hv & Hlen & Hlb).
  rewrite Hrun in Hrun'. injection Hrun' as <-.
  rewrite uint32_small in Hv, Hlb by exact Hv32. split; [|exact Hv].
  destruct (Nat.eq_dec (length out) width) as [Heq|Hne]; [exact Heq|exfalso].
  specialize (Hlb ltac:(lia)).
  assert (16 ^ Z.of_nat width <= 16 ^ (Z.of_nat (length out) - 1))
    by (apply Z.pow_le_mono_r; lia).
  lia.
Qed.

(** X22: spiflash_readid initialises the driver, reads the device id in one
    READ ID transaction and reports it in a fixed layout: the first byte
    the flash sent as two hexadecimal digits, the second and third as
    four. *)
Theorem spiflash_readid_reports_the_id fuel tr out tr' :
  spiflash_readid fuel tr = Some (out, tr') ->
  exists tr1 evs b0 b1 b2 m d,
    rvlib_spiflash_init fuel tr = Some (tt, tr1) /\
    tr' = tr1 ++ evs /\
    command_bytes evs = [SPIFLASH_CMD_READ_ID] /\
    captured evs = [b0; b1; b2] /\
    out = cstr "SPI flash identification:" ++ print_endln
          ++ cstr "  manufacturer ID = 0x" ++ m ++ print_endln
          ++ cstr "  device ID       = 0x" ++ d ++ print_endln /\
    length m = 2%nat /\ hex_value m = b0 /\
    length d = 4%nat /\ hex_value d = 256 * b1 + b2.
Proof.
  unfold spiflash_readid. intros H.
  apply bind_Some in H as (o0 & tr0 & H0 & H).
  apply print_literal_Some in H0 as [-> ->]; [|all_chars].
  apply bind_Some in H as ([] & tr1 & Hinit & H).
  apply bind_Some in H as (devid & tr2 & Hid & H).
  apply bind_Some in H as (o1 & tr3 & H1 & H).
  apply print_literal_Some in H1 as [-> ->]; [|all_chars].
  apply bind_Some in H as (o2 & tr4 & H2 & H).
  apply printed_Some in H2 as [H2 ->].
  apply bind_Some in H as (o3 & tr5 & H3 & H).
  apply print_literal_Some in H3 as [-> ->]; [|all_chars].
  apply bind_Some in H as (o4 & tr6 & H4 & H).
  apply printed_Some in H4 as [H4 ->].
  apply ret_Some in H as [Hout ->].
  unfold rvlib_spiflash_read_id in Hid.
  apply bind_Some in Hid as (buf & tr7 & Hq & Hid).
  apply ret_Some in Hid as [Hd ->]. subst devid.
  apply spi_command_read_run in Hq
    as (evs & ds & n & -> & F & _ & Hlen & ->).
  destruct ds as [|d0 [|d1 [|d2 [|d3 ds]]]]; try discriminate Hlen.
  cbn [manufacturer_id device_id map app nth] in H2, H4.
  pose proof (uint8_range d0). pose proof (uint8_range d1).
  pose proof (uint8_range d2).
  rewrite byte_pair in H4 by assumption.
  apply print_uint_hex_exact in H2 as [Hm Hmv];
    [|lia|change (16 ^ Z.of_nat 2) with 256; lia].
  apply print_uint_hex_exact in H4 as [Hdl Hdv];
    [|lia|change (16 ^ Z.of_nat 4) with 65536; lia].
  exists tr1, evs, (uint8 d0), (uint8 d1), (uint8 d2), o2, o4.
  split; [exact Hinit|]. split; [reflexivity|].
  split; [exact (command_bytes_query _ _ _ _ _ _ F)|].
  split; [exact (footprint_captured _ _ _ _ _ F)|].
  split; [subst out; rewrite <- !app_assoc; reflexivity|]. auto.
Qed.

(** The number of rounds of spiflash_read for [len] bytes. *)
Lemma read_rounds_step len :
  0 < len ->
  Z.to_nat ((len + 15) / 16)
  = S (Z.to_nat ((len - (if 16 <? len then 16 else len) + 15) / 16)).
Proof.
  intros Hlen. destruct (Z.ltb_spec 16 len) as [Hbig|Hsmall].
  - replace (len + 15) with (len - 16 + 15 + 1 * 16) by lia.
    rewrite Z.div_add by lia.
    assert (0 <= (len - 16 + 15) / 16) by (apply Z.div_pos; lia). lia.
  - replace (len - len + 15) with 15 by lia.
    change (15 / 16) with 0.
    assert ((len + 15) / 16 = 1); [|lia].
    symmetry. apply (Z.div_unique (len + 15) 16 1 (len - 1)); lia.
Qed.

Lemma round_addresses_step addr n :
  0 <= addr < 2 ^ 32 ->
  round_addresses addr (S n) = addr :: round_addresses (uint32 (addr + 16)) n.
Proof.
  intros Haddr. unfold round_addresses. cbn [seq map].
  rewrite Z.add_0_r, uint32_small by (change (16 * Z.of_nat 0) with 0; lia).
  f_equal. rewrite <- seq_shift, map_map.
  apply map_ext. intros i. unfold uint32.
  rewrite Zplus_mod_idemp_l. f_equal. lia.
Qed.

(** The rounds of spiflash_read: one READ transaction each, at
    consecutive addresses, for [len] bytes in all. *)
Lemma spiflash_read_loop_run fuel : forall k addr len buf tr out tr',
  0 <= addr < 2 ^ 32 -> 0 <= len < 2 ^ 32 ->
  spiflash_read_loop fuel k addr len buf tr = Some (out, tr') ->
  exists evs,
    tr' = tr ++ evs /\
    length (captured evs) = Z.to_nat len /\
    command_bytes evs
    = concat (map read_header
                (round_addresses addr (Z.to_nat ((len + 15) / 16)))) /\
    reg_writes ADDR_SLAVESEL evs = repeat 0 (Z.to_nat ((len + 15) / 16)).
Proof.
  assert (Hdone : forall addr (tr : trace) out tr',
    ret (A := list Z) [] tr = Some (out, tr') ->
    exists evs,
      tr' = tr ++ evs /\
      length (captured evs) = Z.to_nat 0 /\
      command_bytes evs
      = concat (map read_header
                  (round_addresses addr (Z.to_nat ((0 + 15) / 16)))) /\
      reg_writes ADDR_SLAVESEL evs = repeat 0 (Z.to_nat ((0 + 15) / 16))).
  { intros addr tr out tr' H. apply ret_Some in H as [_ ->].
    exists []. rewrite app_nil_r. repeat split. }
  induction k as [|k IH]; intros addr len buf tr out tr' Haddr Hlen H;
    simpl in H; destruct (Z.ltb_spec 0 len) as [Hpos|Hzero].
  - discriminate H.
  - replace len with 0 by lia. exact (Hdone addr tr out tr' H).
  - set (nbytes := if 16 <? len then 16 else len) in *.
    assert (Hn : 1 <= nbytes <= 16 /\ nbytes <= len)
      by (unfold nbytes; destruct (Z.ltb_spec 16 len); lia).
    apply bind_Some in H as (buf1 & tr1 & Hread & H).
    apply bind_Some in H as (o1 & tr2 & H1 & H).
    apply printed_Some in H1 as [_ ->].
    apply bind_Some in H as (o2 & tr3 & H2 & H).
    apply printed_Some in H2 as [_ ->].
    apply bind_Some in H as (rest & tr4 & Hrest & H).
    apply ret_Some in H as [_ ->].
    unfold rvlib_spiflash_read_mem in Hread.
    apply spi_command_addr_read_run in Hread
      as (evs1 & ds & m & -> & F & _ & Hds & _).
    rewrite (uint32_small (len - nbytes)) in Hrest by lia.
    apply IH in Hrest as (evs2 & -> & Hcap & Hcmd & Hsel);
      [|apply uint32_range|lia].
    exists (evs1 ++ evs2). split; [rewrite app_assoc; reflexivity|].
    rewrite (read_rounds_step len Hpos). fold nbytes.
    rewrite round_addresses_step by exact Haddr.
    split.
    { rewrite captured_app, length_app, Hcap,
        (footprint_captured _ _ _ _ _ F), length_map, Hds. lia. }
    split.
    { rewrite command_bytes_app, Hcmd.
      rewrite (command_bytes_header
                 [SPIFLASH_CMD_READ; Z.shiftr addr 16; Z.shiftr addr 8; addr]
                 m _ _ _ _ F).
      unfold nbytes at 1. destruct (Z.ltb_spec 16 len) as [Hbig|Hsmall].
      - reflexivity.
      - replace (len - nbytes) with 0 by (unfold nbytes;
          destruct (Z.ltb_spec 16 len); lia).
        reflexivity. }
    rewrite reg_writes_app, Hsel.
    destruct F as (_ & _ & -> & _). reflexivity.
  - replace len with 0 by lia. exact (Hdone addr tr out tr' H).
Qed.

(** The bound on the rounds is never what stops the loop: any bound of
    at least [len] gives the same run. *)
Lemma spiflash_read_loop_bound fuel : forall k k' addr len buf tr,
  0 <= len < 2 ^ 32 ->
  (Z.to_nat len <= k)%nat -> (Z.to_nat len <= k')%nat ->
  spiflash_read_loop fuel k addr len buf tr
  = spiflash_read_loop fuel k' addr len buf tr.
Proof.
  induction k as [|k IH]; intros k' addr len buf tr Hlen Hk Hk'.
  - replace len with 0 by lia. destruct k'; reflexivity.
  - destruct k' as [|k'].
    + replace len with 0 by lia. reflexivity.
    + simpl. destruct (Z.ltb_spec 0 len) as [Hpos|_]; [|reflexivity].
      set (nbytes := if 16 <? len then 16 else len).
      assert (Hn : 1 <= nbytes <= len)
        by (unfold nbytes; destruct (Z.ltb_spec 16 len); lia).
      unfold bind.
      destruct (rvlib_spiflash_read_mem fuel addr buf (Z.to_nat nbytes) tr)
        as [[buf1 tr1]|]; [|reflexivity].
      destruct (printed (print_uint_hex addr 8) tr1) as [[o1 tr2]|];
        [|reflexivity].
      destruct (printed (print_bytes buf1 0 (Z.to_nat nbytes)) tr2)
        as [[o2 tr3]|]; [|reflexivity].
      rewrite (IH k' (uint32 (addr + nbytes)) (uint32 (len - nbytes)) buf1 tr3);
        [reflexivity|apply uint32_range| |];
        rewrite uint32_small by lia; lia.
Qed.

(** X23: spiflash_read initialises the driver and then reads exactly len
    bytes, in rounds of at most 16 so that its 16-byte buffer is never
    exceeded: one READ transaction per round, at addr, addr + 16, ...
    (modulo 2^32), each ended by a deselect.  It returns 0.  With len = 0
    there is no READ transaction at all. *)
Theorem spiflash_read_reads_in_rounds fuel addr len tr r out tr' :
  spiflash_read fuel addr len tr = Some ((r, out), tr') ->
  r = 0 /\
  exists tr1 evs,
    rvlib_spiflash_init fuel tr = Some (tt, tr1) /\
    tr' = tr1 ++ evs /\
    length (captured evs) = Z.to_nat (uint32 len) /\
    command_bytes evs
    = concat (map read_header
                (round_addresses (uint32 addr)
                   (Z.to_nat ((uint32 len + 15) / 16)))) /\
    reg_writes ADDR_SLAVESEL evs
    = repeat 0 (Z.to_nat ((uint32 len + 15) / 16)).
Proof.
  unfold spiflash_read. cbv zeta. intros H.
  apply bind_Some in H as (o0 & tr0 & H0 & H).
  apply print_literal_Some in H0 as [-> ->]; [|all_chars].
  apply bind_Some in H as ([] & tr1 & Hinit & H).
  apply bind_Some in H as (o1 & tr2 & Hloop & H).
  apply ret_Some in H as [[= -> _] ->].
  split; [reflexivity|].
  apply spiflash_read_loop_run in Hloop as (evs & -> & Hcap & Hcmd & Hsel);
    [|apply uint32_range|apply uint32_range].
  exists tr1, evs. split; [exact Hinit|]. split; [reflexivity|].
  split; [exact Hcap|]. split; [exact Hcmd|exact Hsel].
Qed.

End MonitorProperties.

(** *** The test pages of spiflash_writetest *)

Lemma testdata_byte_uint8 testdata i :
  uint8 (Z.shiftr testdata (Z.shiftl (Z.of_nat i) 3))
  = testdata_byte testdata i.
Proof.
  unfold testdata_byte, uint8. change 0xff with (Z.ones 8).
  rewrite Z.land_ones by lia. reflexivity.
Qed.

Lemma store_testdata_run testdata : forall todo i buf,
  (16 + i + todo <= length buf)%nat ->
  store_testdata buf testdata i todo
  = Some (take (16 + i) buf ++ map (testdata_byte testdata) (seq i todo)
            ++ drop (16 + i + todo) buf).
Proof.
  induction todo as [|todo IH]; intros i buf Hlen.
  - simpl. rewrite Nat.add_0_r, take_drop. reflexivity.
  - cbn [store_testdata seq map].
    rewrite poke_Some by lia. rewrite testdata_byte_uint8.
    rewrite IH by (rewrite length_insert; lia).
    f_equal.
    replace (16 + (i + 1))%nat with (S (16 + i)) by lia.
    rewrite (take_S_r _ _ (testdata_byte testdata i))
      by (apply list_lookup_insert_eq; lia).
    rewrite take_insert_ge by lia.
    rewrite drop_insert_lt by lia.
    rewrite <- app_assoc. cbn [app].
    replace (i + 1)%nat with (S i) by lia.
    replace (S (16 + i) + todo)%nat with (16 + i + S todo)%nat by lia.
    reflexivity.
Qed.

Lemma check_bytes_spec buf expect : forall todo i good,
  (i + todo <= length buf)%nat ->
  check_bytes buf expect i todo good
  = Some (good && forallb (fun j => nth j buf 0 =? expect j) (seq i todo)).
Proof.
  induction todo as [|todo IH]; intros i good Hlen.
  - simpl. rewrite andb_true_r. reflexivity.
  - cbn [check_bytes seq forallb].
    destruct (buf !! i) as [b|] eqn:Hb.
    2:{ apply lookup_ge_None in Hb. lia. }
    rewrite (nth_lookup_Some _ _ 0 _ Hb).
    rewrite IH by lia. f_equal.
    replace (i + 1)%nat with (S i) by lia.
    destruct (b =? expect i), good; reflexivity.
Qed.

Lemma lists_agree (l l' : list Z) n :
  length l = n -> length l' = n ->
  forallb (fun j => nth j l 0 =? nth j l' 0) (seq 0 n) = true <-> l = l'.
Proof.
  intros Hl Hl'. split.
  - intros H. apply (nth_ext l l' 0 0); [congruence|].
    intros j Hj. apply Z.eqb_eq.
    apply (proj1 (forallb_forall _ _) H j). apply in_seq. lia.
  - intros ->. apply forallb_forall. intros j _. apply Z.eqb_refl.
Qed.

Lemma test_message_length page : length (test_message page) = 16%nat.
Proof. destruct page as [|page]; reflexivity. Qed.

Lemma test_page_data_length page testdata :
  length (test_page_data page testdata) = 24%nat.
Proof.
  unfold test_page_data.
  rewrite length_app, length_map, length_seq, test_message_length.
  reflexivity.
Qed.

(** The buffer after the message and the cycle count were stored. *)
Lemma test_page_buffer page testdata buf :
  (24 <= length buf)%nat ->
  exists buf1,
    memcpy buf (test_message page) 16 = Some buf1 /\
    store_testdata buf1 testdata 0 8
    = Some (test_page_data page testdata ++ drop 24 buf).
Proof.
  intros Hlen. pose proof (test_message_length page) as Hmsg.
  exists (test_message page ++ drop 16 buf). split.
  - unfold memcpy. rewrite Hmsg.
    destruct (Nat.leb_spec 16 (length buf)) as [_|]; [|lia].
    cbn [Nat.leb andb].
    rewrite <- Hmsg, firstn_all. rewrite Hmsg. reflexivity.
  - rewrite store_testdata_run
      by (rewrite length_app, length_drop, Hmsg; lia).
    cbn [Nat.add]. unfold test_page_data. rewrite <- app_assoc.
    f_equal. f_equal; [apply take_app_length'; symmetry; exact Hmsg|].
    f_equal. rewrite drop_app_ge by lia. rewrite Hmsg, drop_drop.
    reflexivity.
Qed.

(** What the three checking loops decide. *)
Lemma check_test_page_spec page testdata buf :
  (page <= 1)%nat -> length buf = 32%nat ->
  exists good,
    check_test_page buf page testdata = Some good /\
    (good = true <-> buf = test_page_data page testdata ++ repeat 0xff 8).
Proof.
  intros Hpage Hlen. unfold check_test_page.
  rewrite !check_bytes_spec by (rewrite Hlen; simpl; lia).
  eexists. split; [reflexivity|].
  rewrite <- (lists_agree buf _ 32 Hlen)
    by (rewrite length_app, test_page_data_length, repeat_length;
        reflexivity).
  change (seq 0 32) with (seq 0 16 ++ seq 16 8 ++ seq 24 8).
  rewrite !forallb_app, andb_true_l, <- andb_assoc.
  unfold test_page_data.
  destruct page as [|[|page]]; [reflexivity|reflexivity|lia].
Qed.

Lemma store_testdata_bound testdata : forall todo i buf buf',
  store_testdata buf testdata i todo = Some buf' ->
  (0 < todo)%nat -> (16 + i + todo <= length buf)%nat.
Proof.
  induction todo as [|todo IH]; intros i buf buf' H Hpos; [lia|].
  cbn [store_testdata] in H. unfold poke in H.
  destruct (Nat.ltb_spec (16 + i) (length buf)) as [Hin|Hout];
    [|discriminate H].
  destruct todo as [|todo]; [lia|].
  apply IH in H; [|lia]. rewrite length_insert in H. lia.
Qed.

(** *** The flash test returns *)

Section Returning.
Context {P : Platform}.

Lemma returns_idle_bind {A B} (m : M A) (k : A -> M B) Q R :
  returns_idle m Q -> (forall a, Q a -> returns_idle (k a) R) ->
  returns_idle (bind m k) R.
Proof.
  intros Hm Hk tr Hlev.
  destruct (Hm tr Hlev) as (a & tr1 & H1 & L1 & Ha).
  destruct (Hk a Ha tr1 L1) as (b & tr2 & H2 & L2 & Hb).
  exists b, tr2. split; [|auto].
  unfold bind. rewrite H1. exact H2.
Qed.

Lemma returns_idle_ret {A} (a : A) (Q : A -> Prop) :
  Q a -> returns_idle (ret a) Q.
Proof. intros Ha tr Hlev. exists a, tr. auto. Qed.

Lemma returns_idle_printed {A} (o : option A) a (Q : A -> Prop) :
  o = Some a -> Q a -> returns_idle (printed o) Q.
Proof. intros -> Ha tr Hlev. exists a, tr. auto. Qed.

Lemma returns_idle_literal s (Q : list Z -> Prop) :
  Forall (fun c => c <> 0) s -> Q s -> returns_idle (print_literal s) Q.
Proof.
  intros Hs HQ. unfold print_literal.
  apply (returns_idle_printed _ s); [|exact HQ].
  apply print_str_string. exact Hs.
Qed.

Lemma report_status_idle status scratchbuf :
  length scratchbuf = sizeof_scratchbuf ->
  returns_idle (report_status status scratchbuf)
    (fun r => length (fst r) = sizeof_scratchbuf).
Proof.
  intros Hlen. unfold report_status.
  destruct (status <? 0).
  - apply (returns_idle_bind _ _ (fun _ => True));
      [apply returns_idle_literal; [all_chars|exact I]|].
    intros o1 _.
    destruct (print_decimal_run (uint32 (- status)) scratchbuf Hlen)
      as (buf' & out & Hrun & Hl & _).
    { pose proof (uint32_range (- status)). split; [lia|].
      apply Z.lt_trans with (2 ^ 32); [lia|reflexivity]. }
    apply (returns_idle_bind _ _
             (fun r => length (fst r) = sizeof_scratchbuf));
      [apply (returns_idle_printed _ (buf', out)); [exact Hrun|exact Hl]|].
    intros r Hr. apply returns_idle_ret. exact Hr.
  - apply (returns_idle_bind _ _ (fun _ => True));
      [apply returns_idle_literal; [all_chars|exact I]|].
    intros o1 _. apply returns_idle_ret. exact Hlen.
Qed.

Lemma report_good_idle good :
  returns_idle (report_good good) (fun _ => True).
Proof.
  destruct good; (apply returns_idle_literal; [all_chars|exact I]).
Qed.

Lemma print_uint_hex_idle val width :
  (width <= 8)%nat ->
  returns_idle (printed (print_uint_hex val width)) (fun _ => True).
Proof.
  intros Hw. destruct (print_uint_hex_run val width Hw) as (out & Hrun & _).
  apply (returns_idle_printed _ out); [exact Hrun|exact I].
Qed.

Variables (lo hi : Z) (fuel : nat).
Hypothesis Hresp : responsive_controller.
Hypothesis Hidle : never_busy_controller.
Hypothesis Hclk : clock_advances lo hi.
Hypothesis Hlo : 0 < lo.
Hypothesis Hhi : 9 * hi <= 2 ^ 63.
Hypothesis Hfuel : (64 <= fuel)%nat.

Lemma spi_send_byte_idle b : returns_idle (spi_send_byte fuel b) (fun _ => True).
Proof using Hresp Hfuel.
  intros tr Hlev.
  destruct (spi_send_byte_returns fuel b tr Hresp ltac:(lia)) as (tr' & H & L).
  exists tt, tr'. split; [exact H|]. split; [lia|exact I].
Qed.

Lemma spi_end_transaction_idle :
  returns_idle (spi_end_transaction fuel) (fun _ => True).
Proof using Hidle Hfuel.
  intros tr Hlev.
  destruct (spi_end_transaction_returns fuel tr Hidle ltac:(lia)) as (tr' & H).
  exists tt, tr'. split; [exact H|]. split; [|exact I].
  rewrite (spi_end_transaction_level _ _ _ _ H). exact Hlev.
Qed.

Lemma spi_command_simple_idle cmd :
  returns_idle (spi_command_simple fuel cmd) (fun _ => True).
Proof using Hresp Hidle Hfuel.
  unfold spi_command_simple.
  apply (returns_idle_bind _ _ _ _ (spi_send_byte_idle cmd)). intros _ _.
  apply spi_end_transaction_idle.
Qed.

Lemma spi_read_bytes_idle buf n :
  (n <= length buf)%nat -> (2 * n <= fuel)%nat ->
  returns_idle (spi_read_bytes fuel buf n)
    (fun buf' => length buf' = length buf).
Proof using Hfuel Hresp P fuel.
  intros Hbuf Hn tr Hlev.
  destruct (spi_read_bytes_loop_returns n Hresp fuel 0 n buf tr)
    as ([[p ncmd] buf'] & tr' & H);
    [lia|exact Hbuf|lia|rewrite Hlev; lia|lia|rewrite Hlev; simpl; lia|].
  assert (Hrun : spi_read_bytes fuel buf n tr = Some (buf', tr'))
    by (unfold spi_read_bytes, bind; rewrite H; reflexivity).
  exists buf', tr'. split; [exact Hrun|]. split.
  - exact (spi_read_bytes_level fuel buf n (responsive_causal Hresp)
             tr buf' tr' Hlev Hrun).
  - apply spi_read_bytes_run in Hrun as (evs & ds & m & _ & _ & _ & Hds & ->).
    rewrite length_app, length_map, length_drop. lia.
Qed.

Lemma spi_command_read_idle cmd buf n :
  (n <= length buf)%nat -> (2 * n <= fuel)%nat ->
  returns_idle (spi_command_read fuel cmd buf n)
    (fun buf' => length buf' = length buf).
Proof using Hresp Hidle Hfuel.
  intros Hbuf Hn. unfold spi_command_read.
  apply (returns_idle_bind _ _ _ _ (spi_send_byte_idle cmd)). intros _ _.
  apply (returns_idle_bind _ _ _ _ (spi_read_bytes_idle buf n Hbuf Hn)).
  intros buf' Hlen.
  apply (returns_idle_bind _ _ _ _ spi_end_transaction_idle). intros _ _.
  apply returns_idle_ret. exact Hlen.
Qed.

Lemma read_mem_idle address buf n :
  (n <= length buf)%nat -> (2 * n <= fuel)%nat ->
  returns_idle (rvlib_spiflash_read_mem fuel address buf n)
    (fun buf' => length buf' = length buf).
Proof using Hresp Hidle Hfuel.
  intros Hbuf Hn. unfold rvlib_spiflash_read_mem, spi_command_addr_read.
  apply (returns_idle_bind _ _ _ _ (spi_send_byte_idle _)). intros _ _.
  apply (returns_idle_bind _ _ _ _ (spi_send_byte_idle _)). intros _ _.
  apply (returns_idle_bind _ _ _ _ (spi_send_byte_idle _)). intros _ _.
  apply (returns_idle_bind _ _ _ _ (spi_send_byte_idle _)). intros _ _.
  apply (returns_idle_bind _ _ _ _ (spi_read_bytes_idle buf n Hbuf Hn)).
  intros buf' Hlen.
  apply (returns_idle_bind _ _ _ _ spi_end_transaction_idle). intros _ _.
  apply returns_idle_ret. exact Hlen.
Qed.

Lemma spi_send_data_idle data : forall todo p,
  (p + todo <= length data)%nat ->
  returns_idle (spi_send_data fuel data p todo) (fun _ => True).
Proof using Hresp Hfuel.
  induction todo as [|todo IH]; intros p Hlen; cbn [spi_send_data].
  - apply returns_idle_ret. exact I.
  - destruct (data !! p) as [b|] eqn:Hb.
    2:{ apply lookup_ge_None in Hb. lia. }
    apply (returns_idle_bind _ _ _ _ (spi_send_byte_idle b)). intros _ _.
    apply IH. lia.
Qed.

Lemma spi_command_addr_write_idle cmd addr data n :
  (n <= length data)%nat ->
  returns_idle (spi_command_addr_write fuel cmd addr data n) (fun _ => True).
Proof using Hresp Hidle Hfuel.
  intros Hn. unfold spi_command_addr_write.
  apply (returns_idle_bind _ _ _ _ (spi_send_byte_idle _)). intros _ _.
  apply (returns_idle_bind _ _ _ _ (spi_send_byte_idle _)). intros _ _.
  apply (returns_idle_bind _ _ _ _ (spi_send_byte_idle _)). intros _ _.
  apply (returns_idle_bind _ _ _ _ (spi_send_byte_idle _)). intros _ _.
  apply (returns_idle_bind _ _ _ _ (spi_send_data_idle data n 0 Hn)).
  intros _ _. apply spi_end_transaction_idle.
Qed.

Lemma spiflash_poll_completion_idle timeout_us :
  poll_timeout_cycles timeout_us < 2 ^ 63 ->
  poll_timeout_cycles timeout_us < 9 * lo * Z.of_nat fuel ->
  returns_idle (spiflash_poll_completion fuel timeout_us) (fun _ => True).
Proof using Hresp Hidle Hclk Hlo Hhi Hfuel.
  intros HD Hrounds tr Hlev.
  destruct (spiflash_poll_completion_returns fuel timeout_us lo hi tr
              Hresp Hidle Hclk Hlo Hhi HD Hlev ltac:(lia) Hrounds)
    as (flags & evs & Hrun & _).
  eexists _, _. split; [exact Hrun|]. split; [|exact I].
  exact (spiflash_poll_completion_level fuel timeout_us
           (responsive_causal Hresp) tr _ _ Hlev Hrun).
Qed.

Lemma init_drain_idle : returns_idle (init_drain fuel) (fun _ => True).
Proof using Hresp Hidle Hfuel.
  intros tr Hlev. destruct fuel as [|k]; [lia|].
  destruct (Hresp tr) as [_ Hrr]. cbv zeta in Hrr.
  pose proof (Hidle tr) as Hb. unfold bit_set in Hb.
  apply negb_false_iff in Hb.
  exists tt, (tr ++ [RegRead ADDR_STATUS (uint32 (hw_reg tr ADDR_STATUS))]).
  split; [|split; [rewrite level_status; exact Hlev|exact I]].
  cbn [init_drain]. unfold bind, rvlib_hw_read_reg. cbv zeta.
  destruct (bit_set _ RVLIB_SPIFLASH_BIT_STATUS_READRDY) eqn:E;
    [pose proof (proj1 Hrr eq_refl); lia|].
  rewrite Hb. reflexivity.
Qed.


Hypothesis Herase : poll_timeout_cycles SPIFLASH_ERASE_TIMEOUT_US < 2 ^ 63.
Hypothesis Herase_fuel :
  poll_timeout_cycles SPIFLASH_ERASE_TIMEOUT_US < 9 * lo * Z.of_nat fuel.
Hypothesis Hprogram : poll_timeout_cycles SPIFLASH_PROGRAM_TIMEOUT_US < 2 ^ 63.
Hypothesis Hprogram_fuel :
  poll_timeout_cycles SPIFLASH_PROGRAM_TIMEOUT_US < 9 * lo * Z.of_nat fuel.

Lemma rvlib_spiflash_init_idle :
  returns_idle (rvlib_spiflash_init fuel) (fun _ => True).
Proof using Hresp Hidle Hclk Hlo Hhi Hfuel Herase Herase_fuel.
  unfold rvlib_spiflash_init.
  apply (returns_idle_bind _ _ _ _ init_drain_idle). intros _ _.
  apply (returns_idle_bind _ _ _ _ (spi_command_simple_idle _)). intros _ _.
  apply (returns_idle_bind _ _ _ _ (spi_command_simple_idle _)). intros _ _.
  apply (returns_idle_bind _ _ _ _ (spi_command_simple_idle _)). intros _ _.
  apply (returns_idle_bind _ _ _ _
           (spiflash_poll_completion_idle _ Herase Herase_fuel)).
  intros _ _. apply returns_idle_ret. exact I.
Qed.

Lemma run_write_op_idle op address :
  (op_nbytes op <= length (op_data op))%nat ->
  returns_idle (run_write_op fuel op address) (fun _ => True).
Proof using Hresp Hidle Hclk Hlo Hhi Hfuel Herase Herase_fuel Hprogram Hprogram_fuel.
  intros Hn.
  assert (Hpoll : returns_idle (spiflash_poll_completion fuel (op_timeout op))
                    (fun _ => True))
    by (destruct op; apply spiflash_poll_completion_idle; assumption).
  assert (Hrest : forall errbit,
    returns_idle
      (spi_command_simple fuel SPIFLASH_CMD_CLEAR_FLAGS ;;
       spi_command_simple fuel SPIFLASH_CMD_WRITE_ENABLE ;;
       spi_command_addr_write fuel (op_command op) address (op_data op)
         (op_nbytes op) ;;
       flags <- spiflash_poll_completion fuel (op_timeout op) ;;
       if Z.land flags (Z.shiftl 1 SPIFLASH_BIT_FLAGS_READY) =? 0 then
         ret RVLIB_SPIFLASH_ERR_TIMEOUT
       else if bit_set flags errbit then
         spi_command_simple fuel SPIFLASH_CMD_CLEAR_FLAGS ;;
         ret RVLIB_SPIFLASH_ERR_FAILED
       else ret 0)
      (fun _ => True)).
  { intros errbit.
    apply (returns_idle_bind _ _ _ _ (spi_command_simple_idle _)).
    intros _ _.
    apply (returns_idle_bind _ _ _ _ (spi_command_simple_idle _)).
    intros _ _.
    apply (returns_idle_bind _ _ _ _
             (spi_command_addr_write_idle _ _ _ _ Hn)).
    intros _ _.
    apply (returns_idle_bind _ _ _ _ Hpoll). intros flags _.
    destruct (Z.land flags _ =? 0); [apply returns_idle_ret; exact I|].
    destruct (bit_set flags errbit); [|apply returns_idle_ret; exact I].
    apply (returns_idle_bind _ _ _ _ (spi_command_simple_idle _)).
    intros _ _. apply returns_idle_ret. exact I. }
  destruct op as [data n|]; cbn [run_write_op];
    [unfold rvlib_spiflash_page_program|unfold rvlib_spiflash_sector_erase].
  all: apply (returns_idle_bind _ _ _ _
                (spi_command_read_idle SPIFLASH_CMD_READ_FLAGS [0] 1
                   ltac:(simpl; lia) ltac:(lia))).
  all: intros buf _; cbv zeta.
  all: destruct (Z.land (nth 0 buf 0) _ =? 0);
         [apply returns_idle_ret; exact I|].
  all: apply Hrest.
Qed.

Lemma read_back_sector_idle sector_addr : forall k p buf good,
  length buf = 32%nat ->
  sector_size - p <= 32 * Z.of_nat k ->
  returns_idle (read_back_sector fuel k sector_addr p buf good)
    (fun r => length (fst r) = 32%nat).
Proof using Hresp Hidle Hfuel.
  induction k as [|k IH]; intros p buf good Hlen Hk;
    cbn [read_back_sector];
    destruct (Z.leb_spec (p + 32) sector_size) as [Hin|Hout];
    try (apply returns_idle_ret; exact Hlen); [lia|].
  apply (returns_idle_bind _ _ _ _
           (read_mem_idle (uint32 (sector_addr + p)) buf 32
              ltac:(lia) ltac:(lia))).
  intros buf' Hlen'. rewrite Hlen in Hlen'.
  apply (returns_idle_bind _ _ (fun _ => True)).
  - rewrite check_bytes_spec by (rewrite Hlen'; simpl; lia).
    eapply returns_idle_printed; [reflexivity|exact I].
  - intros good' _. apply IH; [exact Hlen'|lia].
Qed.

Lemma program_test_page_idle sector_addr page buf scratchbuf :
  length buf = 32%nat -> length scratchbuf = sizeof_scratchbuf ->
  returns_idle (program_test_page fuel sector_addr page buf scratchbuf)
    (fun r => length (snd (fst (fst r))) = 32%nat /\
              length (snd (fst r)) = sizeof_scratchbuf).
Proof using Hresp Hidle Hclk Hlo Hhi Hfuel Herase Herase_fuel Hprogram Hprogram_fuel.
  intros Hlen Hsb.
  assert (Hrest : forall testdata, returns_idle
    (buf1 <- printed (memcpy buf (test_message page) 16) ;;
     buf2 <- printed (store_testdata buf1 testdata 0 8) ;;
     let page_addr := uint32 (sector_addr + Z.of_nat page * page_size) in
     o1 <- print_literal (cstr "  Programming page at 0x") ;;
     o2 <- printed (print_uint_hex page_addr 6) ;;
     o3 <- print_literal (cstr " ... ") ;;
     status <- rvlib_spiflash_page_program fuel page_addr buf2 24 ;;
     r <- report_status status scratchbuf ;;
     ret (testdata, buf2, fst r, o1 ++ o2 ++ o3 ++ snd r))
    (fun r => length (snd (fst (fst r))) = 32%nat /\
              length (snd (fst r)) = sizeof_scratchbuf));
    [|intros tr Hlev;
      exact (Hrest (uint64 (hw_cycle tr))
               (tr ++ [CycleRead (uint64 (hw_cycle tr))])
               ltac:(rewrite level_cycle; exact Hlev))].
  intros testdata.
  destruct (test_page_buffer page testdata buf ltac:(lia))
    as (buf1 & Hcpy & Hstore).
  apply (returns_idle_bind _ _ (fun b => b = buf1));
    [apply (returns_idle_printed _ buf1); [exact Hcpy|reflexivity]|].
  intros ? ->.
  apply (returns_idle_bind _ _
           (fun b => b = test_page_data page testdata ++ drop 24 buf));
    [eapply returns_idle_printed; [exact Hstore|reflexivity]|].
  intros ? ->. cbv zeta.
  assert (Hlen2 : length (test_page_data page testdata ++ drop 24 buf)
                  = 32%nat)
    by (rewrite length_app, test_page_data_length, length_drop; lia).
  apply (returns_idle_bind _ _ (fun _ => True));
    [apply returns_idle_literal; [all_chars|exact I]|]. intros o1 _.
  apply (returns_idle_bind _ _ _ _ (print_uint_hex_idle _ 6 ltac:(lia))).
  intros o2 _.
  apply (returns_idle_bind _ _ (fun _ => True));
    [apply returns_idle_literal; [all_chars|exact I]|]. intros o3 _.
  apply (returns_idle_bind _ _ _ _
           (run_write_op_idle
              (PageProgram (test_page_data page testdata ++ drop 24 buf) 24)
              _ ltac:(cbn [op_nbytes op_data]; lia))).
  intros status _.
  apply (returns_idle_bind _ _ _ _ (report_status_idle status _ Hsb)).
  intros r Hr. apply returns_idle_ret. split; [exact Hlen2|exact Hr].
Qed.

Lemma read_back_test_page_idle sector_addr page testdata buf :
  (page <= 1)%nat -> length buf = 32%nat ->
  returns_idle (read_back_test_page fuel sector_addr page testdata buf)
    (fun r => length (fst r) = 32%nat).
Proof using Hresp Hidle Hfuel.
  intros Hpage Hlen. unfold read_back_test_page. cbv zeta.
  apply (returns_idle_bind _ _ (fun _ => True));
    [apply returns_idle_literal; [all_chars|exact I]|]. intros o1 _.
  apply (returns_idle_bind _ _ _ _ (print_uint_hex_idle _ 6 ltac:(lia))).
  intros o2 _.
  apply (returns_idle_bind _ _ (fun _ => True));
    [apply returns_idle_literal; [all_chars|exact I]|]. intros o3 _.
  apply (returns_idle_bind _ _ _ _
           (read_mem_idle _ buf 32 ltac:(lia) ltac:(lia))).
  intros buf' Hlen'. rewrite Hlen in Hlen'.
  destruct (check_test_page_spec page testdata buf' Hpage Hlen')
    as (good & Hgood & _).
  apply (returns_idle_bind _ _ (fun _ => True));
    [apply (returns_idle_printed _ good); [exact Hgood|exact I]|].
  intros g _.
  apply (returns_idle_bind _ _ _ _ (report_good_idle g)). intros o4 _.
  apply returns_idle_ret. exact Hlen'.
Qed.

Lemma spiflash_writetest_idle scratchbuf :
  length scratchbuf = sizeof_scratchbuf ->
  returns_idle (spiflash_writetest fuel scratchbuf) (fun _ => True).
Proof using Hresp Hidle Hclk Hlo Hhi Hfuel Herase Herase_fuel Hprogram Hprogram_fuel.
  intros Hsb. unfold spiflash_writetest. cbv zeta.
  apply (returns_idle_bind _ _ (fun _ => True));
    [apply returns_idle_literal; [all_chars|exact I]|]. intros o0 _.
  apply (returns_idle_bind _ _ _ _ rvlib_spiflash_init_idle). intros _ _.
  apply (returns_idle_bind _ _ (fun _ => True));
    [apply returns_idle_literal; [all_chars|exact I]|]. intros o1 _.
  apply (returns_idle_bind _ _ _ _ (print_uint_hex_idle _ 6 ltac:(lia))).
  intros o2 _.
  apply (returns_idle_bind _ _ (fun _ => True));
    [apply returns_idle_literal; [all_chars|exact I]|]. intros o3 _.
  apply (returns_idle_bind _ _ _ _
           (run_write_op_idle SectorErase _ ltac:(simpl; lia))).
  intros status _.
  apply (returns_idle_bind _ _ _ _ (report_status_idle status _ Hsb)).
  intros r4 Hr4.
  apply (returns_idle_bind _ _ (fun _ => True));
    [apply returns_idle_literal; [all_chars|exact I]|]. intros o5 _.
  apply (returns_idle_bind _ _ _ _
           (read_back_sector_idle _ (Z.to_nat (sector_size / 32)) 0
              (repeat 0 32) true ltac:(reflexivity)
              ltac:(vm_compute; discriminate))).
  intros rb Hrb.
  apply (returns_idle_bind _ _ _ _ (report_good_idle _)). intros o6 _.
  apply (returns_idle_bind _ _ _ _
           (program_test_page_idle _ 0 _ _ Hrb Hr4)).
  intros [[[testdata0 buf0] scratch0] o7] [Hb0 Hs0]. cbn [fst snd] in Hb0, Hs0.
  apply (returns_idle_bind _ _ _ _
           (program_test_page_idle _ 1 _ _ Hb0 Hs0)).
  intros [[[testdata1 buf1] scratch1] o8] [Hb1 Hs1]. cbn [fst snd] in Hb1, Hs1.
  apply (returns_idle_bind _ _ _ _
           (read_back_test_page_idle _ 0 testdata0 _ ltac:(lia) Hb1)).
  intros b0 Hl0.
  apply (returns_idle_bind _ _ _ _
           (read_back_test_page_idle _ 1 testdata1 _ ltac:(lia) Hl0)).
  intros b1 Hl1. apply returns_idle_ret. exact I.
Qed.

End Returning.

(** *** What the flash test programs and checks *)

Section WritetestProperties.
Context {P : Platform}.

Lemma read_mem_length fuel address buf n tr buf' tr' :
  (n <= length buf)%nat ->
  rvlib_spiflash_read_mem fuel address buf n tr = Some (buf', tr') ->
  length buf' = length buf.
Proof.
  intros Hn H. unfold rvlib_spiflash_read_mem in H.
  apply spi_command_addr_read_run in H as (evs & ds & m & _ & _ & _ & Hds & ->).
  rewrite length_app, length_map, length_drop. lia.
Qed.

Lemma read_back_sector_length fuel sector_addr : forall k p buf good r tr tr',
  length buf = 32%nat ->
  read_back_sector fuel k sector_addr p buf good tr = Some (r, tr') ->
  length (fst r) = 32%nat.
Proof.
  induction k as [|k IH]; intros p buf good r tr tr' Hlen H;
    cbn [read_back_sector] in H;
    destruct (p + 32 <=? sector_size);
    try (apply ret_Some in H as [-> _]; exact Hlen);
    [discriminate H|].
  apply bind_Some in H as (buf1 & tr1 & Hread & H).
  apply read_mem_length in Hread; [|lia].
  apply bind_Some in H as (good1 & tr2 & _ & H).
  apply IH in H; [exact H|congruence].
Qed.

(** One round of the programming loop. *)
Lemma program_test_page_run fuel sector_addr page buf scratchbuf tr
    testdata buf' scratch' out tr' :
  program_test_page fuel sector_addr page buf scratchbuf tr
  = Some ((testdata, buf', scratch', out), tr') ->
  testdata = uint64 (hw_cycle tr) /\
  buf' = test_page_data page testdata ++ drop 24 buf /\
  length buf' = length buf /\
  exists status hex report,
    rvlib_spiflash_page_program fuel
      (uint32 (sector_addr + Z.of_nat page * page_size)) buf' 24
      (tr ++ [CycleRead testdata]) = Some (status, tr') /\
    print_uint_hex (uint32 (sector_addr + Z.of_nat page * page_size)) 6
    = Some hex /\
    report_status status scratchbuf tr' = Some ((scratch', report), tr') /\
    out = cstr "  Programming page at 0x" ++ hex ++ cstr " ... " ++ report.
Proof.
  unfold program_test_page. intros H.
  apply bind_Some in H as (t & tr0 & Hcy & H).
  apply cycle_counter_Some in Hcy as [-> ->].
  apply bind_Some in H as (buf1 & tr1 & Hcpy & H).
  apply printed_Some in Hcpy as [Hcpy ->].
  apply bind_Some in H as (buf2 & tr2 & Hstore & H).
  apply printed_Some in Hstore as [Hstore ->].
  cbv zeta in H.
  apply bind_Some in H as (o1 & tr3 & H1 & H).
  apply print_literal_Some in H1 as [-> ->]; [|all_chars].
  apply bind_Some in H as (o2 & tr4 & H2 & H).
  apply printed_Some in H2 as [H2 ->].
  apply bind_Some in H as (o3 & tr5 & H3 & H).
  apply print_literal_Some in H3 as [-> ->]; [|all_chars].
  apply bind_Some in H as (status & tr6 & Hprog & H).
  apply bind_Some in H as ([sb report] & tr7 & Hrep & H).
  apply ret_Some in H as [[= -> -> -> ->] ->].
  assert (Htr : tr7 = tr6).
  { unfold report_status in Hrep. destruct (status <? 0).
    - apply bind_Some in Hrep as (? & ? & Ha & Hrep).
      apply printed_Some in Ha as [_ ->].
      apply bind_Some in Hrep as (? & ? & Hb & Hrep).
      apply printed_Some in Hb as [_ ->].
      apply ret_Some in Hrep as [_ ->]. reflexivity.
    - apply bind_Some in Hrep as (? & ? & Ha & Hrep).
      apply printed_Some in Ha as [_ ->].
      apply ret_Some in Hrep as [_ ->]. reflexivity. }
  subst tr7.
  assert (Hlen1 : length buf1 = length buf /\ (16 <= length buf)%nat).
  { unfold memcpy in Hcpy.
    destruct (Nat.leb_spec 16 (length buf)) as [Hin|]; [|discriminate Hcpy].
    destruct (16 <=? length (test_message page))%nat; [|discriminate Hcpy].
    injection Hcpy as <-.
    rewrite length_app, length_take, length_drop, test_message_length.
    lia. }
  pose proof (store_testdata_bound _ _ _ _ _ Hstore ltac:(lia)) as Hlen2.
  destruct (test_page_buffer page (uint64 (hw_cycle tr)) buf ltac:(lia))
    as (b1 & Hcpy' & Hstore').
  rewrite Hcpy in Hcpy'. injection Hcpy' as <-.
  rewrite Hstore in Hstore'. injection Hstore' as ->.
  split; [reflexivity|]. split; [reflexivity|].
  split; [rewrite length_app, test_page_data_length, length_drop; lia|].
  exists status, o2, report. auto.
Qed.

(** One round of the read-back loop. *)
Lemma read_back_test_page_run fuel sector_addr page testdata buf tr
    buf' out tr' :
  (page <= 1)%nat -> length buf = 32%nat ->
  read_back_test_page fuel sector_addr page testdata buf tr
  = Some ((buf', out), tr') ->
  rvlib_spiflash_read_mem fuel
    (uint32 (sector_addr + Z.of_nat page * page_size)) buf 32 tr
  = Some (buf', tr') /\
  length buf' = 32%nat /\
  exists hex (good : bool),
    print_uint_hex (uint32 (sector_addr + Z.of_nat page * page_size)) 6
    = Some hex /\
    (good = true
     <-> buf' = test_page_data page testdata ++ repeat 0xff 8) /\
    out = cstr "  Reading back page at 0x" ++ hex ++ cstr " ... "
          ++ (if good then cstr "OK" else cstr "FAILED!") ++ [13; 10].
Proof.
  intros Hpage Hlen. unfold read_back_test_page. cbv zeta. intros H.
  apply bind_Some in H as (o1 & tr1 & H1 & H).
  apply print_literal_Some in H1 as [-> ->]; [|all_chars].
  apply bind_Some in H as (o2 & tr2 & H2 & H).
  apply printed_Some in H2 as [H2 ->].
  apply bind_Some in H as (o3 & tr3 & H3 & H).
  apply print_literal_Some in H3 as [-> ->]; [|all_chars].
  apply bind_Some in H as (b & tr4 & Hread & H).
  apply bind_Some in H as (good & tr5 & Hgood & H).
  apply printed_Some in Hgood as [Hgood ->].
  apply bind_Some in H as (o4 & tr6 & H4 & H).
  apply ret_Some in H as [[= -> ->] ->].
  pose proof (read_mem_length _ _ buf 32 _ _ _ ltac:(lia) Hread) as Hlen'.
  rewrite Hlen in Hlen'.
  destruct (check_test_page_spec page testdata b Hpage Hlen')
    as (g & Hg & Hiff).
  rewrite Hgood in Hg. injection Hg as <-.
  assert (o4 = (if good then cstr "OK" else cstr "FAILED!") ++ [13; 10]
          /\ tr6 = tr4) as [-> ->].
  { unfold report_good in H4.
    destruct good; apply print_literal_Some in H4; auto; all_chars. }
  split; [exact Hread|]. split; [exact Hlen'|].
  exists o2, good. split; [exact H2|]. split; [exact Hiff|].
  reflexivity.
Qed.

(** X30: spiflash_writetest programs, for each of the two test pages, the
    16 characters of the message followed by the cycle count read at the
    start of the round, least significant byte first: these are the 24
    bytes handed to rvlib_spiflash_page_program, at the address of the
    page, the rest of the buffer is left as it was, and the result code
    of the call is what is reported.  The read-back of a page reads 32
    bytes from its address and reports OK exactly when they are these 24
    bytes followed by 8 erased bytes, and FAILED! otherwise.  A run of the
    test ends with the two programming rounds and the two read-back
    rounds on the last sector, each read-back checked against the cycle
    count of the programming round of its page.  On a responsive
    controller that is not busy, with a cycle counter that advances, the
    test returns whatever the flash answers, given 64 polls for each wait
    and enough queries to reach both timeouts. *)
Theorem writetest_page_round_trip fuel :
  (forall sector_addr page buf scratchbuf tr testdata buf' scratch' out tr',
     program_test_page fuel sector_addr page buf scratchbuf tr
     = Some ((testdata, buf', scratch', out), tr') ->
     testdata = uint64 (hw_cycle tr) /\
     buf' = test_page_data page testdata ++ drop 24 buf /\
     take 24 buf' = test_page_data page testdata /\
     exists status hex report,
       rvlib_spiflash_page_program fuel
         (uint32 (sector_addr + Z.of_nat page * page_size)) buf' 24
         (tr ++ [CycleRead testdata]) = Some (status, tr') /\
       print_uint_hex (uint32 (sector_addr + Z.of_nat page * page_size)) 6
       = Some hex /\
       report_status status scratchbuf tr' = Some ((scratch', report), tr') /\
       out = cstr "  Programming page at 0x" ++ hex ++ cstr " ... "
             ++ report) /\
  (forall sector_addr page testdata buf tr buf' out tr',
     (page <= 1)%nat -> length buf = 32%nat ->
     read_back_test_page fuel sector_addr page testdata buf tr
     = Some ((buf', out), tr') ->
     rvlib_spiflash_read_mem fuel
       (uint32 (sector_addr + Z.of_nat page * page_size)) buf 32 tr
     = Some (buf', tr') /\
     exists hex (good : bool),
       print_uint_hex (uint32 (sector_addr + Z.of_nat page * page_size)) 6
       = Some hex /\
       (good = true
        <-> buf' = test_page_data page testdata ++ repeat 0xff 8) /\
       out = cstr "  Reading back page at 0x" ++ hex ++ cstr " ... "
             ++ (if good then cstr "OK" else cstr "FAILED!") ++ [13; 10]) /\
  (forall scratchbuf tr scratch' out tr',
     spiflash_writetest fuel scratchbuf tr = Some ((scratch', out), tr') ->
     exists head buf_a sb_a tr_a t0 buf_b sb_b o7 tr_b t1 buf_c o8 tr_c
            buf_d o9 tr_d buf_e o10,
       program_test_page fuel 0x7F0000 0 buf_a sb_a tr_a
       = Some ((t0, buf_b, sb_b, o7), tr_b) /\
       program_test_page fuel 0x7F0000 1 buf_b sb_b tr_b
       = Some ((t1, buf_c, scratch', o8), tr_c) /\
       read_back_test_page fuel 0x7F0000 0 t0 buf_c tr_c
       = Some ((buf_d, o9), tr_d) /\
       read_back_test_page fuel 0x7F0000 1 t1 buf_d tr_d
       = Some ((buf_e, o10), tr') /\
       length buf_c = 32%nat /\ length buf_d = 32%nat /\
       out = head ++ o7 ++ o8 ++ o9 ++ o10) /\
  (forall lo hi scratchbuf tr,
     responsive_controller -> never_busy_controller ->
     clock_advances lo hi -> 0 < lo -> 9 * hi <= 2 ^ 63 ->
     poll_timeout_cycles SPIFLASH_ERASE_TIMEOUT_US < 2 ^ 63 ->
     poll_timeout_cycles SPIFLASH_ERASE_TIMEOUT_US
       < 9 * lo * Z.of_nat fuel ->
     poll_timeout_cycles SPIFLASH_PROGRAM_TIMEOUT_US < 2 ^ 63 ->
     poll_timeout_cycles SPIFLASH_PROGRAM_TIMEOUT_US
       < 9 * lo * Z.of_nat fuel ->
     (64 <= fuel)%nat ->
     length scratchbuf = sizeof_scratchbuf ->
     fifo_level tr = 0 ->
     exists r tr', spiflash_writetest fuel scratchbuf tr = Some (r, tr')).
Proof.
  split; [|split; [|split]].
  - intros sector_addr page buf scratchbuf tr testdata buf' scratch' out tr' H.
    apply program_test_page_run in H
      as (Ht & Hb & _ & status & hex & report & H).
    split; [exact Ht|]. split; [exact Hb|].
    split; [|exists status, hex, report; exact H].
    rewrite Hb. apply take_app_length'. rewrite test_page_data_length.
    reflexivity.
  - intros sector_addr page testdata buf tr buf' out tr' Hpage Hlen H.
    apply read_back_test_page_run in H as (Hread & _ & H);
      [|exact Hpage|exact Hlen].
    split; [exact Hread|exact H].
  - intros scratchbuf tr scratch' out tr' H.
    unfold spiflash_writetest in H. cbv zeta in H.
    apply bind_Some in H as (o0 & tr0 & _ & H).
    apply bind_Some in H as ([] & tr1 & _ & H).
    apply bind_Some in H as (o1 & tr2 & _ & H).
    apply bind_Some in H as (o2 & tr3 & _ & H).
    apply bind_Some in H as (o3 & tr4 & _ & H).
    apply bind_Some in H as (status & tr5 & _ & H).
    apply bind_Some in H as (r4 & tr6 & _ & H).
    apply bind_Some in H as (o5 & tr7 & _ & H).
    apply bind_Some in H as (rb & tr8 & Hrb & H).
    apply read_back_sector_length in Hrb; [|reflexivity].
    apply bind_Some in H as (o6 & tr9 & _ & H).
    apply bind_Some in H as ([[[t0 buf0] scratch0] o7] & tr10 & Hp0 & H).
    apply bind_Some in H as ([[[t1 buf1] scratch1] o8] & tr11 & Hp1 & H).
    apply bind_Some in H as ([bufd o9] & tr12 & Hb0 & H).
    apply bind_Some in H as ([bufe o10] & tr13 & Hb1 & H).
    apply ret_Some in H as [[= -> ->] ->]. cbn [fst snd] in *.
    pose proof Hp0 as (_ & _ & L0 & _)%program_test_page_run.
    pose proof Hp1 as (_ & _ & L1 & _)%program_test_page_run.
    pose proof Hb0 as (_ & L2 & _)%read_back_test_page_run; [|lia|lia].
    exists (o0 ++ o1 ++ o2 ++ o3 ++ snd r4 ++ o5 ++ o6).
    eexists _, _, _, _, _, _, _, _, _, _, _, _, _, _, _, _, _.
    split; [exact Hp0|]. split; [exact Hp1|]. split; [exact Hb0|].
    split; [exact Hb1|]. split; [lia|]. split; [exact L2|].
    rewrite <- !app_assoc. reflexivity.
  - intros lo hi scratchbuf tr Hresp Hidle Hclk Hlo Hhi He He' Hp Hp' Hfuel
      Hsb Hlev.
    destruct (spiflash_writetest_idle lo hi fuel Hresp Hidle Hclk Hlo Hhi
                Hfuel He He' Hp Hp' scratchbuf Hsb tr Hlev)
      as (r & tr' & Hrun & _).
    exists r, tr'. exact Hrun.
Qed.

End WritetestProperties.

(** *** spiflash_subcommand *)

Lemma parse_uint_numeral sp ds rest val :
  ds <> [] ->
  Forall (fun c => is_dec_digit c = true) ds ->
  ends_numeral is_dec_digit rest ->
  hex_prefix (chr "0" :: rest) = false ->
  dec_value ds < 2 ^ 32 ->
  parse_uint (repeat (chr " ") sp ++ ds ++ rest) val
  = (Z.of_nat (sp + length ds), dec_value ds).
Proof.
  intros Hne Hds Hend Hhex Hval.
  rewrite (parse_uint_decimal_frame sp ds rest val Hne Hds
             (digits_not_hex_prefix ds rest Hne Hds Hhex)).
  destruct (last_digit ds Hne Hds) as (ds' & c & -> & Hds' & Hc & Hv & H0 & Hd).
  unfold dec_value in *.
  rewrite (parse_dec_loop_accepts rest c true ds' 0 false sp Hds' Hc Hend);
    [|lia|change (UINT32_MAX / 10) with 429496729; lia|reflexivity].
  rewrite <- Hv, uint32_small by lia.
  rewrite length_app. simpl. do 2 f_equal. lia.
Qed.

Lemma parse_uint_no_digit sp rest val :
  ends_numeral (fun c => is_dec_digit c || (c =? chr " ")) rest ->
  parse_uint (repeat (chr " ") sp ++ rest) val = (-1, val).
Proof.
  intros Hend. unfold parse_uint.
  rewrite (skip_spaces_repeat sp rest 0).
  2:{ intros c Hc Heq. apply Hend in Hc. subst c.
      rewrite Z.eqb_refl, orb_true_r in Hc. discriminate Hc. }
  assert (Hdec : ends_numeral is_dec_digit rest).
  { intros c Hc. apply Hend in Hc. apply orb_false_elim in Hc as [Hc _].
    exact Hc. }
  replace (hex_prefix rest) with false.
  - rewrite parse_dec_loop_stops by exact Hdec. reflexivity.
  - destruct rest as [|c0 [|c1 rest]]; try reflexivity.
    specialize (Hdec c0 eq_refl). simpl.
    destruct (Z.eqb_spec c0 (chr "0")) as [->|_]; [|reflexivity].
    discriminate Hdec.
Qed.

Lemma strncmp_eq_exact lit : forall s,
  strncmp_eq s lit (S (length lit)) = true <-> s = lit.
Proof.
  induction lit as [|c lit IH]; intros s.
  - destruct s as [|d s]; simpl; split; intros H;
      reflexivity || discriminate H.
  - destruct s as [|d s]; [simpl; split; intros H; discriminate H|].
    cbn [strncmp_eq length]. split.
    + intros H. apply andb_prop in H as [Hc H].
      apply Z.eqb_eq in Hc. apply IH in H. subst. reflexivity.
    + intros [= -> ->]. rewrite Z.eqb_refl. apply IH. reflexivity.
Qed.

(** How the words of spiflash_subcommand are told apart when the text
    starts with read. *)
Lemma read_word args :
  strncmp_eq (cstr "read" ++ args) (cstr "help") 5 = false /\
  strncmp_eq (cstr "read" ++ args) (cstr "readid") 7
  = strncmp_eq args (cstr "id") 3 /\
  strncmp_eq (cstr "read" ++ args) (cstr "read") 4 = true /\
  drop 4 (cstr "read" ++ args) = args.
Proof.
  split; [reflexivity|]. split; [reflexivity|]. split; reflexivity.
Qed.

Lemma not_the_word_id sp rest :
  ends_numeral (fun c => c =? chr "i") (repeat (chr " ") sp ++ rest) ->
  strncmp_eq (repeat (chr " ") sp ++ rest) (cstr "id") 3 = false.
Proof.
  intros Hend. destruct (repeat (chr " ") sp ++ rest) as [|c l];
    [reflexivity|].
  specialize (Hend c eq_refl). cbn [strncmp_eq cstr map list_ascii_of_string].
  rewrite Hend. reflexivity.
Qed.

Section SubcommandProperties.
Context {P : Platform}.

Lemma spiflash_subcommand_read_word fuel sp0 args scratchbuf :
  strncmp_eq args (cstr "id") 3 = false ->
  spiflash_subcommand fuel (repeat (chr " ") sp0 ++ cstr "read" ++ args)
    scratchbuf
  = let '(ret1, addr) := parse_uint args 0 in
    if ret1 <? 0 then ret (ret1, scratchbuf, [])
    else
      let '(ret2, len) := parse_uint (drop (Z.to_nat ret1) args) 0 in
      if ret2 <? 0 then ret (ret2, scratchbuf, [])
      else
        r <- spiflash_read fuel addr len ;;
        ret (fst r, scratchbuf, snd r).
Proof.
  intros Hid. unfold spiflash_subcommand.
  rewrite (skip_spaces_repeat sp0 (cstr "read" ++ args) 0)
    by (intros c [= <-]; by_computation).
  cbn [fst].
  destruct (read_word args) as (Hhelp & Hreadid & Hread & Hdrop).
  rewrite Hhelp, Hreadid, Hid, Hread, Hdrop. reflexivity.
Qed.

(** X28: The read subcommand with two decimal numerals below 2^32: whatever
    the spaces before the word, between the word and the first numeral
    (none is needed) and between the numerals, spiflash_subcommand does
    what spiflash_read does for the two numbers and returns its result;
    text after the second numeral is ignored. *)
Theorem spiflash_subcommand_read_runs_spiflash_read
    fuel sp0 sp1 sp2 ds1 ds2 rest scratchbuf :
  ds1 <> [] -> Forall (fun c => is_dec_digit c = true) ds1 ->
  ds2 <> [] -> Forall (fun c => is_dec_digit c = true) ds2 ->
  dec_value ds1 < 2 ^ 32 -> dec_value ds2 < 2 ^ 32 ->
  ends_numeral is_dec_digit rest ->
  hex_prefix (chr "0" :: rest) = false ->
  spiflash_subcommand fuel
    (repeat (chr " ") sp0 ++ cstr "read" ++ repeat (chr " ") sp1 ++ ds1
       ++ repeat (chr " ") (S sp2) ++ ds2 ++ rest) scratchbuf
  = (r <- spiflash_read fuel (dec_value ds1) (dec_value ds2) ;;
     ret (fst r, scratchbuf, snd r)).
Proof.
  intros Hne1 Hds1 Hne2 Hds2 Hv1 Hv2 Hend Hhex.
  rewrite spiflash_subcommand_read_word.
  2:{ apply not_the_word_id. intros c Hc.
      destruct sp1 as [|sp1]; simpl in Hc.
      - destruct ds1 as [|d ds1]; [contradiction|].
        apply Forall_cons in Hds1 as [Hd _]. simpl in Hc. injection Hc as <-.
        apply dec_digit_range in Hd. apply Z.eqb_neq. revert Hd. char_codes.
        lia.
      - injection Hc as <-. reflexivity. }
  rewrite (parse_uint_numeral sp1 ds1
             (repeat (chr " ") (S sp2) ++ ds2 ++ rest) 0 Hne1 Hds1);
    [|intros c [= <-]; reflexivity|reflexivity|exact Hv1].
  cbv beta iota.
  destruct (Z.ltb_spec (Z.of_nat (sp1 + length ds1)) 0) as [Hneg|_]; [lia|].
  rewrite Nat2Z.id.
  replace (drop (sp1 + length ds1)
             (repeat (chr " ") sp1 ++ ds1
                ++ repeat (chr " ") (S sp2) ++ ds2 ++ rest))
    with (repeat (chr " ") (S sp2) ++ ds2 ++ rest).
  2:{ rewrite (app_assoc (repeat (chr " ") sp1) ds1). symmetry.
      apply drop_app_length'.
      rewrite length_app, repeat_length. reflexivity. }
  rewrite (parse_uint_numeral (S sp2) ds2 rest 0 Hne2 Hds2 Hend Hhex Hv2).
  cbv beta iota.
  destruct (Z.ltb_spec (Z.of_nat (S sp2 + length ds2)) 0) as [Hneg|_]; [lia|].
  reflexivity.
Qed.

(** X29: The read subcommand without two numbers does nothing: when no number
    follows the word, or a decimal numeral below 2^32 is followed by no
    second number, spiflash_subcommand returns -1 without an access to
    the flash and without output. *)
Theorem spiflash_subcommand_read_needs_two_numbers
    fuel sp0 sp1 scratchbuf tr :
  (forall rest,
     ends_numeral (fun c => is_dec_digit c || (c =? chr " ")) rest ->
     rest <> cstr "id" ->
     spiflash_subcommand fuel
       (repeat (chr " ") sp0 ++ cstr "read" ++ repeat (chr " ") sp1 ++ rest)
       scratchbuf tr
     = Some ((-1, scratchbuf, []), tr)) /\
  (forall ds1 sp2 rest,
     ds1 <> [] -> Forall (fun c => is_dec_digit c = true) ds1 ->
     dec_value ds1 < 2 ^ 32 ->
     ends_numeral (fun c => is_dec_digit c || (c =? chr " ")) rest ->
     hex_prefix (chr "0" :: repeat (chr " ") sp2 ++ rest) = false ->
     spiflash_subcommand fuel
       (repeat (chr " ") sp0 ++ cstr "read" ++ repeat (chr " ") sp1 ++ ds1
          ++ repeat (chr " ") sp2 ++ rest) scratchbuf tr
     = Some ((-1, scratchbuf, []), tr)).
Proof.
  split.
  - intros rest Hend Hid.
    rewrite spiflash_subcommand_read_word.
    + rewrite (parse_uint_no_digit sp1 rest 0 Hend). reflexivity.
    + destruct sp1 as [|sp1]; [|reflexivity].
      cbn [repeat app].
      destruct (strncmp_eq rest (cstr "id") 3) eqn:Heq; [|reflexivity].
      apply (strncmp_eq_exact (cstr "id")) in Heq. contradiction.
  - intros ds1 sp2 rest Hne1 Hds1 Hv1 Hend Hhex.
    rewrite spiflash_subcommand_read_word.
    2:{ apply not_the_word_id. intros c Hc.
        destruct sp1 as [|sp1]; simpl in Hc.
        - destruct ds1 as [|d ds1]; [contradiction|].
          apply Forall_cons in Hds1 as [Hd _]. simpl in Hc.
          injection Hc as <-.
          apply dec_digit_range in Hd. apply Z.eqb_neq. revert Hd.
          char_codes. lia.
        - injection Hc as <-. reflexivity. }
    assert (Hend1 : ends_numeral is_dec_digit (repeat (chr " ") sp2 ++ rest)).
    { intros c Hc. destruct sp2 as [|sp2]; simpl in Hc.
      - apply Hend in Hc. apply orb_false_elim in Hc as [Hc _]. exact Hc.
      - injection Hc as <-. reflexivity. }
    rewrite (parse_uint_numeral sp1 ds1 (repeat (chr " ") sp2 ++ rest) 0
               Hne1 Hds1 Hend1 Hhex Hv1).
    cbv beta iota.
    destruct (Z.ltb_spec (Z.of_nat (sp1 + length ds1)) 0) as [Hneg|_]; [lia|].
    rewrite Nat2Z.id.
    replace (drop (sp1 + length ds1)
               (repeat (chr " ") sp1 ++ ds1 ++ repeat (chr " ") sp2 ++ rest))
      with (repeat (chr " ") sp2 ++ rest).
    2:{ rewrite (app_assoc (repeat (chr " ") sp1) ds1). symmetry.
        apply drop_app_length'.
        rewrite length_app, repeat_length. reflexivity. }
    rewrite (parse_uint_no_digit sp2 rest 0 Hend). reflexivity.
Qed.

End SubcommandProperties.

(** ** The theorems at work on the example platforms *)

Lemma sim_platform_responsive bytes t0 tick :
  responsive_controller (P := sim_platform bytes t0 tick).
Proof.
  intros tr. cbv zeta.
  change (fifo_level (P := sim_platform bytes t0 tick) tr) with (sim_level tr).
  change (hw_reg (Platform := sim_platform bytes t0 tick) tr
            (ADDR_STATUS (P := sim_platform bytes t0 tick)))
    with (if 0 <? sim_level tr then 6 else 2).
  destruct (Z.ltb_spec 0 (sim_level tr)) as [Hpos|Hle].
  - split; [reflexivity|]. split; [intros _; exact Hpos|reflexivity].
  - split; [reflexivity|]. split; [|lia].
    intros H. vm_compute in H. discriminate H.
Qed.

Lemma sim_platform_never_busy bytes t0 tick :
  never_busy_controller (P := sim_platform bytes t0 tick).
Proof.
  intros tr.
  change (hw_reg (Platform := sim_platform bytes t0 tick) tr
            (ADDR_STATUS (P := sim_platform bytes t0 tick)))
    with (if 0 <? sim_level tr then 6 else 2).
  destruct (0 <? sim_level tr); reflexivity.
Qed.

Lemma sim_platform_clock bytes t0 tick :
  0 <= tick < 2 ^ 64 ->
  clock_advances (P := sim_platform bytes t0 tick) tick tick.
Proof.
  intros Ht tr e. cbn [hw_cycle sim_platform].
  rewrite length_app. cbn [length].
  replace (t0 + tick * Z.of_nat (length tr + 1)
           - (t0 + tick * Z.of_nat (length tr))) with tick by lia.
  rewrite uint64_small by exact Ht. lia.
Qed.

(** A read of three bytes into a four-byte buffer on the simulated
    controller: three requests, three captured bytes, the fourth byte of
    the buffer untouched; and the call returns for any fuel from 6 on. *)
Lemma spi_read_bytes_counts_witness :
  (exists p ncmd buf' tr',
     spi_read_bytes_loop (P := echo_device) 10 3 0 3 [0; 0; 0; 7] []
     = Some ((p, ncmd, buf'), tr') /\
     p = 3%nat /\ ncmd = 0%nat /\ buf' = [0x5A; 0x5A; 0x5A; 7] /\
     dummy_requests (P := echo_device) tr' = 3%nat /\
     length (captured (P := echo_device) tr') = 3%nat) /\
  (exists buf' tr',
     spi_read_bytes (P := echo_device) 6 [0; 0; 0; 7] 3 [] = Some (buf', tr') /\
     dummy_requests (P := echo_device) tr' = 3%nat /\
     length (captured (P := echo_device) tr') = 3%nat).
Proof.
  split.
  - eassert (Hrun : spi_read_bytes_loop (P := echo_device)
                       10 3 0 3 [0; 0; 0; 7] [] = Some ((_, _, _), _))
      by (vm_compute; reflexivity).
    eexists _, _, _, _. split; [exact Hrun|].
    destruct (spi_read_bytes_counts (P := echo_device) 10 [0; 0; 0; 7] 3 [])
      as [Hexit _].
    destruct (Hexit _ _ _ _ Hrun)
      as (evs & E & _ & Hp & Hlen & _ & _ & _ & _ & Hc).
    destruct (Hc (responsive_causal (sim_platform_responsive _ _ _)) eq_refl)
      as [Hd Hn].
    simpl in E. rewrite <- E in Hd, Hlen.
    split; [exact Hp|]. split; [exact Hn|]. split; [reflexivity|].
    split; [exact Hd|exact Hlen].
  - destruct (spi_read_bytes_counts (P := echo_device) 6 [0; 0; 0; 7] 3 [])
      as [_ Hreturns].
    destruct (Hreturns (sim_platform_responsive _ _ _))
      as (buf' & evs & Hrun & Hd & Hlen & _);
      [simpl; lia|reflexivity|lia|].
    exists buf', evs. auto.
Defined.

(** The controller that holds a stale byte: one byte is captured and no
    dummy request is ever issued, so "exactly n requests under any
    interleaving of the status bits" fails for n = 1. *)
Lemma spi_read_bytes_stale_byte :
  spi_read_bytes_loop (P := stale_platform) 1 1 0 1 [0] []
  = Some ((1%nat, 1%nat, [0xAB]), [RegRead 0 4; RegRead 8 0xAB]) /\
  dummy_requests (P := stale_platform) [RegRead 0 4; RegRead 8 0xAB] = 0%nat /\
  ~ (forall (P : Platform) fuel buf n tr p ncmd buf' tr',
       spi_read_bytes_loop fuel n 0 n buf tr = Some ((p, ncmd, buf'), tr') ->
       exists evs,
         tr' = tr ++ evs /\
         dummy_requests evs = n /\
         length (captured evs) = n /\
         p = n /\ ncmd = 0%nat).
Proof.
  split; [reflexivity|]. split; [reflexivity|].
  intros H.
  destruct (H stale_platform 1%nat [0] 1%nat [] 1%nat 1%nat [0xAB]
              [RegRead 0 4; RegRead 8 0xAB] eq_refl)
    as (evs & E & Hd & _).
  simpl in E. subst evs. vm_compute in Hd. discriminate Hd.
Qed.

(** A page program whose completion poll times out: the pre-flight byte
    had READY set, the polled byte had it clear. *)
Lemma write_errors_decided_in_order_witness :
  exists tr',
    run_write_op (P := stalling_device) 5 (PageProgram [1; 2] 2) 0x7F0000 []
    = Some (RVLIB_SPIFLASH_ERR_TIMEOUT, tr') /\
    exists f0 tr1,
      spi_command_read (P := stalling_device) 5 SPIFLASH_CMD_READ_FLAGS [0] 1 []
      = Some ([f0], tr1) /\
      bit_set f0 SPIFLASH_BIT_FLAGS_READY = true /\
      exists f1,
        bit_set f1 SPIFLASH_BIT_FLAGS_READY = false /\
        RVLIB_SPIFLASH_ERR_TIMEOUT
        = write_result SPIFLASH_BIT_FLAGS_PROGRAM_ERROR f0 f1.
Proof.
  eassert (Hrun : run_write_op (P := stalling_device)
                     5 (PageProgram [1; 2] 2) 0x7F0000 []
                   = Some (RVLIB_SPIFLASH_ERR_TIMEOUT, _))
    by (vm_compute; reflexivity).
  eexists. split; [exact Hrun|].
  destruct (write_errors_decided_in_order (P := stalling_device)
              5 (PageProgram [1; 2] 2) 0x7F0000 []) as (Hdecided & _).
  destruct (Hdecided _ _ Hrun) as (f0 & tr1 & Hq & Hbusy & Hready).
  exists f0, tr1. split; [exact Hq|].
  destruct (bit_set f0 SPIFLASH_BIT_FLAGS_READY) eqn:Hf0.
  - split; [reflexivity|].
    destruct (Hready eq_refl)
      as (e & tr4 & f1 & tr5 & e' & _ & _ & _ & _ & Hfail & Hok & Hres).
    exists f1. split; [|exact Hres].
    destruct (bit_set f1 SPIFLASH_BIT_FLAGS_READY); [|reflexivity].
    destruct (bit_set f1 (op_error_bit (PageProgram [1; 2] 2))).
    + specialize (Hfail eq_refl eq_refl). vm_compute in Hfail.
      discriminate Hfail.
    + specialize (Hok eq_refl eq_refl). vm_compute in Hok.
      discriminate Hok.
  - destruct (Hbusy eq_refl) as [E _]. vm_compute in E. discriminate E.
Defined.

(** A sector erase on a device that is still busy. *)
Lemma busy_device_gets_only_the_flag_query_witness :
  exists buf tr1,
    spi_command_read (P := busy_device) 5 SPIFLASH_CMD_READ_FLAGS [0] 1 []
    = Some (buf, tr1) /\
    Z.testbit (nth 0 buf 0) 7 = false /\
    run_write_op (P := busy_device) 5 SectorErase 0x7F0000 []
    = Some (RVLIB_SPIFLASH_ERR_NOTREADY, tr1) /\
    command_bytes (P := busy_device) tr1 = [SPIFLASH_CMD_READ_FLAGS].
Proof.
  eassert (Hq : spi_command_read (P := busy_device)
                   5 SPIFLASH_CMD_READ_FLAGS [0] 1 [] = Some (_, _))
    by (vm_compute; reflexivity).
  eexists _, _. split; [exact Hq|].
  assert (Hbit : Z.testbit (nth 0 [0] 0) 7 = false) by reflexivity.
  split; [exact Hbit|].
  destruct (busy_device_gets_only_the_flag_query (P := busy_device)
              5 SectorErase 0x7F0000 _ _ _ Hq Hbit)
    as (Hrun & evs & m & E & Hc & _).
  split; [exact Hrun|]. simpl in E. rewrite E. exact Hc.
Defined.

(** A poll that finds the device busy twice and ready the third time; a
    poll of a device that stays busy while the clock runs past the
    deadline: the byte of the last query comes back, READY clear; and a
    poll whose deadline lies beyond the overflow of the 64-bit counter
    returns from every trace with the queue empty. *)
Lemma spiflash_poll_completion_polls_witness :
  (exists flags tr',
     spiflash_poll_completion (P := slow_device) 5 5000 []
     = Some (flags, tr') /\
     flags = 0x80 /\
     exists start evs rounds,
       tr' = CycleRead start :: evs /\
       length rounds = 2%nat /\
       polled (P := slow_device)
         (poll_deadline (P := slow_device) start 5000) rounds flags evs /\
       last (captured (P := slow_device) evs) = Some flags) /\
  (exists flags tr',
     spiflash_poll_completion (P := stuck_device) 5 5000 []
     = Some (flags, tr') /\
     bit_set flags SPIFLASH_BIT_FLAGS_READY = false /\
     exists start evs now,
       tr' = CycleRead start :: evs /\
       last (captured (P := stuck_device) evs) = Some flags /\
       last (cycle_reads evs) = Some now /\
       poll_expired (poll_deadline (P := stuck_device) start 5000) now = true) /\
  (forall tr,
     fifo_level (P := wrapping_device) tr = 0 ->
     exists flags start evs,
       spiflash_poll_completion (P := wrapping_device) 2 5000 tr
       = Some (flags, tr ++ CycleRead start :: evs) /\
       last (captured (P := wrapping_device) evs) = Some flags).
Proof.
  split; [|split].
  - eassert (Hrun : spiflash_poll_completion (P := slow_device) 5 5000 []
                     = Some (_, _)) by (vm_compute; reflexivity).
    eexists _, _. split; [exact Hrun|].
    split; [reflexivity|].
    destruct (spiflash_poll_completion_polls (P := slow_device) 5 5000 [])
      as [Hpolls _].
    destruct (Hpolls _ _ Hrun)
      as (start & evs & rounds & E & Hp & Hlast & _).
    exists start, evs, rounds. split; [exact E|]. split; [|auto].
    destruct Hp as (_ & Hcmd & _).
    simpl in E. injection E as _ <-.
    apply (f_equal (@length Z)) in Hcmd. rewrite repeat_length in Hcmd.
    vm_compute in Hcmd. injection Hcmd as Hcmd. symmetry. exact Hcmd.
  - eassert (Hrun : spiflash_poll_completion (P := stuck_device) 5 5000 []
                     = Some (_, _)) by (vm_compute; reflexivity).
    eexists _, _. split; [exact Hrun|].
    split; [reflexivity|].
    destruct (spiflash_poll_completion_polls (P := stuck_device) 5 5000 [])
      as [Hpolls _].
    destruct (Hpolls _ _ Hrun)
      as (start & evs & rounds & E & _ & Hlast & [Hready|(_ & now & Hn & He)]).
    + vm_compute in Hready. discriminate Hready.
    + exists start, evs, now. auto.
  - intros tr Hlev.
    destruct (spiflash_poll_completion_polls (P := wrapping_device) 2 5000 tr)
      as [_ Hreturns].
    destruct (Hreturns 20000 20000)
      as (flags & start & evs & rounds & Hrun & _ & Hlast);
      [| | | | | | | | |exists flags, start, evs; auto].
    + apply sim_platform_responsive.
    + apply sim_platform_never_busy.
    + apply sim_platform_clock. lia.
    + lia.
    + lia.
    + vm_compute. reflexivity.
    + exact Hlev.
    + lia.
    + vm_compute. reflexivity.
Defined.

(** A deadline that wraps: the poll starts 100 cycles before the 64-bit
    counter overflows, with 250000 cycles of timeout, on a device that
    stays busy.  The reading 180000 cycles after the start, past the
    overflow, is not past the deadline and the poll goes on; the reading
    360000 cycles after the start is, and the poll returns.  A reading at
    the wrapped deadline 249900 itself is not taken as expired, the
    reading one cycle later is. *)
Lemma poll_deadline_wraparound_witness :
  exists tr' (rounds : list (Z * Z)),
    spiflash_poll_completion (P := wrapping_device) 5 5000 []
    = Some (0, tr') /\
    cycle_reads tr' = [2 ^ 64 - 100; 179900; 359900] /\
    uint64 (2 ^ 64 - 100 + poll_timeout_cycles (P := wrapping_device) 5000)
    = 249900 /\
    map snd rounds = [179900] /\
    Forall (fun r => elapsed (2 ^ 64 - 100) (snd r) <= 250000) rounds /\
    250000 < elapsed (2 ^ 64 - 100) 359900 <= 250000 + 9 * 20000 /\
    Z.testbit (uint64 (249900 - 359900)) 63 = true /\
    poll_expired 249900 249900 = false /\
    poll_expired 249900 249901 = true.
Proof.
  pose proof (poll_deadline_wraparound (P := wrapping_device) 5 5000 [])
    as H.
  specialize (H ltac:(vm_compute; reflexivity)). cbv zeta in H.
  destruct H as (_ & _ & Hany & Hsafe & Hlive).
  assert (Hat : poll_expired 249900 249900 = false).
  { assert (Hiff : poll_expired 249900 249900 = true
                   <-> 250000 < elapsed (2 ^ 64 - 100) 249900
                       <= 250000 + 2 ^ 63)
      by exact (proj2 (Hany 249900)).
    destruct (poll_expired 249900 249900); [|reflexivity].
    destruct (proj1 Hiff eq_refl) as [Hpast _].
    vm_compute in Hpast. discriminate Hpast. }
  assert (Hafter : poll_expired 249900 249901 = true).
  { assert (Hiff : poll_expired 249900 249901 = true
                   <-> 250000 < elapsed (2 ^ 64 - 100) 249901
                       <= 250000 + 2 ^ 63)
      by exact (proj2 (Hany 249901)).
    apply Hiff. vm_compute.
    split; [reflexivity|]. intros Hgt. discriminate Hgt. }
  eassert (Hrun : spiflash_poll_completion (P := wrapping_device) 5 5000 []
                  = Some (_, _)) by (vm_compute; reflexivity).
  destruct (Hlive 20000 20000)
    as (flags & evs & rounds & Hrun2 & Hp & Hall & Hexit).
  { apply sim_platform_responsive. }
  { apply sim_platform_never_busy. }
  { apply sim_platform_clock. lia. }
  { lia. }
  { lia. }
  { reflexivity. }
  { lia. }
  { vm_compute. reflexivity. }
  rewrite Hrun in Hrun2. injection Hrun2 as Hf He. subst flags.
  subst evs.
  destruct (Hsafe _ _ Hrun) as (evs' & rounds' & E & _ & _ & Hexit').
  cbn [app] in E. injection E as E. subst evs'.
  destruct (Hexit' eq_refl) as (now & Hnow & Hbit & _).
  vm_compute in Hnow. injection Hnow as <-.
  destruct (Hexit eq_refl) as (now & Hnow & Hwin).
  vm_compute in Hnow. injection Hnow as <-.
  destruct Hp as (_ & _ & _ & _ & [[Hf _]|(_ & now & Hc & _)]);
    [vm_compute in Hf; discriminate Hf|].
  match type of Hc with
  | cycle_reads ?e = _ =>
      assert (Hcy : cycle_reads e = [179900] ++ [359900])
        by (vm_compute; reflexivity)
  end.
  rewrite Hcy in Hc. apply app_inj_tail in Hc as [Hr _].
  eexists _, rounds. split; [exact Hrun|].
  split; [reflexivity|]. split; [reflexivity|].
  split; [symmetry; exact Hr|].
  split; [exact Hall|]. split; [exact Hwin|]. split; [exact Hbit|].
  split; [exact Hat|exact Hafter].
Defined.

(** Sector erase on a device that reports READY with ERASE_ERROR: the
    code returns FAILED, while the page program sequence with only the
    command code, the payload and the timeout exchanged, which still
    examines PROGRAM_ERROR, returns 0. *)
Lemma sector_erase_examines_erase_error :
  option_map fst
    (rvlib_spiflash_sector_erase (P := erase_error_device) 5 0x7F0000 [])
  = Some RVLIB_SPIFLASH_ERR_FAILED /\
  option_map fst
    (spec_write_sequence (P := erase_error_device) 5
       SPIFLASH_CMD_SECTOR_ERASE SPIFLASH_ERASE_TIMEOUT_US
       SPIFLASH_BIT_FLAGS_PROGRAM_ERROR 0x7F0000 [] [])
  = Some 0 /\
  rvlib_spiflash_sector_erase (P := erase_error_device) 5 0x7F0000 []
  <> spec_write_sequence (P := erase_error_device) 5
       SPIFLASH_CMD_SECTOR_ERASE SPIFLASH_ERASE_TIMEOUT_US
       SPIFLASH_BIT_FLAGS_PROGRAM_ERROR 0x7F0000 [] [].
Proof.
  split; [vm_compute; reflexivity|]. split; [vm_compute; reflexivity|].
  intros E. apply (f_equal (option_map fst)) in E.
  vm_compute in E. discriminate E.
Qed.

(** A page program that fails on the device: the call ends with the
    CLEAR_FLAGS command. *)
Lemma failed_operation_clears_flags_witness :
  exists tr',
    run_write_op (P := program_error_device)
      5 (PageProgram [1; 2] 2) 0x7F0000 []
    = Some (RVLIB_SPIFLASH_ERR_FAILED, tr') /\
    exists tr5 evs s,
      spi_command_simple (P := program_error_device)
        5 SPIFLASH_CMD_CLEAR_FLAGS tr5 = Some (tt, tr') /\
      tr' = tr5 ++ evs ++ [RegRead 0 s; RegWrite 4 0] /\
      reg_writes 8 evs = [0x50].
Proof.
  eassert (Hrun : run_write_op (P := program_error_device)
                     5 (PageProgram [1; 2] 2) 0x7F0000 []
                   = Some (RVLIB_SPIFLASH_ERR_FAILED, _))
    by (vm_compute; reflexivity).
  eexists. split; [exact Hrun|].
  destruct (failed_operation_clears_flags (P := program_error_device)
              _ _ _ _ _ Hrun)
    as (pre & f1 & tr5 & evs & s & _ & _ & _ & Hc & E & DW & _).
  exists tr5, evs, s. split; [exact Hc|]. split; [exact E|exact DW].
Defined.

(** The four transaction shapes on the simulated controller. *)
Lemma transactions_end_with_deselect_witness :
  exists tr1 tr2 tr3 tr4,
    spi_command_simple (P := echo_device) 5 0x06 [] = Some (tt, tr1) /\
    spi_command_read (P := echo_device) 5 0x9f [0; 0; 0] 3 []
    = Some ([0x5A; 0x5A; 0x5A], tr2) /\
    spi_command_addr_read (P := echo_device) 5 0x03 0x7F0000 [0; 0] 2 []
    = Some ([0x5A; 0x5A], tr3) /\
    spi_command_addr_write (P := echo_device) 5 0x02 0x7F0000 [1; 2] 2 []
    = Some (tt, tr4) /\
    last tr1 = Some (RegWrite 4 0) /\ last tr2 = Some (RegWrite 4 0) /\
    last tr3 = Some (RegWrite 4 0) /\ last tr4 = Some (RegWrite 4 0).
Proof.
  eassert (R1 : spi_command_simple (P := echo_device) 5 0x06 []
                 = Some (tt, _)) by (vm_compute; reflexivity).
  eassert (R2 : spi_command_read (P := echo_device) 5 0x9f [0; 0; 0] 3 []
                 = Some ([0x5A; 0x5A; 0x5A], _))
    by (vm_compute; reflexivity).
  eassert (R3 : spi_command_addr_read (P := echo_device)
                   5 0x03 0x7F0000 [0; 0] 2 [] = Some ([0x5A; 0x5A], _))
    by (vm_compute; reflexivity).
  eassert (R4 : spi_command_addr_write (P := echo_device)
                   5 0x02 0x7F0000 [1; 2] 2 [] = Some (tt, _))
    by (vm_compute; reflexivity).
  eexists _, _, _, _.
  split; [exact R1|]. split; [exact R2|].
  split; [exact R3|]. split; [exact R4|].
  destruct (transactions_end_with_deselect (P := echo_device)
              5 0x06 0 [] [] 0) as (H1 & _).
  destruct (transactions_end_with_deselect (P := echo_device)
              5 0x9f 0 [0; 0; 0] [] 3) as (_ & H2 & _).
  destruct (transactions_end_with_deselect (P := echo_device)
              5 0x03 0x7F0000 [0; 0] [] 2) as (_ & _ & H3 & _).
  destruct (transactions_end_with_deselect (P := echo_device)
              5 0x02 0x7F0000 [] [1; 2] 2) as (_ & _ & _ & H4).
  destruct (H1 _ _ _ R1) as (? & e1 & s1 & _ & E1 & _).
  destruct (H2 _ _ _ R2) as (? & e2 & s2 & _ & E2 & _).
  destruct (H3 _ _ _ R3) as (? & e3 & s3 & _ & E3 & _).
  destruct (H4 _ _ _ R4) as (? & e4 & s4 & _ & E4 & _).
  split; [rewrite E1|split; [rewrite E2|split; [rewrite E3|rewrite E4]]];
    rewrite app_nil_l; apply last_two.
Defined.

(** Initialisation with one requested byte left in the controller: the
    drain loop dequeues it before the recovery sequence starts. *)
Lemma init_drains_then_recovers_witness :
  exists tr',
    rvlib_spiflash_init (P := ready_device) 5 [RegWrite 8 0x100]
    = Some (tt, tr') /\
    exists e0 evs polls,
      drained (P := ready_device) e0 /\
      tr' = [RegWrite 8 0x100] ++ e0 ++ evs /\
      command_bytes (P := ready_device) evs
      = [0xff; 0xff; 0x50] ++ repeat 0x70 polls.
Proof.
  eassert (Hrun : rvlib_spiflash_init (P := ready_device)
                     5 [RegWrite 8 0x100] = Some (tt, _))
    by (vm_compute; reflexivity).
  eexists. split; [exact Hrun|].
  destruct (init_drains_then_recovers (P := ready_device) _ _ _ _ Hrun)
    as (e0 & tr2 & tr3 & tr4 & flags & evs & polls & _ & Hdr & _ & _ & _ & _
        & _ & _ & _ & E & _ & Hc).
  exists e0, evs, polls. split; [exact Hdr|]. split; [exact E|exact Hc].
Defined.

(** A page program on a device that reports READY with ERASE_ERROR set
    and PROGRAM_ERROR clear: success. *)
Lemma only_own_error_flag_fails_witness :
  exists r tr',
    run_write_op (P := erase_error_device)
      5 (PageProgram [1; 2] 2) 0x7F0000 [] = Some (r, tr') /\
    last (captured (P := erase_error_device) tr') = Some 0xA0 /\
    bit_set 0xA0 SPIFLASH_BIT_FLAGS_ERASE_ERROR = true /\
    r = 0.
Proof.
  eassert (Hrun : run_write_op (P := erase_error_device)
                     5 (PageProgram [1; 2] 2) 0x7F0000 [] = Some (_, _))
    by (vm_compute; reflexivity).
  eexists _, _. split; [exact Hrun|].
  destruct (only_own_error_flag_fails (P := erase_error_device)
              5 (PageProgram [1; 2] 2) 0x7F0000 []) as (Hfinal & _).
  destruct (Hfinal _ _ Hrun) as (evs & flags & E & Hlast & _ & Hother).
  simpl in E. subst evs.
  split; [vm_compute; reflexivity|]. split; [reflexivity|].
  vm_compute in Hlast. injection Hlast as <-.
  apply Hother; reflexivity.
Defined.

(** *** The bus primitives, the queue and the reads *)

(** A controller that shows CMD_READY at the third poll: the byte is
    written after three reads of STATUS, and with two polls allowed the
    call does not return. *)
Lemma spi_send_byte_waits_for_cmdrdy_witness :
  spi_send_byte (P := late_ready_controller) 3 0x19f []
  = Some (tt, [RegRead 0 0; RegRead 0 0; RegRead 0 2; RegWrite 8 0x9f]) /\
  spi_send_byte (P := late_ready_controller) 2 0x19f [] = None /\
  exists ss s,
    [RegRead 0 0; RegRead 0 0; RegRead 0 2; RegWrite 8 0x9f]
    = [] ++ map (RegRead (ADDR_STATUS (P := late_ready_controller))) ss
         ++ [RegRead (ADDR_STATUS (P := late_ready_controller)) s;
             RegWrite (ADDR_DATA (P := late_ready_controller)) (uint8 0x19f)] /\
    length ss = 2%nat /\
    bit_set s 1 = true.
Proof.
  destruct (spi_send_byte_waits_for_cmdrdy (P := late_ready_controller)
              3 0x19f []) as [Hshape Hpolls].
  destruct (Hpolls 2%nat) as [Hreturns _].
  { repeat constructor. }
  { reflexivity. }
  specialize (Hreturns ltac:(lia)).
  destruct (spi_send_byte_waits_for_cmdrdy (P := late_ready_controller)
              2 0x19f []) as [_ Hpolls2].
  destruct (Hpolls2 2%nat) as [_ Hnone].
  { repeat constructor. }
  { reflexivity. }
  specialize (Hnone ltac:(lia)).
  split; [exact Hreturns|]. split; [exact Hnone|].
  destruct (Hshape _ _ Hreturns) as (ss & s & E & Hclear & Hs & _).
  exists ss, s. split; [exact E|].
  split; [|exact Hs].
  apply (f_equal (@length event)) in E.
  rewrite !length_app in E. simpl in E. rewrite length_map in E. lia.
Defined.

(** A sector erase on the simulated controller, entered with the queue
    empty, leaves it empty. *)
Lemma operations_keep_queue_empty_witness :
  exists r tr',
    run_write_op (P := ready_device) 5 SectorErase 0x7F0000 []
    = Some (r, tr') /\
    fifo_level (P := ready_device) tr' = 0.
Proof.
  eassert (Hrun : run_write_op (P := ready_device) 5 SectorErase 0x7F0000 []
                  = Some (_, _)) by (vm_compute; reflexivity).
  eexists _, _. split; [exact Hrun|].
  destruct (operations_keep_queue_empty (P := ready_device)
              5 0x7F0000 [] 0 SectorErase
              (responsive_causal (P := ready_device)
                 (sim_platform_responsive (always 0x80) 0 1)))
    as (_ & _ & _ & Hop).
  exact (Hop [] _ _ eq_refl Hrun).
Defined.

(** Two bytes were requested and never dequeued: the drain loop reads
    DATA twice and leaves the queue empty. *)
Lemma init_drain_empties_queue_witness :
  exists tr',
    init_drain (P := echo_device) 5 [RegWrite 8 0x100; RegWrite 8 0x100]
    = Some (tt, tr') /\
    exists evs,
      tr' = [RegWrite 8 0x100; RegWrite 8 0x100] ++ evs /\
      fifo_level (P := echo_device) tr' = 0 /\
      length (reg_reads (ADDR_DATA (P := echo_device)) evs) = 2%nat.
Proof.
  eassert (Hrun : init_drain (P := echo_device) 5
                    [RegWrite 8 0x100; RegWrite 8 0x100] = Some (tt, _))
    by (vm_compute; reflexivity).
  eexists. split; [exact Hrun|].
  destruct (init_drain_empties_queue (P := echo_device) 5
              [RegWrite 8 0x100; RegWrite 8 0x100] tt _
              (sim_platform_responsive (always 0x5A) 0 1)
              ltac:(by_computation) Hrun)
    as (evs & E & Hz & Hn & _).
  exists evs. split; [exact E|]. split; [exact Hz|].
  apply Nat2Z.inj. rewrite Hn. reflexivity.
Defined.

(** READ ID on a device that answers 0x20, 0xBA, 0x17: manufacturer
    0x20, device 0xBA17. *)
Lemma read_id_decodes_three_bytes_witness :
  exists devid tr',
    rvlib_spiflash_read_id (P := id_device) 8 [] = Some (devid, tr') /\
    manufacturer_id devid = 0x20 /\ device_id devid = 0xBA17 /\
    exists evs b0 b1 b2,
      tr' = [] ++ evs /\
      captured (P := id_device) evs = [b0; b1; b2] /\
      device_id devid = 256 * b1 + b2.
Proof.
  eassert (Hrun : rvlib_spiflash_read_id (P := id_device) 8 []
                  = Some (_, _)) by (vm_compute; reflexivity).
  eexists _, _. split; [exact Hrun|].
  split; [reflexivity|]. split; [reflexivity|].
  destruct (read_id_decodes_three_bytes (P := id_device) _ _ _ _ Hrun)
    as (evs & b0 & b1 & b2 & E & _ & Hcap & _ & _ & Hdev & _).
  exists evs, b0, b1, b2. split; [exact E|]. split; [exact Hcap|exact Hdev].
Defined.

(** Three bytes read at 0x123456 into a four-byte buffer: the address
    goes out as 0x12, 0x34, 0x56 and the fourth byte of the buffer
    stays. *)
Lemma read_mem_fills_buffer_prefix_witness :
  exists buf' tr',
    rvlib_spiflash_read_mem (P := echo_device) 8 0x123456 [0; 0; 0; 7] 3 []
    = Some (buf', tr') /\
    buf' = [0x5A; 0x5A; 0x5A; 7] /\
    exists evs,
      tr' = [] ++ evs /\
      command_bytes (P := echo_device) evs
      = [SPIFLASH_CMD_READ; uint8 (Z.shiftr 0x123456 16);
         uint8 (Z.shiftr 0x123456 8); uint8 0x123456] /\
      length (captured (P := echo_device) evs) = 3%nat.
Proof.
  eassert (Hrun : rvlib_spiflash_read_mem (P := echo_device) 8 0x123456
                    [0; 0; 0; 7] 3 [] = Some (_, _))
    by (vm_compute; reflexivity).
  eexists _, _. split; [exact Hrun|]. split; [reflexivity|].
  destruct (read_mem_fills_buffer_prefix (P := echo_device) _ _ _ _ _ _ _ Hrun)
    as (evs & E & Hcmd & Hlen & _).
  exists evs. split; [exact E|]. split; [exact Hcmd|exact Hlen].
Defined.

(** *** The text helpers of the boot monitor *)

(** Two spaces, 0123, then other text: 123, and six characters
    consumed. *)
Lemma parse_uint_decimal_exact_witness :
  parse_uint (repeat (chr " ") 2 ++ cstr "0123" ++ cstr " x") 7
  = (Z.of_nat (2 + length (cstr "0123")), dec_value (cstr "0123")) /\
  dec_value (cstr "0123") = 123.
Proof.
  split; [|reflexivity].
  apply (parse_uint_decimal_exact 2 (cstr "0123") (cstr " x") 7).
  - discriminate.
  - all_chars.
  - ends_here.
  - reflexivity.
  - by_computation.
Defined.

(** 4294967297 is read as 1. *)
Lemma parse_uint_decimal_wraps_witness :
  parse_uint (repeat (chr " ") 0 ++ cstr "4294967297" ++ []) 7
  = (Z.of_nat (0 + length (cstr "4294967297")),
     dec_value (cstr "4294967297") - 2 ^ 32) /\
  dec_value (cstr "4294967297") - 2 ^ 32 = 1.
Proof.
  split; [|reflexivity].
  apply (parse_uint_decimal_wraps 0 (cstr "4294967297") [] 7).
  - discriminate.
  - all_chars.
  - ends_here.
  - reflexivity.
  - by_computation.
Defined.

(** 4294967300 is refused. *)
Lemma parse_uint_decimal_rejects_witness :
  parse_uint (repeat (chr " ") 1 ++ cstr "4294967300" ++ cstr " 16") 7
  = (-1, 7).
Proof.
  apply (parse_uint_decimal_rejects 1 (cstr "4294967300") (cstr " 16") 7).
  - discriminate.
  - all_chars.
  - reflexivity.
  - by_computation.
Defined.

(** 0X7f0000 is read as 8323072; 0x alone is refused. *)
Lemma parse_uint_hexadecimal_witness :
  parse_uint (repeat (chr " ") 1 ++ chr "0" :: chr "X" :: cstr "7f0000"
                ++ cstr " 16") 7
  = (9, 8323072) /\
  parse_uint (repeat (chr " ") 0 ++ chr "0" :: chr "x" :: [] ++ []) 7
  = (-1, 7).
Proof.
  split.
  - apply (parse_uint_hexadecimal 1 (chr "X") (cstr "7f0000") (cstr " 16") 7).
    + right. reflexivity.
    + all_chars.
    + ends_here.
  - apply (parse_uint_hexadecimal 0 (chr "x") [] [] 7).
    + left. reflexivity.
    + all_chars.
    + ends_here.
Defined.

(** A sign is not a digit: -5 is refused. *)
Lemma parse_uint_needs_a_digit_witness :
  parse_uint (repeat (chr " ") 3 ++ cstr "-5") 7 = (-1, 7).
Proof.
  apply (parse_uint_needs_a_digit 3 (cstr "-5") 7). ends_here.
Defined.

(** print_uint(-1) prints 4294967295. *)
Lemma print_uint_prints_decimal_witness :
  exists buf' out,
    print_uint (-1) (repeat 0x55 40) = Some (buf', out) /\
    out = cstr "4294967295" /\
    dec_value out = uint32 (-1).
Proof.
  destruct (print_uint_prints_decimal (-1) (repeat 0x55 40) eq_refl)
    as (buf' & out & Hrun & _ & _ & Hval & _).
  exists buf', out. split; [exact Hrun|]. split; [|exact Hval].
  vm_compute in Hrun. injection Hrun as _ <-. reflexivity.
Defined.

(** print_uint64 of 2^64 - 1 prints twenty digits. *)
Lemma print_uint64_prints_decimal_witness :
  exists buf' out,
    print_uint64 (2 ^ 64 - 1) (repeat 0x55 40) = Some (buf', out) /\
    out = cstr "18446744073709551615" /\
    dec_value out = uint64 (2 ^ 64 - 1).
Proof.
  destruct (print_uint64_prints_decimal (2 ^ 64 - 1) (repeat 0x55 40) eq_refl)
    as (buf' & out & Hrun & _ & _ & Hval & _).
  exists buf', out. split; [exact Hrun|]. split; [|exact Hval].
  vm_compute in Hrun. injection Hrun as _ <-. reflexivity.
Defined.

(** The error code 3 printed and read back. *)
Lemma parse_uint_reads_print_uint_witness :
  exists buf' out,
    print_uint 3 (repeat 0 40) = Some (buf', out) /\
    parse_uint (out ++ cstr " ok") 7 = (Z.of_nat (length out), uint32 3).
Proof.
  apply (parse_uint_reads_print_uint 3 (repeat 0 40) (cstr " ok") 7).
  - reflexivity.
  - ends_here.
  - reflexivity.
Defined.

(** A sector address printed with six digits, and a value that needs
    more digits than asked for. *)
Lemma print_uint_hex_prints_all_digits_witness :
  (exists out,
     print_uint_hex 0x7F0000 6 = Some out /\
     out = cstr "7f0000" /\ hex_value out = uint32 0x7F0000) /\
  (exists out,
     print_uint_hex 0x12345 2 = Some out /\
     out = cstr "12345" /\ hex_value out = uint32 0x12345).
Proof.
  split.
  - destruct (print_uint_hex_prints_all_digits 0x7F0000 6 ltac:(lia))
      as (out & Hrun & _ & Hval & _).
    exists out. split; [exact Hrun|]. split; [|exact Hval].
    vm_compute in Hrun. injection Hrun as <-. reflexivity.
  - destruct (print_uint_hex_prints_all_digits 0x12345 2 ltac:(lia))
      as (out & Hrun & _ & Hval & _).
    exists out. split; [exact Hrun|]. split; [|exact Hval].
    vm_compute in Hrun. injection Hrun as <-. reflexivity.
Defined.

(** The device id as the monitor prints it, read back. *)
Lemma parse_uint_reads_print_uint_hex_witness :
  exists out,
    print_uint_hex 0xBA17 4 = Some out /\
    parse_uint (cstr "0x" ++ out ++ cstr ")") 7
    = (Z.of_nat (2 + length out), uint32 0xBA17).
Proof.
  apply (parse_uint_reads_print_uint_hex 0xBA17 4 (cstr ")") 7).
  - lia.
  - ends_here.
Defined.

(** A command with spaces to spare and capitals, in an 18-byte buffer. *)
Lemma simplify_command_in_place_witness :
  exists t gap,
    simplify_command (cstr "  SPIflash   ReadID " ++ 0 :: [7; 7])
    = Some (t ++ 0 :: gap ++ [7; 7]) /\
    Forall text_char t /\
    (length t + length gap = length (cstr "  SPIflash   ReadID "))%nat.
Proof.
  apply (simplify_command_in_place (cstr "  SPIflash   ReadID ") [7; 7]).
  all_chars.
Defined.

Lemma simplify_command_normalises_witness :
  exists t rest,
    simplify_command (cstr " Read  0x10   4" ++ 0 :: []) = Some (t ++ 0 :: rest) /\
    simplified t /\
    words t = [cstr "read"; cstr "0x10"; cstr "4"].
Proof.
  destruct (simplify_command_normalises (cstr " Read  0x10   4") []
              ltac:(all_chars))
    as (t & rest & Hrun & _ & Hsimp & Hwords).
  exists t, rest. split; [exact Hrun|]. split; [exact Hsimp|].
  rewrite Hwords. reflexivity.
Defined.

Lemma simplify_command_keeps_simplified_witness :
  simplify_command (cstr "spiflash read 0 16" ++ 0 :: [1; 2])
  = Some (cstr "spiflash read 0 16" ++ 0 :: [1; 2]).
Proof.
  apply (simplify_command_keeps_simplified (cstr "spiflash read 0 16") [1; 2]).
  - all_chars.
  - split; [intros H; vm_compute in H; discriminate H|reflexivity].
Defined.

Lemma simplify_command_idempotent_witness :
  exists buf,
    simplify_command (cstr "  HELP  " ++ 0 :: []) = Some buf /\
    simplify_command buf = Some buf.
Proof.
  apply (simplify_command_idempotent (cstr "  HELP  ") []). all_chars.
Defined.

(** *** The line editor and the flash commands of the monitor *)

Ltac no_newline :=
  repeat first
    [ apply Forall_nil_2
    | apply Forall_cons_2; [split; by_computation|] ].

(** Twelve characters typed into an eight-byte buffer that lies before
    two other bytes: seven are kept, and the two bytes stay. *)
Lemma read_command_stays_in_buffer_witness :
  exists buf' echo line,
    read_command (cstr "spiflash read" ++ 13 :: cstr "next")
      (repeat 0x55 8 ++ [1; 2]) 8 true
    = Some (buf', echo, cstr "next") /\
    take (length line) buf' = line /\
    buf' !! length line = Some 0 /\
    (length line < 8)%nat /\
    length buf' = length (repeat 0x55 8 ++ [1; 2]) /\
    drop 8 buf' = drop 8 (repeat 0x55 8 ++ [1; 2]).
Proof.
  apply (read_command_stays_in_buffer (cstr "spiflash read") 13
           (cstr "next") (repeat 0x55 8 ++ [1; 2]) 8 true).
  - simpl. lia.
  - no_newline.
  - left. reflexivity.
Defined.

(** h, e, l, p, x, backspace, tab, a poll without a byte, ?, LF. *)
Lemma read_command_edits_line_witness :
  typed_line 16 (cstr "helpx" ++ [8; 9; -1] ++ cstr "?") = cstr "help ?" /\
  exists buf' echo,
    read_command ((cstr "helpx" ++ [8; 9; -1] ++ cstr "?") ++ 10 :: [])
      (repeat 0 16) 16 false
    = Some (buf', echo, []) /\
    take (length (typed_line 16 (cstr "helpx" ++ [8; 9; -1] ++ cstr "?"))) buf'
    = typed_line 16 (cstr "helpx" ++ [8; 9; -1] ++ cstr "?") /\
    buf' !! length (typed_line 16 (cstr "helpx" ++ [8; 9; -1] ++ cstr "?"))
    = Some 0 /\
    (false = false -> echo = []).
Proof.
  split; [reflexivity|].
  apply (read_command_edits_line (cstr "helpx" ++ [8; 9; -1] ++ cstr "?") 10
           [] (repeat 0 16) 16 false).
  - simpl. lia.
  - no_newline.
  - right. reflexivity.
Defined.

Lemma read_command_zero_maxlen_witness :
  exists echo,
    read_command (cstr "ab" ++ 13 :: []) [7; 7] 0 false
    = Some (<[0%nat := 0]> [7; 7], echo, []).
Proof.
  apply (read_command_zero_maxlen (cstr "ab") 13 [] [7; 7] false).
  - simpl. lia.
  - no_newline.
  - left. reflexivity.
Defined.

(** The id report for a device that answers 0x20, 0xBA, 0x17. *)
Lemma spiflash_readid_reports_the_id_witness :
  exists out tr',
    spiflash_readid (P := ready_id_device) 8 [] = Some (out, tr') /\
    out = cstr "SPI flash identification:" ++ print_endln
          ++ cstr "  manufacturer ID = 0x20" ++ print_endln
          ++ cstr "  device ID       = 0xba17" ++ print_endln /\
    exists tr1 evs b0 b1 b2 m d,
      rvlib_spiflash_init (P := ready_id_device) 8 [] = Some (tt, tr1) /\
      tr' = tr1 ++ evs /\
      captured (P := ready_id_device) evs = [b0; b1; b2] /\
      hex_value m = b0 /\ hex_value d = 256 * b1 + b2.
Proof.
  eassert (Hrun : spiflash_readid (P := ready_id_device) 8 [] = Some (_, _))
    by (vm_compute; reflexivity).
  eexists _, _. split; [exact Hrun|]. split; [reflexivity|].
  destruct (spiflash_readid_reports_the_id (P := ready_id_device) _ _ _ _ Hrun)
    as (tr1 & evs & b0 & b1 & b2 & m & d & Hinit & E & _ & Hcap & _ & _
        & Hm & _ & Hd).
  exists tr1, evs, b0, b1, b2, m, d.
  split; [exact Hinit|]. split; [exact E|]. split; [exact Hcap|].
  split; [exact Hm|exact Hd].
Defined.

(** Twenty bytes from 0x00FFFFF8: two rounds, at 0x00FFFFF8 and
    0x01000008. *)
Lemma spiflash_read_reads_in_rounds_witness :
  exists r out tr',
    spiflash_read (P := ready_device) 40 0x00FFFFF8 20 [] = Some ((r, out), tr') /\
    r = 0 /\
    exists tr1 evs,
      tr' = tr1 ++ evs /\
      length (captured (P := ready_device) evs) = 20%nat /\
      command_bytes (P := ready_device) evs
      = read_header 0x00FFFFF8 ++ read_header 0x01000008.
Proof.
  eassert (Hrun : spiflash_read (P := ready_device) 40 0x00FFFFF8 20 []
                  = Some ((_, _), _)) by (vm_compute; reflexivity).
  eexists _, _, _. split; [exact Hrun|].
  destruct (spiflash_read_reads_in_rounds (P := ready_device) _ _ _ _ _ _ _ Hrun)
    as (Hr & tr1 & evs & _ & E & Hcap & Hcmd & _).
  split; [exact Hr|]. exists tr1, evs.
  split; [exact E|]. split; [exact Hcap|]. rewrite Hcmd. reflexivity.
Defined.

(** Three bytes on the simulated controller, with six polls allowed. *)
Lemma read_mem_returns_witness :
  exists buf' tr',
    rvlib_spiflash_read_mem (P := echo_device) 6 0x123456 [0; 0; 0; 7] 3 []
    = Some (buf', tr').
Proof.
  apply (read_mem_returns (P := echo_device) 6 0x123456 [0; 0; 0; 7] 3 []
           (sim_platform_responsive (always 0x5A) 0 1)
           (sim_platform_never_busy (always 0x5A) 0 1)).
  - reflexivity.
  - simpl. lia.
  - lia.
  - lia.
Defined.

(** The second test page, programmed on a device that is ready while the
    cycle counter stands at 0x0102030405060708, and read back from a
    device that holds it; and the whole test returns on the first of the
    two. *)
Lemma writetest_page_round_trip_witness :
  (exists buf' scratch' tr',
     program_test_page (P := timestamp_device) 5 0x7F0000 1
       (repeat 0xff 32) (repeat 0 40) []
     = Some ((0x0102030405060708, buf', scratch',
              cstr "  Programming page at 0x7f0100 ... OK" ++ [13; 10]),
             tr') /\
     take 24 buf' = cstr "Another testpage" ++ [8; 7; 6; 5; 4; 3; 2; 1] /\
     rvlib_spiflash_page_program (P := timestamp_device) 5 0x7F0100 buf' 24
       [CycleRead 0x0102030405060708] = Some (0, tr') /\
     command_bytes (P := timestamp_device) tr'
     = [0x70; 0x50; 0x06; 0x02; 0x7f; 0x01; 0x00]
       ++ cstr "Another testpage" ++ [8; 7; 6; 5; 4; 3; 2; 1] ++ [0x70]) /\
  (exists buf' tr',
     read_back_test_page (P := test_page_device) 64 0x7F0000 1
       0x0102030405060708 (repeat 0 32) []
     = Some ((buf',
              cstr "  Reading back page at 0x7f0100 ... OK" ++ [13; 10]),
             tr') /\
     buf' = cstr "Another testpage" ++ [8; 7; 6; 5; 4; 3; 2; 1]
            ++ repeat 0xff 8) /\
  (exists buf' tr',
     read_back_test_page (P := ready_device) 64 0x7F0000 1
       0x0102030405060708 (repeat 0 32) []
     = Some ((buf',
              cstr "  Reading back page at 0x7f0100 ... FAILED!" ++ [13; 10]),
             tr') /\
     buf' <> cstr "Another testpage" ++ [8; 7; 6; 5; 4; 3; 2; 1]
             ++ repeat 0xff 8) /\
  (exists r tr',
     spiflash_writetest (P := timestamp_device) 64 (repeat 0 40) []
     = Some (r, tr')).
Proof.
  split; [|split; [|split]].
  - eassert (Hrun : program_test_page (P := timestamp_device) 5 0x7F0000 1
                      (repeat 0xff 32) (repeat 0 40) []
                    = Some ((_, _, _, _), _)) by (vm_compute; reflexivity).
    destruct (writetest_page_round_trip (P := timestamp_device) 5)
      as (Hprogram & _).
    destruct (Hprogram _ _ _ _ _ _ _ _ _ _ Hrun)
      as (_ & _ & Htake & status & hex & report & Hpp & _).
    eexists _, _, _. split; [exact Hrun|]. split; [exact Htake|].
    split; vm_compute; reflexivity.
  - eassert (Hrun : read_back_test_page (P := test_page_device) 64 0x7F0000 1
                      0x0102030405060708 (repeat 0 32) []
                    = Some ((_, _), _)) by (vm_compute; reflexivity).
    destruct (writetest_page_round_trip (P := test_page_device) 64)
      as (_ & Hback & _).
    destruct (Hback 0x7F0000 1%nat 0x0102030405060708 (repeat 0 32) [] _ _ _
                ltac:(lia) eq_refl Hrun)
      as (_ & hex & good & _ & Hgood & _).
    eexists _, _. split; [exact Hrun|]. reflexivity.
  - eassert (Hrun : read_back_test_page (P := ready_device) 64 0x7F0000 1
                      0x0102030405060708 (repeat 0 32) []
                    = Some ((_, _), _)) by (vm_compute; reflexivity).
    destruct (writetest_page_round_trip (P := ready_device) 64)
      as (_ & Hback & _).
    destruct (Hback 0x7F0000 1%nat 0x0102030405060708 (repeat 0 32) [] _ _ _
                ltac:(lia) eq_refl Hrun)
      as (_ & hex & good & Hhex & Hgood & Hout).
    eexists _, _. split; [exact Hrun|].
    intros Heq. apply Hgood in Heq. subst good.
    vm_compute in Hhex. injection Hhex as <-.
    vm_compute in Hout. discriminate Hout.
  - destruct (writetest_page_round_trip (P := timestamp_device) 64)
      as (_ & _ & _ & Hreturns).
    apply (Hreturns 1000000 1000000).
    + apply sim_platform_responsive.
    + apply sim_platform_never_busy.
    + apply sim_platform_clock. lia.
    + lia.
    + lia.
    + vm_compute. reflexivity.
    + vm_compute. reflexivity.
    + vm_compute. reflexivity.
    + vm_compute. reflexivity.
    + lia.
    + reflexivity.
    + reflexivity.
Defined.

(** The command read16  4: no space is needed after the word. *)
Lemma spiflash_subcommand_read_runs_spiflash_read_witness :
  spiflash_subcommand (P := ready_device) 40
    (repeat (chr " ") 1 ++ cstr "read" ++ repeat (chr " ") 0 ++ cstr "16"
       ++ repeat (chr " ") (S 1) ++ cstr "4" ++ cstr " x") (repeat 0 40)
  = (r <- spiflash_read (P := ready_device) 40
            (dec_value (cstr "16")) (dec_value (cstr "4")) ;;
     ret (fst r, repeat 0 40, snd r)).
Proof.
  apply (spiflash_subcommand_read_runs_spiflash_read (P := ready_device)
           40 1 0 1 (cstr "16") (cstr "4") (cstr " x") (repeat 0 40)).
  - discriminate.
  - all_chars.
  - discriminate.
  - all_chars.
  - by_computation.
  - by_computation.
  - ends_here.
  - reflexivity.
Defined.

(** read now, and read 16 with no length: refused, nothing done. *)
Lemma spiflash_subcommand_read_needs_two_numbers_witness :
  spiflash_subcommand (P := ready_device) 40
    (repeat (chr " ") 1 ++ cstr "read" ++ repeat (chr " ") 1 ++ cstr "now")
    (repeat 0 40) []
  = Some ((-1, repeat 0 40, []), []) /\
  spiflash_subcommand (P := ready_device) 40
    (repeat (chr " ") 1 ++ cstr "read" ++ repeat (chr " ") 1 ++ cstr "16"
       ++ repeat (chr " ") 0 ++ [])
    (repeat 0 40) []
  = Some ((-1, repeat 0 40, []), []).
Proof.
  destruct (spiflash_subcommand_read_needs_two_numbers (P := ready_device)
              40 1 1 (repeat 0 40) []) as [Hnone Hone].
  split.
  - apply (Hnone (cstr "now")); [ends_here|discriminate].
  - apply (Hone (cstr "16") 0%nat []);
      [discriminate|all_chars|by_computation|ends_here|reflexivity].
Defined.
